(** * gamification-level: the level, progress and rank calculator of [src/index.ts]

    A shallow embedding of the calculation engine and of its helper
    utilities, and the proofs of their specified properties.

    Numbers.  A JavaScript [number] is modelled as an extended real: a finite
    value carried by a real number of the Standard Library, the two
    infinities, or NaN; the two zeros are identified.  The program is read
    twice.

    - The definitions at top level compute on finite values exactly.  They
      carry the properties that rest on comparisons alone: the order of the
      requirements, the order of the levels, the rank tables, the
      milestones.  There levels and option values are plain reals.

    - The definitions of [Module Binary64] round every arithmetic result to
      the nearest binary64 number, ties to even, and overflow to the
      infinities, as the language does; levels, XP and option values are
      numbers, so that [Infinity] and NaN can be given and returned.  The
      loop of [calculateLevel], which need not end there, runs on fuel.
      They carry the properties that rounding and overflow decide: the
      values of the requirements, what the search returns and whether it
      returns, the progress and the XP to the next level. *)

From Stdlib Require Import Reals Lra Lia ZArith List String Permutation.
From Equations Require Import Equations.
Import ListNotations.

Local Open Scope R_scope.

(** ** Numbers *)

Inductive number : Type :=
| Fin (r : R)
| PosInf
| NegInf
| NaN.

Coercion Fin : R >-> number.

Definition Rltb (x y : R) : bool := if Rlt_dec x y then true else false.
Definition Rleb (x y : R) : bool := if Rle_dec x y then true else false.
Definition Reqb (x y : R) : bool := if Req_dec_T x y then true else false.

(** [Math.floor] on a finite value. *)
Definition Rfloor (r : R) : R := IZR (Zfloor r).

(** The finite value [r] is an integer. *)
Definition is_integer (r : R) : bool := Reqb (Rfloor r) r.

(** [Math.ceil] and [Math.trunc] on a finite value. *)
Definition Rceil (r : R) : R := IZR (Zceil r).
Definition Rtrunc (r : R) : R := if Rltb r 0 then Rceil r else Rfloor r.

(** The operators of the language on numbers: a comparison with NaN is
    false, and the arithmetic follows IEEE 754 on the non-finite values. *)
Module Number.

Definition lt (a b : number) : bool :=
  match a, b with
  | Fin x, Fin y => Rltb x y
  | Fin _, PosInf | NegInf, Fin _ | NegInf, PosInf => true
  | _, _ => false
  end.

Definition le (a b : number) : bool :=
  match a, b with
  | Fin x, Fin y => Rleb x y
  | Fin _, PosInf | NegInf, Fin _ | NegInf, PosInf => true
  | PosInf, PosInf | NegInf, NegInf => true
  | _, _ => false
  end.

Definition gt (a b : number) : bool := lt b a.
Definition ge (a b : number) : bool := le b a.

Definition sub (a b : number) : number :=
  match a, b with
  | Fin x, Fin y => Fin (x - y)
  | NaN, _ | _, NaN => NaN
  | PosInf, PosInf | NegInf, NegInf => NaN
  | PosInf, _ | _, NegInf => PosInf
  | NegInf, _ | _, PosInf => NegInf
  end.

(** An infinity times a finite value: the sign of the product, NaN at 0. *)
Definition scale_inf (positive : bool) (y : R) : number :=
  if Rltb 0 y then (if positive then PosInf else NegInf)
  else if Rltb y 0 then (if positive then NegInf else PosInf)
  else NaN.

Definition mul (a b : number) : number :=
  match a, b with
  | Fin x, Fin y => Fin (x * y)
  | NaN, _ | _, NaN => NaN
  | PosInf, Fin y | Fin y, PosInf => scale_inf true y
  | NegInf, Fin y | Fin y, NegInf => scale_inf false y
  | PosInf, PosInf | NegInf, NegInf => PosInf
  | PosInf, NegInf | NegInf, PosInf => NegInf
  end.

Definition div (a b : number) : number :=
  match a, b with
  | Fin x, Fin y =>
      if Reqb y 0 then
        (if Rltb 0 x then PosInf else if Rltb x 0 then NegInf else NaN)
      else Fin (x / y)
  | NaN, _ | _, NaN => NaN
  | Fin _, _ => Fin 0
  | PosInf, Fin y => if Rltb y 0 then NegInf else PosInf
  | NegInf, Fin y => if Rltb y 0 then PosInf else NegInf
  | _, _ => NaN
  end.

(** The operand selection of [a || b]: 0 and NaN are falsy. *)
Definition or (a : option R) (b : R) : R :=
  match a with
  | Some x => if Reqb x 0 then b else x
  | None => b
  end.

(** [a % b] on finite operands: the remainder of the division truncated
    towards zero, NaN for a zero divisor. *)
Definition rem (a b : R) : number :=
  if Reqb b 0 then NaN else Fin (a - b * Rtrunc (a / b)).

(** [a === b] on numbers. *)
Definition strict_equal (a b : number) : bool :=
  match a, b with
  | Fin x, Fin y => Reqb x y
  | PosInf, PosInf | NegInf, NegInf => true
  | _, _ => false
  end.

End Number.

Module Math.

Definition floor (a : number) : number :=
  match a with
  | Fin r => Fin (Rfloor r)
  | _ => a
  end.

Definition max (a b : number) : number :=
  match a, b with
  | NaN, _ | _, NaN => NaN
  | _, _ => if Number.lt a b then b else a
  end.

Definition min (a b : number) : number :=
  match a, b with
  | NaN, _ | _, NaN => NaN
  | _, _ => if Number.lt b a then b else a
  end.

Definition ceil (a : number) : number :=
  match a with
  | Fin r => Fin (Rceil r)
  | _ => a
  end.

(** [Math.pow] on finite arguments. *)
Definition pow (base exponent : R) : number :=
  if Reqb exponent 0 then Fin 1
  else if Rltb 0 base then Fin (Rpower base exponent)
  else if Reqb base 0 then (if Rltb 0 exponent then Fin 0 else PosInf)
  else if is_integer exponent then
    Fin ((if Z.odd (Zfloor exponent) then -1 else 1) * Rpower (- base) exponent)
  else NaN.

End Math.

(** ** Options *)

Record LevelCalculationOptions : Type := mkOptions {
  baseXP : option R;
  exponent : option R;
  maxLevel : option R
}.

Module Required.
Record t : Type := mk {
  baseXP : R;
  exponent : R;
  maxLevel : R
}.
End Required.

Definition DEFAULT_OPTIONS : Required.t :=
  {| Required.baseXP := 100; Required.exponent := 1.5; Required.maxLevel := 100 |}.

Definition no_options : LevelCalculationOptions :=
  {| baseXP := None; exponent := None; maxLevel := None |}.

(** A property of [options] overrides the default when it is present. *)
Definition override (given : option R) (default : R) : R :=
  match given with
  | Some v => v
  | None => default
  end.

(** [{ ...defaults, ...options }] *)
Definition spread (defaults : Required.t) (options : LevelCalculationOptions)
  : Required.t :=
  {| Required.baseXP := override (baseXP options) (Required.baseXP defaults);
     Required.exponent := override (exponent options) (Required.exponent defaults);
     Required.maxLevel := override (maxLevel options) (Required.maxLevel defaults) |}.

(** ** The curve *)

Definition getRequiredXP (level : R) (options : LevelCalculationOptions) : number :=
  let opts := spread DEFAULT_OPTIONS options in
  if Rltb level 1 then Fin 0
  else
    let level := if Rltb (Required.maxLevel opts) level
                 then Required.maxLevel opts else level in
    Math.floor (Number.mul (Fin (Required.baseXP opts))
                           (Math.pow level (Required.exponent opts))).

(** The midpoint [Math.floor((low + high) / 2)] of the search interval. *)
Definition midpoint (low high : R) : R := Rfloor ((low + high) / 2).

Definition search_measure (low high : R) : nat :=
  Z.to_nat (Zfloor high - Zfloor low + 1).

(** The [while (low <= high)] loop of [calculateLevel], on the loop variables
    [low], [high] and [currentLevel]. *)
Equations? calculateLevel_loop (totalXP : number) (options : LevelCalculationOptions)
  (low high currentLevel : R) : R by wf (search_measure low high) lt :=
  calculateLevel_loop totalXP options low high currentLevel with Rle_dec low high := {
    | left Hle with Number.le (getRequiredXP (midpoint low high) options) totalXP := {
        | true =>
            calculateLevel_loop totalXP options
              (midpoint low high + 1) high (midpoint low high)
        | false =>
            calculateLevel_loop totalXP options
              low (midpoint low high - 1) currentLevel }
    | right _ => currentLevel }.
Proof.
  all: unfold search_measure, midpoint, Rfloor.
  all: assert (Zfloor low <= Zfloor ((low + high) / 2))%Z by (apply Zfloor_le; lra).
  all: assert (Zfloor ((low + high) / 2) <= Zfloor high)%Z by (apply Zfloor_le; lra).
  - rewrite (Zfloor_addz 1), ZfloorZ. lia.
  - replace (IZR (Zfloor ((low + high) / 2)) - 1)
      with (IZR (Zfloor ((low + high) / 2)) + IZR (-1)) by (simpl; lra).
    rewrite Zfloor_addz, ZfloorZ. lia.
Qed.

Definition calculateLevel (totalXP : number) (options : LevelCalculationOptions) : R :=
  let opts := spread DEFAULT_OPTIONS options in
  if Number.lt totalXP (Fin 0) then 1
  else calculateLevel_loop totalXP options 1 (Required.maxLevel opts) 1.

Definition getXPProgress (currentXP : number) (options : LevelCalculationOptions)
  : number :=
  let currentLevel := calculateLevel currentXP options in
  let currentLevelXP := getRequiredXP currentLevel options in
  let nextLevelXP := getRequiredXP (currentLevel + 1) options in
  if Number.ge (Fin currentLevel)
       (Fin (Number.or (maxLevel options) (Required.maxLevel DEFAULT_OPTIONS)))
  then Fin 100
  else
    let xpInCurrentLevel := Number.sub currentXP currentLevelXP in
    let xpNeededForNext := Number.sub nextLevelXP currentLevelXP in
    Math.min (Fin 100)
      (Math.max (Fin 0)
         (Number.mul (Number.div xpInCurrentLevel xpNeededForNext) (Fin 100))).

Definition getXPToNextLevel (currentXP : number) (options : LevelCalculationOptions)
  : number :=
  let currentLevel := calculateLevel currentXP options in
  let nextLevelXP := getRequiredXP (currentLevel + 1) options in
  Math.max (Fin 0) (Number.sub nextLevelXP currentXP).

(** ** Ranks *)

Module RankDefinition.
Record t : Type := mk {
  rank : string;
  minLevel : R;
  maxLevel : R;
  title : string
}.
End RankDefinition.

Definition DEFAULT_RANKS : list RankDefinition.t :=
  [ RankDefinition.mk "trainee" 1 10 "Trainee";
    RankDefinition.mk "junior" 11 25 "Junior";
    RankDefinition.mk "intermediate" 26 50 "Intermediate";
    RankDefinition.mk "senior" 51 75 "Senior";
    RankDefinition.mk "expert" 76 90 "Expert";
    RankDefinition.mk "master" 91 100 "Master" ].

(** The predicate of [ranks.find]: the level lies in the range of [r]. *)
Definition in_range (level : R) (r : RankDefinition.t) : bool :=
  Rleb (RankDefinition.minLevel r) level && Rleb level (RankDefinition.maxLevel r).

(** [customRanks] is [None] when the argument is omitted; an array, even an
    empty one, is truthy, so [customRanks || DEFAULT_RANKS] keeps it. *)
Definition getRank (level : R) (customRanks : option (list RankDefinition.t))
  : option RankDefinition.t :=
  let ranks := match customRanks with Some t => t | None => DEFAULT_RANKS end in
  List.find (in_range level) ranks.

(** [rank?.title || ''] *)
Definition getRankTitle (level : R) (customRanks : option (list RankDefinition.t))
  : string :=
  match getRank level customRanks with
  | Some rank => RankDefinition.title rank
  | None => EmptyString
  end.

(** ** Aggregator *)

Module LevelInfo.
Record t : Type := mk {
  level : R;
  currentXP : number;
  requiredXP : number;
  nextLevelXP : number;
  progress : number;
  xpToNextLevel : number;
  rank : option string;
  rankTitle : option string
}.
End LevelInfo.

(** [s || null] on a string: the empty string is falsy. *)
Definition string_or_null (s : string) : option string :=
  match s with
  | EmptyString => None
  | _ => Some s
  end.

Definition getLevelInfo (currentXP : number) (options : LevelCalculationOptions)
  (customRanks : option (list RankDefinition.t)) : LevelInfo.t :=
  let level := calculateLevel currentXP options in
  let requiredXP := getRequiredXP level options in
  let nextLevelXP := getRequiredXP (level + 1) options in
  let progress := getXPProgress currentXP options in
  let xpToNext := getXPToNextLevel currentXP options in
  let rank := getRank level customRanks in
  {| LevelInfo.level := level;
     LevelInfo.currentXP := currentXP;
     LevelInfo.requiredXP := requiredXP;
     LevelInfo.nextLevelXP := nextLevelXP;
     LevelInfo.progress := progress;
     LevelInfo.xpToNextLevel := xpToNext;
     LevelInfo.rank :=
       match rank with
       | Some r => string_or_null (RankDefinition.rank r)
       | None => None
       end;
     LevelInfo.rankTitle :=
       match rank with
       | Some r => string_or_null (RankDefinition.title r)
       | None => None
       end |}.

(** ** Helper utilities

    The helpers take [options] and hand it on to [getRequiredXP] and
    [calculateLevel], whose default [{}] replaces an omitted argument:
    [no_options] stands for both.  Their numeric arguments are finite. *)

Module Milestone.
Record t : Type := mk {
  level : R;
  requiredXP : number;
  isMilestone : bool
}.
End Milestone.

(** The entry pushed for [level]. *)
Definition milestone_entry (milestoneInterval : R) (options : LevelCalculationOptions)
  (level : R) : Milestone.t :=
  {| Milestone.level := level;
     Milestone.requiredXP := getRequiredXP level options;
     Milestone.isMilestone :=
       Number.strict_equal (Number.rem level milestoneInterval) (Fin 0) |}.

(** The loop [for (let level = 1; level <= maxLevel; level++)] on the
    variables [level] and [milestones]. *)
Equations? generateMilestones_loop (maxLevel milestoneInterval : R)
  (options : LevelCalculationOptions) (level : R) (milestones : list Milestone.t)
  : list Milestone.t by wf (search_measure level maxLevel) lt :=
  generateMilestones_loop maxLevel milestoneInterval options level milestones
    with Rle_dec level maxLevel := {
    | left Hle =>
        generateMilestones_loop maxLevel milestoneInterval options (level + 1)
          (milestones ++ [milestone_entry milestoneInterval options level])
    | right _ => milestones }.
Proof.
  unfold search_measure. rewrite (Zfloor_addz 1).
  apply Zfloor_le in Hle. lia.
Qed.

Definition generateMilestones (maxLevel milestoneInterval : option R)
  (options : LevelCalculationOptions) : list Milestone.t :=
  let maxLevel := override maxLevel 100 in
  let milestoneInterval := override milestoneInterval 10 in
  generateMilestones_loop maxLevel milestoneInterval options 1 [].

Module Prestige.
Record t : Type := mk {
  newXP : number;
  bonusXP : number;
  prestigeLevel : R
}.
End Prestige.

Definition calculatePrestige (currentLevel currentXP : R) (prestigeBonus : option R)
  : Prestige.t :=
  let prestigeBonus := override prestigeBonus 0.1 in
  let bonusXP := Math.floor (Fin (currentXP * prestigeBonus)) in
  let newXP := bonusXP in
  let prestigeLevel := 1 in
  {| Prestige.newXP := newXP;
     Prestige.bonusXP := bonusXP;
     Prestige.prestigeLevel := prestigeLevel |}.

(** ** Configurations used in the examples *)

(** A curve that decreases: [baseXP = 100], [exponent = -1], three levels. *)
Definition decreasing_options : LevelCalculationOptions :=
  mkOptions (Some 100) (Some (-1)) (Some 3).

(** A flat curve: [exponent = 0], every level requires [baseXP = 100]. *)
Definition flat_options : LevelCalculationOptions :=
  mkOptions None (Some 0) None.

(** ** Vocabulary of the statements *)

(** The test of the search at level [l]: its requirement is met by [totalXP]. *)
Definition reached (totalXP : number) (options : LevelCalculationOptions)
  (l : R) : bool :=
  Number.le (getRequiredXP l options) totalXP.

(** [L] is the highest integer level of [[zl, hi]] whose requirement is met. *)
Definition highest_reached (totalXP : number) (options : LevelCalculationOptions)
  (zl : Z) (hi : R) (L : Z) : Prop :=
  (zl <= L)%Z /\ IZR L <= hi /\ reached totalXP options (IZR L) = true /\
  forall L' : Z, (zl <= L')%Z -> IZR L' <= hi ->
    reached totalXP options (IZR L') = true -> (L' <= L)%Z.

(** No integer level of [[zl, hi]] has its requirement met. *)
Definition none_reached (totalXP : number) (options : LevelCalculationOptions)
  (zl : Z) (hi : R) : Prop :=
  forall L' : Z, (zl <= L')%Z -> IZR L' <= hi ->
    reached totalXP options (IZR L') = false.

(** The test is downward closed on the integer levels of [[zl, hi]]. *)
Definition downward_closed (totalXP : number) (options : LevelCalculationOptions)
  (zl : Z) (hi : R) : Prop :=
  forall a b : Z, (zl <= a <= b)%Z -> IZR b <= hi ->
    reached totalXP options (IZR b) = true -> reached totalXP options (IZR a) = true.

(** The value of the curve at an unclamped level: [floor(baseXP * level^exponent)]. *)
Definition curve (opts : Required.t) (level : R) : R :=
  Rfloor (Required.baseXP opts * Rpower level (Required.exponent opts)).

(** The number of halvings that empty a range of [m] levels:
    [floor (log2 m) + 1], and none for an empty range. *)
Definition iteration_bound (m : nat) : nat :=
  match m with
  | O => O
  | S _ => S (Nat.log2 m)
  end.

(** The real [r] is an integer. *)
Definition integral (r : R) : Prop := exists z : Z, r = IZR z.

(** A rank table whose ranges have integer bounds, are not empty and follow
    one another in table order without gap or overlap. *)
Fixpoint contiguous (table : list RankDefinition.t) : Prop :=
  match table with
  | [] => True
  | r :: rest =>
      integral (RankDefinition.minLevel r) /\
      integral (RankDefinition.maxLevel r) /\
      RankDefinition.minLevel r <= RankDefinition.maxLevel r /\
      match rest with
      | [] => True
      | r' :: _ => RankDefinition.maxLevel r + 1 = RankDefinition.minLevel r'
      end /\
      contiguous rest
  end.

(** The [count] consecutive integer levels from [first] on. *)
Fixpoint levels_from (first : Z) (count : nat) : list R :=
  match count with
  | O => []
  | S count' => IZR first :: levels_from (first + 1) count'
  end.

(** * The program in binary64 arithmetic *)

Module Binary64.

(** The position of the leading bit of [x]: [2 ^ mag x <= |x| < 2 ^ (mag x + 1)]. *)
Definition mag (x : R) : Z := Zfloor (ln (Rabs x) / ln 2).

(** The exponent of the last place of the binary64 numbers around [x]:
    53 significant bits, and [2 ^ -1074] the smallest positive number. *)
Definition ulp_exponent (x : R) : Z := Z.max (mag x - 52) (-1074).

(** The nearest integer, the even one at a tie. *)
Definition nearest_even (x : R) : Z :=
  let f := Zfloor x in
  if Rltb (x - IZR f) (/ 2) then f
  else if Rltb (/ 2) (x - IZR f) then (f + 1)%Z
  else if Z.even f then f else (f + 1)%Z.

(** Rounding of a magnitude [x >= 0] to nearest, ties to even, with an
    unbounded exponent range upwards. *)
Definition round_magnitude (x : R) : R :=
  let e := ulp_exponent x in
  IZR (nearest_even (x * powerRZ 2 (- e))) * powerRZ 2 e.

Definition round (x : R) : R :=
  if Rltb x 0 then - round_magnitude (- x) else round_magnitude x.

(** The number an operation delivers when its exact result is [x]: the
    rounded value, or an infinity when that reaches [2 ^ 1024]. *)
Definition number_of (x : R) : number :=
  let r := round x in
  if Rleb (powerRZ 2 1024) r then PosInf
  else if Rleb r (- powerRZ 2 1024) then NegInf
  else Fin r.

(** A finite value that a binary64 number can hold. *)
Definition representable (x : R) : Prop :=
  round x = x /\ Rabs x < powerRZ 2 1024.

(** *** Arithmetic

    The operators on numbers: IEEE 754 on the non-finite values, and the
    rounded exact result on finite ones. *)

Definition add (a b : number) : number :=
  match a, b with
  | Fin x, Fin y => number_of (x + y)
  | NaN, _ | _, NaN => NaN
  | PosInf, NegInf | NegInf, PosInf => NaN
  | PosInf, _ | _, PosInf => PosInf
  | NegInf, _ | _, NegInf => NegInf
  end.

Definition sub (a b : number) : number :=
  match a, b with
  | Fin x, Fin y => number_of (x - y)
  | NaN, _ | _, NaN => NaN
  | PosInf, PosInf | NegInf, NegInf => NaN
  | PosInf, _ | _, NegInf => PosInf
  | NegInf, _ | _, PosInf => NegInf
  end.

Definition mul (a b : number) : number :=
  match a, b with
  | Fin x, Fin y => number_of (x * y)
  | NaN, _ | _, NaN => NaN
  | PosInf, Fin y | Fin y, PosInf => Number.scale_inf true y
  | NegInf, Fin y | Fin y, NegInf => Number.scale_inf false y
  | PosInf, PosInf | NegInf, NegInf => PosInf
  | PosInf, NegInf | NegInf, PosInf => NegInf
  end.

Definition div (a b : number) : number :=
  match a, b with
  | Fin x, Fin y =>
      if Reqb y 0 then
        (if Rltb 0 x then PosInf else if Rltb x 0 then NegInf else NaN)
      else number_of (x / y)
  | NaN, _ | _, NaN => NaN
  | Fin _, _ => Fin 0
  | PosInf, Fin y => if Rltb y 0 then NegInf else PosInf
  | NegInf, Fin y => if Rltb y 0 then PosInf else NegInf
  | _, _ => NaN
  end.

(** [Math.abs] *)
Definition abs (a : number) : number :=
  match a with
  | Fin x => Fin (Rabs x)
  | PosInf | NegInf => PosInf
  | NaN => NaN
  end.

(** The operand selection of [a || b] on an optional number: [undefined],
    0 and NaN are falsy. *)
Definition or (a : option number) (b : number) : number :=
  match a with
  | Some (Fin x) => if Reqb x 0 then b else Fin x
  | Some NaN | None => b
  | Some v => v
  end.

(** The finite exponent [e] is an odd integer. *)
Definition odd_integer (e : R) : bool := is_integer e && Z.odd (Zfloor e).

(** [Math.pow].  The special values follow the language definition; where
    it leaves the result to the implementation (a finite non-zero base and
    a finite non-zero exponent) the result is taken correctly rounded. *)
Definition pow (base exponent : number) : number :=
  match exponent with
  | NaN => NaN
  | Fin e =>
      if Reqb e 0 then Fin 1
      else
        match base with
        | NaN => NaN
        | PosInf => if Rltb 0 e then PosInf else Fin 0
        | NegInf =>
            if Rltb 0 e then (if odd_integer e then NegInf else PosInf) else Fin 0
        | Fin b =>
            if Rltb 0 b then number_of (Rpower b e)
            else if Reqb b 0 then (if Rltb 0 e then Fin 0 else PosInf)
            else if is_integer e then
              number_of ((if Z.odd (Zfloor e) then -1 else 1) * Rpower (- b) e)
            else NaN
        end
  | PosInf =>
      match base with
      | NaN => NaN
      | Fin b =>
          if Rltb 1 (Rabs b) then PosInf
          else if Reqb (Rabs b) 1 then NaN else Fin 0
      | _ => PosInf
      end
  | NegInf =>
      match base with
      | NaN => NaN
      | Fin b =>
          if Rltb 1 (Rabs b) then Fin 0
          else if Reqb (Rabs b) 1 then NaN else PosInf
      | _ => Fin 0
      end
  end.

(** *** Options

    A property of the options object is absent or holds a number; a property
    present with the value [undefined] behaves in every use below (an
    arithmetic operand, a comparison, the left operand of [||]) as NaN does,
    and is represented by it. *)

Record LevelCalculationOptions : Type := mkOptions {
  baseXP : option number;
  exponent : option number;
  maxLevel : option number
}.

Module Required.
Record t : Type := mk {
  baseXP : number;
  exponent : number;
  maxLevel : number
}.
End Required.

Definition DEFAULT_OPTIONS : Required.t :=
  {| Required.baseXP := Fin 100;
     Required.exponent := Fin 1.5;
     Required.maxLevel := Fin 100 |}.

Definition no_options : LevelCalculationOptions :=
  {| baseXP := None; exponent := None; maxLevel := None |}.

Definition override (given : option number) (default : number) : number :=
  match given with
  | Some v => v
  | None => default
  end.

(** [{ ...defaults, ...options }] *)
Definition spread (defaults : Required.t) (options : LevelCalculationOptions)
  : Required.t :=
  {| Required.baseXP := override (baseXP options) (Required.baseXP defaults);
     Required.exponent := override (exponent options) (Required.exponent defaults);
     Required.maxLevel := override (maxLevel options) (Required.maxLevel defaults) |}.

(** *** The curve *)

Definition getRequiredXP (level : number) (options : LevelCalculationOptions) : number :=
  let opts := spread DEFAULT_OPTIONS options in
  if Number.lt level (Fin 1) then Fin 0
  else
    let level := if Number.gt level (Required.maxLevel opts)
                 then Required.maxLevel opts else level in
    Math.floor (mul (Required.baseXP opts) (pow level (Required.exponent opts))).

(** The [while (low <= high)] loop of [calculateLevel] on the loop variables
    [low], [high] and [currentLevel].  The loop need not end, so it runs on
    [fuel], one unit per iteration: [None] when the fuel runs out with the
    test still true. *)
Fixpoint calculateLevel_loop (totalXP : number) (options : LevelCalculationOptions)
  (low high currentLevel : number) (fuel : nat) {struct fuel} : option number :=
  if Number.le low high then
    match fuel with
    | O => None
    | S fuel' =>
        let mid := Math.floor (div (add low high) (Fin 2)) in
        let requiredXP := getRequiredXP mid options in
        if Number.le requiredXP totalXP
        then calculateLevel_loop totalXP options (add mid (Fin 1)) high mid fuel'
        else calculateLevel_loop totalXP options low (sub mid (Fin 1)) currentLevel fuel'
    end
  else Some currentLevel.

Definition calculateLevel (totalXP : number) (options : LevelCalculationOptions)
  (fuel : nat) : option number :=
  let opts := spread DEFAULT_OPTIONS options in
  if Number.lt totalXP (Fin 0) then Some (Fin 1)
  else calculateLevel_loop totalXP options (Fin 1) (Required.maxLevel opts) (Fin 1) fuel.

(** A computation on fuel returns [v]: some amount of fuel is enough. *)
Definition returns {A : Type} (run : nat -> option A) (v : A) : Prop :=
  exists fuel : nat, run fuel = Some v.

(** A computation on fuel never returns. *)
Definition diverges {A : Type} (run : nat -> option A) : Prop :=
  forall fuel : nat, run fuel = None.

Definition getXPProgress (currentXP : number) (options : LevelCalculationOptions)
  (fuel : nat) : option number :=
  match calculateLevel currentXP options fuel with
  | None => None
  | Some currentLevel =>
      let currentLevelXP := getRequiredXP currentLevel options in
      let nextLevelXP := getRequiredXP (add currentLevel (Fin 1)) options in
      if Number.ge currentLevel
           (or (maxLevel options) (Required.maxLevel DEFAULT_OPTIONS))
      then Some (Fin 100)
      else
        let xpInCurrentLevel := sub currentXP currentLevelXP in
        let xpNeededForNext := sub nextLevelXP currentLevelXP in
        Some (Math.min (Fin 100)
                (Math.max (Fin 0)
                   (mul (div xpInCurrentLevel xpNeededForNext) (Fin 100))))
  end.

Definition getXPToNextLevel (currentXP : number) (options : LevelCalculationOptions)
  (fuel : nat) : option number :=
  match calculateLevel currentXP options fuel with
  | None => None
  | Some currentLevel =>
      let nextLevelXP := getRequiredXP (add currentLevel (Fin 1)) options in
      Some (Math.max (Fin 0) (sub nextLevelXP currentXP))
  end.

(** *** Helper utilities

    The helpers hand [options] on to [getRequiredXP] and [calculateLevel],
    whose default [{}] replaces an omitted argument: [no_options] stands
    for both. *)

Definition getXPBetweenLevels (fromLevel toLevel : number)
  (options : LevelCalculationOptions) : number :=
  let fromXP := getRequiredXP fromLevel options in
  let toXP := getRequiredXP toLevel options in
  sub toXP fromXP.

Module TimeEstimate.
Record t (Date : Type) : Type := mk {
  days : number;
  date : Date
}.
Arguments mk {Date} _ _.
Arguments days {Date} _.
Arguments date {Date} _.
End TimeEstimate.

(** The calendar is outside the library: [now] is the reading of
    [new Date()] and [plus_days d n] the date left in [d] by
    [d.setDate(d.getDate() + n)]. *)
Definition estimateTimeToLevel {Date : Type} (now : Date)
  (plus_days : Date -> number -> Date)
  (currentXP targetLevel xpPerDay : number) (options : LevelCalculationOptions)
  : TimeEstimate.t Date :=
  let targetXP := getRequiredXP targetLevel options in
  let xpNeeded := sub targetXP currentXP in
  if Number.le xpNeeded (Fin 0) then TimeEstimate.mk (Fin 0) now
  else
    let days := Math.ceil (div xpNeeded xpPerDay) in
    TimeEstimate.mk days (plus_days now days).

(** [bonuses.reduce((sum, bonus) => sum + bonus, 0)] *)
Definition sum_bonuses (bonuses : list number) : number :=
  List.fold_left (fun sum bonus => add sum bonus) bonuses (Fin 0).

Definition calculateXPBonus (baseXP : number) (multiplier : option number)
  (bonuses : option (list number)) : number :=
  let multiplier := override multiplier (Fin 1) in
  let bonuses := match bonuses with Some l => l | None => [] end in
  let totalBonus := sum_bonuses bonuses in
  Math.floor (add (mul baseXP multiplier) totalBonus).

Module LevelUp.
Record t : Type := mk {
  leveledUp : bool;
  previousLevel : number;
  newLevel : number;
  levelsGained : number
}.
End LevelUp.

Definition checkLevelUp (previousXP addedXP : number)
  (options : LevelCalculationOptions) (fuel : nat) : option LevelUp.t :=
  match calculateLevel previousXP options fuel with
  | None => None
  | Some previousLevel =>
      let newXP := add previousXP addedXP in
      match calculateLevel newXP options fuel with
      | None => None
      | Some newLevel =>
          let levelsGained := sub newLevel previousLevel in
          Some {| LevelUp.leveledUp := Number.gt levelsGained (Fin 0);
                  LevelUp.previousLevel := previousLevel;
                  LevelUp.newLevel := newLevel;
                  LevelUp.levelsGained := levelsGained |}
      end
  end.

Definition calculateDailyXPRequirement (currentXP targetLevel days : number)
  (options : LevelCalculationOptions) : number :=
  let targetXP := getRequiredXP targetLevel options in
  let xpNeeded := sub targetXP currentXP in
  if Number.le xpNeeded (Fin 0) then Fin 0
  else if Number.le days (Fin 0) then PosInf
  else Math.ceil (div xpNeeded days).

(** The type ['user1' | 'user2' | 'tie']. *)
Inductive Leader : Type := user1 | user2 | tie.

Module Progression.
Record t : Type := mk {
  user1Level : number;
  user2Level : number;
  levelDifference : number;
  xpDifference : number;
  leader : Leader
}.
End Progression.

Definition compareProgression (user1XP user2XP : number)
  (options : LevelCalculationOptions) (fuel : nat) : option Progression.t :=
  match calculateLevel user1XP options fuel with
  | None => None
  | Some user1Level =>
      match calculateLevel user2XP options fuel with
      | None => None
      | Some user2Level =>
          Some {| Progression.user1Level := user1Level;
                  Progression.user2Level := user2Level;
                  Progression.levelDifference := abs (sub user1Level user2Level);
                  Progression.xpDifference := abs (sub user1XP user2XP);
                  Progression.leader :=
                    if Number.gt user1XP user2XP then user1
                    else if Number.gt user2XP user1XP then user2 else tie |}
      end
  end.

(** *** Configurations used in the examples *)

(** A curve that decreases: [baseXP = 100], [exponent = -1], three levels. *)
Definition decreasing_options : LevelCalculationOptions :=
  mkOptions (Some (Fin 100)) (Some (Fin (-1))) (Some (Fin 3)).

(** The linear curve of the test suite: [baseXP = 100], [exponent = 1]. *)
Definition linear_options : LevelCalculationOptions :=
  mkOptions (Some (Fin 100)) (Some (Fin 1)) None.

(** A slowly growing curve: [baseXP = 1], [exponent = 0.5]. *)
Definition sqrt_options : LevelCalculationOptions :=
  mkOptions (Some (Fin 1)) (Some (Fin 0.5)) None.

(** The linear curve capped at ten levels. *)
Definition ten_levels_options : LevelCalculationOptions :=
  mkOptions (Some (Fin 100)) (Some (Fin 1)) (Some (Fin 10)).

(** A flat curve: [exponent = 0], every level requires [baseXP = 100]. *)
Definition flat_options : LevelCalculationOptions :=
  mkOptions None (Some (Fin 0)) None.

(** Only level 1 is offered: [maxLevel = 1]. *)
Definition single_level_options : LevelCalculationOptions :=
  mkOptions None None (Some (Fin 1)).

(** A curve whose power overflows from level 6 on: [exponent = 400]; and the
    same with [baseXP = 0]. *)
Definition steep_options : LevelCalculationOptions :=
  mkOptions None (Some (Fin 400)) None.

Definition steep_zero_options : LevelCalculationOptions :=
  mkOptions (Some (Fin 0)) (Some (Fin 400)) None.

(** The flat curve with the cap [2 ^ 53], the first integer whose successor
    is not a binary64 number. *)
Definition unsafe_cap_options : LevelCalculationOptions :=
  mkOptions None (Some (Fin 0)) (Some (Fin (IZR (2 ^ 53)))).

(** The flat curve with a cap that is not an integer. *)
Definition fractional_cap_options : LevelCalculationOptions :=
  mkOptions None (Some (Fin 0)) (Some (Fin 10.5)).

(** A flat curve below 0: [baseXP = -100], [exponent = 0]. *)
Definition negative_flat_options : LevelCalculationOptions :=
  mkOptions (Some (Fin (-100))) (Some (Fin 0)) None.

(** The default curve with the cap 0. *)
Definition zero_cap_options : LevelCalculationOptions :=
  mkOptions None None (Some (Fin 0)).

(** The binary64 number nearest to 0.7, which is what the literal [0.7]
    denotes: [6305039478318694 * 2 ^ -53]. *)
Definition seven_tenths : R := IZR 6305039478318694 * powerRZ 2 (-53).

Definition seven_tenths_options : LevelCalculationOptions :=
  mkOptions (Some (Fin seven_tenths)) (Some (Fin 1)) None.

(** *** Vocabulary of the statements *)

(** The test of the search at the integer level [l]: its requirement is met
    by [totalXP]. *)
Definition reached (totalXP : number) (options : LevelCalculationOptions)
  (l : Z) : bool :=
  Number.le (getRequiredXP (Fin (IZR l)) options) totalXP.

(** What the loop entered with [low = zl], [high = hi] and
    [currentLevel = cur] hands back: a level of the range whose test
    succeeded and whose successor, if in the range, failed the test; or
    [cur], the first level of the range having failed the test. *)
Definition search_result (totalXP : number) (options : LevelCalculationOptions)
  (zl : Z) (hi : R) (cur v : number) : Prop :=
  (exists z : Z,
      v = Fin (IZR z) /\ (zl <= z)%Z /\ IZR z <= hi /\
      reached totalXP options z = true /\
      (IZR z + 1 <= hi -> reached totalXP options (z + 1) = false))
  \/ (v = cur /\ (IZR zl <= hi -> reached totalXP options zl = false)).

(** [L] is the highest integer level of [[1, hi]] whose requirement is met. *)
Definition highest_reached (totalXP : number) (options : LevelCalculationOptions)
  (hi : R) (L : Z) : Prop :=
  (1 <= L)%Z /\ IZR L <= hi /\ reached totalXP options L = true /\
  forall L' : Z, (1 <= L')%Z -> IZR L' <= hi ->
    reached totalXP options L' = true -> (L' <= L)%Z.

(** No integer level of [[1, hi]] has its requirement met. *)
Definition none_reached (totalXP : number) (options : LevelCalculationOptions)
  (hi : R) : Prop :=
  forall L' : Z, (1 <= L')%Z -> IZR L' <= hi -> reached totalXP options L' = false.

End Binary64.

(** * Properties *)

(** ** Comparisons *)

Lemma Rltb_true x y : Rltb x y = true <-> x < y.
Proof. unfold Rltb; destruct (Rlt_dec x y); split; auto; discriminate. Qed.

Lemma Rltb_false x y : Rltb x y = false <-> y <= x.
Proof.
  unfold Rltb; destruct (Rlt_dec x y); split; auto; try discriminate; lra.
Qed.

Lemma Rleb_true x y : Rleb x y = true <-> x <= y.
Proof. unfold Rleb; destruct (Rle_dec x y); split; auto; discriminate. Qed.

Lemma Rleb_false x y : Rleb x y = false <-> y < x.
Proof.
  unfold Rleb; destruct (Rle_dec x y); split; auto; try discriminate; lra.
Qed.

Lemma Reqb_true x y : Reqb x y = true <-> x = y.
Proof. unfold Reqb; destruct (Req_dec_T x y); split; auto; discriminate. Qed.

Lemma Reqb_false x y : Reqb x y = false <-> x <> y.
Proof.
  unfold Reqb; destruct (Req_dec_T x y); split; auto; try discriminate.
  intros H; contradiction.
Qed.

(** ** Floor *)

Lemma Rfloor_bound r : Rfloor r <= r < Rfloor r + 1.
Proof. exact (Zfloor_bound r). Qed.

Lemma Rfloor_le r1 r2 : r1 <= r2 -> Rfloor r1 <= Rfloor r2.
Proof. intros H. apply IZR_le, Zfloor_le, H. Qed.

Lemma Rfloor_IZR z : Rfloor (IZR z) = IZR z.
Proof. unfold Rfloor. now rewrite ZfloorZ. Qed.

Lemma Rfloor_eq z r : IZR z <= r < IZR z + 1 -> Rfloor r = IZR z.
Proof. intros H. unfold Rfloor. now rewrite (Zfloor_eq z r H). Qed.

(** ** The loop, one iteration at a time *)

Lemma calculateLevel_loop_step totalXP options lo hi cur :
  calculateLevel_loop totalXP options lo hi cur =
  if Rleb lo hi then
    if Number.le (getRequiredXP (midpoint lo hi) options) totalXP
    then calculateLevel_loop totalXP options (midpoint lo hi + 1) hi (midpoint lo hi)
    else calculateLevel_loop totalXP options lo (midpoint lo hi - 1) cur
  else cur.
Proof.
  rewrite calculateLevel_loop_equation_1.
  unfold Rleb. destruct (Rle_dec lo hi) as [Hle | Hgt]; simpl.
  - destruct (Number.le (getRequiredXP (midpoint lo hi) options) totalXP);
      reflexivity.
  - reflexivity.
Qed.

Lemma search_measure_right lo hi :
  lo <= hi -> (search_measure (midpoint lo hi + 1) hi < search_measure lo hi)%nat.
Proof.
  intros Hle. unfold search_measure, midpoint, Rfloor.
  rewrite (Zfloor_addz 1), ZfloorZ.
  assert (Zfloor lo <= Zfloor ((lo + hi) / 2))%Z by (apply Zfloor_le; lra).
  assert (Zfloor ((lo + hi) / 2) <= Zfloor hi)%Z by (apply Zfloor_le; lra).
  lia.
Qed.

Lemma search_measure_left lo hi :
  lo <= hi -> (search_measure lo (midpoint lo hi - 1) < search_measure lo hi)%nat.
Proof.
  intros Hle. unfold search_measure, midpoint, Rfloor.
  replace (IZR (Zfloor ((lo + hi) / 2)) - 1)
    with (IZR (Zfloor ((lo + hi) / 2)) + IZR (-1)) by (simpl; lra).
  rewrite Zfloor_addz, ZfloorZ.
  assert (Zfloor lo <= Zfloor ((lo + hi) / 2))%Z by (apply Zfloor_le; lra).
  assert (Zfloor ((lo + hi) / 2) <= Zfloor hi)%Z by (apply Zfloor_le; lra).
  lia.
Qed.

(** From an integer [low], the midpoint is an integer of the interval. *)
Lemma midpoint_integer (zl : Z) hi :
  IZR zl <= hi ->
  exists zm : Z, midpoint (IZR zl) hi = IZR zm /\ (zl <= zm)%Z /\ IZR zm <= hi.
Proof.
  intros Hle. exists (Zfloor ((IZR zl + hi) / 2)). split; [reflexivity | split].
  - apply Zfloor_lub. lra.
  - pose proof (Zfloor_bound ((IZR zl + hi) / 2)). lra.
Qed.

Lemma midpoint_eq lo hi (z : Z) :
  IZR z <= (lo + hi) / 2 < IZR z + 1 -> midpoint lo hi = IZR z.
Proof. intros H. unfold midpoint. now apply Rfloor_eq. Qed.

Lemma iteration_bound_half (m' m : nat) :
  (2 * m' <= m)%nat -> (1 <= m)%nat ->
  (S (iteration_bound m') <= iteration_bound m)%nat.
Proof.
  intros Hhalf Hm. unfold iteration_bound.
  destruct m as [| m0]; [lia |]. destruct m' as [| m0']; [lia |].
  assert (Hd : Nat.log2 (2 * S m0') = S (Nat.log2 (S m0')))
    by (apply Nat.log2_double; lia).
  pose proof (Nat.log2_le_mono _ _ Hhalf). lia.
Qed.

Section Search.

Variable totalXP : number.
Variable options : LevelCalculationOptions.

Local Abbreviation met := (reached totalXP options).
Local Abbreviation highest := (highest_reached totalXP options).
Local Abbreviation none := (none_reached totalXP options).
Local Abbreviation closed := (downward_closed totalXP options).

Lemma loop_search_bounded (n : nat) :
  forall (zl : Z) (hi cur : R),
    (search_measure (IZR zl) hi < n)%nat ->
    closed zl hi ->
    (exists L, highest zl hi L /\
               calculateLevel_loop totalXP options (IZR zl) hi cur = IZR L)
    \/ (none zl hi /\
        calculateLevel_loop totalXP options (IZR zl) hi cur = cur).
Proof.
  induction n as [| n IH]; intros zl hi cur Hn Hdc; [lia |].
  rewrite calculateLevel_loop_step.
  destruct (Rleb (IZR zl) hi) eqn:Hg.
  2:{ apply Rleb_false in Hg. right. split; [| reflexivity].
      intros L' H1 H2. apply IZR_le in H1. lra. }
  apply Rleb_true in Hg.
  destruct (midpoint_integer zl hi Hg) as (zm & Hm & Hlm & Hmh).
  pose proof (search_measure_right _ _ Hg) as Hr.
  pose proof (search_measure_left _ _ Hg) as Hl.
  rewrite Hm in *.
  change (Number.le (getRequiredXP (IZR zm) options) totalXP) with (met (IZR zm)).
  destruct (met (IZR zm)) eqn:Hreach.
  - replace (IZR zm + 1) with (IZR (zm + 1)) in * by (rewrite plus_IZR; lra).
    destruct (IH (zm + 1)%Z hi (IZR zm)) as [(L & HL & Hres) | (Hnone & Hres)].
    + lia.
    + intros a b Hab Hb. apply Hdc; [lia | exact Hb].
    + left. exists L. split; [| exact Hres].
      destruct HL as (H1 & H2 & H3 & H4).
      repeat split; [lia | exact H2 | exact H3 |].
      intros L' HL1 HL2 HL3.
      destruct (Z_lt_le_dec L' (zm + 1)); [lia | auto].
    + left. exists zm. split; [| exact Hres].
      repeat split; [exact Hlm | exact Hmh | exact Hreach |].
      intros L' HL1 HL2 HL3.
      destruct (Z_lt_le_dec L' (zm + 1)); [lia |].
      rewrite (Hnone L') in HL3 by assumption. discriminate.
  - assert (Habove : forall L' : Z, (zm <= L')%Z -> IZR L' <= hi ->
                                    met (IZR L') = false).
    { intros L' H1 H2. destruct (met (IZR L')) eqn:E; [| reflexivity].
      rewrite (Hdc zm L') in Hreach; [discriminate | lia | exact H2 | exact E]. }
    replace (IZR zm - 1) with (IZR (zm - 1)) in * by (rewrite minus_IZR; lra).
    destruct (IH zl (IZR (zm - 1)) cur) as [(L & HL & Hres) | (Hnone & Hres)].
    + lia.
    + intros a b Hab Hb. apply Hdc; [lia |].
      apply le_IZR in Hb. apply IZR_le in Hlm. 
      assert (IZR b <= IZR zm) by (apply IZR_le; lia). lra.
    + left. exists L. split; [| exact Hres].
      destruct HL as (H1 & H2 & H3 & H4).
      apply le_IZR in H2.
      repeat split; [exact H1 | | exact H3 |].
      * assert (IZR L <= IZR zm) by (apply IZR_le; lia). lra.
      * intros L' HL1 HL2 HL3.
        destruct (Z_lt_le_dec L' zm) as [Hlt | Hge].
        -- apply H4; [exact HL1 | apply IZR_le; lia | exact HL3].
        -- rewrite (Habove L') in HL3 by assumption. discriminate.
    + right. split; [| exact Hres].
      intros L' HL1 HL2.
      destruct (Z_lt_le_dec L' zm) as [Hlt | Hge].
      * apply Hnone; [exact HL1 | apply IZR_le; lia].
      * apply Habove; assumption.
Qed.

Lemma loop_search (zl : Z) (hi cur : R) :
  closed zl hi ->
  (exists L, highest zl hi L /\
             calculateLevel_loop totalXP options (IZR zl) hi cur = IZR L)
  \/ (none zl hi /\
      calculateLevel_loop totalXP options (IZR zl) hi cur = cur).
Proof.
  apply (loop_search_bounded (S (search_measure (IZR zl) hi))). lia.
Qed.

(** Without any assumption on the curve, the loop returns the level it was
    entered with or a midpoint whose test succeeded. *)
Lemma loop_result_bounded (n : nat) :
  forall (zl : Z) (hi cur : R),
    (search_measure (IZR zl) hi < n)%nat ->
    calculateLevel_loop totalXP options (IZR zl) hi cur = cur
    \/ exists z : Z,
         calculateLevel_loop totalXP options (IZR zl) hi cur = IZR z /\
         (zl <= z)%Z /\ IZR z <= hi /\ met (IZR z) = true.
Proof.
  induction n as [| n IH]; intros zl hi cur Hn; [lia |].
  rewrite calculateLevel_loop_step.
  destruct (Rleb (IZR zl) hi) eqn:Hg; [| left; reflexivity].
  apply Rleb_true in Hg.
  destruct (midpoint_integer zl hi Hg) as (zm & Hm & Hlm & Hmh).
  pose proof (search_measure_right _ _ Hg) as Hr.
  pose proof (search_measure_left _ _ Hg) as Hl.
  rewrite Hm in *.
  change (Number.le (getRequiredXP (IZR zm) options) totalXP) with (met (IZR zm)).
  destruct (met (IZR zm)) eqn:Hreach.
  - replace (IZR zm + 1) with (IZR (zm + 1)) in * by (rewrite plus_IZR; lra).
    right.
    destruct (IH (zm + 1)%Z hi (IZR zm)) as [Hres | (z & Hres & Hz1 & Hz2 & Hz3)];
      [lia | |].
    + exists zm. auto.
    + exists z. repeat split; [exact Hres | lia | exact Hz2 | exact Hz3].
  - replace (IZR zm - 1) with (IZR (zm - 1)) in * by (rewrite minus_IZR; lra).
    destruct (IH zl (IZR (zm - 1)) cur) as [Hres | (z & Hres & Hz1 & Hz2 & Hz3)];
      [lia | left; exact Hres |].
    right. exists z. repeat split; [exact Hres | exact Hz1 | | exact Hz3].
    apply le_IZR in Hz2. assert (IZR z <= IZR zm) by (apply IZR_le; lia). lra.
Qed.

Lemma loop_result (zl : Z) (hi cur : R) :
  calculateLevel_loop totalXP options (IZR zl) hi cur = cur
  \/ exists z : Z,
       calculateLevel_loop totalXP options (IZR zl) hi cur = IZR z /\
       (zl <= z)%Z /\ IZR z <= hi /\ met (IZR z) = true.
Proof.
  apply (loop_result_bounded (S (search_measure (IZR zl) hi))). lia.
Qed.

End Search.

(** ** The curve *)

Lemma Math_pow_positive base e :
  0 < base -> Math.pow base e = Fin (Rpower base e).
Proof.
  intros Hb. unfold Math.pow.
  destruct (Reqb e 0) eqn:He.
  - apply Reqb_true in He. subst e. now rewrite Rpower_O.
  - apply Rltb_true in Hb. now rewrite Hb.
Qed.

Lemma getRequiredXP_below level options :
  level < 1 -> getRequiredXP level options = Fin 0.
Proof.
  intros H. unfold getRequiredXP. apply Rltb_true in H. now rewrite H.
Qed.

Lemma getRequiredXP_above level options :
  1 <= level ->
  Required.maxLevel (spread DEFAULT_OPTIONS options) < level ->
  getRequiredXP level options =
  Math.floor
    (Number.mul (Fin (Required.baseXP (spread DEFAULT_OPTIONS options)))
       (Math.pow (Required.maxLevel (spread DEFAULT_OPTIONS options))
                 (Required.exponent (spread DEFAULT_OPTIONS options)))).
Proof.
  intros H1 H2. unfold getRequiredXP.
  apply Rltb_false in H1. apply Rltb_true in H2. now rewrite H1, H2.
Qed.

Lemma getRequiredXP_within level options :
  1 <= level <= Required.maxLevel (spread DEFAULT_OPTIONS options) ->
  getRequiredXP level options = Fin (curve (spread DEFAULT_OPTIONS options) level).
Proof.
  intros [H1 H2]. unfold getRequiredXP.
  pose proof H1 as H1'. apply Rltb_false in H1'. apply Rltb_false in H2.
  rewrite H1', H2, Math_pow_positive by lra. reflexivity.
Qed.

Lemma getRequiredXP_clamped level options :
  1 <= level ->
  0 < Required.maxLevel (spread DEFAULT_OPTIONS options) < level ->
  getRequiredXP level options =
  Fin (curve (spread DEFAULT_OPTIONS options)
             (Required.maxLevel (spread DEFAULT_OPTIONS options))).
Proof.
  intros H1 [H2 H3]. rewrite getRequiredXP_above by assumption.
  rewrite Math_pow_positive by assumption. reflexivity.
Qed.

Lemma curve_monotone opts l1 l2 :
  0 <= Required.baseXP opts -> 0 <= Required.exponent opts ->
  0 < l1 <= l2 -> curve opts l1 <= curve opts l2.
Proof.
  intros Hb He Hl. unfold curve. apply Rfloor_le.
  apply Rmult_le_compat_l; [exact Hb |].
  apply Rle_Rpower_l; assumption.
Qed.

Lemma curve_nonneg opts l :
  0 <= Required.baseXP opts -> 0 <= curve opts l.
Proof.
  intros Hb. unfold curve.
  replace 0 with (Rfloor 0) at 1 by (apply (Rfloor_IZR 0)).
  apply Rfloor_le. apply Rmult_le_pos; [exact Hb |].
  unfold Rpower. left. apply exp_pos.
Qed.

Lemma monotone_downward_closed (x : R) options (zl : Z) hi :
  0 <= Required.baseXP (spread DEFAULT_OPTIONS options) ->
  0 <= Required.exponent (spread DEFAULT_OPTIONS options) ->
  (1 <= zl)%Z -> hi <= Required.maxLevel (spread DEFAULT_OPTIONS options) ->
  downward_closed (Fin x) options zl hi.
Proof.
  intros Hb He Hzl Hhi a b Hab Hbh. unfold reached.
  assert (1 <= IZR a) by (apply (IZR_le 1); lia).
  assert (IZR a <= IZR b) by (apply IZR_le; lia).
  rewrite !getRequiredXP_within by lra. simpl.
  rewrite !Rleb_true. intros Hreach.
  pose proof (curve_monotone (spread DEFAULT_OPTIONS options) (IZR a) (IZR b) Hb He).
  lra.
Qed.

(** With the exponent 1.5 the power is [level * sqrt level], and the floor
    of a multiple of it is found by comparing squares. *)
Lemma Rpower_three_halves l : 0 < l -> Rpower l 1.5 = l * sqrt l.
Proof.
  intros Hl. replace 1.5 with (1 + / 2) by lra.
  now rewrite Rpower_plus, Rpower_1, Rpower_sqrt.
Qed.

(** ** Curve Engine: [getRequiredXP] *)



(** ** Curve Engine: [calculateLevel] *)

Lemma highest_not_none totalXP options zl hi L :
  highest_reached totalXP options zl hi L ->
  none_reached totalXP options zl hi -> False.
Proof.
  intros (A1 & A2 & A3 & _) Hnone. rewrite (Hnone L A1 A2) in A3. discriminate.
Qed.

(** On a non-decreasing curve the search finds the highest level reached. *)
Lemma calculateLevel_search (x : R) options :
  0 <= Required.baseXP (spread DEFAULT_OPTIONS options) ->
  0 <= Required.exponent (spread DEFAULT_OPTIONS options) ->
  (exists L : Z,
      highest_reached (Fin x) options 1 (Required.maxLevel (spread DEFAULT_OPTIONS options)) L /\
      calculateLevel (Fin x) options = IZR L)
  \/ (none_reached (Fin x) options 1 (Required.maxLevel (spread DEFAULT_OPTIONS options)) /\
      calculateLevel (Fin x) options = 1).
Proof.
  intros Hb He. unfold calculateLevel. simpl Number.lt.
  destruct (Rltb x 0) eqn:Hx.
  - right. split; [| reflexivity].
    apply Rltb_true in Hx. intros L' H1 H2. unfold reached.
    rewrite getRequiredXP_within by (split; [apply (IZR_le 1); exact H1 | exact H2]).
    simpl. apply Rleb_false.
    pose proof (curve_nonneg (spread DEFAULT_OPTIONS options) (IZR L') Hb). lra.
  - apply (loop_search (Fin x) options 1).
    apply monotone_downward_closed; [assumption | assumption | lia | lra].
Qed.

Lemma calculateLevel_of_none (x : R) options :
  0 <= Required.baseXP (spread DEFAULT_OPTIONS options) ->
  0 <= Required.exponent (spread DEFAULT_OPTIONS options) ->
  none_reached (Fin x) options 1 (Required.maxLevel (spread DEFAULT_OPTIONS options)) ->
  calculateLevel (Fin x) options = 1.
Proof.
  intros Hb He Hnone.
  destruct (calculateLevel_search x options Hb He) as [(L' & HL' & _) | (_ & Hres)].
  - destruct (highest_not_none _ _ _ _ _ HL' Hnone).
  - exact Hres.
Qed.

(** Running the loop by hand on concrete variables. *)

Lemma loop_go_left totalXP options lo hi cur m hi' :
  lo <= hi -> midpoint lo hi = m -> reached totalXP options m = false ->
  hi' = m - 1 ->
  calculateLevel_loop totalXP options lo hi cur =
  calculateLevel_loop totalXP options lo hi' cur.
Proof.
  intros Hle Hm Hr ->. rewrite calculateLevel_loop_step.
  apply Rleb_true in Hle. rewrite Hle, Hm. unfold reached in Hr. now rewrite Hr.
Qed.

Lemma loop_leave totalXP options lo hi cur :
  hi < lo -> calculateLevel_loop totalXP options lo hi cur = cur.
Proof.
  intros Hlt. rewrite calculateLevel_loop_step.
  apply Rleb_false in Hlt. now rewrite Hlt.
Qed.

(** The requirement of an unclamped level from the value of the power. *)
Lemma getRequiredXP_value level options (p : R) (k : Z) :
  1 <= level <= Required.maxLevel (spread DEFAULT_OPTIONS options) ->
  Rpower level (Required.exponent (spread DEFAULT_OPTIONS options)) = p ->
  IZR k <= Required.baseXP (spread DEFAULT_OPTIONS options) * p < IZR k + 1 ->
  getRequiredXP level options = Fin (IZR k).
Proof.
  intros Hl Hp Hk. rewrite getRequiredXP_within by assumption.
  unfold curve. rewrite Hp. f_equal. now apply Rfloor_eq.
Qed.

Lemma Rpower_minus_one l : 0 < l -> Rpower l (-1) = / l.
Proof.
  intros Hl. replace (-1) with (Ropp 1) by lra.
  now rewrite Rpower_Ropp, Rpower_1.
Qed.

Lemma decreasing_required :
  getRequiredXP 1 decreasing_options = Fin 100 /\
  getRequiredXP 2 decreasing_options = Fin 50 /\
  getRequiredXP 3 decreasing_options = Fin 33.
Proof.
  repeat split.
  - apply (getRequiredXP_value 1 decreasing_options (/ 1) 100); simpl;
      [lra | apply Rpower_minus_one; lra | lra].
  - apply (getRequiredXP_value 2 decreasing_options (/ 2) 50); simpl;
      [lra | apply Rpower_minus_one; lra | lra].
  - apply (getRequiredXP_value 3 decreasing_options (/ 3) 33); simpl;
      [lra | apply Rpower_minus_one; lra | lra].
Qed.

(** The search on the decreasing curve with 40 XP: the midpoints 2 and 1
    both fail the test, and the level stays 1. *)
Lemma decreasing_level : calculateLevel (Fin 40) decreasing_options = 1.
Proof.
  destruct decreasing_required as (H1 & H2 & _).
  unfold calculateLevel. simpl Number.lt.
  replace (Rltb 40 0) with false by (symmetry; apply Rltb_false; lra).
  simpl Required.maxLevel.
  rewrite (loop_go_left _ _ 1 3 1 2 1); try lra.
  - rewrite (loop_go_left _ _ 1 1 1 1 0); try lra.
    + apply loop_leave. lra.
    + apply (midpoint_eq 1 1 1). lra.
    + unfold reached. rewrite H1. simpl. apply Rleb_false. lra.
  - apply (midpoint_eq 1 3 2). lra.
  - unfold reached. rewrite H2. simpl. apply Rleb_false. lra.
Qed.

Lemma Rpower_half l : 0 < l -> Rpower l 0.5 = sqrt l.
Proof.
  intros Hl. replace 0.5 with (/ 2) by lra. now apply Rpower_sqrt.
Qed.

Lemma sqrt_between (l lo hi : R) :
  0 <= lo -> 0 <= hi -> lo * lo <= l < hi * hi -> lo <= sqrt l < hi.
Proof.
  intros Hlo Hhi [H1 H2].
  assert (Hl : 0 <= l) by nra.
  pose proof (sqrt_pos l) as Hs. pose proof (sqrt_sqrt l Hl) as Hss.
  set (s := sqrt l) in *. split.
  - destruct (Rle_dec lo s) as [H | H]; [exact H | exfalso; nra].
  - destruct (Rlt_dec s hi) as [H | H]; [exact H | exfalso; nra].
Qed.

(** ** Curve Engine: [getXPProgress] *)

(** The clamped percentage [Math.min(100, Math.max(0, (a / d) * 100))]. *)
Lemma percentage_nonzero_denominator (a d : R) :
  d <> 0 ->
  Math.min (Fin 100) (Math.max (Fin 0) (Number.mul (Number.div (Fin a) (Fin d)) (Fin 100)))
  = Fin (Rmin 100 (Rmax 0 (a / d * 100))).
Proof.
  intros Hd. cbn [Number.div]. apply Reqb_false in Hd. rewrite Hd.
  cbn [Number.mul Math.max Number.lt].
  unfold Rmax. destruct (Rle_dec 0 (a / d * 100)) as [H0 | H0].
  - destruct (Rltb 0 (a / d * 100)) eqn:E.
    + cbn [Math.min Number.lt]. unfold Rmin.
      destruct (Rle_dec 100 (a / d * 100)) as [H1 | H1].
      * destruct (Rltb (a / d * 100) 100) eqn:E1; [| reflexivity].
        apply Rltb_true in E1. lra.
      * destruct (Rltb (a / d * 100) 100) eqn:E1; [reflexivity |].
        apply Rltb_false in E1. lra.
    + apply Rltb_false in E. assert (Hz : a / d * 100 = 0) by lra.
      cbn [Math.min Number.lt]. unfold Rmin.
      destruct (Rle_dec 100 (a / d * 100)); [lra |].
      replace (Rltb 0 100) with true by (symmetry; apply Rltb_true; lra).
      now rewrite Hz.
  - replace (Rltb 0 (a / d * 100)) with false by (symmetry; apply Rltb_false; lra).
    cbn [Math.min Number.lt]. unfold Rmin.
    destruct (Rle_dec 100 0); [lra |].
    now replace (Rltb 0 100) with true by (symmetry; apply Rltb_true; lra).
Qed.

Lemma percentage_zero_denominator_positive (a : R) :
  0 < a ->
  Math.min (Fin 100) (Math.max (Fin 0) (Number.mul (Number.div (Fin a) (Fin 0)) (Fin 100)))
  = Fin 100.
Proof.
  intros Ha. cbn [Number.div].
  replace (Reqb 0 0) with true by (symmetry; now apply Reqb_true).
  replace (Rltb 0 a) with true by (symmetry; now apply Rltb_true).
  cbn [Number.mul]. unfold Number.scale_inf.
  replace (Rltb 0 100) with true by (symmetry; apply Rltb_true; lra).
  reflexivity.
Qed.

Lemma percentage_zero_denominator_negative (a : R) :
  a < 0 ->
  Math.min (Fin 100) (Math.max (Fin 0) (Number.mul (Number.div (Fin a) (Fin 0)) (Fin 100)))
  = Fin 0.
Proof.
  intros Ha. cbn [Number.div].
  replace (Reqb 0 0) with true by (symmetry; now apply Reqb_true).
  replace (Rltb 0 a) with false by (symmetry; apply Rltb_false; lra).
  replace (Rltb a 0) with true by (symmetry; now apply Rltb_true).
  cbn [Number.mul]. unfold Number.scale_inf.
  replace (Rltb 0 100) with true by (symmetry; apply Rltb_true; lra).
  cbn [Math.max Number.lt Math.min].
  now replace (Rltb 0 100) with true by (symmetry; apply Rltb_true; lra).
Qed.

Lemma getXPProgress_below_max (x : R) options (c n : R) :
  calculateLevel (Fin x) options
    < Number.or (maxLevel options) (Required.maxLevel DEFAULT_OPTIONS) ->
  getRequiredXP (calculateLevel (Fin x) options) options = Fin c ->
  getRequiredXP (calculateLevel (Fin x) options + 1) options = Fin n ->
  getXPProgress (Fin x) options =
  Math.min (Fin 100)
    (Math.max (Fin 0) (Number.mul (Number.div (Fin (x - c)) (Fin (n - c))) (Fin 100))).
Proof.
  intros H Hc Hn. unfold getXPProgress. cbn [Number.ge Number.le].
  apply Rleb_false in H. rewrite H, Hc, Hn. reflexivity.
Qed.

(** The level found is never below 1. *)
Lemma calculateLevel_at_least_one (x : number) options :
  1 <= calculateLevel x options.
Proof.
  unfold calculateLevel. destruct (Number.lt x (Fin 0)); [lra |].
  destruct (loop_result x options 1
              (Required.maxLevel (spread DEFAULT_OPTIONS options)) 1)
    as [H | (z & H & Hz & _)]; rewrite H; [lra |].
  apply (IZR_le 1). exact Hz.
Qed.

Lemma flat_required (l : R) :
  1 <= l <= 100 -> getRequiredXP l flat_options = Fin 100.
Proof.
  intros Hl. apply (getRequiredXP_value l flat_options 1 100); simpl.
  - lra.
  - apply Rpower_O. lra.
  - lra.
Qed.

Lemma flat_level_below_base (x : R) :
  0 <= x < 100 -> calculateLevel (Fin x) flat_options = 1.
Proof.
  intros Hx. apply calculateLevel_of_none; simpl; try lra.
  intros L' H1 H2. unfold reached.
  rewrite flat_required by (split; [apply (IZR_le 1); exact H1 | exact H2]).
  cbn [Number.le]. apply Rleb_false. lra.
Qed.




(** ** Rank Resolver *)

Lemma in_range_true level r :
  in_range level r = true <->
  RankDefinition.minLevel r <= level <= RankDefinition.maxLevel r.
Proof.
  unfold in_range. rewrite Bool.andb_true_iff, !Rleb_true. tauto.
Qed.

Lemma in_range_false level r :
  in_range level r = false <->
  level < RankDefinition.minLevel r \/ RankDefinition.maxLevel r < level.
Proof.
  unfold in_range. rewrite Bool.andb_false_iff, !Rleb_false. tauto.
Qed.

(** [find] returns the first element, in list order, that passes the test. *)
Lemma find_first {A : Type} (f : A -> bool) (l : list A) (a : A) :
  List.find f l = Some a <->
  exists pre post : list A,
    l = pre ++ a :: post /\ f a = true /\ forall b, In b pre -> f b = false.
Proof.
  induction l as [| h t IH]; simpl.
  - split; [discriminate |].
    intros (pre & post & H & _). destruct pre; discriminate.
  - destruct (f h) eqn:Hh.
    + split.
      * intros H. injection H as ->. exists [], t. simpl. repeat split; tauto.
      * intros (pre & post & Hl & Ha & Hpre). destruct pre as [| p pre'].
        -- simpl in Hl. injection Hl as -> _. reflexivity.
        -- simpl in Hl. injection Hl as -> _.
           rewrite (Hpre p) in Hh by (left; reflexivity). discriminate.
    + rewrite IH. split.
      * intros (pre & post & -> & Ha & Hpre). exists (h :: pre), post.
        repeat split; [exact Ha |].
        intros b [<- | Hb]; [exact Hh | now apply Hpre].
      * intros (pre & post & Hl & Ha & Hpre). destruct pre as [| p pre'].
        -- simpl in Hl. injection Hl as -> _. congruence.
        -- simpl in Hl. injection Hl as -> ->. exists pre', post.
           repeat split; [exact Ha |].
           intros b Hb. apply Hpre. now right.
Qed.

Lemma find_nothing {A : Type} (f : A -> bool) (l : list A) :
  List.find f l = None <-> forall b, In b l -> f b = false.
Proof.
  split.
  - intros H b Hb. exact (List.find_none f l H b Hb).
  - induction l as [| h t IH]; intros H; simpl; [reflexivity |].
    rewrite (H h) by (left; reflexivity). apply IH.
    intros b Hb. apply H. now right.
Qed.

(** C8.  [getRank level table] is the first entry, in table order, whose
    range [[minLevel, maxLevel]] contains [level], and no entry when none
    contains it.  With the default table an entry is found for every integer
    level from 1 to 100 and none for a level below 1 or above 100. *)
Theorem getRank_first_match :
  forall (level : R) (table : list RankDefinition.t),
    (forall r : RankDefinition.t,
        getRank level (Some table) = Some r <->
        exists pre post : list RankDefinition.t,
          table = pre ++ r :: post /\
          RankDefinition.minLevel r <= level <= RankDefinition.maxLevel r /\
          forall r', In r' pre ->
            level < RankDefinition.minLevel r' \/ RankDefinition.maxLevel r' < level) /\
    (getRank level (Some table) = None <->
     forall r, In r table ->
       level < RankDefinition.minLevel r \/ RankDefinition.maxLevel r < level) /\
    (forall z : Z, (1 <= z <= 100)%Z -> getRank (IZR z) None <> None) /\
    (level < 1 \/ 100 < level -> getRank level None = None).
Proof.
  intros level table. repeat split.
  - unfold getRank. rewrite find_first.
    intros (pre & post & Ht & Hr & Hpre). exists pre, post.
    repeat split; [exact Ht | apply in_range_true, Hr | apply in_range_true, Hr |].
    intros r' Hr'. apply in_range_false, Hpre, Hr'.
  - intros (pre & post & Ht & Hr & Hpre). unfold getRank. rewrite find_first.
    exists pre, post. repeat split; [exact Ht | apply in_range_true, Hr |].
    intros r' Hr'. apply in_range_false, Hpre, Hr'.
  - unfold getRank. rewrite find_nothing.
    intros H r Hr. apply in_range_false, H, Hr.
  - intros H. unfold getRank. rewrite find_nothing.
    intros r Hr. apply in_range_false, H, Hr.
  - intros z [Hz1 Hz2] Hnone. unfold getRank in Hnone.
    rewrite find_nothing in Hnone.
    assert (Hcases : (z <= 10 \/ 11 <= z <= 25 \/ 26 <= z <= 50 \/
                      51 <= z <= 75 \/ 76 <= z <= 90 \/ 91 <= z)%Z) by lia.
    assert (Hno : forall r, In r DEFAULT_RANKS ->
              ~ (RankDefinition.minLevel r <= IZR z <= RankDefinition.maxLevel r)).
    { intros r Hr Hin. apply in_range_true in Hin.
      rewrite (Hnone r Hr) in Hin. discriminate. }
    apply (IZR_le 1) in Hz1. apply (IZR_le _ 100) in Hz2.
    destruct Hcases as [H | [H | [H | [H | [H | H]]]]].
    + apply (Hno (RankDefinition.mk "trainee" 1 10 "Trainee")); simpl; [tauto |].
      apply (IZR_le _ 10) in H. lra.
    + apply (Hno (RankDefinition.mk "junior" 11 25 "Junior")); simpl; [tauto |].
      destruct H as [Ha Hb]. apply (IZR_le 11) in Ha. apply (IZR_le _ 25) in Hb. lra.
    + apply (Hno (RankDefinition.mk "intermediate" 26 50 "Intermediate")); simpl; [tauto |].
      destruct H as [Ha Hb]. apply (IZR_le 26) in Ha. apply (IZR_le _ 50) in Hb. lra.
    + apply (Hno (RankDefinition.mk "senior" 51 75 "Senior")); simpl; [tauto |].
      destruct H as [Ha Hb]. apply (IZR_le 51) in Ha. apply (IZR_le _ 75) in Hb. lra.
    + apply (Hno (RankDefinition.mk "expert" 76 90 "Expert")); simpl; [tauto |].
      destruct H as [Ha Hb]. apply (IZR_le 76) in Ha. apply (IZR_le _ 90) in Hb. lra.
    + apply (Hno (RankDefinition.mk "master" 91 100 "Master")); simpl; [tauto |].
      apply (IZR_le 91) in H. lra.
  - intros Hout. unfold getRank. rewrite find_nothing.
    intros r Hr. apply in_range_false.
    simpl in Hr.
    destruct Hr as [<- | [<- | [<- | [<- | [<- | [<- | []]]]]]]; simpl; lra.
Qed.

Lemma getRank_first_match_witness :
  getRank 50 None <> None /\ getRank 101 None = None.
Proof.
  split.
  - apply (proj1 (proj2 (proj2 (getRank_first_match 50 []))) 50%Z). lia.
  - apply (proj2 (proj2 (proj2 (getRank_first_match 101 [])))). right. lra.
Defined.

(** C10.  An empty rank table supplied by the caller is used as it is:
    [getRank] finds no entry in it and [getRankTitle] is the empty string,
    at every level.  The default table is consulted when, and only when, the
    table argument is omitted. *)
Theorem getRank_empty_table :
  forall level : R,
    getRank level (Some []) = None /\
    getRankTitle level (Some []) = EmptyString /\
    (forall table, getRank level (Some table) = List.find (in_range level) table) /\
    getRank level None = List.find (in_range level) DEFAULT_RANKS /\
    (1 <= level <= 10 -> getRank level None <> getRank level (Some [])).
Proof.
  intros level. repeat split.
  intros Hl. unfold getRank. simpl.
  replace (in_range level (RankDefinition.mk "trainee" 1 10 "Trainee")) with true.
  - discriminate.
  - symmetry. apply in_range_true. simpl. exact Hl.
Qed.

Lemma getRank_empty_table_witness :
  getRank 5 None <> getRank 5 (Some []).
Proof.
  apply (proj2 (proj2 (proj2 (proj2 (getRank_empty_table 5))))). lra.
Defined.

(** * Further properties of the engine *)

(** ** The level found *)

(** A requirement is a floor or 0, so a comparison with it only sees the
    integer part of the XP. *)
Lemma getRequiredXP_floored level options :
  exists v : number, getRequiredXP level options = Math.floor v.
Proof.
  unfold getRequiredXP. destruct (Rltb level 1).
  - exists (Fin 0). simpl. now rewrite (Rfloor_IZR 0).
  - eexists. reflexivity.
Qed.

Lemma le_floor_right (v : number) (x : R) :
  Number.le (Math.floor v) (Fin x) = Number.le (Math.floor v) (Fin (Rfloor x)).
Proof.
  destruct v as [r | | |]; simpl; try reflexivity.
  pose proof (Rfloor_bound x) as [Hx1 Hx2].
  destruct (Rleb (Rfloor r) x) eqn:E; symmetry.
  - apply Rleb_true in E. apply Rleb_true. unfold Rfloor in *.
    apply IZR_le, Zfloor_lub. exact E.
  - apply Rleb_false in E. apply Rleb_false. lra.
Qed.

Lemma reached_floor (x : R) options (l : R) :
  reached (Fin x) options l = reached (Fin (Rfloor x)) options l.
Proof.
  unfold reached. destruct (getRequiredXP_floored l options) as [v ->].
  apply le_floor_right.
Qed.

Lemma loop_floor_bounded (x : R) options (n : nat) :
  forall lo hi cur : R,
    (search_measure lo hi < n)%nat ->
    calculateLevel_loop (Fin x) options lo hi cur =
    calculateLevel_loop (Fin (Rfloor x)) options lo hi cur.
Proof.
  induction n as [| n IH]; intros lo hi cur Hn; [lia |].
  rewrite (calculateLevel_loop_step (Fin x)),
          (calculateLevel_loop_step (Fin (Rfloor x))).
  destruct (Rleb lo hi) eqn:Hg; [| reflexivity].
  apply Rleb_true in Hg.
  pose proof (search_measure_right _ _ Hg). pose proof (search_measure_left _ _ Hg).
  change (Number.le (getRequiredXP (midpoint lo hi) options) (Fin x))
    with (reached (Fin x) options (midpoint lo hi)).
  change (Number.le (getRequiredXP (midpoint lo hi) options) (Fin (Rfloor x)))
    with (reached (Fin (Rfloor x)) options (midpoint lo hi)).
  rewrite <- reached_floor.
  destruct (reached (Fin x) options (midpoint lo hi)); apply IH; lia.
Qed.


Lemma calculateLevel_le (x y : R) options :
  0 <= Required.baseXP (spread DEFAULT_OPTIONS options) ->
  0 <= Required.exponent (spread DEFAULT_OPTIONS options) ->
  x <= y ->
  calculateLevel (Fin x) options <= calculateLevel (Fin y) options.
Proof.
  intros Hb He Hxy.
  destruct (calculateLevel_search x options Hb He) as [(L & HL & Hres) | (_ & Hres)].
  2:{ rewrite Hres. apply calculateLevel_at_least_one. }
  destruct HL as (A1 & A2 & A3 & _).
  assert (Hy : reached (Fin y) options (IZR L) = true).
  { unfold reached in *.
    rewrite getRequiredXP_within in * by (split; [apply (IZR_le 1); exact A1 | exact A2]).
    cbn [Number.le] in *. apply Rleb_true in A3. apply Rleb_true. lra. }
  destruct (calculateLevel_search y options Hb He)
    as [(L' & HL' & Hres') | (Hnone & _)].
  - rewrite Hres, Hres'. apply IZR_le.
    destruct HL' as (_ & _ & _ & B4). now apply B4.
  - rewrite (Hnone L A1 A2) in Hy. discriminate.
Qed.



(** ** Ranks *)

Lemma contiguous_later r rest :
  contiguous (r :: rest) ->
  forall r', In r' rest -> RankDefinition.maxLevel r < RankDefinition.minLevel r'.
Proof.
  revert r. induction rest as [| r2 rest2 IH]; intros r Hc r' Hin; [destruct Hin |].
  destruct Hc as (_ & _ & _ & Hnext & Hrest).
  pose proof Hrest as (_ & _ & Hle2 & _).
  destruct Hin as [<- | Hin]; [lra |].
  pose proof (IH r2 Hrest r' Hin). lra.
Qed.

Lemma last_default_irrelevant {A : Type} (a : A) (l : list A) (d d' : A) :
  last (a :: l) d = last (a :: l) d'.
Proof.
  revert a. induction l as [| b l IH]; intros a; [reflexivity |].
  change (last (b :: l) d = last (b :: l) d'). apply IH.
Qed.

Lemma last_in {A : Type} (a : A) (l : list A) (d : A) :
  In (last (a :: l) d) (a :: l).
Proof.
  revert a. induction l as [| b l IH]; intros a; [now left |].
  right. change (In (last (b :: l) d) (b :: l)). apply IH.
Qed.

Lemma contiguous_ranges table :
  contiguous table ->
  forall r, In r table -> RankDefinition.minLevel r <= RankDefinition.maxLevel r.
Proof.
  induction table as [| a l IH]; intros Hc r Hr; [destruct Hr |].
  destruct Hc as (_ & _ & Hle & _ & Hrest).
  destruct Hr as [<- | Hr]; [exact Hle | now apply IH].
Qed.

Lemma getRank_skip level r table :
  RankDefinition.maxLevel r < level ->
  getRank level (Some (r :: table)) = getRank level (Some table).
Proof.
  intros H. unfold getRank. simpl.
  replace (in_range level r) with false; [reflexivity |].
  symmetry. apply in_range_false. now right.
Qed.

(** X7.  In a contiguous rank table every integer level from the first
    [minLevel] to the last [maxLevel] has a rank, and the entry [getRank]
    returns is the only entry of the table whose range contains the level;
    a level below the first range or above the last has none. *)
Theorem getRank_contiguous :
  forall (first : RankDefinition.t) (rest : list RankDefinition.t),
    contiguous (first :: rest) ->
    (forall z : Z,
        RankDefinition.minLevel first <= IZR z
          <= RankDefinition.maxLevel (last (first :: rest) first) ->
        exists r : RankDefinition.t,
          getRank (IZR z) (Some (first :: rest)) = Some r /\
          In r (first :: rest) /\
          forall r', In r' (first :: rest) ->
            RankDefinition.minLevel r' <= IZR z <= RankDefinition.maxLevel r' ->
            r' = r) /\
    (forall level : R,
        level < RankDefinition.minLevel first \/
        RankDefinition.maxLevel (last (first :: rest) first) < level ->
        getRank level (Some (first :: rest)) = None).
Proof.
  intros first rest. revert first.
  induction rest as [| r2 rest2 IH]; intros first Hc.
  - destruct Hc as (_ & _ & Hle & _). split.
    + intros z Hz. exists first. simpl in Hz. repeat split.
      * unfold getRank. simpl.
        replace (in_range (IZR z) first) with true; [reflexivity |].
        symmetry. now apply in_range_true.
      * now left.
      * intros r' [<- | []] _. reflexivity.
    + intros level Hout. simpl in Hout. unfold getRank. simpl.
      replace (in_range level first) with false; [reflexivity |].
      symmetry. now apply in_range_false.
  - pose proof (contiguous_later first (r2 :: rest2) Hc) as Hlater.
    destruct Hc as (_ & (m & Hm) & Hle & Hnext & Hrest).
    destruct (IH r2 Hrest) as [IHin IHout].
    assert (Hlast : last (first :: r2 :: rest2) first = last (r2 :: rest2) r2).
    { change (last (r2 :: rest2) first = last (r2 :: rest2) r2).
      apply last_default_irrelevant. }
    rewrite Hlast. split.
    + intros z [Hz1 Hz2].
      destruct (Rle_dec (IZR z) (RankDefinition.maxLevel first)) as [Hin | Hgt].
      * exists first. repeat split.
        -- unfold getRank. simpl.
           replace (in_range (IZR z) first) with true; [reflexivity |].
           symmetry. now apply in_range_true.
        -- now left.
        -- intros r' [<- | Hr'] Hrange; [reflexivity |].
           pose proof (Hlater r' Hr'). lra.
      * assert (Hz : RankDefinition.minLevel r2 <= IZR z).
        { rewrite <- Hnext, Hm. rewrite Hm in Hgt.
          rewrite <- (plus_IZR m 1). apply IZR_le.
          assert (m < z)%Z by (apply lt_IZR; lra). lia. }
        destruct (IHin z (conj Hz Hz2)) as (r & Hfind & Hr & Huniq).
        exists r. repeat split.
        -- rewrite getRank_skip by lra. exact Hfind.
        -- now right.
        -- intros r' [<- | Hr'] Hrange; [lra | now apply Huniq].
    + intros level [Hlow | Hhigh].
      * unfold getRank. simpl.
        replace (in_range level first) with false.
        -- apply (IHout level). left. lra.
        -- symmetry. apply in_range_false. now left.
      * destruct (Rlt_dec (RankDefinition.maxLevel first) level) as [Hgt | Hngt].
        -- rewrite getRank_skip by exact Hgt. apply IHout. now right.
        -- pose proof (last_in r2 rest2 r2) as HinL.
           pose proof (Hlater _ HinL) as H1.
           pose proof (contiguous_ranges _ Hrest _ HinL) as H2.
           lra.
Qed.

Lemma default_ranks_contiguous : contiguous DEFAULT_RANKS.
Proof.
  simpl. repeat split; try lra; eexists; reflexivity.
Qed.

Lemma getRank_contiguous_witness :
  (exists r : RankDefinition.t,
      getRank (IZR 50) (Some DEFAULT_RANKS) = Some r /\
      In r DEFAULT_RANKS /\
      forall r', In r' DEFAULT_RANKS ->
        RankDefinition.minLevel r' <= IZR 50 <= RankDefinition.maxLevel r' ->
        r' = r) /\
  getRank 101 (Some DEFAULT_RANKS) = None.
Proof.
  destruct (getRank_contiguous _ _ default_ranks_contiguous) as [Hin Hout].
  split.
  - apply (Hin 50%Z). simpl. lra.
  - apply Hout. right. simpl. lra.
Defined.

(** ** Aggregator *)

Lemma default_ranks_named r :
  In r DEFAULT_RANKS ->
  string_or_null (RankDefinition.rank r) = Some (RankDefinition.rank r) /\
  string_or_null (RankDefinition.title r) = Some (RankDefinition.title r).
Proof.
  simpl. intros [<- | [<- | [<- | [<- | [<- | [<- | []]]]]]]; split; reflexivity.
Qed.

Lemma default_ranks_cover (z : Z) :
  (1 <= z <= 100)%Z ->
  exists r, getRank (IZR z) None = Some r /\ In r DEFAULT_RANKS.
Proof.
  intros [Hz1 Hz2].
  destruct (getRank (IZR z) None) as [r |] eqn:E.
  - exists r. split; [reflexivity |].
    unfold getRank in E. now apply List.find_some in E.
  - exfalso. unfold getRank in E. rewrite find_nothing in E.
    assert (Hno : forall lo hi rank title,
              In (RankDefinition.mk rank (IZR lo) (IZR hi) title) DEFAULT_RANKS ->
              ~ (lo <= z <= hi)%Z).
    { intros lo hi rank title Hr [H1 H2]. apply E in Hr.
      apply in_range_false in Hr. simpl in Hr.
      apply IZR_le in H1, H2. lra. }
    assert (Hcases : (1 <= z <= 10 \/ 11 <= z <= 25 \/ 26 <= z <= 50 \/
                      51 <= z <= 75 \/ 76 <= z <= 90 \/ 91 <= z <= 100)%Z) by lia.
    destruct Hcases as [H | [H | [H | [H | [H | H]]]]];
      refine (Hno _ _ _ _ _ H); simpl;
      repeat (try (left; reflexivity); right).
Qed.

Lemma calculateLevel_integer (x : number) options :
  exists z : Z,
    calculateLevel x options = IZR z /\ (1 <= z)%Z /\
    (z = 1%Z \/ IZR z <= Required.maxLevel (spread DEFAULT_OPTIONS options)).
Proof.
  unfold calculateLevel. destruct (Number.lt x (Fin 0)).
  - exists 1%Z. repeat split; [lia | now left].
  - destruct (loop_result x options 1
                (Required.maxLevel (spread DEFAULT_OPTIONS options)) 1)
      as [H | (z & H & Hz1 & Hz2 & _)].
    + exists 1%Z. rewrite H. repeat split; [lia | now left].
    + exists z. rewrite H. repeat split; [exact Hz1 | now right].
Qed.

(** X8.  With the built-in rank table and a level cap of at most 100,
    [getLevelInfo] always reports a rank: whatever the XP, its [rank] and
    [rankTitle] are the identifier and the title of the entry [getRank]
    finds for the level, never null. *)
Theorem getLevelInfo_rank_present :
  forall (currentXP : number) (options : LevelCalculationOptions),
    Required.maxLevel (spread DEFAULT_OPTIONS options) <= 100 ->
    exists r : RankDefinition.t,
      In r DEFAULT_RANKS /\
      getRank (LevelInfo.level (getLevelInfo currentXP options None)) None = Some r /\
      LevelInfo.rank (getLevelInfo currentXP options None)
        = Some (RankDefinition.rank r) /\
      LevelInfo.rankTitle (getLevelInfo currentXP options None)
        = Some (RankDefinition.title r).
Proof.
  intros x options Hcap.
  destruct (calculateLevel_integer x options) as (z & Hz & Hz1 & Hz2).
  assert (Hz100 : (z <= 100)%Z).
  { destruct Hz2 as [-> | Hz2]; [lia |]. apply le_IZR. lra. }
  destruct (default_ranks_cover z (conj Hz1 Hz100)) as (r & Hr & Hin).
  destruct (default_ranks_named r Hin) as [Hn Ht].
  exists r. unfold getLevelInfo. cbn [LevelInfo.level LevelInfo.rank LevelInfo.rankTitle].
  rewrite Hz, Hr. repeat split; assumption.
Qed.

Lemma getLevelInfo_rank_present_witness :
  exists r : RankDefinition.t,
    In r DEFAULT_RANKS /\
    getRank (LevelInfo.level (getLevelInfo (Fin 1000) no_options None)) None = Some r /\
    LevelInfo.rank (getLevelInfo (Fin 1000) no_options None)
      = Some (RankDefinition.rank r) /\
    LevelInfo.rankTitle (getLevelInfo (Fin 1000) no_options None)
      = Some (RankDefinition.title r).
Proof.
  apply (getLevelInfo_rank_present (Fin 1000) no_options). simpl. lra.
Defined.

(** * Helper utilities *)

(** ** The cap *)

Lemma getRequiredXP_at_cap (l : R) options :
  1 <= Required.maxLevel (spread DEFAULT_OPTIONS options) <= l ->
  getRequiredXP l options =
  Fin (curve (spread DEFAULT_OPTIONS options)
         (Required.maxLevel (spread DEFAULT_OPTIONS options))).
Proof.
  intros [H1 H2].
  destruct (Rlt_dec (Required.maxLevel (spread DEFAULT_OPTIONS options)) l) as [Hlt | Hge].
  - apply getRequiredXP_clamped; lra.
  - assert (l = Required.maxLevel (spread DEFAULT_OPTIONS options)) as -> by lra.
    apply getRequiredXP_within. lra.
Qed.

(** ** [generateMilestones] *)

Lemma generateMilestones_loop_step cap interval options level milestones :
  generateMilestones_loop cap interval options level milestones =
  if Rleb level cap then
    generateMilestones_loop cap interval options (level + 1)
      (milestones ++ [milestone_entry interval options level])
  else milestones.
Proof.
  rewrite generateMilestones_loop_equation_1.
  unfold Rleb. destruct (Rle_dec level cap); reflexivity.
Qed.

Lemma generateMilestones_loop_closed cap interval options (count : nat) :
  forall (first : Z) (milestones : list Milestone.t),
    count = Z.to_nat (Zfloor cap - first + 1) ->
    generateMilestones_loop cap interval options (IZR first) milestones =
    milestones ++ map (milestone_entry interval options) (levels_from first count).
Proof.
  induction count as [| count IH]; intros first milestones Hcount;
    rewrite generateMilestones_loop_step.
  - replace (Rleb (IZR first) cap) with false; [simpl; now rewrite app_nil_r |].
    symmetry. apply Rleb_false.
    pose proof (Zfloor_bound cap) as [_ Hup].
    assert (Zfloor cap + 1 <= first)%Z by lia.
    apply IZR_le in H. rewrite plus_IZR in H. lra.
  - replace (Rleb (IZR first) cap) with true.
    + rewrite <- (plus_IZR first 1), (IH (first + 1)%Z) by lia.
      simpl. now rewrite <- app_assoc.
    + symmetry. apply Rleb_true.
      pose proof (Zfloor_bound cap) as [Hlo _].
      assert (first <= Zfloor cap)%Z by lia.
      apply IZR_le in H. lra.
Qed.

Lemma levels_from_length first count :
  List.length (levels_from first count) = count.
Proof.
  revert first. induction count as [| count IH]; intros first; simpl;
    [reflexivity | now rewrite IH].
Qed.

Lemma levels_from_in first count l :
  In l (levels_from first count) ->
  exists z : Z, l = IZR z /\ (first <= z < first + Z.of_nat count)%Z.
Proof.
  revert first. induction count as [| count IH]; intros first; simpl; [tauto |].
  intros [<- | Hin].
  - exists first. split; [reflexivity | lia].
  - destruct (IH _ Hin) as (z & -> & Hz). exists z. split; [reflexivity | lia].
Qed.

(** X17.  [generateMilestones] returns one entry per integer level from 1
    to [floor maxLevel], in increasing order ([maxLevel] defaulting to 100):
    [floor maxLevel] entries, none when [maxLevel < 1]; and each entry
    carries the requirement of its own level under [options]. *)
Theorem generateMilestones_levels :
  forall (maxLevel milestoneInterval : option R) (options : LevelCalculationOptions),
    let cap := override maxLevel 100 in
    let interval := override milestoneInterval 10 in
    generateMilestones maxLevel milestoneInterval options
    = map (milestone_entry interval options)
          (levels_from 1 (Z.to_nat (Zfloor cap))) /\
    List.length (generateMilestones maxLevel milestoneInterval options)
    = Z.to_nat (Zfloor cap) /\
    (cap < 1 -> generateMilestones maxLevel milestoneInterval options = []) /\
    (forall entry : Milestone.t,
        In entry (generateMilestones maxLevel milestoneInterval options) ->
        exists z : Z,
          Milestone.level entry = IZR z /\ (1 <= z)%Z /\ IZR z <= cap /\
          Milestone.requiredXP entry = getRequiredXP (IZR z) options).
Proof.
  intros maxLevel milestoneInterval options cap interval.
  assert (Hclosed : generateMilestones maxLevel milestoneInterval options
                    = map (milestone_entry interval options)
                        (levels_from 1 (Z.to_nat (Zfloor cap)))).
  { unfold generateMilestones. fold cap interval.
    rewrite (generateMilestones_loop_closed cap interval options
               (Z.to_nat (Zfloor cap)) 1 []); [reflexivity |].
    f_equal. lia. }
  rewrite Hclosed. repeat split.
  - now rewrite length_map, levels_from_length.
  - intros Hlow.
    assert (Hz : (Zfloor cap < 1)%Z).
    { apply lt_IZR. pose proof (Zfloor_bound cap). lra. }
    replace (Z.to_nat (Zfloor cap)) with O by lia. reflexivity.
  - intros entry Hin. apply in_map_iff in Hin as (l & <- & Hl).
    destruct (levels_from_in _ _ _ Hl) as (z & -> & Hz1 & Hz2).
    exists z. repeat split; [exact Hz1 |].
    pose proof (Zfloor_bound cap) as [Hlo _].
    assert (z <= Zfloor cap)%Z by lia.
    apply IZR_le in H. lra.
Qed.

Lemma generateMilestones_levels_witness :
  generateMilestones (Some 0.5) None no_options = [].
Proof.
  apply (proj1 (proj2 (proj2 (generateMilestones_levels (Some 0.5) None no_options)))).
  simpl. lra.
Defined.

(** The remainder of a positive integer by a positive integer. *)
Lemma rem_integers (z j : Z) :
  (0 <= z)%Z -> (0 < j)%Z -> Number.rem (IZR z) (IZR j) = Fin (IZR (z mod j)).
Proof.
  intros Hz Hj. unfold Number.rem.
  assert (Hj0 : 0 < IZR j) by (apply (IZR_lt 0); exact Hj).
  assert (Hz0 : 0 <= IZR z) by (apply (IZR_le 0); exact Hz).
  replace (Reqb (IZR j) 0) with false by (symmetry; apply Reqb_false; lra).
  assert (Hq : 0 <= IZR z / IZR j)
    by (apply Rmult_le_pos; [lra | left; now apply Rinv_0_lt_compat]).
  unfold Rtrunc.
  replace (Rltb (IZR z / IZR j) 0) with false by (symmetry; apply Rltb_false; lra).
  pose proof (Z.div_mod z j ltac:(lia)) as Hdm.
  pose proof (Z.mod_pos_bound z j Hj) as Hmod.
  assert (Hfloor : Rfloor (IZR z / IZR j) = IZR (z / j)).
  { apply Rfloor_eq.
    assert (H1 : (j * (z / j) <= z)%Z) by lia.
    assert (H2 : (z < j * (z / j) + j)%Z) by lia.
    apply IZR_le in H1. apply IZR_lt in H2.
    rewrite mult_IZR in H1. rewrite plus_IZR, mult_IZR in H2.
    split.
    - apply (Rmult_le_reg_r (IZR j)); [exact Hj0 |].
      unfold Rdiv. rewrite Rmult_assoc, Rinv_l by lra. lra.
    - apply (Rmult_lt_reg_r (IZR j)); [exact Hj0 |].
      unfold Rdiv. rewrite Rmult_assoc, Rinv_l by lra. lra. }
  rewrite Hfloor. f_equal.
  replace (z mod j)%Z with (z - j * (z / j))%Z by lia.
  now rewrite minus_IZR, mult_IZR.
Qed.

(** X18.  In the list of [generateMilestones] an entry is flagged
    [isMilestone] exactly when its level is a multiple of the interval, for
    a positive integer interval (10 by default); with an interval of 0 no
    entry is flagged.  The requirements follow [options], not the
    [maxLevel] argument: every entry at or above the cap of [options]
    repeats the requirement of that cap. *)
Theorem generateMilestones_flags :
  forall (maxLevel milestoneInterval : option R) (options : LevelCalculationOptions)
         (entry : Milestone.t),
    In entry (generateMilestones maxLevel milestoneInterval options) ->
    (forall j : Z,
        override milestoneInterval 10 = IZR j -> (0 < j)%Z ->
        exists z : Z,
          Milestone.level entry = IZR z /\
          (Milestone.isMilestone entry = true <-> (j | z)%Z)) /\
    (override milestoneInterval 10 = 0 -> Milestone.isMilestone entry = false) /\
    (1 <= Required.maxLevel (spread DEFAULT_OPTIONS options) <= Milestone.level entry ->
     Milestone.requiredXP entry
     = getRequiredXP (Required.maxLevel (spread DEFAULT_OPTIONS options)) options).
Proof.
  intros maxLevel milestoneInterval options entry Hin.
  unfold generateMilestones in Hin.
  rewrite (generateMilestones_loop_closed _ _ _
             (Z.to_nat (Zfloor (override maxLevel 100))) 1 []) in Hin
    by (f_equal; lia).
  simpl app in Hin. apply in_map_iff in Hin as (l & <- & Hl).
  destruct (levels_from_in _ _ _ Hl) as (z & -> & Hz1 & _).
  unfold milestone_entry.
  cbn [Milestone.level Milestone.isMilestone Milestone.requiredXP].
  split; [| split].
  - intros j -> Hj. exists z. split; [reflexivity |].
    rewrite rem_integers by lia. cbn [Number.strict_equal].
    rewrite Reqb_true, <- (Z.mod_divide z j) by lia.
    split; [intros H; now apply eq_IZR in H | intros ->; reflexivity].
  - intros ->. unfold Number.rem.
    now replace (Reqb 0 0) with true by (symmetry; now apply Reqb_true).
  - intros Hcap. rewrite !getRequiredXP_at_cap by lra. reflexivity.
Qed.

Lemma levels_from_contains (first z : Z) (count : nat) :
  (first <= z < first + Z.of_nat count)%Z -> In (IZR z) (levels_from first count).
Proof.
  revert first. induction count as [| count IH]; intros first Hz; [lia |].
  simpl. destruct (Z.eq_dec first z) as [-> | Hne]; [now left | right].
  apply IH. lia.
Qed.

Lemma generateMilestones_contains maxLevel milestoneInterval options (z : Z) :
  (1 <= z <= Zfloor (override maxLevel 100))%Z ->
  In (milestone_entry (override milestoneInterval 10) options (IZR z))
     (generateMilestones maxLevel milestoneInterval options).
Proof.
  intros Hz. unfold generateMilestones.
  rewrite (generateMilestones_loop_closed _ _ _
             (Z.to_nat (Zfloor (override maxLevel 100))) 1 []) by (f_equal; lia).
  simpl app. apply in_map. apply levels_from_contains. lia.
Qed.

Lemma generateMilestones_flags_witness :
  Milestone.requiredXP (milestone_entry 10 no_options 120)
  = getRequiredXP 100 no_options /\
  (Milestone.isMilestone (milestone_entry 10 no_options 120) = true <-> (10 | 120)%Z).
Proof.
  assert (Hin : In (milestone_entry 10 no_options 120)
                  (generateMilestones (Some 150) None no_options)).
  { apply (generateMilestones_contains (Some 150) None no_options 120).
    simpl. rewrite (ZfloorZ 150). lia. }
  destruct (generateMilestones_flags (Some 150) None no_options _ Hin)
    as (Hflag & _ & Hcap).
  split.
  - apply Hcap. simpl. lra.
  - destruct (Hflag 10%Z ltac:(reflexivity) ltac:(lia)) as (z & Hz & Hiff).
    simpl in Hz. apply eq_IZR in Hz. subst z. exact Hiff.
Defined.

(** ** [calculatePrestige] *)



(** * Binary64 rounding *)

Lemma Rabs_bound (a b : R) : Rabs a <= b -> - b <= a <= b.
Proof. unfold Rabs. destruct (Rcase_abs a); lra. Qed.

(** ** Powers of two *)

Lemma pow2_pos (e : Z) : 0 < powerRZ 2 e.
Proof. apply powerRZ_lt. lra. Qed.

Lemma pow2_add (a b : Z) : powerRZ 2 (a + b) = powerRZ 2 a * powerRZ 2 b.
Proof. apply powerRZ_add. lra. Qed.

Lemma pow2_opp (a : Z) : powerRZ 2 (- a) = / powerRZ 2 a.
Proof. apply powerRZ_neg'. Qed.

Lemma pow2_cancel (a : Z) : powerRZ 2 (- a) * powerRZ 2 a = 1.
Proof. rewrite <- pow2_add. replace (- a + a)%Z with 0%Z by lia. reflexivity. Qed.

Lemma pow2_IZR (a : Z) : (0 <= a)%Z -> powerRZ 2 a = IZR (2 ^ a).
Proof.
  intros Ha. destruct a as [| p | p]; [reflexivity | | lia].
  change (Z.pow 2 (Z.pos p)) with (Z.pow_pos 2 p).
  now rewrite Zpower_pos_powerRZ.
Qed.

Lemma pow2_inv_IZR (a : Z) : (a <= 0)%Z -> powerRZ 2 a = / IZR (2 ^ (- a)).
Proof.
  intros Ha. rewrite <- pow2_IZR by lia. rewrite <- pow2_opp. f_equal. lia.
Qed.

Lemma pow2_le (a b : Z) : (a <= b)%Z -> powerRZ 2 a <= powerRZ 2 b.
Proof.
  intros Hab. rewrite !powerRZ_Rpower by lra.
  apply Rle_Rpower; [lra | now apply IZR_le].
Qed.

Lemma pow2_lt (a b : Z) : (a < b)%Z -> powerRZ 2 a < powerRZ 2 b.
Proof.
  intros Hab. rewrite !powerRZ_Rpower by lra.
  apply Rpower_lt; [lra | now apply IZR_lt].
Qed.

Lemma pow2_1 : powerRZ 2 1 = 2.
Proof. simpl. lra. Qed.

Lemma pow2_m1 : powerRZ 2 (-1) = / 2.
Proof. simpl. now rewrite Rmult_1_r. Qed.

Lemma ln2_pos : 0 < ln 2.
Proof. pose proof ln_lt_2. lra. Qed.

Lemma ln_pow2 (e : Z) : ln (powerRZ 2 e) = IZR e * ln 2.
Proof. rewrite powerRZ_Rpower by lra. apply ln_Rpower. Qed.

(** ** The leading bit *)

Lemma ln_le (x y : R) : 0 < x -> x <= y -> ln x <= ln y.
Proof.
  intros Hx [Hlt | ->]; [left; now apply ln_increasing | right; reflexivity].
Qed.

Lemma mag_pos_le (x y : R) : 0 < x -> x <= y -> (Binary64.mag x <= Binary64.mag y)%Z.
Proof.
  intros Hx Hxy. unfold Binary64.mag. apply Zfloor_le.
  rewrite !Rabs_pos_eq by lra.
  apply Rmult_le_compat_r; [left; apply Rinv_0_lt_compat, ln2_pos |].
  now apply ln_le.
Qed.

Lemma mag_ge (x : R) (e : Z) : powerRZ 2 e <= x -> (e <= Binary64.mag x)%Z.
Proof.
  intros Hx. pose proof (pow2_pos e) as He.
  unfold Binary64.mag. apply Zfloor_lub. rewrite Rabs_pos_eq by lra.
  apply (Rmult_le_reg_r (ln 2)); [apply ln2_pos |].
  unfold Rdiv. rewrite Rmult_assoc, Rinv_l by (pose proof ln2_pos; lra).
  rewrite Rmult_1_r, <- ln_pow2. now apply ln_le.
Qed.

Lemma mag_lt (x : R) (e : Z) : 0 < x -> x < powerRZ 2 e -> (Binary64.mag x < e)%Z.
Proof.
  intros H0 Hx. unfold Binary64.mag. rewrite Rabs_pos_eq by lra.
  apply lt_IZR.
  pose proof (Zfloor_bound (ln x / ln 2)) as [Hlo _].
  apply Rle_lt_trans with (1 := Hlo).
  apply (Rmult_lt_reg_r (ln 2)); [apply ln2_pos |].
  unfold Rdiv. rewrite Rmult_assoc, Rinv_l by (pose proof ln2_pos; lra).
  rewrite Rmult_1_r, <- ln_pow2. now apply ln_increasing.
Qed.

Lemma mag_bounds (x : R) :
  0 < x -> powerRZ 2 (Binary64.mag x) <= x < powerRZ 2 (Binary64.mag x + 1).
Proof.
  intros Hx. unfold Binary64.mag. rewrite Rabs_pos_eq by lra.
  pose proof (Zfloor_bound (ln x / ln 2)) as [Hlo Hhi].
  set (m := Zfloor (ln x / ln 2)) in *.
  pose proof ln2_pos as H2.
  assert (Hq : ln x / ln 2 * ln 2 = ln x) by (field; lra).
  split.
  - destruct (Rle_dec (powerRZ 2 m) x) as [H | H]; [exact H | exfalso].
    assert (Hl : ln x < ln (powerRZ 2 m)) by (apply ln_increasing; lra).
    rewrite ln_pow2 in Hl. nra.
  - destruct (Rlt_dec x (powerRZ 2 (m + 1))) as [H | H]; [exact H | exfalso].
    assert (Hl : ln (powerRZ 2 (m + 1)) <= ln x)
      by (apply ln_le; [apply pow2_pos | lra]).
    rewrite ln_pow2, plus_IZR in Hl. nra.
Qed.

Lemma mag_zero : Binary64.mag 0 = 0%Z.
Proof.
  unfold Binary64.mag. rewrite Rabs_R0.
  replace (ln 0) with 0.
  - unfold Rdiv. rewrite Rmult_0_l. apply (ZfloorZ 0%Z).
  - unfold ln. destruct (Rlt_dec 0 0) as [H | H]; [exfalso; lra | reflexivity].
Qed.

(** ** The nearest integer *)

Lemma nearest_even_cases (x : R) :
  (Binary64.nearest_even x = Zfloor x /\ x - IZR (Zfloor x) <= / 2) \/
  (Binary64.nearest_even x = (Zfloor x + 1)%Z /\ / 2 <= x - IZR (Zfloor x)).
Proof.
  unfold Binary64.nearest_even.
  destruct (Rltb (x - IZR (Zfloor x)) (/ 2)) eqn:E1.
  - apply Rltb_true in E1. left. split; [reflexivity | lra].
  - apply Rltb_false in E1.
    destruct (Rltb (/ 2) (x - IZR (Zfloor x))) eqn:E2.
    + right. split; [reflexivity | exact E1].
    + apply Rltb_false in E2.
      destruct (Z.even (Zfloor x)); [left | right]; split; auto.
Qed.

Lemma nearest_even_IZR (z : Z) : Binary64.nearest_even (IZR z) = z.
Proof.
  unfold Binary64.nearest_even. rewrite ZfloorZ.
  replace (Rltb (IZR z - IZR z) (/ 2)) with true; [reflexivity |].
  symmetry. apply Rltb_true. lra.
Qed.

Lemma nearest_even_error (x : R) :
  Rabs (IZR (Binary64.nearest_even x) - x) <= / 2.
Proof.
  pose proof (Zfloor_bound x) as [Hlo Hhi].
  destruct (nearest_even_cases x) as [[-> H] | [-> H]];
    [| rewrite plus_IZR]; apply Rabs_le; lra.
Qed.

(** Below a half-integer the nearest integer is at most its floor, above
    one it is at least its successor. *)
Lemma nearest_even_below (x : R) (z : Z) :
  x < IZR z + / 2 -> (Binary64.nearest_even x <= z)%Z.
Proof.
  intros Hx. pose proof (Zfloor_bound x) as [Hlo Hhi].
  destruct (nearest_even_cases x) as [[-> H] | [-> H]].
  - apply le_IZR. assert (IZR (Zfloor x) < IZR z + 1) by lra.
    rewrite <- plus_IZR in H0. apply lt_IZR in H0. apply IZR_le. lia.
  - assert (IZR (Zfloor x) < IZR z) by lra. apply lt_IZR in H0. lia.
Qed.

Lemma nearest_even_above (x : R) (z : Z) :
  IZR z - / 2 < x -> (z <= Binary64.nearest_even x)%Z.
Proof.
  intros Hx. pose proof (Zfloor_bound x) as [Hlo Hhi].
  destruct (nearest_even_cases x) as [[-> H] | [-> H]].
  - assert (IZR z - 1 < IZR (Zfloor x)) by lra.
    rewrite <- minus_IZR in H0. apply lt_IZR in H0. lia.
  - assert (IZR z - 1 < IZR (Zfloor x) + 1) by lra.
    rewrite <- minus_IZR, <- plus_IZR in H0. apply lt_IZR in H0. lia.
Qed.

Lemma nearest_even_le (x y : R) :
  x <= y -> (Binary64.nearest_even x <= Binary64.nearest_even y)%Z.
Proof.
  intros Hxy.
  pose proof (Zfloor_bound x) as [Hxlo Hxhi].
  pose proof (Zfloor_bound y) as [Hylo Hyhi].
  assert (Hf : (Zfloor x <= Zfloor y)%Z) by (apply Zfloor_le; exact Hxy).
  destruct (Z.eq_dec (Zfloor x) (Zfloor y)) as [E | NE].
  - unfold Binary64.nearest_even. rewrite <- E.
    destruct (Rltb (x - IZR (Zfloor x)) (/ 2)) eqn:X1.
    + destruct (Rltb (y - IZR (Zfloor x)) (/ 2)); [lia |].
      destruct (Rltb (/ 2) (y - IZR (Zfloor x))); [lia |].
      destruct (Z.even (Zfloor x)); lia.
    + apply Rltb_false in X1.
      replace (Rltb (y - IZR (Zfloor x)) (/ 2)) with false
        by (symmetry; apply Rltb_false; lra).
      destruct (Rltb (/ 2) (x - IZR (Zfloor x))) eqn:X2.
      * apply Rltb_true in X2.
        replace (Rltb (/ 2) (y - IZR (Zfloor x))) with true
          by (symmetry; apply Rltb_true; lra).
        lia.
      * destruct (Rltb (/ 2) (y - IZR (Zfloor x))); [destruct (Z.even (Zfloor x)); lia |].
        lia.
  - assert (Hlt : (Zfloor x + 1 <= Zfloor y)%Z) by lia.
    destruct (nearest_even_cases x) as [[-> _] | [-> _]];
      destruct (nearest_even_cases y) as [[-> _] | [-> _]]; lia.
Qed.

(** ** Rounding a magnitude *)

Lemma ulp_exponent_pos_le (x y : R) :
  0 < x -> x <= y -> (Binary64.ulp_exponent x <= Binary64.ulp_exponent y)%Z.
Proof.
  intros Hx Hxy. unfold Binary64.ulp_exponent.
  pose proof (mag_pos_le x y Hx Hxy). lia.
Qed.

(** The scaled magnitude lies below [2 ^ 53]. *)
Lemma scaled_below (x : R) :
  0 <= x ->
  0 <= x * powerRZ 2 (- Binary64.ulp_exponent x) < powerRZ 2 53.
Proof.
  intros Hx. pose proof (pow2_pos (- Binary64.ulp_exponent x)) as Hp.
  split; [apply Rmult_le_pos; lra |].
  destruct Hx as [Hx | <-].
  2:{ rewrite Rmult_0_l. apply pow2_pos. }
  destruct (mag_bounds x Hx) as [_ Hhi].
  assert (He : (Binary64.mag x + 1 <= Binary64.ulp_exponent x + 53)%Z)
    by (unfold Binary64.ulp_exponent; lia).
  apply pow2_le in He. rewrite (pow2_add (Binary64.ulp_exponent x) 53) in He.
  apply (Rmult_lt_reg_r (powerRZ 2 (Binary64.ulp_exponent x))); [apply pow2_pos |].
  rewrite Rmult_assoc, pow2_cancel, Rmult_1_r, (Rmult_comm (powerRZ 2 53)).
  apply Rlt_le_trans with (1 := Hhi). exact He.
Qed.

Lemma round_magnitude_nonneg (x : R) : 0 <= x -> 0 <= Binary64.round_magnitude x.
Proof.
  intros Hx. unfold Binary64.round_magnitude.
  apply Rmult_le_pos; [| left; apply pow2_pos].
  apply (IZR_le 0). apply nearest_even_above.
  pose proof (scaled_below x Hx). simpl. lra.
Qed.

(** The rounded magnitude stays within the binade of its last place. *)
Lemma round_magnitude_upper (x : R) :
  0 <= x ->
  Binary64.round_magnitude x <= powerRZ 2 (Binary64.ulp_exponent x + 53).
Proof.
  intros Hx. unfold Binary64.round_magnitude.
  rewrite Z.add_comm, pow2_add.
  apply Rmult_le_compat_r; [left; apply pow2_pos |].
  rewrite (pow2_IZR 53) by lia. apply IZR_le.
  apply nearest_even_below. rewrite <- (pow2_IZR 53) by lia.
  pose proof (scaled_below x Hx). lra.
Qed.

Lemma round_magnitude_lower (x : R) :
  0 < x -> Binary64.ulp_exponent x = (Binary64.mag x - 52)%Z ->
  powerRZ 2 (Binary64.mag x) <= Binary64.round_magnitude x.
Proof.
  intros Hx He. unfold Binary64.round_magnitude. rewrite He.
  replace (Binary64.mag x) with (52 + (Binary64.mag x - 52))%Z at 1 by lia.
  rewrite pow2_add.
  apply Rmult_le_compat_r; [left; apply pow2_pos |].
  rewrite (pow2_IZR 52) by lia. apply IZR_le.
  apply nearest_even_above. rewrite <- (pow2_IZR 52) by lia.
  destruct (mag_bounds x Hx) as [Hlo _].
  assert (H : powerRZ 2 52 <= x * powerRZ 2 (- (Binary64.mag x - 52))).
  { apply (Rmult_le_reg_r (powerRZ 2 (Binary64.mag x - 52))); [apply pow2_pos |].
    rewrite Rmult_assoc, pow2_cancel, Rmult_1_r, <- pow2_add.
    replace (52 + (Binary64.mag x - 52))%Z with (Binary64.mag x) by lia. exact Hlo. }
  lra.
Qed.

Lemma round_magnitude_le (x y : R) :
  0 <= x -> x <= y -> Binary64.round_magnitude x <= Binary64.round_magnitude y.
Proof.
  intros Hx Hxy.
  destruct Hx as [Hx | <-].
  2:{ unfold Binary64.round_magnitude at 1. rewrite Rmult_0_l.
      rewrite (nearest_even_IZR 0), Rmult_0_l.
      apply round_magnitude_nonneg. exact Hxy. }
  assert (Hy : 0 < y) by lra.
  pose proof (ulp_exponent_pos_le x y Hx Hxy) as He.
  destruct (Z.eq_dec (Binary64.ulp_exponent x) (Binary64.ulp_exponent y)) as [E | NE].
  - unfold Binary64.round_magnitude. rewrite E.
    apply Rmult_le_compat_r; [left; apply pow2_pos |].
    apply IZR_le, nearest_even_le.
    apply Rmult_le_compat_r; [left; apply pow2_pos | exact Hxy].
  - assert (Hnormal : Binary64.ulp_exponent y = (Binary64.mag y - 52)%Z).
    { unfold Binary64.ulp_exponent in *. lia. }
    apply Rle_trans with (powerRZ 2 (Binary64.ulp_exponent x + 53)).
    + apply round_magnitude_upper. lra.
    + apply Rle_trans with (powerRZ 2 (Binary64.mag y)).
      * apply pow2_le. lia.
      * now apply round_magnitude_lower.
Qed.

(** A magnitude [k * 2 ^ g] with [k < 2 ^ 53] and [g >= -1074] is a binary64
    number: rounding leaves it as it is. *)
Lemma round_magnitude_fixed (k g : Z) :
  (0 <= k < 2 ^ 53)%Z -> (-1074 <= g)%Z ->
  Binary64.round_magnitude (IZR k * powerRZ 2 g) = IZR k * powerRZ 2 g.
Proof.
  intros [Hk0 Hk] Hg.
  destruct (Z.eq_dec k 0) as [-> | Hk1].
  { unfold Binary64.round_magnitude. rewrite !Rmult_0_l.
    now rewrite (nearest_even_IZR 0), Rmult_0_l. }
  set (x := IZR k * powerRZ 2 g).
  assert (Hx : 0 < x).
  { apply Rmult_lt_0_compat; [apply (IZR_lt 0); lia | apply pow2_pos]. }
  assert (Hm : (Binary64.mag x < 53 + g)%Z).
  { apply mag_lt; [exact Hx |]. unfold x. rewrite pow2_add.
    apply Rmult_lt_compat_r; [apply pow2_pos |].
    rewrite (pow2_IZR 53) by lia. now apply IZR_lt. }
  assert (He : (Binary64.ulp_exponent x <= g)%Z)
    by (unfold Binary64.ulp_exponent; lia).
  unfold Binary64.round_magnitude.
  set (e := Binary64.ulp_exponent x) in *.
  assert (Hs : x * powerRZ 2 (- e) = IZR (k * 2 ^ (g - e))).
  { unfold x. rewrite Rmult_assoc, <- pow2_add, mult_IZR.
    rewrite <- pow2_IZR by lia. reflexivity. }
  rewrite Hs, nearest_even_IZR, mult_IZR, <- pow2_IZR by lia.
  unfold x. rewrite Rmult_assoc, <- pow2_add. f_equal. f_equal. lia.
Qed.

(** ** Rounding *)

Lemma round_magnitude_zero : Binary64.round_magnitude 0 = 0.
Proof.
  unfold Binary64.round_magnitude. rewrite Rmult_0_l.
  now rewrite (nearest_even_IZR 0), Rmult_0_l.
Qed.

Lemma round_nonneg_eq (x : R) : 0 <= x -> Binary64.round x = Binary64.round_magnitude x.
Proof.
  intros Hx. unfold Binary64.round.
  now replace (Rltb x 0) with false by (symmetry; apply Rltb_false; lra).
Qed.

Lemma round_neg_eq (x : R) : x <= 0 -> Binary64.round x = - Binary64.round_magnitude (- x).
Proof.
  intros [Hx | ->].
  - unfold Binary64.round.
    now replace (Rltb x 0) with true by (symmetry; apply Rltb_true; lra).
  - rewrite round_nonneg_eq by lra. rewrite Ropp_0, round_magnitude_zero. lra.
Qed.

Lemma round_zero : Binary64.round 0 = 0.
Proof. rewrite round_nonneg_eq by lra. apply round_magnitude_zero. Qed.

Lemma round_opp (x : R) : Binary64.round (- x) = - Binary64.round x.
Proof.
  destruct (Rle_dec 0 x) as [Hx | Hx].
  - rewrite (round_neg_eq (- x)) by lra. rewrite (round_nonneg_eq x) by lra.
    now rewrite Ropp_involutive.
  - rewrite (round_nonneg_eq (- x)) by lra. rewrite (round_neg_eq x) by lra. lra.
Qed.

Lemma round_nonneg (x : R) : 0 <= x -> 0 <= Binary64.round x.
Proof.
  intros Hx. rewrite round_nonneg_eq by exact Hx. now apply round_magnitude_nonneg.
Qed.

Lemma round_nonpos (x : R) : x <= 0 -> Binary64.round x <= 0.
Proof.
  intros Hx. rewrite round_neg_eq by exact Hx.
  pose proof (round_magnitude_nonneg (- x)). lra.
Qed.

(** Rounding is monotone. *)
Lemma round_le (x y : R) : x <= y -> Binary64.round x <= Binary64.round y.
Proof.
  intros Hxy. destruct (Rle_dec 0 x) as [Hx | Hx].
  - rewrite !round_nonneg_eq by lra. now apply round_magnitude_le.
  - destruct (Rle_dec 0 y) as [Hy | Hy].
    + pose proof (round_nonpos x). pose proof (round_nonneg y). lra.
    + rewrite !round_neg_eq by lra.
      pose proof (round_magnitude_le (- y) (- x)). lra.
Qed.

(** The binary64 numbers: [k * 2 ^ g] with [|k| < 2 ^ 53] and [g >= -1074]
    (and below [2 ^ 1024] in magnitude). *)
Lemma round_fixed (k g : Z) :
  (Z.abs k < 2 ^ 53)%Z -> (-1074 <= g)%Z ->
  Binary64.round (IZR k * powerRZ 2 g) = IZR k * powerRZ 2 g.
Proof.
  intros Hk Hg. pose proof (pow2_pos g) as Hp.
  destruct (Z_le_gt_dec 0 k) as [Hk0 | Hk0].
  - assert (0 <= IZR k) by (apply (IZR_le 0); exact Hk0).
    rewrite round_nonneg_eq by (apply Rmult_le_pos; lra).
    apply round_magnitude_fixed; lia.
  - assert (IZR k < 0) by (apply (IZR_lt _ 0); lia).
    rewrite round_neg_eq by nra.
    replace (- (IZR k * powerRZ 2 g)) with (IZR (- k) * powerRZ 2 g)
      by (rewrite opp_IZR; ring).
    rewrite round_magnitude_fixed by lia. rewrite opp_IZR. ring.
Qed.

(** Every integer up to [2 ^ 53] in magnitude is a binary64 number. *)
Lemma round_integer (z : Z) :
  (Z.abs z <= 2 ^ 53)%Z -> Binary64.round (IZR z) = IZR z.
Proof.
  intros Hz. destruct (Z.eq_dec (Z.abs z) (2 ^ 53)) as [E | NE].
  - assert (Hz2 : z = (2 ^ 52 * 2)%Z \/ z = (- 2 ^ 52 * 2)%Z) by lia.
    destruct Hz2 as [-> | ->]; rewrite mult_IZR, <- pow2_1;
      apply round_fixed; lia.
  - rewrite <- (Rmult_1_r (IZR z)). change 1 with (powerRZ 2 0).
    apply round_fixed; lia.
Qed.

(** Rounding never crosses a binary64 number. *)
Lemma round_le_fixed (x : R) (k g : Z) :
  (Z.abs k < 2 ^ 53)%Z -> (-1074 <= g)%Z ->
  x <= IZR k * powerRZ 2 g -> Binary64.round x <= IZR k * powerRZ 2 g.
Proof.
  intros Hk Hg Hx. rewrite <- (round_fixed k g Hk Hg). now apply round_le.
Qed.

Lemma round_ge_fixed (x : R) (k g : Z) :
  (Z.abs k < 2 ^ 53)%Z -> (-1074 <= g)%Z ->
  IZR k * powerRZ 2 g <= x -> IZR k * powerRZ 2 g <= Binary64.round x.
Proof.
  intros Hk Hg Hx. rewrite <- (round_fixed k g Hk Hg). now apply round_le.
Qed.

Lemma round_le_integer (x : R) (z : Z) :
  (Z.abs z <= 2 ^ 53)%Z -> x <= IZR z -> Binary64.round x <= IZR z.
Proof.
  intros Hz Hx. rewrite <- (round_integer z Hz). now apply round_le.
Qed.

Lemma round_ge_integer (x : R) (z : Z) :
  (Z.abs z <= 2 ^ 53)%Z -> IZR z <= x -> IZR z <= Binary64.round x.
Proof.
  intros Hz Hx. rewrite <- (round_integer z Hz). now apply round_le.
Qed.

(** Between [2 ^ 53] and [2 ^ 54] the binary64 numbers are the even
    integers. *)
Lemma mag_unique (x : R) (e : Z) :
  powerRZ 2 e <= x < powerRZ 2 (e + 1) -> Binary64.mag x = e.
Proof.
  intros [Hlo Hhi]. pose proof (pow2_pos e).
  pose proof (mag_ge x e Hlo). pose proof (mag_lt x (e + 1) ltac:(lra) Hhi). lia.
Qed.

Lemma round_even_spacing (x : R) :
  IZR (2 ^ 53) <= x < IZR (2 ^ 54) ->
  Binary64.round x = 2 * IZR (Binary64.nearest_even (x / 2)).
Proof.
  intros [Hlo Hhi].
  assert (H53 : 0 < IZR (2 ^ 53)) by (apply (IZR_lt 0); lia).
  rewrite round_nonneg_eq by lra.
  unfold Binary64.round_magnitude, Binary64.ulp_exponent.
  rewrite (mag_unique x 53) by (rewrite !pow2_IZR by lia; simpl Z.add; lra).
  replace (Z.max (53 - 52) (-1074)) with 1%Z by lia.
  rewrite pow2_1. change (- (1))%Z with (-1)%Z. rewrite pow2_m1.
  unfold Rdiv. ring.
Qed.

(** In the normal range the relative error is at most [2 ^ -53]. *)
Lemma round_error (x : R) :
  powerRZ 2 (-1022) <= x ->
  Rabs (Binary64.round x - x) <= x * powerRZ 2 (-53).
Proof.
  intros Hx. pose proof (pow2_pos (-1022)) as H0.
  rewrite round_nonneg_eq by lra. unfold Binary64.round_magnitude.
  assert (Hm : (-1022 <= Binary64.mag x)%Z) by (now apply mag_ge).
  assert (He : Binary64.ulp_exponent x = (Binary64.mag x - 52)%Z)
    by (unfold Binary64.ulp_exponent; lia).
  rewrite He. set (e := (Binary64.mag x - 52)%Z).
  pose proof (nearest_even_error (x * powerRZ 2 (- e))) as Herr.
  pose proof (pow2_pos e) as Hpe.
  destruct (mag_bounds x ltac:(lra)) as [Hlo _].
  replace (IZR (Binary64.nearest_even (x * powerRZ 2 (- e))) * powerRZ 2 e - x)
    with ((IZR (Binary64.nearest_even (x * powerRZ 2 (- e))) - x * powerRZ 2 (- e))
          * powerRZ 2 e).
  2:{ rewrite Rmult_minus_distr_r, Rmult_assoc, pow2_cancel. ring. }
  rewrite Rabs_mult, (Rabs_pos_eq (powerRZ 2 e)) by lra.
  apply Rle_trans with (/ 2 * powerRZ 2 e).
  - apply Rmult_le_compat_r; lra.
  - replace (/ 2 * powerRZ 2 e) with (powerRZ 2 (Binary64.mag x) * powerRZ 2 (-53)).
    + apply Rmult_le_compat_r; [left; apply pow2_pos | exact Hlo].
    + rewrite <- pow2_add. replace (Binary64.mag x + -53)%Z with (-1 + e)%Z by (unfold e; lia).
      rewrite pow2_add, pow2_m1. reflexivity.
Qed.

(** ** The number delivered by an operation *)

Lemma pow2_1024_pos : 0 < powerRZ 2 1024.
Proof. apply pow2_pos. Qed.

Lemma number_of_cases (x : R) :
  (Binary64.number_of x = Fin (Binary64.round x) /\
   - powerRZ 2 1024 < Binary64.round x < powerRZ 2 1024) \/
  (Binary64.number_of x = PosInf /\ powerRZ 2 1024 <= Binary64.round x) \/
  (Binary64.number_of x = NegInf /\ Binary64.round x <= - powerRZ 2 1024).
Proof.
  unfold Binary64.number_of. pose proof pow2_1024_pos as Hp.
  destruct (Rleb (powerRZ 2 1024) (Binary64.round x)) eqn:E1.
  - apply Rleb_true in E1. right. left. split; [reflexivity | exact E1].
  - apply Rleb_false in E1.
    destruct (Rleb (Binary64.round x) (- powerRZ 2 1024)) eqn:E2.
    + apply Rleb_true in E2. right. right. split; [reflexivity | exact E2].
    + apply Rleb_false in E2. left. split; [reflexivity | lra].
Qed.

Lemma number_of_finite (x : R) :
  - powerRZ 2 1024 < Binary64.round x < powerRZ 2 1024 ->
  Binary64.number_of x = Fin (Binary64.round x).
Proof.
  intros H. destruct (number_of_cases x) as [[E _] | [[_ E] | [_ E]]];
    [exact E | lra | lra].
Qed.

Lemma number_of_le (x y : R) :
  x <= y -> Number.le (Binary64.number_of x) (Binary64.number_of y) = true.
Proof.
  intros Hxy. pose proof (round_le x y Hxy) as Hr. pose proof pow2_1024_pos as Hp.
  destruct (number_of_cases x) as [[-> Hx] | [[-> Hx] | [-> Hx]]];
    destruct (number_of_cases y) as [[-> Hy] | [[-> Hy] | [-> Hy]]];
    simpl; try reflexivity; try (apply Rleb_true; lra); exfalso; lra.
Qed.

Lemma pow2_53_1024 : IZR (2 ^ 53) < powerRZ 2 1024.
Proof. rewrite <- pow2_IZR by lia. apply pow2_lt. lia. Qed.

(** An integer up to [2 ^ 53] in magnitude is delivered as it is. *)
Lemma number_of_integer (z : Z) :
  (Z.abs z <= 2 ^ 53)%Z -> Binary64.number_of (IZR z) = Fin (IZR z).
Proof.
  intros Hz. rewrite number_of_finite; rewrite round_integer by exact Hz;
    [reflexivity |].
  pose proof pow2_53_1024.
  assert (- IZR (2 ^ 53) <= IZR z <= IZR (2 ^ 53)).
  { rewrite <- opp_IZR. split; apply IZR_le; lia. }
  lra.
Qed.

(** A result between two integers of that range stays between them. *)
Lemma number_of_between (x : R) (a b : Z) :
  (Z.abs a <= 2 ^ 53)%Z -> (Z.abs b <= 2 ^ 53)%Z ->
  IZR a <= x <= IZR b ->
  Binary64.number_of x = Fin (Binary64.round x) /\
  IZR a <= Binary64.round x <= IZR b.
Proof.
  intros Ha Hb [H1 H2].
  pose proof (round_ge_integer x a Ha H1) as Hlo.
  pose proof (round_le_integer x b Hb H2) as Hhi.
  split; [| split; assumption].
  apply number_of_finite. pose proof pow2_53_1024.
  assert (- IZR (2 ^ 53) <= IZR a) by (rewrite <- opp_IZR; apply IZR_le; lia).
  assert (IZR b <= IZR (2 ^ 53)) by (apply IZR_le; lia).
  lra.
Qed.

Lemma number_of_nonneg (x : R) :
  0 <= x ->
  (exists r : R, Binary64.number_of x = Fin r /\ 0 <= r) \/
  Binary64.number_of x = PosInf.
Proof.
  intros Hx. pose proof (round_nonneg x Hx) as Hr. pose proof pow2_1024_pos.
  destruct (number_of_cases x) as [[E _] | [[E _] | [_ E]]].
  - left. eauto.
  - now right.
  - exfalso. lra.
Qed.

(** A sum, difference or product of integers that stays within [2 ^ 53] is
    exact. *)
Lemma add_integers (a b : Z) :
  (Z.abs (a + b) <= 2 ^ 53)%Z ->
  Binary64.add (Fin (IZR a)) (Fin (IZR b)) = Fin (IZR (a + b)).
Proof.
  intros H. simpl. rewrite <- plus_IZR. now apply number_of_integer.
Qed.

Lemma sub_integers (a b : Z) :
  (Z.abs (a - b) <= 2 ^ 53)%Z ->
  Binary64.sub (Fin (IZR a)) (Fin (IZR b)) = Fin (IZR (a - b)).
Proof.
  intros H. simpl. rewrite <- minus_IZR. now apply number_of_integer.
Qed.

(** ** The midpoint of the search

    From an integer [low >= 1] and a [high < 2 ^ 53] the midpoint computed
    in binary64 is an integer that splits the range in two halves, although
    [low + high] may have been rounded. *)

Lemma round_sum_upper (s : R) (a j1 : Z) :
  (0 < a)%Z -> (a <= 2 ^ 54 - 2)%Z -> j1 = ((a + 1) / 2)%Z ->
  IZR a <= s < IZR a + 1 ->
  Binary64.round (Binary64.round s / 2) < IZR j1 + 1.
Proof.
  intros Ha0 Ha Hj1 [Hs1 Hs2].
  pose proof (Z.div_mod (a + 1) 2 ltac:(lia)) as Hdm.
  pose proof (Z.mod_pos_bound (a + 1) 2 ltac:(lia)) as Hmod.
  rewrite <- Hj1 in Hdm.
  assert (Hsj : s / 2 < IZR j1 + / 2).
  { assert (IZR (a + 1) <= IZR (2 * j1 + 1)) by (apply IZR_le; lia).
    rewrite !plus_IZR, mult_IZR in H. lra. }
  destruct (Z_lt_ge_dec (a + 1) (2 ^ 53)) as [Hsmall | Hlarge].
  - assert (Hr : Binary64.round s <= IZR (a + 1)).
    { apply round_le_integer; [lia | rewrite plus_IZR; lra]. }
    assert (Hq : Binary64.round (Binary64.round s / 2) <= IZR (2 * j1 + 1) * powerRZ 2 (-1)).
    { apply round_le_fixed; [lia | lia |]. rewrite pow2_m1.
      assert (IZR (a + 1) <= IZR (2 * j1 + 1)) by (apply IZR_le; lia). lra. }
    rewrite pow2_m1, plus_IZR, mult_IZR in Hq. lra.
  - assert (Hr : Binary64.round s <= 2 * IZR j1).
    { destruct (Rlt_dec s (IZR (2 ^ 53))) as [Hlt | Hge].
      - assert (a = 2 ^ 53 - 1)%Z.
        { assert (IZR a < IZR (2 ^ 53)) by lra. apply lt_IZR in H. lia. }
        assert (Binary64.round s <= IZR (2 ^ 53)) by (apply round_le_integer; [lia | lra]).
        assert (IZR (2 ^ 53) <= IZR (2 * j1)) by (apply IZR_le; lia).
        rewrite mult_IZR in H1. lra.
      - rewrite round_even_spacing.
        + assert (Binary64.nearest_even (s / 2) <= j1)%Z
            by (apply nearest_even_below; exact Hsj).
          apply IZR_le in H. lra.
        + split; [lra |].
          assert (IZR a + 1 <= IZR (2 ^ 54)) by (rewrite <- plus_IZR; apply IZR_le; lia).
          lra. }
    assert (Hq : Binary64.round (Binary64.round s / 2) <= IZR j1).
    { apply round_le_integer; [lia | lra]. }
    lra.
Qed.

Lemma round_sum_lower (s : R) (a j0 : Z) :
  (0 < a)%Z -> (a <= 2 ^ 54 - 2)%Z -> j0 = (a / 2)%Z ->
  IZR a <= s ->
  IZR j0 <= Binary64.round (Binary64.round s / 2).
Proof.
  intros Ha0 Ha Hj0 Hs.
  pose proof (Z.div_mod a 2 ltac:(lia)) as Hdm.
  pose proof (Z.mod_pos_bound a 2 ltac:(lia)) as Hmod.
  rewrite <- Hj0 in Hdm.
  assert (Hr : IZR j0 * powerRZ 2 1 <= Binary64.round s).
  { apply round_ge_fixed; [lia | lia |]. rewrite pow2_1.
    assert (IZR (2 * j0) <= IZR a) by (apply IZR_le; lia).
    rewrite mult_IZR in H. lra. }
  rewrite pow2_1 in Hr.
  apply round_ge_integer; [lia | lra].
Qed.

Lemma midpoint_search (zl : Z) (hi : R) :
  (1 <= zl)%Z -> IZR zl <= hi -> hi < IZR (2 ^ 53) ->
  exists zm : Z,
    Math.floor (Binary64.div (Binary64.add (Fin (IZR zl)) (Fin hi)) (Fin 2))
      = Fin (IZR zm) /\
    (zl + Zfloor hi - 1 <= 2 * zm <= zl + Zfloor hi + 1)%Z.
Proof.
  intros Hzl Hle Hhi.
  pose proof (Zfloor_bound hi) as [Hf1 Hf2].
  assert (Hfl : (zl <= Zfloor hi)%Z) by (apply Zfloor_lub; exact Hle).
  assert (Hfh : (Zfloor hi < 2 ^ 53)%Z) by (apply lt_IZR; lra).
  set (a := (zl + Zfloor hi)%Z).
  set (s := IZR zl + hi).
  assert (Hs : IZR a <= s < IZR a + 1) by (unfold a, s; rewrite plus_IZR; lra).
  assert (Ha0 : (0 < a)%Z) by (unfold a; lia).
  assert (Ha : (a <= 2 ^ 54 - 2)%Z) by (unfold a; lia).
  pose proof (round_sum_upper s a _ Ha0 Ha eq_refl Hs) as Hup.
  pose proof (round_sum_lower s a _ Ha0 Ha eq_refl (proj1 Hs)) as Hlow.
  pose proof (Z.div_mod a 2 ltac:(lia)) as Hdm0.
  pose proof (Z.mod_pos_bound a 2 ltac:(lia)) as Hmod0.
  pose proof (Z.div_mod (a + 1) 2 ltac:(lia)) as Hdm1.
  pose proof (Z.mod_pos_bound (a + 1) 2 ltac:(lia)) as Hmod1.
  set (j0 := (a / 2)%Z) in *. set (j1 := ((a + 1) / 2)%Z) in *.
  (* the sum *)
  assert (Hsb : 0 <= Binary64.round s <= IZR (2 ^ 53) * 2).
  { split; [apply round_nonneg; assert (0 < IZR a) by (apply (IZR_lt 0); exact Ha0); lra |].
    replace (IZR (2 ^ 53) * 2) with (IZR (2 ^ 52) * powerRZ 2 2)
      by (rewrite (pow2_IZR 2), <- !mult_IZR by lia; f_equal).
    apply round_le_fixed; [lia | lia |].
    rewrite (pow2_IZR 2), <- mult_IZR by lia.
    assert (IZR a + 1 <= IZR (2 ^ 52 * 2 ^ 2)).
    { rewrite <- (plus_IZR a 1). apply IZR_le. lia. }
    lra. }
  assert (Hsum : Binary64.add (Fin (IZR zl)) (Fin hi) = Fin (Binary64.round s)).
  { cbn [Binary64.add]. fold s. apply number_of_finite.
    pose proof pow2_53_1024.
    assert (IZR (2 ^ 53) * 2 < powerRZ 2 1024).
    { rewrite (pow2_IZR 1024), <- mult_IZR by lia. apply IZR_lt. reflexivity. }
    lra. }
  rewrite Hsum.
  (* the half *)
  assert (Hhalf : Binary64.div (Fin (Binary64.round s)) (Fin 2)
                  = Fin (Binary64.round (Binary64.round s / 2))).
  { cbn [Binary64.div].
    replace (Reqb 2 0) with false by (symmetry; apply Reqb_false; lra).
    apply (number_of_between _ 0 (2 ^ 53)); [lia | lia |]. lra. }
  rewrite Hhalf. cbn [Math.floor]. unfold Rfloor.
  exists (Zfloor (Binary64.round (Binary64.round s / 2))). split; [reflexivity |].
  assert (H1 : (j0 <= Zfloor (Binary64.round (Binary64.round s / 2)))%Z)
    by (apply Zfloor_lub; exact Hlow).
  assert (H2 : (Zfloor (Binary64.round (Binary64.round s / 2)) < j1 + 1)%Z).
  { apply lt_IZR. rewrite plus_IZR.
    pose proof (Zfloor_bound (Binary64.round (Binary64.round s / 2))). lra. }
  fold a. lia.
Qed.

(** ** The search loop in binary64 *)

Lemma loop_more_fuel totalXP options (fuel : nat) :
  forall (lo hi cur v : number) (fuel' : nat),
    Binary64.calculateLevel_loop totalXP options lo hi cur fuel = Some v ->
    (fuel <= fuel')%nat ->
    Binary64.calculateLevel_loop totalXP options lo hi cur fuel' = Some v.
Proof.
  induction fuel as [| fuel IH]; intros lo hi cur v fuel' Hrun Hle.
  - simpl in Hrun. destruct fuel'; simpl; destruct (Number.le lo hi);
      try discriminate; exact Hrun.
  - destruct fuel' as [| fuel']; [lia |].
    simpl in *. destruct (Number.le lo hi); [| exact Hrun].
    destruct (Number.le _ totalXP); apply IH; try assumption; lia.
Qed.

Lemma returns_unique {A : Type} (run : nat -> option A) (v1 v2 : A) :
  (forall fuel fuel' v, run fuel = Some v -> (fuel <= fuel')%nat -> run fuel' = Some v) ->
  Binary64.returns run v1 -> Binary64.returns run v2 -> v1 = v2.
Proof.
  intros Hmono [f1 H1] [f2 H2].
  pose proof (Hmono f1 (Nat.max f1 f2) v1 H1 ltac:(lia)) as E1.
  pose proof (Hmono f2 (Nat.max f1 f2) v2 H2 ltac:(lia)) as E2.
  congruence.
Qed.

Section Binary64Search.

Variable totalXP : number.
Variable options : Binary64.LevelCalculationOptions.

Lemma loop_local_bounded (n : nat) :
  forall (zl : Z) (hi : R) (cur : number) (fuel : nat),
    (1 <= zl)%Z -> hi < IZR (2 ^ 53) ->
    (search_measure (IZR zl) hi < n)%nat ->
    (iteration_bound (search_measure (IZR zl) hi) <= fuel)%nat ->
    exists v : number,
      Binary64.calculateLevel_loop totalXP options (Fin (IZR zl)) (Fin hi) cur fuel
        = Some v /\
      Binary64.search_result totalXP options zl hi cur v.
Proof.
  induction n as [| n IH]; intros zl hi cur fuel Hzl Hhi Hn Hfuel; [lia |].
  destruct (Rle_dec (IZR zl) hi) as [Hle | Hgt].
  2:{ exists cur. split.
      - destruct fuel; simpl; now replace (Rleb (IZR zl) hi) with false
          by (symmetry; apply Rleb_false; lra).
      - right. split; [reflexivity | intros H; lra]. }
  destruct (midpoint_search zl hi Hzl Hle Hhi) as (zm & Hmid & Hzm).
  pose proof (Zfloor_bound hi) as [Hf1 Hf2].
  assert (Hfl : (zl <= Zfloor hi)%Z) by (apply Zfloor_lub; exact Hle).
  assert (Hfh : (Zfloor hi < 2 ^ 53)%Z) by (apply lt_IZR; lra).
  assert (Hsize : search_measure (IZR zl) hi = Z.to_nat (Zfloor hi - zl + 1))
    by (unfold search_measure; now rewrite ZfloorZ).
  assert (Hright : search_measure (IZR (zm + 1)) hi = Z.to_nat (Zfloor hi - zm))
    by (unfold search_measure; rewrite ZfloorZ; f_equal; lia).
  assert (Hleft : search_measure (IZR zl) (IZR (zm - 1)) = Z.to_nat (zm - zl))
    by (unfold search_measure; rewrite !ZfloorZ; f_equal; lia).
  assert (Hpos : (1 <= search_measure (IZR zl) hi)%nat) by (rewrite Hsize; lia).
  assert (Hhr : (S (iteration_bound (search_measure (IZR (zm + 1)) hi))
                 <= iteration_bound (search_measure (IZR zl) hi))%nat).
  { apply iteration_bound_half; [rewrite Hright, Hsize; lia | exact Hpos]. }
  assert (Hhl : (S (iteration_bound (search_measure (IZR zl) (IZR (zm - 1))))
                 <= iteration_bound (search_measure (IZR zl) hi))%nat).
  { apply iteration_bound_half; [rewrite Hleft, Hsize; lia | exact Hpos]. }
  destruct fuel as [| fuel]; [lia |].
  assert (Hzmh : IZR zm <= hi).
  { assert (zm <= Zfloor hi)%Z by lia. apply IZR_le in H. lra. }
  cbn [Binary64.calculateLevel_loop Number.le].
  replace (Rleb (IZR zl) hi) with true by (symmetry; apply Rleb_true; exact Hle).
  rewrite Hmid.
  change (Number.le (Binary64.getRequiredXP (Fin (IZR zm)) options) totalXP)
    with (Binary64.reached totalXP options zm).
  destruct (Binary64.reached totalXP options zm) eqn:Hreach.
  - change (Fin 1) with (Fin (IZR 1)). rewrite add_integers by lia.
    destruct (IH (zm + 1)%Z hi (Fin (IZR zm)) fuel) as (v & Hrun & Hres);
      [lia | exact Hhi | rewrite Hright; rewrite Hsize in Hn; lia | lia |].
    exists v. split; [exact Hrun |]. left.
    destruct Hres as [(z & Hv & Hz1 & Hz2 & Hz3 & Hz4) | (Hv & Hnext)].
    + exists z. repeat split; try assumption. lia.
    + exists zm. repeat split; try assumption; [lia |].
      intros H. apply Hnext. rewrite plus_IZR. exact H.
  - change (Fin 1) with (Fin (IZR 1)). rewrite sub_integers by lia.
    destruct (IH zl (IZR (zm - 1)) cur fuel) as (v & Hrun & Hres);
      [exact Hzl | apply IZR_lt; lia | rewrite Hleft; rewrite Hsize in Hn; lia | lia |].
    exists v. split; [exact Hrun |].
    destruct Hres as [(z & Hv & Hz1 & Hz2 & Hz3 & Hz4) | (Hv & Hfirst)].
    + left. exists z. apply le_IZR in Hz2.
      repeat split; try assumption.
      * assert (IZR z <= IZR zm) by (apply IZR_le; lia). lra.
      * intros _. destruct (Z.eq_dec (z + 1) zm) as [-> | Hne]; [exact Hreach |].
        apply Hz4. rewrite <- plus_IZR. apply IZR_le. lia.
    + right. split; [exact Hv |]. intros _.
      destruct (Z.eq_dec zl zm) as [-> | Hne]; [exact Hreach |].
      apply Hfirst. apply IZR_le. lia.
Qed.

Lemma loop_local (zl : Z) (hi : R) (cur : number) (fuel : nat) :
  (1 <= zl)%Z -> hi < IZR (2 ^ 53) ->
  (iteration_bound (search_measure (IZR zl) hi) <= fuel)%nat ->
  exists v : number,
    Binary64.calculateLevel_loop totalXP options (Fin (IZR zl)) (Fin hi) cur fuel
      = Some v /\
    Binary64.search_result totalXP options zl hi cur v.
Proof.
  intros Hzl Hhi. apply (loop_local_bounded (S (search_measure (IZR zl) hi))); auto.
Qed.

End Binary64Search.

(** ** The curve in binary64 *)

Lemma Number_le_trans (a b c : number) :
  Number.le a b = true -> Number.le b c = true -> Number.le a c = true.
Proof.
  destruct a, b, c; simpl; try discriminate; try reflexivity.
  rewrite !Rleb_true. lra.
Qed.

Lemma Number_le_refl (a : number) : a <> NaN -> Number.le a a = true.
Proof.
  destruct a; simpl; try reflexivity; [intros _; apply Rleb_true; lra | congruence].
Qed.

Lemma Math_floor_le (a b : number) :
  Number.le a b = true -> Number.le (Math.floor a) (Math.floor b) = true.
Proof.
  destruct a, b; simpl; try discriminate; try reflexivity.
  rewrite !Rleb_true. apply Rfloor_le.
Qed.

Lemma Math_floor_NaN (a : number) : Math.floor a = NaN -> a = NaN.
Proof. destruct a; simpl; congruence. Qed.

Lemma pow_positive (l e : R) :
  0 < l -> Binary64.pow (Fin l) (Fin e) = Binary64.number_of (Rpower l e).
Proof.
  intros Hl. unfold Binary64.pow.
  destruct (Reqb e 0) eqn:He.
  - apply Reqb_true in He. subst e. rewrite Rpower_O by exact Hl.
    symmetry. apply (number_of_integer 1). lia.
  - apply Rltb_true in Hl. now rewrite Hl.
Qed.

Lemma Rpower_pos (l e : R) : 0 < Rpower l e.
Proof. unfold Rpower. apply exp_pos. Qed.

(** The product [baseXP * p] for a finite [baseXP >= 0] and a power [p]
    that is a number [>= 0] or [Infinity]. *)
Lemma mul_le (b p1 p2 : R) :
  0 <= b -> p1 <= p2 ->
  Number.le (Binary64.mul (Fin b) (Fin p1)) (Binary64.mul (Fin b) (Fin p2)) = true.
Proof.
  intros Hb Hp. simpl. apply number_of_le. now apply Rmult_le_compat_l.
Qed.

Lemma number_of_not_NaN (x : R) : Binary64.number_of x <> NaN.
Proof.
  destruct (number_of_cases x) as [[-> _] | [[-> _] | [-> _]]]; discriminate.
Qed.

Section Binary64Curve.

Variable options : Binary64.LevelCalculationOptions.
Variables b e m : R.

Hypothesis baseXP_finite :
  Binary64.Required.baseXP (Binary64.spread Binary64.DEFAULT_OPTIONS options) = Fin b.
Hypothesis exponent_finite :
  Binary64.Required.exponent (Binary64.spread Binary64.DEFAULT_OPTIONS options) = Fin e.
Hypothesis maxLevel_finite :
  Binary64.Required.maxLevel (Binary64.spread Binary64.DEFAULT_OPTIONS options) = Fin m.

Lemma getRequiredXP_below64 (l : R) :
  l < 1 -> Binary64.getRequiredXP (Fin l) options = Fin 0.
Proof.
  intros H. unfold Binary64.getRequiredXP. cbn [Number.lt].
  apply Rltb_true in H. now rewrite H.
Qed.

Lemma getRequiredXP_within64 (l : R) :
  1 <= l <= m ->
  Binary64.getRequiredXP (Fin l) options
  = Math.floor (Binary64.mul (Fin b) (Binary64.number_of (Rpower l e))).
Proof.
  intros [H1 H2]. unfold Binary64.getRequiredXP.
  rewrite baseXP_finite, exponent_finite, maxLevel_finite.
  cbn [Number.lt Number.gt].
  replace (Rltb l 1) with false by (symmetry; apply Rltb_false; lra).
  replace (Rltb m l) with false by (symmetry; apply Rltb_false; lra).
  rewrite pow_positive by lra. reflexivity.
Qed.

Lemma getRequiredXP_above64 (l : R) :
  1 <= l -> m < l ->
  Binary64.getRequiredXP (Fin l) options
  = Math.floor (Binary64.mul (Fin b) (Binary64.pow (Fin m) (Fin e))).
Proof.
  intros H1 H2. unfold Binary64.getRequiredXP.
  rewrite baseXP_finite, exponent_finite, maxLevel_finite.
  cbn [Number.lt Number.gt].
  replace (Rltb l 1) with false by (symmetry; apply Rltb_false; lra).
  replace (Rltb m l) with true by (symmetry; apply Rltb_true; lra).
  reflexivity.
Qed.

(** At or above a cap [maxLevel >= 1] the requirement is that of the cap. *)
Lemma getRequiredXP_at_cap64 (l : R) :
  1 <= m <= l ->
  Binary64.getRequiredXP (Fin l) options = Binary64.getRequiredXP (Fin m) options.
Proof.
  intros [H1 H2]. rewrite (getRequiredXP_within64 m) by lra.
  destruct (Rlt_dec m l) as [Hlt | Hge].
  - rewrite getRequiredXP_above64 by lra. now rewrite pow_positive by lra.
  - replace l with m by lra. apply getRequiredXP_within64. lra.
Qed.

(** With [baseXP >= 0] and [exponent >= 0] the requirement does not
    decrease with the level, as long as it is a number: once the power has
    overflowed, a [baseXP] of 0 makes it NaN. *)
Lemma getRequiredXP_le64 (l1 l2 : R) :
  0 <= b -> 0 <= e -> 1 <= l1 <= l2 -> l2 <= m ->
  Binary64.getRequiredXP (Fin l2) options <> NaN ->
  Number.le (Binary64.getRequiredXP (Fin l1) options)
            (Binary64.getRequiredXP (Fin l2) options) = true.
Proof.
  intros Hb He Hl Hm. rewrite !getRequiredXP_within64 by lra.
  intros Hnan. apply Math_floor_le.
  assert (Hp : Rpower l1 e <= Rpower l2 e) by (apply Rle_Rpower_l; lra).
  pose proof (round_le _ _ Hp) as Hr.
  pose proof (round_nonneg (Rpower l1 e) (Rlt_le _ _ (Rpower_pos l1 e))) as Hr0.
  pose proof pow2_1024_pos as H1024.
  destruct (number_of_cases (Rpower l2 e)) as [[E2 B2] | [[E2 B2] | [E2 B2]]];
    rewrite E2 in *.
  - rewrite (number_of_finite (Rpower l1 e)) by lra.
    apply mul_le; assumption.
  - cbn [Binary64.mul] in *. unfold Number.scale_inf in *.
    destruct (Rltb 0 b) eqn:Hb0.
    + destruct (number_of_cases (Rpower l1 e)) as [[E1 _] | [[E1 _] | [E1 B1]]];
        rewrite E1.
      * destruct (number_of_cases (b * Binary64.round (Rpower l1 e)))
          as [[-> _] | [[-> _] | [-> _]]]; reflexivity.
      * reflexivity.
      * exfalso. lra.
    + apply Rltb_false in Hb0.
      replace (Rltb b 0) with false in Hnan by (symmetry; apply Rltb_false; lra).
      exfalso. apply Hnan. reflexivity.
  - exfalso. pose proof (round_nonneg (Rpower l2 e) (Rlt_le _ _ (Rpower_pos l2 e))). lra.
Qed.

(** So the test of the search is downward closed on the levels up to the
    cap. *)
Lemma reached_downward_closed (totalXP : number) (a c : Z) :
  0 <= b -> 0 <= e -> (1 <= a <= c)%Z -> IZR c <= m ->
  Binary64.reached totalXP options c = true ->
  Binary64.reached totalXP options a = true.
Proof.
  intros Hb He Hac Hcm Hr. unfold Binary64.reached in *.
  assert (Hnan : Binary64.getRequiredXP (Fin (IZR c)) options <> NaN).
  { intros E. rewrite E in Hr. discriminate. }
  apply Number_le_trans with (2 := Hr).
  apply getRequiredXP_le64; try assumption.
  split; [apply (IZR_le 1) | apply IZR_le]; lia.
Qed.

(** The level the search hands back, on such a curve: the highest level
    whose requirement is met, or 1 when there is none. *)
Lemma search_result_highest (totalXP v : number) :
  0 <= b -> 0 <= e ->
  Binary64.search_result totalXP options 1 m (Fin 1) v ->
  (exists L : Z, v = Fin (IZR L) /\ Binary64.highest_reached totalXP options m L)
  \/ (v = Fin 1 /\ Binary64.none_reached totalXP options m).
Proof.
  intros Hb He [(z & Hv & Hz1 & Hz2 & Hz3 & Hz4) | (Hv & Hfirst)].
  - left. exists z. split; [exact Hv |]. repeat split; try assumption.
    intros L' HL1 HL2 HL3.
    destruct (Z_le_gt_dec L' z) as [Hle | Hgt]; [exact Hle | exfalso].
    assert (Hin : IZR z + 1 <= m).
    { assert (IZR (z + 1) <= IZR L') by (apply IZR_le; lia).
      rewrite plus_IZR in H. lra. }
    specialize (Hz4 Hin).
    rewrite (reached_downward_closed totalXP (z + 1) L') in Hz4;
      [discriminate | | | lia | |]; assumption.
  - right. split; [exact Hv |]. intros L' HL1 HL2.
    destruct (Binary64.reached totalXP options L') eqn:E; [exfalso | reflexivity].
    assert (H1m : IZR 1 <= m).
    { assert (IZR 1 <= IZR L') by (apply IZR_le; lia). lra. }
    specialize (Hfirst H1m).
    rewrite (reached_downward_closed totalXP 1 L') in Hfirst;
      [discriminate | | | lia | |]; assumption.
Qed.

End Binary64Curve.

(** ** [calculateLevel] in binary64 *)

Lemma calculateLevel_more_fuel totalXP options (fuel fuel' : nat) (v : number) :
  Binary64.calculateLevel totalXP options fuel = Some v ->
  (fuel <= fuel')%nat ->
  Binary64.calculateLevel totalXP options fuel' = Some v.
Proof.
  unfold Binary64.calculateLevel. destruct (Number.lt totalXP (Fin 0)); [auto |].
  apply loop_more_fuel.
Qed.

Lemma search_measure_from_1 (m : R) :
  search_measure (IZR 1) m = Z.to_nat (Zfloor m).
Proof. unfold search_measure. rewrite ZfloorZ. f_equal. lia. Qed.

(** Whatever the curve, with a cap below [2 ^ 53] the search returns within
    [iteration_bound] iterations, and what it returns is a local answer. *)
Lemma calculateLevel_local (totalXP : number) options (m : R) (fuel : nat) :
  Binary64.Required.maxLevel (Binary64.spread Binary64.DEFAULT_OPTIONS options) = Fin m ->
  m < IZR (2 ^ 53) ->
  (iteration_bound (Z.to_nat (Zfloor m)) <= fuel)%nat ->
  exists v : number,
    Binary64.calculateLevel totalXP options fuel = Some v /\
    (Number.lt totalXP (Fin 0) = true /\ v = Fin 1 \/
     Number.lt totalXP (Fin 0) = false /\
     Binary64.search_result totalXP options 1 m (Fin 1) v).
Proof.
  intros Hm Hcap Hfuel. unfold Binary64.calculateLevel. rewrite Hm.
  destruct (Number.lt totalXP (Fin 0)) eqn:Hneg.
  - exists (Fin 1). split; [reflexivity | left; split; reflexivity].
  - destruct (loop_local totalXP options 1 m (Fin 1) fuel) as (v & Hrun & Hres);
      [lia | exact Hcap | rewrite search_measure_from_1; exact Hfuel |].
    exists v. split; [exact Hrun | right; split; [reflexivity | exact Hres]].
Qed.

Lemma highest_reached_unique64 totalXP options hi L1 L2 :
  Binary64.highest_reached totalXP options hi L1 ->
  Binary64.highest_reached totalXP options hi L2 -> L1 = L2.
Proof.
  intros (A1 & A2 & A3 & A4) (B1 & B2 & B3 & B4).
  pose proof (A4 L2 B1 B2 B3). pose proof (B4 L1 A1 A2 A3). lia.
Qed.

Lemma highest_not_none64 totalXP options hi L :
  Binary64.highest_reached totalXP options hi L ->
  Binary64.none_reached totalXP options hi -> False.
Proof.
  intros (A1 & A2 & A3 & _) Hnone. rewrite (Hnone L A1 A2) in A3. discriminate.
Qed.

Section Binary64Level.

Variable options : Binary64.LevelCalculationOptions.
Variables b e m : R.

Hypothesis baseXP_finite :
  Binary64.Required.baseXP (Binary64.spread Binary64.DEFAULT_OPTIONS options) = Fin b.
Hypothesis exponent_finite :
  Binary64.Required.exponent (Binary64.spread Binary64.DEFAULT_OPTIONS options) = Fin e.
Hypothesis maxLevel_finite :
  Binary64.Required.maxLevel (Binary64.spread Binary64.DEFAULT_OPTIONS options) = Fin m.
Hypothesis baseXP_nonneg : 0 <= b.
Hypothesis exponent_nonneg : 0 <= e.

(** Within the range a requirement is a non-negative integer or
    [Infinity]; or NaN, when [baseXP] is 0 and the power overflows. *)
Lemma getRequiredXP_cases64 (l : R) :
  1 <= l <= m ->
  (exists k : Z, Binary64.getRequiredXP (Fin l) options = Fin (IZR k) /\ (0 <= k)%Z) \/
  Binary64.getRequiredXP (Fin l) options = PosInf \/
  (Binary64.getRequiredXP (Fin l) options = NaN /\ b = 0).
Proof.
  intros Hl.
  rewrite (getRequiredXP_within64 options b e m baseXP_finite exponent_finite
             maxLevel_finite l Hl).
  assert (Hfloor : forall y : R, 0 <= y ->
             (exists k : Z, Math.floor (Binary64.number_of y) = Fin (IZR k) /\ (0 <= k)%Z) \/
             Math.floor (Binary64.number_of y) = PosInf).
  { intros y Hy. destruct (number_of_nonneg y Hy) as [(r & -> & Hr) | ->].
    - left. exists (Zfloor r). split; [reflexivity |].
      apply Zfloor_lub. exact Hr.
    - now right. }
  destruct (number_of_nonneg (Rpower l e) (Rlt_le _ _ (Rpower_pos l e)))
    as [(p & -> & Hp) | ->].
  - cbn [Binary64.mul].
    destruct (Hfloor (b * p) (Rmult_le_pos _ _ baseXP_nonneg Hp)) as [H | H];
      [left; exact H | right; left; exact H].
  - cbn [Binary64.mul]. unfold Number.scale_inf.
    destruct (Rltb 0 b) eqn:Hb; [right; left; reflexivity |].
    apply Rltb_false in Hb.
    replace (Rltb b 0) with false by (symmetry; apply Rltb_false; lra).
    right. right. split; [reflexivity | lra].
Qed.

(** So negative XP meets no requirement of the range. *)
Lemma negative_none_reached (x : R) :
  x < 0 -> Binary64.none_reached (Fin x) options m.
Proof.
  intros Hx L' HL1 HL2. unfold Binary64.reached.
  assert (Hl : 1 <= IZR L' <= m) by (split; [apply (IZR_le 1); exact HL1 | exact HL2]).
  destruct (getRequiredXP_cases64 (IZR L') Hl) as [(k & -> & Hk) | [-> | [-> _]]];
    try reflexivity.
  simpl. apply Rleb_false. apply (IZR_le 0) in Hk. lra.
Qed.

(** On a curve with [baseXP >= 0], [exponent >= 0] and a cap below
    [2 ^ 53], [calculateLevel] returns the highest level whose requirement
    is met, or 1 when there is none. *)
Lemma calculateLevel_search64 (totalXP : number) (fuel : nat) :
  m < IZR (2 ^ 53) ->
  Number.lt totalXP (Fin 0) = false ->
  (iteration_bound (Z.to_nat (Zfloor m)) <= fuel)%nat ->
  (exists L : Z,
      Binary64.highest_reached totalXP options m L /\
      Binary64.calculateLevel totalXP options fuel = Some (Fin (IZR L)))
  \/ (Binary64.none_reached totalXP options m /\
      Binary64.calculateLevel totalXP options fuel = Some (Fin 1)).
Proof.
  intros Hcap Hneg Hfuel.
  destruct (calculateLevel_local totalXP options m fuel maxLevel_finite Hcap Hfuel)
    as (v & Hrun & [[Hn _] | [_ Hres]]); [congruence |].
  destruct (search_result_highest options b e m baseXP_finite exponent_finite
              maxLevel_finite totalXP v baseXP_nonneg exponent_nonneg Hres)
    as [(L & -> & HL) | (-> & Hnone)].
  - left. exists L. split; assumption.
  - right. split; assumption.
Qed.

Lemma calculateLevel_of_highest64 (totalXP : number) (L : Z) (fuel : nat) :
  m < IZR (2 ^ 53) ->
  Number.lt totalXP (Fin 0) = false ->
  (iteration_bound (Z.to_nat (Zfloor m)) <= fuel)%nat ->
  Binary64.highest_reached totalXP options m L ->
  Binary64.calculateLevel totalXP options fuel = Some (Fin (IZR L)).
Proof.
  intros Hcap Hneg Hfuel HL.
  destruct (calculateLevel_search64 totalXP fuel Hcap Hneg Hfuel)
    as [(L' & HL' & Hres) | (Hnone & _)].
  - now rewrite (highest_reached_unique64 _ _ _ _ _ HL HL').
  - destruct (highest_not_none64 _ _ _ _ HL Hnone).
Qed.

Lemma calculateLevel_of_none64 (totalXP : number) (fuel : nat) :
  m < IZR (2 ^ 53) ->
  (iteration_bound (Z.to_nat (Zfloor m)) <= fuel)%nat ->
  Binary64.none_reached totalXP options m ->
  Binary64.calculateLevel totalXP options fuel = Some (Fin 1).
Proof.
  intros Hcap Hfuel Hnone.
  destruct (Number.lt totalXP (Fin 0)) eqn:Hneg.
  - unfold Binary64.calculateLevel. now rewrite Hneg.
  - destruct (calculateLevel_search64 totalXP fuel Hcap Hneg Hfuel)
      as [(L' & HL' & _) | (_ & Hres)]; [| exact Hres].
    destruct (highest_not_none64 _ _ _ _ HL' Hnone).
Qed.

End Binary64Level.

(** ** Evaluating the curve in binary64 *)

Lemma representable_integer (z : Z) :
  (Z.abs z <= 2 ^ 53)%Z -> Binary64.representable (IZR z).
Proof.
  intros Hz. split; [now apply round_integer |].
  pose proof pow2_53_1024.
  assert (- IZR (2 ^ 53) <= IZR z <= IZR (2 ^ 53)).
  { rewrite <- opp_IZR. split; apply IZR_le; lia. }
  apply Rabs_def1; lra.
Qed.

Lemma number_of_representable (x : R) :
  Binary64.representable x -> Binary64.number_of x = Fin x.
Proof.
  intros [Hr Hb]. rewrite number_of_finite; rewrite Hr; [reflexivity |].
  apply Rabs_def2 in Hb. lra.
Qed.

Lemma pow2_m53_small : powerRZ 2 (-53) <= / 1000000000000000.
Proof.
  rewrite (pow2_inv_IZR (-53)) by lia.
  apply Rinv_le_contravar; [lra |]. apply IZR_le. simpl. lia.
Qed.

Section Binary64Values.

Variable options : Binary64.LevelCalculationOptions.
Variables b e m : R.

Hypothesis baseXP_finite :
  Binary64.Required.baseXP (Binary64.spread Binary64.DEFAULT_OPTIONS options) = Fin b.
Hypothesis exponent_finite :
  Binary64.Required.exponent (Binary64.spread Binary64.DEFAULT_OPTIONS options) = Fin e.
Hypothesis maxLevel_finite :
  Binary64.Required.maxLevel (Binary64.spread Binary64.DEFAULT_OPTIONS options) = Fin m.

(** Where the power and the product are binary64 numbers nothing is
    rounded, and the requirement is the floor of the exact product. *)
Lemma getRequiredXP_exact64 (l : R) :
  1 <= l <= m ->
  Binary64.representable (Rpower l e) ->
  Binary64.representable (b * Rpower l e) ->
  Binary64.getRequiredXP (Fin l) options = Fin (Rfloor (b * Rpower l e)).
Proof.
  intros Hl Hp Hbp.
  rewrite (getRequiredXP_within64 options b e m baseXP_finite exponent_finite
             maxLevel_finite l Hl).
  rewrite (number_of_representable _ Hp). cbn [Binary64.mul].
  now rewrite (number_of_representable _ Hbp).
Qed.

(** Away from the integers the rounding errors do not reach the floor: the
    requirement is [k] as soon as the exact product lies between
    [k + 1/1024] and [k + 1 - 1/512]. *)
Lemma getRequiredXP_value64 (l : R) (k : Z) :
  1 <= l <= m -> 0 <= b -> (0 <= k < 2 ^ 42)%Z ->
  powerRZ 2 (-1022) <= Rpower l e < powerRZ 2 1023 ->
  IZR k + / 1024 <= b * Rpower l e <= IZR k + 1 - / 512 ->
  Binary64.getRequiredXP (Fin l) options = Fin (IZR k).
Proof.
  intros Hl Hb Hk [Hnormal Hbig] [Hlo Hhi].
  rewrite (getRequiredXP_within64 options b e m baseXP_finite exponent_finite
             maxLevel_finite l Hl).
  set (P := Rpower l e) in *.
  pose proof (round_error P Hnormal) as Herr.
  set (p := Binary64.round P) in *.
  pose proof (pow2_pos (-1022)) as H1022.
  pose proof (pow2_pos (-53)) as Hu0.
  assert (Hu : powerRZ 2 (-53) <= / IZR (2 ^ 53))
    by (rewrite (pow2_inv_IZR (-53)) by lia; simpl Z.opp; lra).
  apply Rabs_bound in Herr.
  assert (Hk0 : 0 <= IZR k) by (apply (IZR_le 0); lia).
  assert (Hk42 : IZR k + 1 <= IZR (2 ^ 42)).
  { rewrite <- (plus_IZR k 1). apply IZR_le. lia. }
  (* the power *)
  assert (Hpfin : Binary64.number_of P = Fin p).
  { apply number_of_finite. fold p.
    assert (p <= IZR (2 ^ 52) * powerRZ 2 971).
    { apply round_le_fixed; [lia | lia |].
      rewrite <- (pow2_IZR 52), <- pow2_add by lia. simpl Z.add. lra. }
    assert (IZR (2 ^ 52) * powerRZ 2 971 < powerRZ 2 1024).
    { rewrite <- (pow2_IZR 52), <- pow2_add by lia. apply pow2_lt. lia. }
    assert (0 <= p) by (apply round_nonneg; lra).
    pose proof pow2_1024_pos. lra. }
  rewrite Hpfin. cbn [Binary64.mul].
  (* the product *)
  assert (Hprod : IZR k + / 2048 <= b * p <= IZR k + 1 - / 1024).
  { assert (Hbp : Rabs (b * p - b * P) <= / 2048).
    { replace (b * p - b * P) with (b * (p - P)) by ring.
      rewrite Rabs_mult, (Rabs_pos_eq b) by exact Hb.
      apply Rle_trans with (b * (P * powerRZ 2 (-53))).
      - apply Rmult_le_compat_l; [exact Hb |]. apply Rabs_le. exact Herr.
      - rewrite <- Rmult_assoc.
        apply Rle_trans with (IZR (2 ^ 42) * / IZR (2 ^ 53)).
        + apply Rmult_le_compat; lra.
        + apply Req_le.
          replace (/ 2048) with (/ IZR (2 ^ 11)) by (simpl; reflexivity).
          apply Rmult_eq_reg_l with (IZR (2 ^ 53)); [| apply not_0_IZR; lia].
          rewrite (Rmult_comm (IZR (2 ^ 42))), <- Rmult_assoc, Rinv_r, Rmult_1_l
            by (apply not_0_IZR; lia).
          apply Rmult_eq_reg_r with (IZR (2 ^ 11)); [| apply not_0_IZR; lia].
          rewrite Rmult_assoc, Rinv_l, Rmult_1_r by (apply not_0_IZR; lia).
          rewrite <- mult_IZR. f_equal. }
    apply Rabs_bound in Hbp. lra. }
  assert (Hy1 : IZR k <= Binary64.round (b * p))
    by (apply round_ge_integer; [lia | lra]).
  assert (Hy2 : Binary64.round (b * p) <= IZR (k * 2 ^ 10 + 1023) * powerRZ 2 (-10)).
  { apply round_le_fixed; [lia | lia |].
    rewrite plus_IZR, mult_IZR, (pow2_inv_IZR (-10)) by lia.
    simpl (2 ^ _)%Z. lra. }
  rewrite plus_IZR, mult_IZR, (pow2_inv_IZR (-10)) in Hy2 by lia.
  simpl (2 ^ _)%Z in Hy2.
  rewrite number_of_finite.
  - cbn [Math.floor]. f_equal. apply Rfloor_eq. lra.
  - pose proof pow2_53_1024.
    assert (IZR (2 ^ 42) <= IZR (2 ^ 53)) by (apply IZR_le; lia). lra.
Qed.

End Binary64Values.

(** ** Rounding by hand *)

Lemma nearest_even_near (y : R) (k : Z) :
  IZR k - / 2 < y < IZR k + / 2 -> Binary64.nearest_even y = k.
Proof.
  intros [H1 H2].
  pose proof (nearest_even_below y k H2). pose proof (nearest_even_above y k H1). lia.
Qed.

Lemma nearest_even_tie (k : Z) :
  Binary64.nearest_even (IZR k + / 2) = if Z.even k then k else (k + 1)%Z.
Proof.
  unfold Binary64.nearest_even.
  assert (Hf : Zfloor (IZR k + / 2) = k) by (apply Zfloor_eq; lra).
  rewrite Hf.
  replace (Rltb (IZR k + / 2 - IZR k) (/ 2)) with false
    by (symmetry; apply Rltb_false; lra).
  replace (Rltb (/ 2) (IZR k + / 2 - IZR k)) with false
    by (symmetry; apply Rltb_false; lra).
  reflexivity.
Qed.

(** In the binade [[2 ^ (52 + g), 2 ^ (53 + g))] the last place is [2 ^ g]. *)
Lemma round_in_binade (x : R) (g : Z) :
  (-1074 <= g)%Z -> powerRZ 2 (52 + g) <= x < powerRZ 2 (53 + g) ->
  Binary64.round x = IZR (Binary64.nearest_even (x * powerRZ 2 (- g))) * powerRZ 2 g.
Proof.
  intros Hg [Hlo Hhi]. pose proof (pow2_pos (52 + g)).
  rewrite round_nonneg_eq by lra.
  unfold Binary64.round_magnitude, Binary64.ulp_exponent.
  rewrite (mag_unique x (52 + g))
    by (split; [exact Hlo | replace (52 + g + 1)%Z with (53 + g)%Z by lia; exact Hhi]).
  replace (Z.max (52 + g - 52) (-1074)) with g by lia. reflexivity.
Qed.

(** ** The example curves in binary64 *)

Lemma pow2_m1022_le_1 : powerRZ 2 (-1022) <= 1.
Proof. change 1 with (powerRZ 2 0). apply pow2_le. lia. Qed.

Lemma pow2_10_1023 : 1024 < powerRZ 2 1023.
Proof.
  replace 1024 with (powerRZ 2 10) by (rewrite (pow2_IZR 10) by lia; reflexivity).
  apply pow2_lt. lia.
Qed.

Lemma Rpower_base_1 (e : R) : Rpower 1 e = 1.
Proof. unfold Rpower. rewrite ln_1, Rmult_0_r. apply exp_0. Qed.

Lemma linear_required64 (L : Z) :
  (1 <= L <= 100)%Z ->
  Binary64.getRequiredXP (Fin (IZR L)) Binary64.linear_options = Fin (IZR (100 * L)).
Proof.
  intros HL.
  assert (H1 : 1 <= IZR L <= 100)
    by (split; [apply (IZR_le 1) | apply (IZR_le _ 100)]; lia).
  rewrite (getRequiredXP_exact64 Binary64.linear_options 100 1 100
             eq_refl eq_refl eq_refl (IZR L) H1);
    rewrite Rpower_1 by lra; rewrite <- ?mult_IZR.
  - now rewrite Rfloor_IZR.
  - apply representable_integer. lia.
  - apply representable_integer. lia.
Qed.

Lemma ten_levels_required64 (L : Z) :
  (1 <= L <= 10)%Z ->
  Binary64.getRequiredXP (Fin (IZR L)) Binary64.ten_levels_options
  = Fin (IZR (100 * L)).
Proof.
  intros HL.
  assert (H1 : 1 <= IZR L <= 10)
    by (split; [apply (IZR_le 1) | apply (IZR_le _ 10)]; lia).
  rewrite (getRequiredXP_exact64 Binary64.ten_levels_options 100 1 10
             eq_refl eq_refl eq_refl (IZR L) H1);
    rewrite Rpower_1 by lra; rewrite <- ?mult_IZR.
  - now rewrite Rfloor_IZR.
  - apply representable_integer. lia.
  - apply representable_integer. lia.
Qed.

(** On a flat curve every level from 1 on requires [baseXP]. *)
Lemma flat_required_general options (m l : R) :
  Binary64.Required.baseXP (Binary64.spread Binary64.DEFAULT_OPTIONS options) = Fin 100 ->
  Binary64.Required.exponent (Binary64.spread Binary64.DEFAULT_OPTIONS options) = Fin 0 ->
  Binary64.Required.maxLevel (Binary64.spread Binary64.DEFAULT_OPTIONS options) = Fin m ->
  1 <= l -> 1 <= m ->
  Binary64.getRequiredXP (Fin l) options = Fin 100.
Proof.
  intros Hb He Hm Hl Hm1.
  assert (Hin : forall l', 1 <= l' <= m ->
            Binary64.getRequiredXP (Fin l') options = Fin 100).
  { intros l' Hl'.
    rewrite (getRequiredXP_exact64 options 100 0 m Hb He Hm l' Hl');
      rewrite Rpower_O by lra; rewrite ?Rmult_1_r.
    - now rewrite (Rfloor_IZR 100).
    - apply (representable_integer 1). lia.
    - apply (representable_integer 100). lia. }
  destruct (Rle_dec l m) as [Hle | Hgt]; [apply Hin; lra |].
  rewrite (getRequiredXP_at_cap64 options 100 0 m Hb He Hm l) by lra.
  apply Hin. lra.
Qed.

Lemma flat_required64 (l : R) :
  1 <= l -> Binary64.getRequiredXP (Fin l) Binary64.flat_options = Fin 100.
Proof.
  intros Hl. apply (flat_required_general _ 100); try reflexivity; lra.
Qed.

(** The default curve, [floor (100 * level * sqrt level)]. *)
Lemma default_required_value (l : R) (k : Z) :
  1 <= l <= 100 -> (0 <= k < 2 ^ 42)%Z ->
  IZR k + / 1024 <= 100 * (l * sqrt l) <= IZR k + 1 - / 512 ->
  Binary64.getRequiredXP (Fin l) Binary64.no_options = Fin (IZR k).
Proof.
  intros Hl Hk Hv.
  assert (Hs : 1 <= sqrt l < 10.1).
  { apply sqrt_between; lra. }
  apply (getRequiredXP_value64 Binary64.no_options 100 1.5 100
           eq_refl eq_refl eq_refl l k Hl); try lra; try exact Hk;
    rewrite Rpower_three_halves by lra; [| exact Hv].
  pose proof pow2_m1022_le_1. pose proof pow2_10_1023. nra.
Qed.

Lemma default_required_1 :
  Binary64.getRequiredXP (Fin 1) Binary64.no_options = Fin 100.
Proof.
  rewrite (getRequiredXP_exact64 Binary64.no_options 100 1.5 100
             eq_refl eq_refl eq_refl 1 ltac:(lra));
    rewrite Rpower_base_1; rewrite ?Rmult_1_r.
  - now rewrite (Rfloor_IZR 100).
  - apply (representable_integer 1). lia.
  - apply (representable_integer 100). lia.
Qed.

Lemma sqrt_100 : sqrt 100 = 10.
Proof. replace 100 with (10 * 10) by lra. apply sqrt_square. lra. Qed.

Lemma default_required_100 :
  Binary64.getRequiredXP (Fin 100) Binary64.no_options = Fin 100000.
Proof.
  rewrite (getRequiredXP_exact64 Binary64.no_options 100 1.5 100
             eq_refl eq_refl eq_refl 100 ltac:(lra));
    rewrite Rpower_three_halves, sqrt_100 by lra.
  - replace (100 * (100 * 10)) with (IZR 100000) by (simpl; lra).
    now rewrite Rfloor_IZR.
  - replace (100 * 10) with (IZR 1000) by (simpl; lra).
    apply representable_integer. lia.
  - replace (100 * (100 * 10)) with (IZR 100000) by (simpl; lra).
    apply representable_integer. lia.
Qed.

Lemma default_required_2 :
  Binary64.getRequiredXP (Fin 2) Binary64.no_options = Fin 282.
Proof.
  apply (default_required_value 2 282); [lra | lia |].
  pose proof (sqrt_between 2 1.4142 1.4143). lra.
Qed.

Lemma default_required_10 :
  Binary64.getRequiredXP (Fin 10) Binary64.no_options = Fin 3162.
Proof.
  apply (default_required_value 10 3162); [lra | lia |].
  pose proof (sqrt_between 10 3.1621 3.1629). lra.
Qed.

(** ** Curve Engine: [getRequiredXP] in binary64 *)

(** Rounding moves a magnitude by at most half a unit of its last place. *)
Lemma round_error_general (x : R) :
  0 <= x ->
  Rabs (Binary64.round x - x) <= x * powerRZ 2 (-53) + powerRZ 2 (-1075).
Proof.
  intros Hx. pose proof (pow2_pos (-1075)) as H1075.
  pose proof (pow2_pos (-53)) as H53.
  destruct (Rle_dec (powerRZ 2 (-1022)) x) as [Hn | Hs].
  - pose proof (round_error x Hn). lra.
  - assert (Hlt : x < powerRZ 2 (-1022)) by lra.
    destruct Hx as [Hx | <-].
    2:{ rewrite round_zero. rewrite Rminus_diag, Rabs_R0. lra. }
    rewrite round_nonneg_eq by lra. unfold Binary64.round_magnitude.
    assert (He : Binary64.ulp_exponent x = (-1074)%Z).
    { unfold Binary64.ulp_exponent.
      pose proof (mag_lt x (-1022) Hx Hlt). lia. }
    rewrite He.
    pose proof (nearest_even_error (x * powerRZ 2 (- (-1074)))) as Herr.
    pose proof (pow2_pos (-1074)) as Hp.
    replace (IZR (Binary64.nearest_even (x * powerRZ 2 (- (-1074)))) * powerRZ 2 (-1074) - x)
      with ((IZR (Binary64.nearest_even (x * powerRZ 2 (- (-1074))))
             - x * powerRZ 2 (- (-1074))) * powerRZ 2 (-1074)).
    2:{ rewrite Rmult_minus_distr_r, Rmult_assoc, pow2_cancel. ring. }
    rewrite Rabs_mult, (Rabs_pos_eq (powerRZ 2 (-1074))) by lra.
    apply Rle_trans with (/ 2 * powerRZ 2 (-1074)).
    + apply Rmult_le_compat_r; lra.
    + replace (/ 2 * powerRZ 2 (-1074)) with (powerRZ 2 (-1075)).
      * assert (0 <= x * powerRZ 2 (-53)) by (apply Rmult_le_pos; lra). lra.
      * rewrite <- pow2_m1, <- pow2_add. reflexivity.
Qed.

Lemma floor_within_one (y z : R) :
  Rabs (y - z) < 1 -> (Z.abs (Zfloor y - Zfloor z) <= 1)%Z.
Proof.
  intros H. assert (H' : - 1 < y - z < 1).
  { unfold Rabs in H. destruct (Rcase_abs (y - z)); lra. }
  pose proof (Zfloor_bound y) as [Hy1 Hy2]. pose proof (Zfloor_bound z) as [Hz1 Hz2].
  assert (H1 : IZR (Zfloor y) - IZR (Zfloor z) < 2) by lra.
  assert (H2 : -2 < IZR (Zfloor y) - IZR (Zfloor z)) by lra.
  rewrite <- minus_IZR in H1, H2. apply lt_IZR in H1, H2. lia.
Qed.

Section Binary64Within.

Variable options : Binary64.LevelCalculationOptions.
Variables b e m : R.

Hypothesis baseXP_finite :
  Binary64.Required.baseXP (Binary64.spread Binary64.DEFAULT_OPTIONS options) = Fin b.
Hypothesis exponent_finite :
  Binary64.Required.exponent (Binary64.spread Binary64.DEFAULT_OPTIONS options) = Fin e.
Hypothesis maxLevel_finite :
  Binary64.Required.maxLevel (Binary64.spread Binary64.DEFAULT_OPTIONS options) = Fin m.

(** With [baseXP >= 1] and an exact product below [2 ^ 51] the two
    roundings move the product by less than 1. *)
Lemma getRequiredXP_near (l : R) :
  1 <= l <= m -> 1 <= b < powerRZ 2 1024 -> b * Rpower l e < IZR (2 ^ 51) ->
  exists k : Z,
    Binary64.getRequiredXP (Fin l) options = Fin (IZR k) /\
    (Z.abs (k - Zfloor (b * Rpower l e)) <= 1)%Z.
Proof.
  intros Hl [Hb Hbmax] Hsmall.
  rewrite (getRequiredXP_within64 options b e m baseXP_finite exponent_finite
             maxLevel_finite l Hl).
  set (P := Rpower l e) in *.
  assert (HP : 0 < P) by apply Rpower_pos.
  assert (HP51 : P < IZR (2 ^ 51)) by nra.
  pose proof (round_error_general P (Rlt_le _ _ HP)) as HerrP.
  apply Rabs_bound in HerrP.
  set (p := Binary64.round P) in *.
  assert (Hp0 : 0 <= p) by (apply round_nonneg; lra).
  assert (Hp51 : p <= IZR (2 ^ 51)) by (apply round_le_integer; [lia | lra]).
  pose proof pow2_53_1024 as H1024. pose proof pow2_1024_pos as H1024'.
  assert (H5153 : IZR (2 ^ 51) < IZR (2 ^ 53)) by (apply IZR_lt; lia).
  rewrite (number_of_finite P) by (fold p; lra). fold p. cbn [Binary64.mul].
  assert (Hb0 : 0 <= b) by lra.
  pose proof (round_error_general (b * p) (Rmult_le_pos _ _ Hb0 Hp0)) as Herry.
  apply Rabs_bound in Herry.
  set (y := Binary64.round (b * p)) in *.
  (* the two units of error *)
  assert (Hu : powerRZ 2 (-53) = / IZR (2 ^ 53))
    by (rewrite (pow2_inv_IZR (-53)) by lia; reflexivity).
  assert (Hbt : b * powerRZ 2 (-1075) <= / IZR (2 ^ 51)).
  { apply Rle_trans with (powerRZ 2 1024 * powerRZ 2 (-1075)).
    - apply Rmult_le_compat_r; [left; apply pow2_pos | lra].
    - rewrite <- pow2_add. simpl Z.add. rewrite (pow2_inv_IZR (-51)) by lia.
      apply Req_le. reflexivity. }
  assert (Ht : powerRZ 2 (-1075) <= / IZR (2 ^ 51)).
  { replace (/ IZR (2 ^ 51)) with (powerRZ 2 (-51))
      by (rewrite (pow2_inv_IZR (-51)) by lia; reflexivity).
    apply pow2_le. lia. }
  pose proof (pow2_pos (-1075)) as Ht0.
  set (u := powerRZ 2 (-53)) in *. set (t := powerRZ 2 (-1075)) in *.
  assert (Hu0 : 0 < u) by (rewrite Hu; apply Rinv_0_lt_compat, (IZR_lt 0); lia).
  assert (HbP : 0 <= b * P) by nra.
  assert (HbPu : b * P * u <= / 4).
  { apply Rle_trans with (IZR (2 ^ 51) * u).
    - apply Rmult_le_compat_r; lra.
    - rewrite Hu. simpl (2 ^ _)%Z. lra. }
  (* the power, then the product *)
  assert (E1 : Rabs (b * p - b * P) <= / 4 + / IZR (2 ^ 51)).
  { replace (b * p - b * P) with (b * (p - P)) by ring.
    rewrite Rabs_mult, (Rabs_pos_eq b) by lra.
    apply Rle_trans with (b * (P * u + t)).
    - apply Rmult_le_compat_l; [lra |]. apply Rabs_le. exact HerrP.
    - rewrite Rmult_plus_distr_l, <- Rmult_assoc. lra. }
  apply Rabs_bound in E1.
  simpl (2 ^ _)%Z in *.
  assert (Hbp : 0 <= b * p <= 2251799813685249) by (split; [nra | lra]).
  assert (Hbpu : b * p * u <= / 4 + / 2251799813685248).
  { apply Rle_trans with (2251799813685249 * u).
    - apply Rmult_le_compat_r; lra.
    - rewrite Hu. lra. }
  assert (Hy : Rabs (y - b * P) < 1).
  { apply Rabs_def1; lra. }
  assert (Hyfin : Binary64.number_of (b * p) = Fin y).
  { apply number_of_finite. fold y. lra. }
  rewrite Hyfin. cbn [Math.floor]. unfold Rfloor.
  exists (Zfloor y). split; [reflexivity |]. now apply floor_within_one.
Qed.

End Binary64Within.

(** ** The search at the cap [2 ^ 53]

    [2 ^ 53 + 1] is not a binary64 number: at the cap [2 ^ 53] the sum
    [mid + 1] rounds back to [mid], and the loop stays on
    [low = high = 2 ^ 53]. *)

Lemma pow2_54_fixed : Binary64.round (IZR (2 ^ 54)) = IZR (2 ^ 54).
Proof.
  replace (IZR (2 ^ 54)) with (IZR (2 ^ 52) * powerRZ 2 2).
  - apply round_fixed; lia.
  - rewrite (pow2_IZR 2) by lia. rewrite <- mult_IZR. reflexivity.
Qed.

Lemma pow2_54_1024 : IZR (2 ^ 54) < powerRZ 2 1024.
Proof. rewrite (pow2_IZR 1024) by lia. apply IZR_lt. reflexivity. Qed.

(** The sum of [2 ^ 53] and 1 rounds to [2 ^ 53]. *)
Lemma unsafe_successor_rounds :
  Binary64.add (Fin (IZR (2 ^ 53))) (Fin 1) = Fin (IZR (2 ^ 53)).
Proof.
  cbn [Binary64.add].
  assert (Hr : Binary64.round (IZR (2 ^ 53) + 1) = IZR (2 ^ 53)).
  { rewrite round_even_spacing.
    - replace ((IZR (2 ^ 53) + 1) / 2) with (IZR (2 ^ 52) + / 2).
      + rewrite nearest_even_tie. simpl Z.even. cbv iota.
        rewrite <- (mult_IZR 2). reflexivity.
      + replace (IZR (2 ^ 53)) with (2 * IZR (2 ^ 52))
          by (rewrite <- (mult_IZR 2); reflexivity).
        field.
    - split; [lra |]. replace 1 with (IZR 1) by reflexivity.
      rewrite <- plus_IZR. apply IZR_lt. reflexivity. }
  rewrite number_of_finite; rewrite Hr; [reflexivity |].
  pose proof pow2_53_1024. pose proof (IZR_lt 0 (2 ^ 53) ltac:(lia)). lra.
Qed.

Lemma unsafe_successor (zm : Z) :
  (1 <= zm <= 2 ^ 53)%Z ->
  exists zl : Z,
    Binary64.add (Fin (IZR zm)) (Fin 1) = Fin (IZR zl) /\ (1 <= zl <= 2 ^ 53)%Z.
Proof.
  intros Hzm. destruct (Z.eq_dec zm (2 ^ 53)) as [-> | Hne].
  - exists (2 ^ 53)%Z. split; [exact unsafe_successor_rounds | lia].
  - exists (zm + 1)%Z. split; [| lia].
    apply (add_integers zm 1). lia.
Qed.

(** The midpoint of an integer [low] of [[1, 2 ^ 53]] and [high = 2 ^ 53]. *)
Lemma unsafe_midpoint (zl : Z) :
  (1 <= zl <= 2 ^ 53)%Z ->
  exists zm : Z,
    Math.floor (Binary64.div (Binary64.add (Fin (IZR zl)) (Fin (IZR (2 ^ 53))))
                  (Fin 2))
    = Fin (IZR zm) /\ (1 <= zm <= 2 ^ 53)%Z.
Proof.
  intros Hzl. cbn [Binary64.add]. rewrite <- plus_IZR.
  pose proof pow2_54_1024 as H54.
  assert (Hsum : exists n : Z,
             Binary64.round (IZR (zl + 2 ^ 53)) = 2 * IZR n /\ (2 ^ 52 <= n <= 2 ^ 53)%Z).
  { destruct (Z.eq_dec zl (2 ^ 53)) as [-> | Hne].
    - exists (2 ^ 53)%Z. split; [| lia].
      change (2 ^ 53 + 2 ^ 53)%Z with (2 ^ 54)%Z. rewrite pow2_54_fixed.
      rewrite <- (mult_IZR 2). reflexivity.
    - exists (Binary64.nearest_even (IZR (zl + 2 ^ 53) / 2)). split.
      + apply round_even_spacing. split; [apply IZR_le | apply IZR_lt]; lia.
      + assert (Hlo : IZR (2 ^ 52) <= IZR (zl + 2 ^ 53) / 2).
        { assert (IZR (2 * 2 ^ 52) <= IZR (zl + 2 ^ 53)) by (apply IZR_le; lia).
          rewrite mult_IZR in H. lra. }
        assert (Hhi : IZR (zl + 2 ^ 53) / 2 <= IZR (2 ^ 53)).
        { assert (IZR (zl + 2 ^ 53) <= IZR (2 * 2 ^ 53)) by (apply IZR_le; lia).
          rewrite mult_IZR in H. lra. }
        apply nearest_even_le in Hlo, Hhi. rewrite nearest_even_IZR in Hlo, Hhi.
        split; assumption. }
  destruct Hsum as (n & Hr & Hn).
  assert (Hn' : IZR (2 ^ 52) <= IZR n <= IZR (2 ^ 53)) by (split; apply IZR_le; lia).
  assert (H5354 : 2 * IZR (2 ^ 53) = IZR (2 ^ 54))
    by (rewrite <- (mult_IZR 2); reflexivity).
  assert (H52 : 0 < IZR (2 ^ 52)) by (apply (IZR_lt 0); lia).
  rewrite number_of_finite by (rewrite Hr; lra). rewrite Hr.
  cbn [Binary64.div].
  replace (Reqb 2 0) with false by (symmetry; apply Reqb_false; lra).
  replace (2 * IZR n / 2) with (IZR n) by field.
  rewrite number_of_integer by lia. cbn [Math.floor]. rewrite Rfloor_IZR.
  exists n. split; [reflexivity | lia].
Qed.

Lemma unsafe_cap_required (zm : Z) :
  (1 <= zm)%Z ->
  Binary64.getRequiredXP (Fin (IZR zm)) Binary64.unsafe_cap_options = Fin 100.
Proof.
  intros Hzm. apply (flat_required_general _ (IZR (2 ^ 53))); try reflexivity.
  - apply (IZR_le 1). exact Hzm.
  - apply (IZR_le 1). lia.
Qed.

(** From every integer [low] of [[1, 2 ^ 53]] the loop runs without end. *)
Lemma unsafe_cap_loop (fuel : nat) :
  forall (zl : Z) (cur : number),
    (1 <= zl <= 2 ^ 53)%Z ->
    Binary64.calculateLevel_loop (Fin 100) Binary64.unsafe_cap_options
      (Fin (IZR zl)) (Fin (IZR (2 ^ 53))) cur fuel = None.
Proof.
  induction fuel as [| fuel IH]; intros zl cur Hzl;
    cbn [Binary64.calculateLevel_loop Number.le];
    replace (Rleb (IZR zl) (IZR (2 ^ 53))) with true
      by (symmetry; apply Rleb_true, IZR_le; lia);
    [reflexivity |].
  destruct (unsafe_midpoint zl Hzl) as (zm & -> & Hzm).
  rewrite unsafe_cap_required by lia. cbn [Number.le].
  replace (Rleb 100 100) with true by (symmetry; apply Rleb_true; lra).
  destruct (unsafe_successor zm Hzm) as (zl' & -> & Hzl').
  apply IH. exact Hzl'.
Qed.

Lemma unsafe_cap_diverges :
  Binary64.diverges (Binary64.calculateLevel (Fin 100) Binary64.unsafe_cap_options).
Proof.
  intros fuel. unfold Binary64.calculateLevel. cbn [Number.lt].
  replace (Rltb 100 0) with false by (symmetry; apply Rltb_false; lra).
  apply (unsafe_cap_loop fuel 1). lia.
Qed.

(** ** Running the search on small integers *)

Lemma half_floor (s : Z) : Rfloor (IZR s / 2) = IZR (s / 2).
Proof.
  apply Rfloor_eq. pose proof (Z.div_mod s 2 ltac:(lia)) as Hs.
  pose proof (Z.mod_pos_bound s 2 ltac:(lia)) as Hr.
  assert (H1 : IZR (2 * (s / 2)) <= IZR s) by (apply IZR_le; lia).
  assert (H2 : IZR s < IZR (2 * (s / 2) + 2)) by (apply IZR_lt; lia).
  rewrite plus_IZR, mult_IZR in H2. rewrite mult_IZR in H1. lra.
Qed.

Lemma half_number (s : Z) :
  (Z.abs s < 2 ^ 53)%Z -> Binary64.div (Fin (IZR s)) (Fin 2) = Fin (IZR s / 2).
Proof.
  intros Hs. cbn [Binary64.div].
  replace (Reqb 2 0) with false by (symmetry; apply Reqb_false; lra).
  replace (IZR s / 2) with (IZR s * powerRZ 2 (-1)) by (rewrite pow2_m1; field).
  assert (Hr : Binary64.round (IZR s * powerRZ 2 (-1)) = IZR s * powerRZ 2 (-1))
    by (apply round_fixed; lia).
  rewrite number_of_finite; rewrite Hr; [reflexivity |].
  rewrite pow2_m1. pose proof pow2_53_1024.
  assert (- IZR (2 ^ 53) <= IZR s <= IZR (2 ^ 53)).
  { rewrite <- opp_IZR. split; apply IZR_le; lia. }
  lra.
Qed.

(** The midpoint of two integers below [2 ^ 52]. *)
Lemma midpoint_integers (zl zh : Z) :
  (1 <= zl)%Z -> (zl <= zh)%Z -> (zh < 2 ^ 52)%Z ->
  Math.floor (Binary64.div (Binary64.add (Fin (IZR zl)) (Fin (IZR zh))) (Fin 2))
  = Fin (IZR ((zl + zh) / 2)).
Proof.
  intros H1 H2 H3. rewrite add_integers by lia. rewrite half_number by lia.
  cbn [Math.floor]. now rewrite half_floor.
Qed.

Section Binary64Steps.

Variable totalXP : number.
Variable options : Binary64.LevelCalculationOptions.

(** One iteration of the loop. *)
Lemma loop_iteration (zl zh : Z) (cur : number) (fuel : nat) :
  (1 <= zl)%Z -> (zl <= zh)%Z -> (zh < 2 ^ 52)%Z ->
  Binary64.calculateLevel_loop totalXP options (Fin (IZR zl)) (Fin (IZR zh)) cur (S fuel)
  = if Binary64.reached totalXP options ((zl + zh) / 2)
    then Binary64.calculateLevel_loop totalXP options
           (Fin (IZR ((zl + zh) / 2 + 1))) (Fin (IZR zh))
           (Fin (IZR ((zl + zh) / 2))) fuel
    else Binary64.calculateLevel_loop totalXP options
           (Fin (IZR zl)) (Fin (IZR ((zl + zh) / 2 - 1))) cur fuel.
Proof.
  intros H1 H2 H3. cbn [Binary64.calculateLevel_loop Number.le].
  replace (Rleb (IZR zl) (IZR zh)) with true
    by (symmetry; apply Rleb_true, IZR_le; exact H2).
  rewrite midpoint_integers by assumption.
  assert (Hm : (zl <= (zl + zh) / 2 <= zh)%Z).
  { pose proof (Z.div_mod (zl + zh) 2 ltac:(lia)).
    pose proof (Z.mod_pos_bound (zl + zh) 2 ltac:(lia)). lia. }
  change (Fin 1) with (Fin (IZR 1)).
  rewrite add_integers, sub_integers by lia. reflexivity.
Qed.

(** The exit of the loop. *)
Lemma loop_exit (zl zh : Z) (cur : number) (fuel : nat) :
  (zh < zl)%Z ->
  Binary64.calculateLevel_loop totalXP options (Fin (IZR zl)) (Fin (IZR zh)) cur fuel
  = Some cur.
Proof.
  intros H. destruct fuel; cbn [Binary64.calculateLevel_loop Number.le];
    now replace (Rleb (IZR zl) (IZR zh)) with false
      by (symmetry; apply Rleb_false, IZR_lt; exact H).
Qed.

End Binary64Steps.

(** ** The decreasing curve *)

Lemma half_representable : Binary64.representable (/ 2).
Proof.
  split.
  - replace (/ 2) with (IZR 1 * powerRZ 2 (-1)) by (rewrite pow2_m1; lra).
    apply round_fixed; lia.
  - pose proof pow2_53_1024. pose proof (IZR_lt 1 (2 ^ 53) ltac:(lia)).
    apply Rabs_def1; lra.
Qed.

Lemma pow2_m1022_small : powerRZ 2 (-1022) <= / 1024.
Proof.
  replace (/ 1024) with (powerRZ 2 (-10))
    by (rewrite (pow2_inv_IZR (-10)) by lia; reflexivity).
  apply pow2_le. lia.
Qed.

Lemma decreasing_required64 :
  Binary64.getRequiredXP (Fin 1) Binary64.decreasing_options = Fin 100 /\
  Binary64.getRequiredXP (Fin 2) Binary64.decreasing_options = Fin 50 /\
  Binary64.getRequiredXP (Fin 3) Binary64.decreasing_options = Fin 33.
Proof.
  split; [| split].
  - rewrite (getRequiredXP_exact64 Binary64.decreasing_options 100 (-1) 3
               eq_refl eq_refl eq_refl 1); rewrite ?Rpower_base_1; rewrite ?Rmult_1_r.
    + now rewrite (Rfloor_IZR 100).
    + lra.
    + apply (representable_integer 1). lia.
    + apply (representable_integer 100). lia.
  - rewrite (getRequiredXP_exact64 Binary64.decreasing_options 100 (-1) 3
               eq_refl eq_refl eq_refl 2); rewrite ?Rpower_minus_one by lra.
    + replace (100 * / 2) with (IZR 50) by lra. now rewrite Rfloor_IZR.
    + lra.
    + exact half_representable.
    + replace (100 * / 2) with (IZR 50) by lra. apply representable_integer. lia.
  - apply (getRequiredXP_value64 Binary64.decreasing_options 100 (-1) 3
             eq_refl eq_refl eq_refl 3 33); rewrite ?Rpower_minus_one by lra.
    + lra.
    + lra.
    + lia.
    + pose proof pow2_m1022_small. pose proof pow2_10_1023. lra.
    + lra.
Qed.

(** With 40 XP the search on the decreasing curve probes level 2, then
    level 1, and keeps the initial level 1. *)
Lemma decreasing_level64 (fuel : nat) :
  (2 <= fuel)%nat ->
  Binary64.calculateLevel (Fin 40) Binary64.decreasing_options fuel = Some (Fin 1).
Proof.
  intros Hfuel. destruct fuel as [| [| fuel]]; [lia | lia |].
  destruct decreasing_required64 as (H1 & H2 & _).
  unfold Binary64.calculateLevel. cbn [Number.lt].
  replace (Rltb 40 0) with false by (symmetry; apply Rltb_false; lra).
  change (Binary64.Required.maxLevel
            (Binary64.spread Binary64.DEFAULT_OPTIONS Binary64.decreasing_options))
    with (Fin (IZR 3)).
  change (Fin 1) with (Fin (IZR 1)).
  rewrite loop_iteration by lia.
  replace ((1 + 3) / 2)%Z with 2%Z by reflexivity.
  unfold Binary64.reached at 1. rewrite H2. cbn [Number.le].
  replace (Rleb 50 40) with false by (symmetry; apply Rleb_false; lra).
  replace (2 - 1)%Z with 1%Z by reflexivity.
  rewrite loop_iteration by lia.
  replace ((1 + 1) / 2)%Z with 1%Z by reflexivity.
  unfold Binary64.reached at 1. rewrite H1. cbn [Number.le].
  replace (Rleb 100 40) with false by (symmetry; apply Rleb_false; lra).
  apply loop_exit. lia.
Qed.

Lemma decreasing_highest64 :
  Binary64.highest_reached (Fin 40) Binary64.decreasing_options 3 3.
Proof.
  destruct decreasing_required64 as (_ & _ & H3).
  repeat split; [lia | lra | |].
  - unfold Binary64.reached. rewrite H3. cbn [Number.le]. apply Rleb_true. lra.
  - intros L' _ HL' _. apply le_IZR. exact HL'.
Qed.

(** XP below 0 meets no requirement of a curve with [baseXP >= 0]. *)
Lemma below_zero_none_reached options (b e m : R) (totalXP : number) :
  Binary64.Required.baseXP (Binary64.spread Binary64.DEFAULT_OPTIONS options) = Fin b ->
  Binary64.Required.exponent (Binary64.spread Binary64.DEFAULT_OPTIONS options) = Fin e ->
  Binary64.Required.maxLevel (Binary64.spread Binary64.DEFAULT_OPTIONS options) = Fin m ->
  0 <= b -> 0 <= e ->
  Number.lt totalXP (Fin 0) = true ->
  Binary64.none_reached totalXP options m.
Proof.
  intros Hb He Hm Hb0 He0 Hneg L' HL1 HL2. unfold Binary64.reached.
  assert (Hl : 1 <= IZR L' <= m) by (split; [apply (IZR_le 1); exact HL1 | exact HL2]).
  destruct (getRequiredXP_cases64 options b e m Hb He Hm Hb0 (IZR L') Hl)
    as [(k & -> & Hk) | [-> | [-> _]]];
    destruct totalXP as [x | | |]; try discriminate; try reflexivity.
  cbn [Number.lt] in Hneg. apply Rltb_true in Hneg.
  cbn [Number.le]. apply Rleb_false. apply (IZR_le 0) in Hk. lra.
Qed.

(** C9, as stated, fails at the cap [2 ^ 53] (a flat curve, 100 XP): every
    test of the search succeeds, [low] climbs to [2 ^ 53], where [mid + 1]
    rounds back to [mid], and the loop never ends. *)
Lemma calculateLevel_unsafe_cap :
  (forall fuel : nat,
      Binary64.calculateLevel (Fin 100) Binary64.unsafe_cap_options fuel = None) /\
  ~ (exists v : number,
        Binary64.returns
          (Binary64.calculateLevel (Fin 100) Binary64.unsafe_cap_options) v).
Proof.
  split; [exact unsafe_cap_diverges |].
  intros (v & fuel & H). rewrite unsafe_cap_diverges in H. discriminate.
Qed.

(** C9 (amended).  The loop of [calculateLevel] terminates for every
    [totalXP] (NaN and the infinities included) and every configuration
    whose [maxLevel] is a number below [2 ^ 53], whatever [baseXP] and
    [exponent]: it has returned after [iteration_bound (floor maxLevel)]
    iterations, that is [floor (log2 (floor maxLevel)) + 1] of them, and
    none when [maxLevel < 1].  With [maxLevel] NaN or [-Infinity] the loop
    is not entered. *)
Theorem calculateLevel_terminates :
  forall (totalXP : number) (options : Binary64.LevelCalculationOptions),
    let opts := Binary64.spread Binary64.DEFAULT_OPTIONS options in
    (forall m : R,
        Binary64.Required.maxLevel opts = Fin m -> m < IZR (2 ^ 53) ->
        exists v : number,
          forall fuel : nat,
            (iteration_bound (Z.to_nat (Zfloor m)) <= fuel)%nat ->
            Binary64.calculateLevel totalXP options fuel = Some v) /\
    (forall m : R,
        Binary64.Required.maxLevel opts = Fin m -> m < 1 ->
        Binary64.calculateLevel totalXP options 0 = Some (Fin 1)) /\
    (Binary64.Required.maxLevel opts = NaN \/
     Binary64.Required.maxLevel opts = NegInf ->
     Binary64.calculateLevel totalXP options 0 = Some (Fin 1)).
Proof.
  intros totalXP options opts. split; [| split].
  - intros m Hm Hcap.
    destruct (calculateLevel_local totalXP options m
                (iteration_bound (Z.to_nat (Zfloor m))) Hm Hcap (Nat.le_refl _))
      as (v & Hrun & _).
    exists v. intros fuel Hfuel.
    now apply (calculateLevel_more_fuel _ _ _ _ _ Hrun).
  - intros m Hm Hlow. unfold Binary64.calculateLevel. fold opts. rewrite Hm.
    destruct (Number.lt totalXP (Fin 0)); [reflexivity |].
    cbn [Binary64.calculateLevel_loop Number.le].
    now replace (Rleb 1 m) with false by (symmetry; apply Rleb_false; lra).
  - intros Hm. unfold Binary64.calculateLevel. fold opts.
    destruct (Number.lt totalXP (Fin 0)); [reflexivity |].
    destruct Hm as [-> | ->]; reflexivity.
Qed.

Lemma calculateLevel_terminates_witness :
  exists v : number,
    forall fuel : nat,
      (7 <= fuel)%nat ->
      Binary64.calculateLevel (Fin 250) Binary64.no_options fuel = Some v.
Proof.
  destruct (calculateLevel_terminates (Fin 250) Binary64.no_options) as (H & _).
  destruct (H 100 eq_refl) as (v & Hv).
  - apply (IZR_lt 100). reflexivity.
  - exists v. intros fuel Hfuel. apply Hv.
    replace (Zfloor 100) with 100%Z by (symmetry; apply (ZfloorZ 100)).
    vm_compute. vm_compute in Hfuel. exact Hfuel.
Defined.

(** C1, as stated, fails twice.  On a decreasing curve: with 40 XP level 3
    (which requires 33) is the highest level whose requirement is met, and
    the search returns 1.  And at the cap [2 ^ 53] the search returns
    nothing. *)
Lemma calculateLevel_decreasing_curve :
  (Binary64.highest_reached (Fin 40) Binary64.decreasing_options 3 3 /\
   forall fuel : nat,
     (2 <= fuel)%nat ->
     Binary64.calculateLevel (Fin 40) Binary64.decreasing_options fuel = Some (Fin 1)) /\
  Binary64.diverges
    (Binary64.calculateLevel (Fin 100) Binary64.unsafe_cap_options).
Proof.
  split; [split |].
  - exact decreasing_highest64.
  - exact decreasing_level64.
  - exact unsafe_cap_diverges.
Qed.

(** C1 (amended).  [calculateLevel] returns 1 when [totalXP < 0]; and for
    every configuration with [baseXP >= 0], [exponent >= 0] and a
    [maxLevel] below [2 ^ 53] it returns, for every [totalXP], the highest
    integer level [L] of [[1, maxLevel]] with [getRequiredXP L <= totalXP],
    and 1 when no level of the range has its requirement met. *)
Theorem calculateLevel_highest_level :
  forall (totalXP : number) (options : Binary64.LevelCalculationOptions),
    let opts := Binary64.spread Binary64.DEFAULT_OPTIONS options in
    (Number.lt totalXP (Fin 0) = true ->
     forall fuel : nat, Binary64.calculateLevel totalXP options fuel = Some (Fin 1)) /\
    (forall b e m : R,
        Binary64.Required.baseXP opts = Fin b ->
        Binary64.Required.exponent opts = Fin e ->
        Binary64.Required.maxLevel opts = Fin m ->
        0 <= b -> 0 <= e -> m < IZR (2 ^ 53) ->
        forall fuel : nat,
          (iteration_bound (Z.to_nat (Zfloor m)) <= fuel)%nat ->
          (exists L : Z,
              Binary64.highest_reached totalXP options m L /\
              Binary64.calculateLevel totalXP options fuel = Some (Fin (IZR L)))
          \/ (Binary64.none_reached totalXP options m /\
              Binary64.calculateLevel totalXP options fuel = Some (Fin 1))).
Proof.
  intros totalXP options opts. split.
  - intros Hneg fuel. unfold Binary64.calculateLevel. now rewrite Hneg.
  - intros b e m Hb He Hm Hb0 He0 Hcap fuel Hfuel.
    destruct (Number.lt totalXP (Fin 0)) eqn:Hneg.
    + right. split.
      * now apply (below_zero_none_reached options b e m).
      * unfold Binary64.calculateLevel. now rewrite Hneg.
    + now apply (calculateLevel_search64 options b e m).
Qed.

Lemma linear_highest64 :
  Binary64.highest_reached (Fin 500) Binary64.linear_options 100 5.
Proof.
  repeat split; [lia | lra | |].
  - unfold Binary64.reached. rewrite (linear_required64 5) by lia.
    cbn [Number.le]. apply Rleb_true. simpl. lra.
  - intros L' HL1 HL2 Hr. apply (le_IZR L' 100) in HL2.
    unfold Binary64.reached in Hr. rewrite linear_required64 in Hr by lia.
    cbn [Number.le] in Hr. apply Rleb_true in Hr.
    rewrite mult_IZR in Hr. apply le_IZR. lra.
Qed.

Lemma calculateLevel_highest_level_witness :
  Binary64.calculateLevel (Fin 500) Binary64.linear_options 7 = Some (Fin 5) /\
  Binary64.calculateLevel (Fin (-3)) Binary64.linear_options 0 = Some (Fin 1).
Proof.
  destruct (calculateLevel_highest_level (Fin 500) Binary64.linear_options)
    as (_ & H).
  destruct (calculateLevel_highest_level (Fin (-3)) Binary64.linear_options)
    as (Hneg & _).
  split.
  - destruct (H 100 1 100 eq_refl eq_refl eq_refl ltac:(lra) ltac:(lra)
                (IZR_lt 100 (2 ^ 53) eq_refl) 7%nat)
      as [(L & HL & Hres) | (Hnone & _)].
    + replace (Zfloor 100) with 100%Z by (symmetry; apply (ZfloorZ 100)).
      vm_compute. lia.
    + rewrite Hres. do 2 f_equal. f_equal.
      exact (highest_reached_unique64 _ _ _ _ _ HL linear_highest64).
    + destruct (highest_not_none64 _ _ _ _ linear_highest64 Hnone).
  - apply Hneg. cbn [Number.lt]. apply Rltb_true. lra.
Defined.

(** ** The product [0.7 * 10] *)

Lemma pow2_m53_value : powerRZ 2 (-53) = / 9007199254740992.
Proof. rewrite (pow2_inv_IZR (-53)) by lia. reflexivity. Qed.

Lemma pow2_m50_value : powerRZ 2 (-50) = / 1125899906842624.
Proof. rewrite (pow2_inv_IZR (-50)) by lia. reflexivity. Qed.

Lemma pow2_50_value : powerRZ 2 50 = 1125899906842624.
Proof. rewrite (pow2_IZR 50) by lia. reflexivity. Qed.

Lemma seven_tenths_representable : Binary64.representable Binary64.seven_tenths.
Proof.
  split.
  - unfold Binary64.seven_tenths. apply round_fixed; lia.
  - unfold Binary64.seven_tenths. rewrite pow2_m53_value.
    pose proof pow2_1024_pos. pose proof pow2_53_1024.
    assert (0 < IZR (2 ^ 53)) by (apply (IZR_lt 0); lia).
    apply Rabs_def1; lra.
Qed.

(** The exact product [6.99999999999999955...] lies halfway between two
    binary64 numbers and rounds to the even one, which is 7. *)
Lemma seven_tenths_times_ten : Binary64.round (Binary64.seven_tenths * 10) = 7.
Proof.
  rewrite (round_in_binade _ (-50)).
  - replace (Binary64.seven_tenths * 10 * powerRZ 2 (- -50))
      with (IZR 7881299347898367 + / 2).
    + rewrite nearest_even_tie.
      replace (Z.even 7881299347898367) with false by reflexivity.
      rewrite pow2_m50_value.
      replace (7881299347898367 + 1)%Z with 7881299347898368%Z by reflexivity.
      lra.
    + unfold Binary64.seven_tenths. rewrite pow2_m53_value.
      replace (- -50)%Z with 50%Z by reflexivity. rewrite pow2_50_value. lra.
  - lia.
  - replace (52 + -50)%Z with 2%Z by reflexivity.
    replace (53 + -50)%Z with 3%Z by reflexivity.
    rewrite (pow2_IZR 2), (pow2_IZR 3) by lia.
    unfold Binary64.seven_tenths. rewrite pow2_m53_value.
    replace (IZR (2 ^ 2)) with 4 by reflexivity.
    replace (IZR (2 ^ 3)) with 8 by reflexivity. lra.
Qed.

Lemma seven_tenths_required :
  Binary64.getRequiredXP (Fin 10) Binary64.seven_tenths_options = Fin 7.
Proof.
  rewrite (getRequiredXP_within64 Binary64.seven_tenths_options
             Binary64.seven_tenths 1 100 eq_refl eq_refl eq_refl 10 ltac:(lra)).
  rewrite Rpower_1 by lra.
  rewrite (number_of_integer 10) by lia. cbn [Binary64.mul].
  pose proof pow2_53_1024. pose proof (IZR_lt 7 (2 ^ 53) eq_refl).
  rewrite number_of_finite; rewrite seven_tenths_times_ten; [| lra].
  cbn [Math.floor]. now rewrite (Rfloor_IZR 7).
Qed.

Lemma seven_tenths_exact_floor : Rfloor (Binary64.seven_tenths * Rpower 10 1) = 6.
Proof.
  rewrite Rpower_1 by lra. apply (Rfloor_eq 6).
  unfold Binary64.seven_tenths. rewrite pow2_m53_value. lra.
Qed.

(** C3, as stated, fails where the product is rounded up to an integer:
    with [baseXP = 0.7] (the binary64 number nearest to it, slightly
    smaller) and [exponent = 1], level 10 requires 7, and the floor of the
    exact product is 6. *)
Lemma getRequiredXP_rounded_product :
  Binary64.representable Binary64.seven_tenths /\
  Binary64.getRequiredXP (Fin 10) Binary64.seven_tenths_options = Fin 7 /\
  Rfloor (Binary64.seven_tenths * Rpower 10 1) = 6 /\
  Binary64.getRequiredXP (Fin 10) Binary64.seven_tenths_options
  <> Fin (Rfloor (Binary64.seven_tenths * Rpower 10 1)).
Proof.
  split; [exact seven_tenths_representable |].
  split; [exact seven_tenths_required |].
  split; [exact seven_tenths_exact_floor |].
  rewrite seven_tenths_required, seven_tenths_exact_floor.
  intros H. injection H as H. lra.
Qed.

(** C3 (amended).  [getRequiredXP] returns 0 for every level below 1; from
    level 1 on it replaces a level above [maxLevel] by [maxLevel] (so that,
    for [maxLevel >= 1], it returns the requirement of [maxLevel]);
    otherwise it is the floor of the binary64 product
    [baseXP * Math.pow (level, exponent)].  That is
    [floor (baseXP * level ^ exponent)] where the power and the product are
    binary64 numbers, and within 1 of it for [baseXP >= 1] and a product
    below [2 ^ 51].  With the default options the requirement of level 1 is
    100 and that of level 10 is 3162. *)
Theorem getRequiredXP_policy :
  forall (options : Binary64.LevelCalculationOptions),
    let opts := Binary64.spread Binary64.DEFAULT_OPTIONS options in
    (forall level : R,
        level < 1 -> Binary64.getRequiredXP (Fin level) options = Fin 0) /\
    (forall b e m : R,
        Binary64.Required.baseXP opts = Fin b ->
        Binary64.Required.exponent opts = Fin e ->
        Binary64.Required.maxLevel opts = Fin m ->
        (forall level : R,
            1 <= level -> m < level ->
            Binary64.getRequiredXP (Fin level) options =
            Math.floor (Binary64.mul (Fin b) (Binary64.pow (Fin m) (Fin e))) /\
            (1 <= m ->
             Binary64.getRequiredXP (Fin level) options =
             Binary64.getRequiredXP (Fin m) options)) /\
        (forall level : R,
            1 <= level <= m ->
            Binary64.getRequiredXP (Fin level) options =
            Math.floor (Binary64.mul (Fin b) (Binary64.pow (Fin level) (Fin e))) /\
            Binary64.pow (Fin level) (Fin e) = Binary64.number_of (Rpower level e) /\
            (Binary64.representable (Rpower level e) ->
             Binary64.representable (b * Rpower level e) ->
             Binary64.getRequiredXP (Fin level) options =
             Fin (Rfloor (b * Rpower level e))) /\
            (1 <= b < powerRZ 2 1024 -> b * Rpower level e < IZR (2 ^ 51) ->
             exists k : Z,
               Binary64.getRequiredXP (Fin level) options = Fin (IZR k) /\
               (Z.abs (k - Zfloor (b * Rpower level e)) <= 1)%Z))) /\
    Binary64.getRequiredXP (Fin 1) Binary64.no_options = Fin 100 /\
    Binary64.getRequiredXP (Fin 10) Binary64.no_options = Fin 3162.
Proof.
  intros options opts. split; [| split; [| split]].
  - intros level Hlow. unfold Binary64.getRequiredXP. cbn [Number.lt].
    apply Rltb_true in Hlow. now rewrite Hlow.
  - intros b e m Hb He Hm. split.
    + intros level H1 Hm'. split.
      * now apply (getRequiredXP_above64 options b e m).
      * intros H1m. apply (getRequiredXP_at_cap64 options b e m); try assumption. lra.
    + intros level Hl. split; [| split; [| split]].
      * rewrite (getRequiredXP_within64 options b e m Hb He Hm level Hl).
        now rewrite pow_positive by lra.
      * apply pow_positive. lra.
      * now apply (getRequiredXP_exact64 options b e m).
      * now apply (getRequiredXP_near options b e m).
  - exact default_required_1.
  - exact default_required_10.
Qed.

Lemma getRequiredXP_policy_witness :
  Binary64.getRequiredXP (Fin 0.5) Binary64.linear_options = Fin 0 /\
  Binary64.getRequiredXP (Fin 150) Binary64.linear_options
  = Binary64.getRequiredXP (Fin 100) Binary64.linear_options /\
  Binary64.getRequiredXP (Fin 7) Binary64.linear_options = Fin (Rfloor (100 * Rpower 7 1)).
Proof.
  destruct (getRequiredXP_policy Binary64.linear_options) as (Hlow & Hin & _).
  destruct (Hin 100 1 100 eq_refl eq_refl eq_refl) as (Habove & Hwithin).
  split; [| split].
  - apply Hlow. lra.
  - apply (Habove 150); lra.
  - apply (Hwithin 7); [lra | |]; rewrite Rpower_1 by lra.
    + apply (representable_integer 7). lia.
    + replace (100 * 7) with (IZR 700) by lra. apply representable_integer. lia.
Defined.

(** ** Overflow: the exponent 400 *)

Lemma Rpower_400 (L : Z) : (1 <= L)%Z -> Rpower (IZR L) 400 = IZR (L ^ 400).
Proof.
  intros HL. assert (H0 : 0 < IZR L) by (apply (IZR_lt 0); lia).
  rewrite <- (powerRZ_Rpower (IZR L) 400 H0).
  change (L ^ 400)%Z with (Z.pow_pos L 400). now rewrite Zpower_pos_powerRZ.
Qed.

Lemma pow2_scaled (g : Z) :
  (0 <= g)%Z -> IZR (2 ^ (52 + g)) = IZR (2 ^ 52) * powerRZ 2 g.
Proof.
  intros Hg. rewrite (pow2_IZR g Hg), <- mult_IZR, Z.pow_add_r by lia. reflexivity.
Qed.

(** From level 6 on the power exceeds every binary64 number. *)
Lemma power_400_overflows (L : Z) :
  (6 <= L)%Z -> Binary64.number_of (Rpower (IZR L) 400) = PosInf.
Proof.
  intros HL. rewrite Rpower_400 by lia.
  assert (Hbig : (2 ^ (52 + 972) <= L ^ 400)%Z).
  { apply Z.le_trans with (6 ^ 400)%Z.
    - apply Z.leb_le. vm_compute. reflexivity.
    - apply Z.pow_le_mono_l. lia. }
  apply IZR_le in Hbig. rewrite (pow2_scaled 972) in Hbig by lia.
  apply round_ge_fixed in Hbig; [| lia | lia].
  rewrite <- (pow2_scaled 972) in Hbig by lia.
  rewrite <- (pow2_IZR (52 + 972)) in Hbig by lia.
  change (52 + 972)%Z with 1024%Z in Hbig.
  unfold Binary64.number_of. cbv zeta.
  now replace (Rleb (powerRZ 2 1024) (Binary64.round (IZR (L ^ 400)))) with true
    by (symmetry; apply Rleb_true; exact Hbig).
Qed.

(** Up to level 5 it is a number, at most [2 ^ 930]. *)
Lemma power_400_finite (L : Z) :
  (1 <= L <= 5)%Z ->
  exists p : R,
    Binary64.number_of (Rpower (IZR L) 400) = Fin p /\ 0 <= p <= IZR (2 ^ 930).
Proof.
  intros HL. rewrite Rpower_400 by lia.
  assert (Hsmall : (L ^ 400 <= 2 ^ (52 + 878))%Z).
  { apply Z.le_trans with (5 ^ 400)%Z.
    - apply Z.pow_le_mono_l. lia.
    - apply Z.leb_le. vm_compute. reflexivity. }
  assert (Hpos : (0 <= L ^ 400)%Z) by (apply Z.pow_nonneg; lia).
  apply IZR_le in Hsmall, Hpos. rewrite (pow2_scaled 878) in Hsmall by lia.
  apply round_le_fixed in Hsmall; [| lia | lia].
  rewrite <- (pow2_scaled 878) in Hsmall by lia.
  change (52 + 878)%Z with 930%Z in Hsmall.
  pose proof (round_nonneg _ Hpos) as Hr0.
  assert (H930 : IZR (2 ^ 930) < powerRZ 2 1024).
  { rewrite (pow2_IZR 1024) by lia. apply IZR_lt. apply Z.ltb_lt. vm_compute. reflexivity. }
  exists (Binary64.round (IZR (L ^ 400))). split; [| lra].
  apply number_of_finite. lra.
Qed.

Lemma steep_required_overflow (L : Z) :
  (6 <= L <= 100)%Z ->
  Binary64.getRequiredXP (Fin (IZR L)) Binary64.steep_options = PosInf.
Proof.
  intros HL.
  assert (Hl : 1 <= IZR L <= 100)
    by (split; [apply (IZR_le 1) | apply (IZR_le _ 100)]; lia).
  rewrite (getRequiredXP_within64 Binary64.steep_options 100 400 100
             eq_refl eq_refl eq_refl (IZR L) Hl).
  rewrite power_400_overflows by lia. cbn [Binary64.mul]. unfold Number.scale_inf.
  now replace (Rltb 0 100) with true by (symmetry; apply Rltb_true; lra).
Qed.

Lemma steep_required_finite (L : Z) :
  (1 <= L <= 5)%Z ->
  exists k : Z,
    Binary64.getRequiredXP (Fin (IZR L)) Binary64.steep_options = Fin (IZR k) /\
    (0 <= k)%Z.
Proof.
  intros HL.
  assert (Hl : 1 <= IZR L <= 100)
    by (split; [apply (IZR_le 1) | apply (IZR_le _ 100)]; lia).
  rewrite (getRequiredXP_within64 Binary64.steep_options 100 400 100
             eq_refl eq_refl eq_refl (IZR L) Hl).
  destruct (power_400_finite L HL) as (p & -> & Hp0 & Hp). cbn [Binary64.mul].
  assert (Hprod : 100 * p <= IZR (2 ^ 52) * powerRZ 2 885).
  { rewrite <- (pow2_scaled 885) by lia.
    apply Rle_trans with (IZR (2 ^ 7) * IZR (2 ^ 930)).
    - replace (IZR (2 ^ 7)) with 128 by reflexivity. lra.
    - rewrite <- mult_IZR. apply IZR_le. apply Z.leb_le. vm_compute. reflexivity. }
  apply round_le_fixed in Hprod; [| lia | lia].
  rewrite <- (pow2_scaled 885) in Hprod by lia.
  assert (H937 : IZR (2 ^ (52 + 885)) < powerRZ 2 1024).
  { rewrite (pow2_IZR 1024) by lia. apply IZR_lt. apply Z.ltb_lt. vm_compute. reflexivity. }
  assert (Hr0 : 0 <= Binary64.round (100 * p)) by (apply round_nonneg; lra).
  rewrite number_of_finite by lra. cbn [Math.floor]. unfold Rfloor.
  exists (Zfloor (Binary64.round (100 * p))). split; [reflexivity |].
  apply Zfloor_lub. exact Hr0.
Qed.

(** With [baseXP = 0]: 0 up to level 5, and [0 * Infinity], which is NaN,
    from level 6 on. *)
Lemma steep_zero_required_NaN (L : Z) :
  (6 <= L <= 100)%Z ->
  Binary64.getRequiredXP (Fin (IZR L)) Binary64.steep_zero_options = NaN.
Proof.
  intros HL.
  assert (Hl : 1 <= IZR L <= 100)
    by (split; [apply (IZR_le 1) | apply (IZR_le _ 100)]; lia).
  rewrite (getRequiredXP_within64 Binary64.steep_zero_options 0 400 100
             eq_refl eq_refl eq_refl (IZR L) Hl).
  rewrite power_400_overflows by lia. cbn [Binary64.mul]. unfold Number.scale_inf.
  now replace (Rltb 0 0) with false by (symmetry; apply Rltb_false; lra).
Qed.

Lemma steep_zero_required_0 (L : Z) :
  (1 <= L <= 5)%Z ->
  Binary64.getRequiredXP (Fin (IZR L)) Binary64.steep_zero_options = Fin 0.
Proof.
  intros HL.
  assert (Hl : 1 <= IZR L <= 100)
    by (split; [apply (IZR_le 1) | apply (IZR_le _ 100)]; lia).
  rewrite (getRequiredXP_within64 Binary64.steep_zero_options 0 400 100
             eq_refl eq_refl eq_refl (IZR L) Hl).
  destruct (power_400_finite L HL) as (p & -> & _). cbn [Binary64.mul].
  rewrite Rmult_0_l. rewrite (number_of_integer 0) by lia.
  cbn [Math.floor]. now rewrite (Rfloor_IZR 0).
Qed.

(** ** The curve [floor (sqrt level)] *)

Lemma sqrt_required64 :
  Binary64.getRequiredXP (Fin 1) Binary64.sqrt_options = Fin 1 /\
  Binary64.getRequiredXP (Fin 3) Binary64.sqrt_options = Fin 1 /\
  Binary64.getRequiredXP (Fin 4) Binary64.sqrt_options = Fin 2.
Proof.
  split; [| split].
  - rewrite (getRequiredXP_exact64 Binary64.sqrt_options 1 0.5 100
               eq_refl eq_refl eq_refl 1 ltac:(lra));
      rewrite Rpower_base_1; rewrite ?Rmult_1_r.
    + now rewrite (Rfloor_IZR 1).
    + apply (representable_integer 1). lia.
    + apply (representable_integer 1). lia.
  - apply (getRequiredXP_value64 Binary64.sqrt_options 1 0.5 100
             eq_refl eq_refl eq_refl 3 1); rewrite ?Rpower_half by lra.
    + lra.
    + lra.
    + lia.
    + pose proof (sqrt_between 3 1.7 1.8).
      pose proof pow2_m1022_small. pose proof pow2_10_1023. lra.
    + pose proof (sqrt_between 3 1.7 1.8). lra.
  - assert (Hs : sqrt 4 = 2)
      by (replace 4 with (2 * 2) by lra; apply sqrt_square; lra).
    rewrite (getRequiredXP_exact64 Binary64.sqrt_options 1 0.5 100
               eq_refl eq_refl eq_refl 4 ltac:(lra));
      rewrite Rpower_half by lra; rewrite Hs; rewrite ?Rmult_1_l.
    + now rewrite (Rfloor_IZR 2).
    + apply (representable_integer 2). lia.
    + apply (representable_integer 2). lia.
Qed.

(** ** Round trip *)

Lemma Number_le_antisym (a b : number) :
  Number.le a b = true -> Number.le b a = true -> a = b.
Proof.
  destruct a, b; simpl; try discriminate; try reflexivity.
  rewrite !Rleb_true. intros H1 H2. f_equal. lra.
Qed.

Lemma Number_le_left (a b : number) : Number.le a b = true -> a <> NaN.
Proof. destruct a; simpl; congruence. Qed.

Lemma Number_lt_not_le (a b : number) :
  Number.lt a b = true -> Number.le b a = false.
Proof.
  destruct a, b; simpl; try discriminate; try reflexivity.
  rewrite Rltb_true, Rleb_false. lra.
Qed.

Lemma Number_not_le_lt (a b : number) :
  a <> NaN -> b <> NaN -> Number.le b a = false -> Number.lt a b = true.
Proof.
  destruct a, b; simpl; try discriminate; try reflexivity; try congruence.
  intros _ _. rewrite Rltb_true, Rleb_false. lra.
Qed.

(** With an exponent of at least 1 the power grows by at least 1 from each
    level to the next. *)
Lemma Rpower_step (l e : R) :
  1 <= l -> 1 <= e -> Rpower l e + 1 <= Rpower (l + 1) e.
Proof.
  intros Hl He.
  replace e with ((e - 1) + 1) by lra. rewrite !Rpower_plus, !Rpower_1 by lra.
  assert (H1 : 1 <= Rpower l (e - 1)).
  { pose proof (Rle_Rpower_l 1 l (e - 1)) as Hm. rewrite Rpower_base_1 in Hm.
    apply Hm; lra. }
  assert (H2 : Rpower l (e - 1) <= Rpower (l + 1) (e - 1))
    by (apply Rle_Rpower_l; lra).
  nra.
Qed.

Section Binary64RoundTrip.

Variable options : Binary64.LevelCalculationOptions.
Variables b e m : R.

Hypothesis baseXP_finite :
  Binary64.Required.baseXP (Binary64.spread Binary64.DEFAULT_OPTIONS options) = Fin b.
Hypothesis exponent_finite :
  Binary64.Required.exponent (Binary64.spread Binary64.DEFAULT_OPTIONS options) = Fin e.
Hypothesis maxLevel_finite :
  Binary64.Required.maxLevel (Binary64.spread Binary64.DEFAULT_OPTIONS options) = Fin m.

(** With [baseXP > 0] a requirement of the range is never NaN. *)
Lemma getRequiredXP_number (l : R) :
  0 < b -> 1 <= l <= m -> Binary64.getRequiredXP (Fin l) options <> NaN.
Proof.
  intros Hb Hl.
  destruct (getRequiredXP_cases64 options b e m baseXP_finite exponent_finite
              maxLevel_finite (Rlt_le _ _ Hb) l Hl)
    as [(k & -> & _) | [-> | [_ Hb0]]]; try discriminate. lra.
Qed.

(** Nor is it negative. *)
Lemma getRequiredXP_not_negative (l : R) :
  0 < b -> 1 <= l <= m ->
  Number.lt (Binary64.getRequiredXP (Fin l) options) (Fin 0) = false.
Proof.
  intros Hb Hl.
  destruct (getRequiredXP_cases64 options b e m baseXP_finite exponent_finite
              maxLevel_finite (Rlt_le _ _ Hb) l Hl)
    as [(k & -> & Hk) | [-> | [-> _]]]; try reflexivity.
  cbn [Number.lt]. apply Rltb_false. apply (IZR_le 0) in Hk. lra.
Qed.

(** Where the two roundings stay below 1 a curve with [baseXP >= 3] and
    [exponent >= 1] grows strictly. *)
Lemma getRequiredXP_strict (L : Z) :
  3 <= b -> 1 <= e -> b * Rpower m e < IZR (2 ^ 51) ->
  (1 <= L)%Z -> IZR L + 1 <= m ->
  Number.lt (Binary64.getRequiredXP (Fin (IZR L)) options)
            (Binary64.getRequiredXP (Fin (IZR L + 1)) options) = true.
Proof.
  intros Hb He Hsmall HL HLm.
  assert (H1L : 1 <= IZR L) by (apply (IZR_le 1); exact HL).
  assert (Hmono : forall l : R, 1 <= l <= m -> b * Rpower l e < IZR (2 ^ 51)).
  { intros l Hl. apply Rle_lt_trans with (2 := Hsmall).
    apply Rmult_le_compat_l; [lra |]. apply Rle_Rpower_l; lra. }
  assert (Hm1 : 1 <= Rpower m e).
  { pose proof (Rle_Rpower_l 1 m e) as Hp. rewrite Rpower_base_1 in Hp.
    apply Hp; lra. }
  assert (Hbmax : b < powerRZ 2 1024).
  { pose proof pow2_53_1024. pose proof (IZR_lt (2 ^ 51) (2 ^ 53) eq_refl). nra. }
  destruct (getRequiredXP_near options b e m baseXP_finite exponent_finite
              maxLevel_finite (IZR L)) as (k & -> & Hk);
    [lra | lra | apply Hmono; lra |].
  destruct (getRequiredXP_near options b e m baseXP_finite exponent_finite
              maxLevel_finite (IZR L + 1)) as (k' & -> & Hk');
    [lra | lra | apply Hmono; lra |].
  cbn [Number.lt]. apply Rltb_true. apply IZR_lt.
  pose proof (Rpower_step (IZR L) e H1L He) as Hstep.
  assert (Hgap : b * Rpower (IZR L) e + 3 <= b * Rpower (IZR L + 1) e) by nra.
  assert (Hfl : (Zfloor (b * Rpower (IZR L) e) + 3
                 <= Zfloor (b * Rpower (IZR L + 1) e))%Z).
  { apply Zfloor_lub. rewrite plus_IZR.
    pose proof (Zfloor_bound (b * Rpower (IZR L) e)). lra. }
  lia.
Qed.

End Binary64RoundTrip.

Lemma sqrt_highest64 :
  Binary64.highest_reached (Fin 1) Binary64.sqrt_options 100 3.
Proof.
  destruct sqrt_required64 as (_ & H3 & H4).
  repeat split; [lia | lra | |].
  - unfold Binary64.reached. rewrite H3. cbn [Number.le]. apply Rleb_true. lra.
  - intros L' HL1 HL2 Hr.
    destruct (Z_lt_le_dec L' 4) as [Hlt | Hge]; [lia | exfalso].
    pose proof (reached_downward_closed Binary64.sqrt_options 1 0.5 100
                  eq_refl eq_refl eq_refl (Fin 1) 4 L'
                  ltac:(lra) ltac:(lra) ltac:(lia) HL2 Hr) as H.
    unfold Binary64.reached in H. rewrite H4 in H. cbn [Number.le] in H.
    apply Rleb_true in H. lra.
Qed.

Lemma steep_highest64 :
  Binary64.highest_reached PosInf Binary64.steep_options 100 100.
Proof.
  repeat split; [lia | lra | |].
  - unfold Binary64.reached. rewrite (steep_required_overflow 100) by lia. reflexivity.
  - intros L' _ HL' _. apply le_IZR. exact HL'.
Qed.

Lemma iteration_bound_100 : iteration_bound (Z.to_nat (Zfloor 100)) = 7%nat.
Proof.
  replace (Zfloor 100) with 100%Z by (symmetry; apply (ZfloorZ 100)).
  vm_compute. reflexivity.
Qed.

Lemma cap_100 : 100 < IZR (2 ^ 53).
Proof. apply (IZR_lt 100). reflexivity. Qed.

(** C2, as stated, fails where neighbouring levels have the same
    requirement.  The floor makes them so: level 1 of the curve
    [floor (sqrt level)] requires 1 XP, and with 1 XP the level is 3.  So
    does overflow: with [exponent = 400] level 6 requires [Infinity], as
    every later level does, and with that the level is 100. *)
Lemma roundtrip_flat_levels :
  (Binary64.getRequiredXP (Fin 1) Binary64.sqrt_options = Fin 1 /\
   forall fuel : nat,
     (7 <= fuel)%nat ->
     Binary64.calculateLevel
       (Binary64.getRequiredXP (Fin 1) Binary64.sqrt_options)
       Binary64.sqrt_options fuel = Some (Fin 3)) /\
  (Binary64.getRequiredXP (Fin 6) Binary64.steep_options = PosInf /\
   forall fuel : nat,
     (7 <= fuel)%nat ->
     Binary64.calculateLevel
       (Binary64.getRequiredXP (Fin 6) Binary64.steep_options)
       Binary64.steep_options fuel = Some (Fin 100)).
Proof.
  destruct sqrt_required64 as (H1 & _). split; split.
  - exact H1.
  - intros fuel Hfuel. rewrite H1.
    apply (calculateLevel_of_highest64 Binary64.sqrt_options 1 0.5 100
             eq_refl eq_refl eq_refl ltac:(lra) ltac:(lra) (Fin 1) 3 fuel).
    + exact cap_100.
    + cbn [Number.lt]. apply Rltb_false. lra.
    + now rewrite iteration_bound_100.
    + exact sqrt_highest64.
  - exact (steep_required_overflow 6 ltac:(lia)).
  - intros fuel Hfuel. rewrite (steep_required_overflow 6) by lia.
    apply (calculateLevel_of_highest64 Binary64.steep_options 100 400 100
             eq_refl eq_refl eq_refl ltac:(lra) ltac:(lra) PosInf 100 fuel).
    + exact cap_100.
    + reflexivity.
    + now rewrite iteration_bound_100.
    + exact steep_highest64.
Qed.

(** C2 (amended).  For a configuration with [baseXP > 0], [exponent >= 0]
    and a [maxLevel] below [2 ^ 53], and an integer level [L] of
    [[1, maxLevel]], [calculateLevel (getRequiredXP L)] is the highest level
    of the range with the requirement of [L]; it is [L] exactly when [L] is
    the last level of the range or [getRequiredXP L < getRequiredXP (L + 1)],
    and so it is [L] at every level when [baseXP >= 3], [exponent >= 1] and
    [baseXP * maxLevel ^ exponent < 2 ^ 51], as in the default
    configuration. *)
Theorem calculateLevel_getRequiredXP_roundtrip :
  forall (options : Binary64.LevelCalculationOptions) (b e m : R) (L : Z)
         (fuel : nat),
    let opts := Binary64.spread Binary64.DEFAULT_OPTIONS options in
    let xp := Binary64.getRequiredXP (Fin (IZR L)) options in
    Binary64.Required.baseXP opts = Fin b ->
    Binary64.Required.exponent opts = Fin e ->
    Binary64.Required.maxLevel opts = Fin m ->
    0 < b -> 0 <= e -> m < IZR (2 ^ 53) ->
    (1 <= L)%Z -> IZR L <= m ->
    (iteration_bound (Z.to_nat (Zfloor m)) <= fuel)%nat ->
    (exists L' : Z,
        Binary64.calculateLevel xp options fuel = Some (Fin (IZR L')) /\
        (L <= L')%Z /\ IZR L' <= m /\
        Binary64.getRequiredXP (Fin (IZR L')) options = xp /\
        forall L'' : Z,
          (1 <= L'')%Z -> IZR L'' <= m ->
          Binary64.getRequiredXP (Fin (IZR L'')) options = xp -> (L'' <= L')%Z) /\
    (Binary64.calculateLevel xp options fuel = Some (Fin (IZR L)) <->
     (m < IZR L + 1 \/
      Number.lt xp (Binary64.getRequiredXP (Fin (IZR L + 1)) options) = true)) /\
    (3 <= b -> 1 <= e -> b * Rpower m e < IZR (2 ^ 51) ->
     Binary64.calculateLevel xp options fuel = Some (Fin (IZR L))).
Proof.
  intros options b e m L fuel opts xp Hb He Hm Hb0 He0 Hcap HL1 HL2 Hfuel.
  assert (Hb0' : 0 <= b) by lra.
  assert (H1L : 1 <= IZR L) by (apply (IZR_le 1); exact HL1).
  assert (Hxp : xp <> NaN)
    by (apply (getRequiredXP_number options b e m Hb He Hm); [exact Hb0 | lra]).
  assert (Hneg : Number.lt xp (Fin 0) = false)
    by (apply (getRequiredXP_not_negative options b e m Hb He Hm); [exact Hb0 | lra]).
  assert (HLreached : Binary64.reached xp options L = true)
    by (unfold Binary64.reached; fold xp; now apply Number_le_refl).
  destruct (calculateLevel_search64 options b e m Hb He Hm Hb0' He0 xp fuel
              Hcap Hneg Hfuel) as [(L' & HL' & Hres) | (Hnone & _)].
  2:{ rewrite (Hnone L HL1 HL2) in HLreached. discriminate. }
  destruct HL' as (HL'1 & HL'2 & HL'3 & HL'4).
  assert (HLL' : (L <= L')%Z) by (apply HL'4; assumption).
  assert (Hsame : Binary64.getRequiredXP (Fin (IZR L')) options = xp).
  { apply Number_le_antisym; [exact HL'3 |].
    apply (getRequiredXP_le64 options b e m Hb He Hm); try assumption.
    - split; [lra | apply IZR_le; exact HLL'].
    - apply (Number_le_left _ _ HL'3). }
  assert (Hiff : Binary64.calculateLevel xp options fuel = Some (Fin (IZR L)) <->
                 (m < IZR L + 1 \/
                  Number.lt xp (Binary64.getRequiredXP (Fin (IZR L + 1)) options)
                  = true)).
  { rewrite Hres. split.
    - intros E. injection E as E. apply eq_IZR in E. subst L'.
      destruct (Rlt_dec m (IZR L + 1)) as [Hlast | Hin]; [left; exact Hlast | right].
      assert (HL1m : IZR (L + 1) <= m) by (rewrite plus_IZR; lra).
      assert (Hnot : Binary64.reached xp options (L + 1) = false).
      { destruct (Binary64.reached xp options (L + 1)) eqn:Er; [| reflexivity].
        pose proof (HL'4 (L + 1)%Z ltac:(lia) HL1m Er). lia. }
      unfold Binary64.reached in Hnot. rewrite plus_IZR in Hnot.
      apply Number_not_le_lt; [exact Hxp | | exact Hnot].
      apply (getRequiredXP_number options b e m Hb He Hm); [exact Hb0 |].
      rewrite plus_IZR in HL1m. lra.
    - intros Hcase. do 2 f_equal.
      destruct (Z.eq_dec L' L) as [-> | Hne]; [reflexivity | exfalso].
      assert (HL1m : IZR (L + 1) <= m).
      { apply Rle_trans with (2 := HL'2). apply IZR_le. lia. }
      rewrite plus_IZR in HL1m.
      destruct Hcase as [Hlast | Hlt]; [lra |].
      apply Number_lt_not_le in Hlt.
      pose proof (reached_downward_closed options b e m Hb He Hm xp (L + 1) L'
                    Hb0' He0 ltac:(lia) HL'2 HL'3) as Hr.
      unfold Binary64.reached in Hr. rewrite plus_IZR in Hr. congruence. }
  split; [| split; [exact Hiff |]].
  - exists L'. split; [exact Hres |]. split; [exact HLL' |].
    split; [exact HL'2 |]. split; [exact Hsame |].
    intros L'' H1 H2 H3. apply HL'4; try assumption.
    unfold Binary64.reached. rewrite H3. now apply Number_le_refl.
  - intros Hb3 He1 Hsmall. apply Hiff.
    destruct (Rlt_dec m (IZR L + 1)) as [Hlast | Hin]; [left; exact Hlast | right].
    apply (getRequiredXP_strict options b e m Hb He Hm); try assumption. lra.
Qed.

Lemma default_product_small : 100 * Rpower 100 1.5 < IZR (2 ^ 51).
Proof.
  rewrite Rpower_three_halves, sqrt_100 by lra.
  replace (100 * (100 * 10)) with (IZR 100000) by (simpl; lra).
  apply IZR_lt. reflexivity.
Qed.

Lemma calculateLevel_getRequiredXP_roundtrip_witness :
  Binary64.calculateLevel
    (Binary64.getRequiredXP (Fin 10) Binary64.no_options) Binary64.no_options 7
  = Some (Fin 10).
Proof.
  destruct (calculateLevel_getRequiredXP_roundtrip Binary64.no_options 100 1.5 100
              10 7 eq_refl eq_refl eq_refl ltac:(lra) ltac:(lra) cap_100
              ltac:(lia) ltac:(lra)) as (_ & _ & H).
  - rewrite iteration_bound_100. lia.
  - apply H; [lra | lra | exact default_product_small].
Defined.

(** ** Binary64 numbers

    A rounded value is an integer multiple of a power of two, with fewer
    than 53 bits: rounding leaves it unchanged. *)

Lemma round_magnitude_grid (x : R) :
  0 <= x ->
  exists (n g : Z),
    Binary64.round_magnitude x = IZR n * powerRZ 2 g /\
    (0 <= n < 2 ^ 53)%Z /\ (-1074 <= g)%Z.
Proof.
  intros Hx. unfold Binary64.round_magnitude. cbv zeta.
  set (e := Binary64.ulp_exponent x).
  assert (He : (-1074 <= e)%Z) by (unfold e, Binary64.ulp_exponent; lia).
  destruct (scaled_below x Hx) as [H0 H53]. fold e in H0, H53.
  rewrite (pow2_IZR 53) in H53 by lia.
  set (n := Binary64.nearest_even (x * powerRZ 2 (- e))).
  assert (Hn0 : (0 <= n)%Z).
  { unfold n. rewrite <- (nearest_even_IZR 0). apply nearest_even_le. exact H0. }
  assert (Hn53 : (n <= 2 ^ 53)%Z).
  { unfold n. rewrite <- (nearest_even_IZR (2 ^ 53)). apply nearest_even_le. lra. }
  destruct (Z.eq_dec n (2 ^ 53)) as [E | Hne].
  - exists (2 ^ 52)%Z, (e + 1)%Z. rewrite E. split; [| lia].
    rewrite pow2_add, pow2_1.
    replace (IZR (2 ^ 53)) with (IZR (2 ^ 52) * 2)
      by (rewrite <- mult_IZR; reflexivity).
    ring.
  - exists n, e. split; [reflexivity | lia].
Qed.

Lemma round_grid (x : R) :
  exists (n g : Z),
    Binary64.round x = IZR n * powerRZ 2 g /\
    (Z.abs n < 2 ^ 53)%Z /\ (-1074 <= g)%Z.
Proof.
  destruct (Rle_dec 0 x) as [Hx | Hx].
  - rewrite round_nonneg_eq by exact Hx.
    destruct (round_magnitude_grid x Hx) as (n & g & E & Hn & Hg).
    exists n, g. split; [exact E | lia].
  - rewrite round_neg_eq by lra.
    destruct (round_magnitude_grid (- x) ltac:(lra)) as (n & g & E & Hn & Hg).
    exists (- n)%Z, g. split; [| lia]. rewrite E, opp_IZR. ring.
Qed.

Lemma round_idempotent (x : R) : Binary64.round (Binary64.round x) = Binary64.round x.
Proof.
  destruct (round_grid x) as (n & g & -> & Hn & Hg). now apply round_fixed.
Qed.

(** A finite result of an operation is a binary64 number. *)
Lemma number_of_is_representable (x y : R) :
  Binary64.number_of x = Fin y -> Binary64.representable y.
Proof.
  intros H.
  destruct (number_of_cases x) as [[E B] | [[E _] | [E _]]]; rewrite E in H;
    try discriminate.
  injection H as <-. split; [apply round_idempotent | apply Rabs_def1; lra].
Qed.

(** So is its floor. *)
Lemma floor_representable (y : R) :
  Binary64.representable y -> Binary64.representable (Rfloor y).
Proof.
  intros [Hr Hb]. destruct (round_grid y) as (n & g & E & Hn & Hg).
  rewrite Hr in E.
  destruct (Z_le_gt_dec 0 g) as [Hg0 | Hg0].
  - assert (Hint : y = IZR (n * 2 ^ g)).
    { rewrite E, mult_IZR. now rewrite (pow2_IZR g Hg0). }
    rewrite Hint at 1. rewrite Rfloor_IZR, <- Hint. split; assumption.
  - unfold Rfloor. apply representable_integer.
    assert (Hg1 : powerRZ 2 g <= 1).
    { change 1 with (powerRZ 2 0). apply pow2_le. lia. }
    pose proof (pow2_pos g) as Hgp.
    assert (Hnb : - IZR (2 ^ 53) <= IZR n <= IZR (2 ^ 53)).
    { rewrite <- opp_IZR. split; apply IZR_le; lia. }
    assert (Hy : - IZR (2 ^ 53) <= y <= IZR (2 ^ 53)).
    { rewrite E. assert (0 < IZR (2 ^ 53)) by (apply (IZR_lt 0); lia).
      split; nra. }
    assert (H1 : (- 2 ^ 53 <= Zfloor y)%Z).
    { apply Zfloor_lub. rewrite opp_IZR. lra. }
    assert (H2 : (Zfloor y <= 2 ^ 53)%Z).
    { apply le_IZR. pose proof (Zfloor_bound y). lra. }
    lia.
Qed.

(** In particular every finite requirement. *)
Lemma getRequiredXP_representable (level : number) options (r : R) :
  Binary64.getRequiredXP level options = Fin r -> Binary64.representable r.
Proof.
  unfold Binary64.getRequiredXP.
  destruct (Number.lt level (Fin 1)).
  - intros H. injection H as <-. apply (representable_integer 0). lia.
  - set (B := Binary64.Required.baseXP _). set (P := Binary64.pow _ _).
    destruct B as [vb | | |], P as [vp | | |]; cbn [Binary64.mul Math.floor];
      unfold Number.scale_inf; try discriminate;
      repeat match goal with
             | |- context [if ?c then _ else _] => destruct c
             end; try discriminate.
    destruct (Binary64.number_of (vb * vp)) as [y | | |] eqn:E; try discriminate.
    intros H. injection H as <-. apply floor_representable.
    exact (number_of_is_representable _ _ E).
Qed.

(** A finite requirement is an integer. *)
Lemma getRequiredXP_integer_valued (level : number) options (r : R) :
  Binary64.getRequiredXP level options = Fin r -> exists k : Z, r = IZR k.
Proof.
  unfold Binary64.getRequiredXP.
  destruct (Number.lt level (Fin 1)).
  - intros H. injection H as <-. now exists 0%Z.
  - destruct (Binary64.mul _ _) as [y | | |]; cbn [Math.floor]; try discriminate.
    intros H. injection H as <-. now exists (Zfloor y).
Qed.

(** A binary64 number below an integer is below it by a binary64 number. *)
Lemma representable_below_integer (x : R) (k : Z) :
  Binary64.representable x -> x < IZR k -> x - IZR k <= - powerRZ 2 (-1074).
Proof.
  intros [Hr _] Hlt. destruct (round_grid x) as (n & g & E & Hn & Hg).
  rewrite Hr in E.
  pose proof (pow2_pos g) as Hgp.
  destruct (Z_le_gt_dec 0 g) as [Hg0 | Hg0].
  - assert (Hint : x = IZR (n * 2 ^ g)).
    { rewrite E, mult_IZR. now rewrite (pow2_IZR g Hg0). }
    rewrite Hint in Hlt |- *. apply lt_IZR in Hlt.
    assert (H1 : IZR (n * 2 ^ g) <= IZR (k - 1)) by (apply IZR_le; lia).
    rewrite minus_IZR in H1.
    assert (powerRZ 2 (-1074) <= 1)
      by (change 1 with (powerRZ 2 0); apply pow2_le; lia).
    lra.
  - assert (Hk : IZR k = IZR (k * 2 ^ (- g)) * powerRZ 2 g).
    { rewrite mult_IZR, <- (pow2_IZR (- g)) by lia.
      rewrite Rmult_assoc, pow2_cancel. ring. }
    rewrite Hk, E in Hlt.
    assert (Hnk : (n < k * 2 ^ (- g))%Z).
    { apply lt_IZR. apply Rmult_lt_reg_r with (powerRZ 2 g); assumption. }
    assert (H1 : IZR (n + 1) <= IZR (k * 2 ^ (- g))) by (apply IZR_le; lia).
    rewrite plus_IZR in H1.
    assert (Hle : powerRZ 2 (-1074) <= powerRZ 2 g) by (apply pow2_le; lia).
    rewrite Hk, E. nra.
Qed.

(** ** The level is at least 1 *)

Lemma number_of_ge_integer (x : R) (z : Z) :
  (Z.abs z <= 2 ^ 53)%Z -> IZR z <= x ->
  Number.le (Fin (IZR z)) (Binary64.number_of x) = true.
Proof.
  intros Hz Hx. rewrite <- (number_of_integer z Hz). now apply number_of_le.
Qed.

Lemma number_of_le_integer (x : R) (z : Z) :
  (Z.abs z <= 2 ^ 53)%Z -> x <= IZR z ->
  Number.le (Binary64.number_of x) (Fin (IZR z)) = true.
Proof.
  intros Hz Hx. rewrite <- (number_of_integer z Hz). now apply number_of_le.
Qed.

Lemma midpoint_at_least_1 (low high : number) :
  Number.le (Fin 1) low = true -> Number.le low high = true ->
  Number.le (Fin 1) (Math.floor (Binary64.div (Binary64.add low high) (Fin 2))) = true.
Proof.
  intros H1 H2.
  assert (Hsum : Number.le (Fin 2) (Binary64.add low high) = true).
  { destruct low as [l | | |], high as [h | | |]; try discriminate; try reflexivity.
    cbn [Number.le] in H1, H2. apply Rleb_true in H1, H2.
    apply (number_of_ge_integer _ 2); [lia | lra]. }
  destruct (Binary64.add low high) as [s | | |]; try discriminate.
  - cbn [Number.le] in Hsum. apply Rleb_true in Hsum. cbn [Binary64.div].
    replace (Reqb 2 0) with false by (symmetry; apply Reqb_false; lra).
    pose proof (number_of_ge_integer (s / 2) 1 ltac:(lia) ltac:(lra)) as Hq.
    destruct (Binary64.number_of (s / 2)) as [q | | |]; try discriminate;
      [| reflexivity].
    cbn [Number.le Math.floor] in *. apply Rleb_true in Hq. apply Rleb_true.
    rewrite <- (Rfloor_IZR 1). now apply Rfloor_le.
  - cbn [Binary64.div].
    now replace (Rltb 2 0) with false by (symmetry; apply Rltb_false; lra).
Qed.

Lemma successor_at_least_1 (mid : number) :
  Number.le (Fin 1) mid = true ->
  Number.le (Fin 1) (Binary64.add mid (Fin 1)) = true.
Proof.
  destruct mid as [q | | |]; try discriminate; try reflexivity.
  cbn [Number.le Binary64.add]. intros H. apply Rleb_true in H.
  apply (number_of_ge_integer _ 1); [lia | lra].
Qed.

Lemma loop_at_least_1 totalXP options (fuel : nat) :
  forall (low high cur v : number),
    Number.le (Fin 1) low = true -> Number.le (Fin 1) cur = true ->
    Binary64.calculateLevel_loop totalXP options low high cur fuel = Some v ->
    Number.le (Fin 1) v = true.
Proof.
  induction fuel as [| fuel IH]; intros low high cur v Hlow Hcur;
    cbn [Binary64.calculateLevel_loop];
    destruct (Number.le low high) eqn:Hguard;
    try discriminate; try (intros H; injection H as <-; exact Hcur).
  pose proof (midpoint_at_least_1 low high Hlow Hguard) as Hmid.
  destruct (Number.le _ totalXP).
  - apply IH; [now apply successor_at_least_1 | exact Hmid].
  - apply IH; assumption.
Qed.

(** Whenever [calculateLevel] returns, whatever the configuration, it
    returns a number [>= 1] (possibly [Infinity]). *)
Lemma calculateLevel_at_least_1 totalXP options (fuel : nat) (v : number) :
  Binary64.calculateLevel totalXP options fuel = Some v ->
  Number.le (Fin 1) v = true.
Proof.
  unfold Binary64.calculateLevel. destruct (Number.lt totalXP (Fin 0)).
  - intros H. injection H as <-. cbn [Number.le]. apply Rleb_true. lra.
  - apply loop_at_least_1; cbn [Number.le]; apply Rleb_true; lra.
Qed.

(** ** The clamp of [getXPProgress] *)

Lemma clamp_range (y : number) :
  y <> NaN ->
  exists p : R,
    Math.min (Fin 100) (Math.max (Fin 0) y) = Fin p /\ 0 <= p <= 100.
Proof.
  intros Hy. destruct y as [r | | |]; try congruence.
  - cbn [Math.max Number.lt]. destruct (Rltb 0 r) eqn:E0.
    + apply Rltb_true in E0. cbn [Math.min Number.lt].
      destruct (Rltb r 100) eqn:E1.
      * apply Rltb_true in E1. exists r. split; [reflexivity | lra].
      * exists 100. split; [reflexivity | lra].
    + cbn [Math.min Number.lt].
      replace (Rltb 0 100) with true by (symmetry; apply Rltb_true; lra).
      exists 0. split; [reflexivity | lra].
  - exists 100. split; [reflexivity | lra].
  - exists 0. cbn [Math.max Number.lt Math.min].
    replace (Rltb 0 100) with true by (symmetry; apply Rltb_true; lra).
    split; [reflexivity | lra].
Qed.

Lemma clamp_NaN : Math.min (Fin 100) (Math.max (Fin 0) NaN) = NaN.
Proof. reflexivity. Qed.

Lemma times_100_number (q : number) :
  q <> NaN -> Binary64.mul q (Fin 100) <> NaN.
Proof.
  destruct q as [r | | |]; try congruence; intros _; cbn [Binary64.mul].
  - apply number_of_not_NaN.
  - unfold Number.scale_inf.
    now replace (Rltb 0 100) with true by (symmetry; apply Rltb_true; lra).
  - unfold Number.scale_inf.
    now replace (Rltb 0 100) with true by (symmetry; apply Rltb_true; lra).
Qed.

(** The quotient is a number unless it is [0 / 0] or has two infinite
    operands. *)
Lemma quotient_number (num : number) (d : R) :
  num <> NaN -> (d <> 0 \/ num <> Fin 0) ->
  Binary64.div num (Fin d) <> NaN.
Proof.
  intros Hn Hd. destruct num as [a | | |]; try congruence; cbn [Binary64.div].
  - destruct (Reqb d 0) eqn:Ed.
    + apply Reqb_true in Ed. destruct Hd as [Hd | Ha]; [congruence |].
      destruct (Rltb 0 a) eqn:E1; [discriminate |].
      destruct (Rltb a 0) eqn:E2; [discriminate |].
      apply Rltb_false in E1, E2. exfalso. apply Ha. f_equal. lra.
    + apply number_of_not_NaN.
  - destruct (Rltb d 0); discriminate.
  - destruct (Rltb d 0); discriminate.
Qed.

(** The guard of [getXPProgress] reads the cap of the options unless it is
    absent, 0 or NaN. *)
Lemma or_maxLevel options (m : R) :
  Binary64.Required.maxLevel (Binary64.spread Binary64.DEFAULT_OPTIONS options) = Fin m ->
  m <> 0 ->
  Binary64.or (Binary64.maxLevel options)
    (Binary64.Required.maxLevel Binary64.DEFAULT_OPTIONS) = Fin m.
Proof.
  unfold Binary64.spread, Binary64.override. cbn [Binary64.Required.maxLevel].
  destruct (Binary64.maxLevel options) as [v |]; cbn [Binary64.or].
  - intros -> Hm. now replace (Reqb m 0) with false by (symmetry; apply Reqb_false; exact Hm).
  - intros H _. exact H.
Qed.

(** ** [getXPProgress] *)

(** At the cap the guard answers. *)
Lemma getXPProgress_at_cap64 (x : number) options (fuel : nat) (v : number) :
  Binary64.calculateLevel x options fuel = Some v ->
  Number.strict_equal v
    (Binary64.Required.maxLevel (Binary64.spread Binary64.DEFAULT_OPTIONS options))
  = true ->
  Binary64.getXPProgress x options fuel = Some (Fin 100).
Proof.
  intros Hrun Heq. pose proof (calculateLevel_at_least_1 _ _ _ _ Hrun) as H1.
  unfold Binary64.getXPProgress. rewrite Hrun. cbv zeta.
  replace (Number.ge v (Binary64.or (Binary64.maxLevel options)
                          (Binary64.Required.maxLevel Binary64.DEFAULT_OPTIONS)))
    with true; [reflexivity |].
  symmetry. revert Heq.
  unfold Binary64.spread, Binary64.override. cbn [Binary64.Required.maxLevel].
  destruct (Binary64.maxLevel options) as [mv |]; cbn [Binary64.or].
  - destruct v as [r | | |], mv as [y | | |]; try discriminate.
    + cbn [Number.strict_equal Number.le] in *. intros E.
      apply Reqb_true in E. subst y. apply Rleb_true in H1.
      replace (Reqb r 0) with false by (symmetry; apply Reqb_false; lra).
      unfold Number.ge. cbn [Number.le]. apply Rleb_true. lra.
    + reflexivity.
  - destruct v as [r | | |]; try discriminate.
    cbn [Number.strict_equal]. intros E. apply Reqb_true in E. subst r.
    unfold Number.ge. cbn [Number.le]. apply Rleb_true. lra.
Qed.

(** A cap below 1 other than 0 is reached at once. *)
Lemma getXPProgress_low_cap (x : number) options (m : R) (fuel : nat) :
  Binary64.Required.maxLevel (Binary64.spread Binary64.DEFAULT_OPTIONS options) = Fin m ->
  m < 1 -> m <> 0 ->
  Binary64.getXPProgress x options fuel = Some (Fin 100).
Proof.
  intros Hm Hlow Hne.
  assert (Hrun : Binary64.calculateLevel x options fuel = Some (Fin 1)).
  { unfold Binary64.calculateLevel. rewrite Hm.
    destruct (Number.lt x (Fin 0)); [reflexivity |].
    destruct fuel; cbn [Binary64.calculateLevel_loop Number.le];
      now replace (Rleb 1 m) with false by (symmetry; apply Rleb_false; lra). }
  unfold Binary64.getXPProgress. rewrite Hrun. cbv zeta.
  rewrite (or_maxLevel options m Hm Hne). unfold Number.ge. cbn [Number.le].
  now replace (Rleb m 1) with true by (symmetry; apply Rleb_true; lra).
Qed.

(** The difference of two binary64 numbers [>= 0] does not overflow. *)
Lemma difference_finite (a c : R) :
  Binary64.representable a -> Binary64.representable c -> 0 <= a -> 0 <= c ->
  exists d : R, Binary64.number_of (a - c) = Fin d /\ - c <= d <= a.
Proof.
  intros [Ha Ha'] [Hc Hc'] Ha0 Hc0.
  assert (H1 : Binary64.round (a - c) <= a)
    by (rewrite <- Ha at 2; apply round_le; lra).
  assert (H2 : - c <= Binary64.round (a - c)).
  { rewrite <- Hc at 1. rewrite <- round_opp. apply round_le. lra. }
  apply Rabs_def2 in Ha', Hc'.
  exists (Binary64.round (a - c)). split; [| lra].
  apply number_of_finite. lra.
Qed.

(** Below an integer requirement the XP in the level is negative, not 0. *)
Lemma shortfall_negative (x : R) (k : Z) :
  Binary64.representable x -> x < IZR k ->
  Binary64.number_of (x - IZR k) <> NaN /\
  Binary64.number_of (x - IZR k) <> Fin 0.
Proof.
  intros Hx Hlt. split; [apply number_of_not_NaN |].
  pose proof (representable_below_integer x k Hx Hlt) as Hgap.
  assert (Hr : Binary64.round (x - IZR k) <= IZR (-1) * powerRZ 2 (-1074)).
  { apply round_le_fixed; [lia | lia |]. lra. }
  pose proof (pow2_pos (-1074)).
  destruct (number_of_cases (x - IZR k)) as [[E _] | [[E _] | [E _]]]; rewrite E;
    try discriminate.
  intros H0. injection H0 as H0. lra.
Qed.

Section Binary64Progress.

Variable options : Binary64.LevelCalculationOptions.
Variable M : Z.

Hypothesis cap :
  Binary64.Required.maxLevel (Binary64.spread Binary64.DEFAULT_OPTIONS options)
  = Fin (IZR M).
Hypothesis cap_range : (1 <= M < 2 ^ 53)%Z.
Hypothesis finite_requirements :
  forall l : Z, (1 <= l <= M)%Z ->
    exists c : R, 0 <= c /\ Binary64.getRequiredXP (Fin (IZR l)) options = Fin c.

Lemma requirement_integer (l : Z) :
  (1 <= l <= M)%Z ->
  exists k : Z,
    Binary64.getRequiredXP (Fin (IZR l)) options = Fin (IZR k) /\ (0 <= k)%Z /\
    Binary64.representable (IZR k).
Proof.
  intros Hl. destruct (finite_requirements l Hl) as (c & Hc & E).
  destruct (getRequiredXP_integer_valued _ _ _ E) as (k & ->).
  exists k. split; [exact E |]. split; [now apply le_IZR |].
  exact (getRequiredXP_representable _ _ _ E).
Qed.

(** Where the search stops, for a finite [x]: at the cap; or below it, with
    the requirement of the level met and the next one not; or at level 1
    with its requirement not met. *)
Lemma level_position (x : R) (fuel : nat) :
  (iteration_bound (Z.to_nat M) <= fuel)%nat ->
  exists z : Z,
    Binary64.calculateLevel (Fin x) options fuel = Some (Fin (IZR z)) /\
    (1 <= z <= M)%Z /\
    (z = M \/
     exists kc kn : Z,
       (z < M)%Z /\
       Binary64.getRequiredXP (Fin (IZR z)) options = Fin (IZR kc) /\
       Binary64.getRequiredXP (Fin (IZR (z + 1))) options = Fin (IZR kn) /\
       (0 <= kc)%Z /\ (0 <= kn)%Z /\
       Binary64.representable (IZR kc) /\ Binary64.representable (IZR kn) /\
       (IZR kc <= x < IZR kn \/ z = 1%Z /\ x < IZR kc)).
Proof.
  intros Hfuel.
  assert (Hbelow : forall z : Z,
             (1 <= z < M)%Z ->
             (forall kc kn : Z,
                 Binary64.getRequiredXP (Fin (IZR z)) options = Fin (IZR kc) ->
                 Binary64.getRequiredXP (Fin (IZR (z + 1))) options = Fin (IZR kn) ->
                 (0 <= kc)%Z ->
                 IZR kc <= x < IZR kn \/ z = 1%Z /\ x < IZR kc) ->
             exists kc kn : Z,
               (z < M)%Z /\
               Binary64.getRequiredXP (Fin (IZR z)) options = Fin (IZR kc) /\
               Binary64.getRequiredXP (Fin (IZR (z + 1))) options = Fin (IZR kn) /\
               (0 <= kc)%Z /\ (0 <= kn)%Z /\
               Binary64.representable (IZR kc) /\ Binary64.representable (IZR kn) /\
               (IZR kc <= x < IZR kn \/ z = 1%Z /\ x < IZR kc)).
  { intros z Hz Hpos.
    destruct (requirement_integer z ltac:(lia)) as (kc & Ec & Hkc & Rc).
    destruct (requirement_integer (z + 1) ltac:(lia)) as (kn & En & Hkn & Rn).
    exists kc, kn.
    refine (conj _ (conj Ec (conj En (conj Hkc (conj Hkn (conj Rc (conj Rn _)))))));
      [lia | now apply Hpos]. }
  destruct (calculateLevel_local (Fin x) options (IZR M) fuel cap)
    as (v & Hrun & [[Hneg Hv] | [Hnn Hres]]).
  - apply IZR_lt. lia.
  - now rewrite ZfloorZ.
  - subst v. exists 1%Z. split; [exact Hrun |]. split; [lia |].
    destruct (Z.eq_dec 1 M) as [E | Hne]; [left; exact E | right].
    apply Hbelow; [lia |]. intros kc kn _ _ Hkc. right. split; [reflexivity |].
    cbn [Number.lt] in Hneg. apply Rltb_true in Hneg. apply (IZR_le 0) in Hkc. lra.
  - destruct Hres as [(z & Hv & Hz1 & Hz2 & Hz3 & Hz4) | (Hv & Hfirst)].
    + subst v. apply le_IZR in Hz2. exists z. split; [exact Hrun |]. split; [lia |].
      destruct (Z.eq_dec z M) as [E | Hne]; [left; exact E | right].
      apply Hbelow; [lia |]. intros kc kn Ec En _. left.
      unfold Binary64.reached in Hz3, Hz4. rewrite Ec in Hz3.
      cbn [Number.le] in Hz3. apply Rleb_true in Hz3.
      assert (Hin : IZR z + 1 <= IZR M).
      { rewrite <- (plus_IZR z 1). apply IZR_le. lia. }
      specialize (Hz4 Hin). rewrite En in Hz4. cbn [Number.le] in Hz4.
      apply Rleb_false in Hz4. lra.
    + subst v. exists 1%Z. split; [exact Hrun |]. split; [lia |].
      destruct (Z.eq_dec 1 M) as [E | Hne]; [left; exact E | right].
      apply Hbelow; [lia |]. intros kc kn Ec _ _. right. split; [reflexivity |].
      assert (Hin : IZR 1 <= IZR M) by (apply IZR_le; lia).
      specialize (Hfirst Hin). unfold Binary64.reached in Hfirst.
      rewrite Ec in Hfirst. cbn [Number.le] in Hfirst.
      apply Rleb_false in Hfirst. lra.
Qed.

(** Below the cap the result is the clamped percentage. *)
Lemma getXPProgress_below_cap64 (x : R) (z kc kn : Z) (fuel : nat) :
  Binary64.calculateLevel (Fin x) options fuel = Some (Fin (IZR z)) ->
  (1 <= z < M)%Z ->
  Binary64.getRequiredXP (Fin (IZR z)) options = Fin (IZR kc) ->
  Binary64.getRequiredXP (Fin (IZR (z + 1))) options = Fin (IZR kn) ->
  Binary64.getXPProgress (Fin x) options fuel
  = Some (Math.min (Fin 100)
            (Math.max (Fin 0)
               (Binary64.mul
                  (Binary64.div (Binary64.number_of (x - IZR kc))
                     (Binary64.number_of (IZR kn - IZR kc)))
                  (Fin 100)))).
Proof.
  intros Hrun Hz Ec En. unfold Binary64.getXPProgress. rewrite Hrun. cbv zeta.
  rewrite (or_maxLevel options (IZR M) cap)
    by (apply not_0_IZR; lia).
  unfold Number.ge. cbn [Number.le].
  replace (Rleb (IZR M) (IZR z)) with false
    by (symmetry; apply Rleb_false, IZR_lt; lia).
  change (Fin 1) with (Fin (IZR 1)). rewrite add_integers by lia.
  rewrite Ec, En. reflexivity.
Qed.

Lemma getXPProgress_range64 (x : R) (fuel : nat) :
  Binary64.representable x ->
  (iteration_bound (Z.to_nat M) <= fuel)%nat ->
  exists p : R,
    Binary64.getXPProgress (Fin x) options fuel = Some (Fin p) /\ 0 <= p <= 100.
Proof.
  intros Hx Hfuel.
  destruct (level_position x fuel Hfuel) as (z & Hrun & Hz & Hpos).
  destruct Hpos as [-> | (kc & kn & HzM & Ec & En & Hkc & Hkn & Rc & Rn & Hpos)].
  - exists 100. split; [| lra].
    apply (getXPProgress_at_cap64 _ _ _ _ Hrun). rewrite cap.
    cbn [Number.strict_equal]. apply Reqb_true. reflexivity.
  - rewrite (getXPProgress_below_cap64 x z kc kn fuel Hrun ltac:(lia) Ec En).
    apply (IZR_le 0) in Hkc, Hkn.
    destruct (difference_finite (IZR kn) (IZR kc) Rn Rc Hkn Hkc) as (d & Ed & Hd).
    rewrite Ed.
    set (num := Binary64.number_of (x - IZR kc)).
    assert (Hq : Binary64.div num (Fin d) <> NaN).
    { destruct Hpos as [[Hc Hn] | [_ Hc]].
      - apply quotient_number; [apply number_of_not_NaN | left].
        assert (Hlt : (kc < kn)%Z) by (apply lt_IZR; lra).
        assert (H1 : IZR 1 <= IZR kn - IZR kc).
        { rewrite <- minus_IZR. apply IZR_le. lia. }
        pose proof (round_ge_integer _ 1 ltac:(lia) H1) as Hr.
        destruct (number_of_cases (IZR kn - IZR kc)) as [[E _] | [[E _] | [E _]]];
          rewrite E in Ed; try discriminate.
        injection Ed as <-. lra.
      - destruct (shortfall_negative x kc Hx Hc) as [Hn1 Hn2].
        apply quotient_number; [exact Hn1 | right; exact Hn2]. }
    destruct (clamp_range _ (times_100_number _ Hq)) as (p & -> & Hp).
    exists p. split; [reflexivity | exact Hp].
Qed.

Lemma getXPProgress_at_requirement (x : R) (z : Z) (fuel : nat) :
  (iteration_bound (Z.to_nat M) <= fuel)%nat ->
  Binary64.calculateLevel (Fin x) options fuel = Some (Fin (IZR z)) ->
  (z < M)%Z ->
  Binary64.getRequiredXP (Fin (IZR z)) options = Fin x ->
  Binary64.getXPProgress (Fin x) options fuel = Some (Fin 0).
Proof.
  intros Hfuel Hrun HzM Ereq.
  destruct (level_position x fuel Hfuel) as (z' & Hrun' & Hz & Hpos).
  rewrite Hrun in Hrun'. injection Hrun' as E. apply eq_IZR in E. subst z'.
  destruct Hpos as [-> | (kc & kn & _ & Ec & En & Hkc & Hkn & Rc & Rn & Hpos)];
    [lia |].
  rewrite Ec in Ereq. injection Ereq as Ex.
  destruct Hpos as [[Hc Hn] | [_ Hc]]; [| lra].
  rewrite (getXPProgress_below_cap64 x z kc kn fuel Hrun ltac:(lia) Ec En).
  apply (IZR_le 0) in Hkc, Hkn.
  destruct (difference_finite (IZR kn) (IZR kc) Rn Rc Hkn Hkc) as (d & Ed & Hd).
  assert (Hlt : (kc < kn)%Z) by (apply lt_IZR; lra).
  assert (H1 : IZR 1 <= IZR kn - IZR kc).
  { rewrite <- minus_IZR. apply IZR_le. lia. }
  pose proof (round_ge_integer _ 1 ltac:(lia) H1) as Hr.
  assert (Hd1 : 1 <= d).
  { destruct (number_of_cases (IZR kn - IZR kc)) as [[E _] | [[E _] | [E _]]];
      rewrite E in Ed; try discriminate.
    injection Ed as <-. exact Hr. }
  rewrite Ed. replace (x - IZR kc) with (IZR 0) by (simpl; lra).
  rewrite (number_of_integer 0) by lia. cbn [Binary64.div].
  replace (Reqb d 0) with false by (symmetry; apply Reqb_false; lra).
  replace (IZR 0 / d) with (IZR 0) by (simpl; field; lra).
  rewrite (number_of_integer 0) by lia. cbn [Binary64.mul].
  replace (IZR 0 * 100) with (IZR 0) by (simpl; lra).
  rewrite (number_of_integer 0) by lia.
  assert (E1 : Rltb 0 0 = false) by (apply Rltb_false; lra).
  assert (E2 : Rltb 0 100 = true) by (apply Rltb_true; lra).
  cbn [Math.max Number.lt]. rewrite E1. cbn [Math.min Number.lt]. now rewrite E2.
Qed.

End Binary64Progress.

(** ** Evaluating [getXPProgress] and [getXPToNextLevel] on examples *)

Ltac decide_comparisons :=
  repeat match goal with
         | |- context [Rltb ?a ?b] =>
             first [ replace (Rltb a b) with true by (symmetry; apply Rltb_true; lra)
                   | replace (Rltb a b) with false by (symmetry; apply Rltb_false; lra) ]
         | |- context [Rleb ?a ?b] =>
             first [ replace (Rleb a b) with true by (symmetry; apply Rleb_true; lra)
                   | replace (Rleb a b) with false by (symmetry; apply Rleb_false; lra) ]
         | |- context [Reqb ?a ?b] =>
             first [ replace (Reqb a b) with true by (symmetry; apply Reqb_true; lra)
                   | replace (Reqb a b) with false by (symmetry; apply Reqb_false; lra) ]
         end.

Lemma number_of_0 : Binary64.number_of 0 = Fin 0.
Proof. apply (number_of_integer 0). lia. Qed.

Lemma default_highest_100000 :
  Binary64.highest_reached (Fin 100000) Binary64.no_options 100 100.
Proof.
  repeat split; [lia | lra | |].
  - unfold Binary64.reached. rewrite default_required_100.
    cbn [Number.le]. apply Rleb_true. lra.
  - intros L' _ HL' _. apply le_IZR. exact HL'.
Qed.

Lemma default_level_100000 (fuel : nat) :
  (7 <= fuel)%nat ->
  Binary64.calculateLevel (Fin 100000) Binary64.no_options fuel = Some (Fin 100).
Proof.
  intros Hfuel.
  apply (calculateLevel_of_highest64 Binary64.no_options 100 1.5 100
           eq_refl eq_refl eq_refl ltac:(lra) ltac:(lra) (Fin 100000) 100 fuel).
  - exact cap_100.
  - cbn [Number.lt]. apply Rltb_false. lra.
  - now rewrite iteration_bound_100.
  - exact default_highest_100000.
Qed.

Lemma steep_zero_highest :
  Binary64.highest_reached (Fin 10) Binary64.steep_zero_options 100 5.
Proof.
  repeat split; [lia | lra | |].
  - unfold Binary64.reached. rewrite (steep_zero_required_0 5) by lia.
    cbn [Number.le]. apply Rleb_true. lra.
  - intros L' HL1 HL2 Hr. apply (le_IZR L' 100) in HL2.
    destruct (Z_le_gt_dec L' 5) as [Hle | Hgt]; [exact Hle | exfalso].
    unfold Binary64.reached in Hr. rewrite steep_zero_required_NaN in Hr by lia.
    discriminate.
Qed.

Lemma steep_zero_level (fuel : nat) :
  (7 <= fuel)%nat ->
  Binary64.calculateLevel (Fin 10) Binary64.steep_zero_options fuel = Some (Fin 5).
Proof.
  intros Hfuel.
  apply (calculateLevel_of_highest64 Binary64.steep_zero_options 0 400 100
           eq_refl eq_refl eq_refl ltac:(lra) ltac:(lra) (Fin 10) 5 fuel).
  - exact cap_100.
  - cbn [Number.lt]. apply Rltb_false. lra.
  - now rewrite iteration_bound_100.
  - exact steep_zero_highest.
Qed.

Lemma steep_zero_next : 
  Binary64.getRequiredXP (Binary64.add (Fin 5) (Fin 1)) Binary64.steep_zero_options = NaN.
Proof.
  rewrite (add_integers 5 1) by lia. apply (steep_zero_required_NaN 6). lia.
Qed.

Lemma steep_zero_progress (fuel : nat) :
  (7 <= fuel)%nat ->
  Binary64.getXPProgress (Fin 10) Binary64.steep_zero_options fuel = Some NaN.
Proof.
  intros Hfuel. unfold Binary64.getXPProgress.
  rewrite (steep_zero_level fuel Hfuel). cbv zeta.
  rewrite steep_zero_next, (steep_zero_required_0 5) by lia.
  cbn [Binary64.maxLevel Binary64.steep_zero_options Binary64.or
       Binary64.Required.maxLevel Binary64.DEFAULT_OPTIONS Number.ge Number.le].
  decide_comparisons. rewrite (sub_integers 10 0) by lia. reflexivity.
Qed.

Lemma fractional_cap_highest :
  Binary64.highest_reached (Fin 100) Binary64.fractional_cap_options 10.5 10.
Proof.
  repeat split; [lia | lra | |].
  - unfold Binary64.reached.
    rewrite (flat_required_general Binary64.fractional_cap_options 10.5 10)
      by (try reflexivity; lra).
    cbn [Number.le]. apply Rleb_true. lra.
  - intros L' _ HL' _. assert (H : IZR L' < IZR 11) by lra.
    apply lt_IZR in H. lia.
Qed.

Lemma fractional_cap_level (fuel : nat) :
  (4 <= fuel)%nat ->
  Binary64.calculateLevel (Fin 100) Binary64.fractional_cap_options fuel
  = Some (Fin 10).
Proof.
  intros Hfuel.
  apply (calculateLevel_of_highest64 Binary64.fractional_cap_options 100 0 10.5
           eq_refl eq_refl eq_refl ltac:(lra) ltac:(lra) (Fin 100) 10 fuel).
  - apply Rlt_trans with (IZR 11); [lra | apply IZR_lt; reflexivity].
  - cbn [Number.lt]. apply Rltb_false. lra.
  - replace (Zfloor 10.5) with 10%Z by (symmetry; apply Zfloor_eq; lra).
    vm_compute. vm_compute in Hfuel. exact Hfuel.
  - exact fractional_cap_highest.
Qed.

Lemma fractional_cap_progress (fuel : nat) :
  (4 <= fuel)%nat ->
  Binary64.getXPProgress (Fin 100) Binary64.fractional_cap_options fuel = Some NaN.
Proof.
  intros Hfuel. unfold Binary64.getXPProgress.
  rewrite (fractional_cap_level fuel Hfuel). cbv zeta.
  rewrite (add_integers 10 1) by lia.
  rewrite !(flat_required_general Binary64.fractional_cap_options 10.5)
    by (try reflexivity; try (apply (IZR_le 1); lia); lra).
  cbn [Binary64.maxLevel Binary64.fractional_cap_options Binary64.or
       Number.ge Number.le Binary64.sub].
  decide_comparisons.
  replace (100 - 100) with 0 by lra. rewrite number_of_0.
  cbn [Binary64.div]. decide_comparisons.
  unfold Number.ge. cbn [Number.le]. decide_comparisons. reflexivity.
Qed.

Lemma negative_flat_required (l : R) :
  1 <= l ->
  Binary64.getRequiredXP (Fin l) Binary64.negative_flat_options = Fin (-100).
Proof.
  intros Hl. unfold Binary64.getRequiredXP.
  cbn [Binary64.spread Binary64.override Binary64.negative_flat_options
       Binary64.baseXP Binary64.exponent Binary64.maxLevel
       Binary64.Required.baseXP Binary64.Required.exponent Binary64.Required.maxLevel
       Binary64.DEFAULT_OPTIONS Number.lt Number.gt].
  replace (Rltb l 1) with false by (symmetry; apply Rltb_false; lra).
  assert (Hpow : forall v : R, Binary64.pow (Fin v) (Fin 0) = Fin 1).
  { intros v. unfold Binary64.pow.
    now replace (Reqb 0 0) with true by (symmetry; apply Reqb_true; reflexivity). }
  destruct (Rltb 100 l); rewrite Hpow; cbn [Binary64.mul];
    rewrite Rmult_1_r, (number_of_integer (-100)) by lia;
    cbn [Math.floor]; now rewrite (Rfloor_IZR (-100)).
Qed.

Lemma negative_flat_progress (fuel : nat) :
  Binary64.getXPProgress (Fin (-100)) Binary64.negative_flat_options fuel = Some NaN.
Proof.
  unfold Binary64.getXPProgress, Binary64.calculateLevel.
  cbn [Number.lt]. decide_comparisons. cbv zeta.
  rewrite (add_integers 1 1) by lia.
  rewrite !negative_flat_required by (try (apply (IZR_le 1); lia); lra).
  cbn [Binary64.maxLevel Binary64.negative_flat_options Binary64.or
       Binary64.Required.maxLevel Binary64.DEFAULT_OPTIONS
       Number.ge Number.le Binary64.sub].
  decide_comparisons.
  replace (-100 - -100) with 0 by lra. rewrite number_of_0.
  cbn [Binary64.div]. decide_comparisons.
  unfold Number.ge. cbn [Number.le]. decide_comparisons. reflexivity.
Qed.

Lemma zero_cap_required (l : R) :
  1 <= l -> Binary64.getRequiredXP (Fin l) Binary64.zero_cap_options = Fin 0.
Proof.
  intros Hl. unfold Binary64.getRequiredXP.
  cbn [Binary64.spread Binary64.override Binary64.zero_cap_options
       Binary64.baseXP Binary64.exponent Binary64.maxLevel
       Binary64.Required.baseXP Binary64.Required.exponent Binary64.Required.maxLevel
       Binary64.DEFAULT_OPTIONS Number.lt Number.gt].
  replace (Rltb l 1) with false by (symmetry; apply Rltb_false; lra).
  replace (Rltb 0 l) with true by (symmetry; apply Rltb_true; lra).
  unfold Binary64.pow. decide_comparisons. cbn [Binary64.mul].
  rewrite Rmult_0_r, number_of_0. cbn [Math.floor]. now rewrite (Rfloor_IZR 0).
Qed.

Lemma zero_cap_level (x : number) (fuel : nat) :
  Binary64.calculateLevel x Binary64.zero_cap_options fuel = Some (Fin 1).
Proof.
  unfold Binary64.calculateLevel. destruct (Number.lt x (Fin 0)); [reflexivity |].
  destruct fuel; cbn [Binary64.calculateLevel_loop Binary64.spread Binary64.override
                      Binary64.zero_cap_options Binary64.maxLevel
                      Binary64.Required.maxLevel Number.le];
    now decide_comparisons.
Qed.

Lemma zero_cap_progress (fuel : nat) :
  Binary64.getXPProgress (Fin 0) Binary64.zero_cap_options fuel = Some NaN.
Proof.
  unfold Binary64.getXPProgress. rewrite zero_cap_level. cbv zeta.
  rewrite (add_integers 1 1) by lia.
  rewrite !zero_cap_required by (try (apply (IZR_le 1); lia); lra).
  cbn [Binary64.maxLevel Binary64.zero_cap_options Binary64.or
       Binary64.Required.maxLevel Binary64.DEFAULT_OPTIONS
       Number.ge Number.le Binary64.sub].
  decide_comparisons.
  replace (0 - 0) with 0 by lra. rewrite number_of_0.
  cbn [Binary64.div]. decide_comparisons.
  unfold Number.ge. cbn [Number.le]. decide_comparisons. reflexivity.
Qed.

Lemma unsafe_cap_progress (fuel : nat) :
  Binary64.getXPProgress (Fin 100) Binary64.unsafe_cap_options fuel = None.
Proof. unfold Binary64.getXPProgress. now rewrite unsafe_cap_diverges. Qed.

Lemma default_requirements_finite (l : Z) :
  (1 <= l <= 100)%Z ->
  exists c : R,
    0 <= c /\ Binary64.getRequiredXP (Fin (IZR l)) Binary64.no_options = Fin c.
Proof.
  intros Hl.
  assert (H1 : 1 <= IZR l <= 100)
    by (split; [apply (IZR_le 1) | apply (IZR_le _ 100)]; lia).
  destruct (getRequiredXP_near Binary64.no_options 100 1.5 100
              eq_refl eq_refl eq_refl (IZR l) H1) as (k & E & _).
  - pose proof pow2_53_1024. pose proof (IZR_lt 100 (2 ^ 53) eq_refl). lra.
  - apply Rle_lt_trans with (2 := default_product_small).
    apply Rmult_le_compat_l; [lra |]. apply Rle_Rpower_l; lra.
  - destruct (getRequiredXP_cases64 Binary64.no_options 100 1.5 100
                eq_refl eq_refl eq_refl ltac:(lra) (IZR l) H1)
      as [(k' & E' & Hk') | [E' | [E' _]]]; rewrite E' in E; try discriminate.
    exists (IZR k'). split; [apply (IZR_le 0); exact Hk' | exact E'].
Qed.

(** C5, as stated, fails in several ways.  At the requirement of the last
    level the max-level guard answers first: with the default options and
    100000 XP the level is 100, whose requirement is 100000, and the
    progress is 100, not 0.  And the result is NaN, outside [[0, 100]]:
    where the next requirement is NaN ([baseXP = 0], [exponent = 400],
    10 XP), at a cap that is not an integer (a flat curve, the cap 10.5,
    100 XP), at negative XP equal to negative requirements
    ([baseXP = -100], [exponent = 0]) and at the cap 0 with 0 XP.  At the
    cap [2 ^ 53] there is no result. *)
Lemma progress_at_last_requirement :
  (forall fuel : nat,
      (7 <= fuel)%nat ->
      Binary64.calculateLevel (Fin 100000) Binary64.no_options fuel = Some (Fin 100) /\
      Binary64.getRequiredXP (Fin 100) Binary64.no_options = Fin 100000 /\
      Binary64.getXPProgress (Fin 100000) Binary64.no_options fuel = Some (Fin 100)) /\
  (forall fuel : nat,
      (7 <= fuel)%nat ->
      Binary64.getXPProgress (Fin 10) Binary64.steep_zero_options fuel = Some NaN) /\
  (forall fuel : nat,
      (4 <= fuel)%nat ->
      Binary64.getXPProgress (Fin 100) Binary64.fractional_cap_options fuel = Some NaN) /\
  (forall fuel : nat,
      Binary64.getXPProgress (Fin (-100)) Binary64.negative_flat_options fuel
      = Some NaN) /\
  (forall fuel : nat,
      Binary64.getXPProgress (Fin 0) Binary64.zero_cap_options fuel = Some NaN) /\
  (forall fuel : nat,
      Binary64.getXPProgress (Fin 100) Binary64.unsafe_cap_options fuel = None).
Proof.
  split; [| split; [| split; [| split; [| split]]]].
  - intros fuel Hfuel. pose proof (default_level_100000 fuel Hfuel) as Hrun.
    split; [exact Hrun |]. split; [exact default_required_100 |].
    apply (getXPProgress_at_cap64 _ _ _ _ Hrun).
    cbn [Number.strict_equal Binary64.spread Binary64.override Binary64.no_options
         Binary64.maxLevel Binary64.Required.maxLevel Binary64.DEFAULT_OPTIONS].
    apply Reqb_true. reflexivity.
  - exact steep_zero_progress.
  - exact fractional_cap_progress.
  - exact negative_flat_progress.
  - exact zero_cap_progress.
  - exact unsafe_cap_progress.
Qed.

(** C5 (amended).  [getXPProgress x] is exactly 100 whenever
    [calculateLevel x] is [maxLevel], and at every cap below 1 other than 0.
    For a configuration whose [maxLevel] is an integer of [[1, 2 ^ 53)] and
    whose levels all have a finite requirement [>= 0], and a binary64
    number [x], it lies in [[0, 100]], and it is exactly 0 whenever
    [x = getRequiredXP (calculateLevel x)] and [calculateLevel x] is below
    [maxLevel]. *)
Theorem getXPProgress_bounds :
  forall (options : Binary64.LevelCalculationOptions) (fuel : nat),
    let opts := Binary64.spread Binary64.DEFAULT_OPTIONS options in
    (forall x v : number,
        Binary64.calculateLevel x options fuel = Some v ->
        Number.strict_equal v (Binary64.Required.maxLevel opts) = true ->
        Binary64.getXPProgress x options fuel = Some (Fin 100)) /\
    (forall (x : number) (m : R),
        Binary64.Required.maxLevel opts = Fin m -> m < 1 -> m <> 0 ->
        Binary64.getXPProgress x options fuel = Some (Fin 100)) /\
    (forall M : Z,
        Binary64.Required.maxLevel opts = Fin (IZR M) ->
        (1 <= M < 2 ^ 53)%Z ->
        (forall l : Z,
            (1 <= l <= M)%Z ->
            exists c : R,
              0 <= c /\ Binary64.getRequiredXP (Fin (IZR l)) options = Fin c) ->
        (iteration_bound (Z.to_nat M) <= fuel)%nat ->
        forall x : R,
          Binary64.representable x ->
          (exists p : R,
              Binary64.getXPProgress (Fin x) options fuel = Some (Fin p) /\
              0 <= p <= 100) /\
          (forall z : Z,
              Binary64.calculateLevel (Fin x) options fuel = Some (Fin (IZR z)) ->
              (z < M)%Z ->
              Binary64.getRequiredXP (Fin (IZR z)) options = Fin x ->
              Binary64.getXPProgress (Fin x) options fuel = Some (Fin 0))).
Proof.
  intros options fuel opts. split; [| split].
  - intros x v. apply getXPProgress_at_cap64.
  - intros x m. apply getXPProgress_low_cap.
  - intros M Hcap HM Hfin Hfuel x Hx. split.
    + now apply (getXPProgress_range64 options M).
    + intros z. now apply (getXPProgress_at_requirement options M).
Qed.

Lemma getXPProgress_bounds_witness :
  (exists p : R,
      Binary64.getXPProgress (Fin 150) Binary64.no_options 7 = Some (Fin p) /\
      0 <= p <= 100) /\
  Binary64.getXPProgress (Fin 100000) Binary64.no_options 7 = Some (Fin 100).
Proof.
  destruct (getXPProgress_bounds Binary64.no_options 7) as (Hcap & _ & Hrange).
  split.
  - destruct (Hrange 100%Z eq_refl ltac:(lia) default_requirements_finite) with (x := 150)
      as (Hp & _).
    + vm_compute. lia.
    + apply (representable_integer 150). lia.
    + exact Hp.
  - apply (Hcap (Fin 100000) (Fin 100)).
    + apply default_level_100000. lia.
    + cbn [Number.strict_equal Binary64.spread Binary64.override Binary64.no_options
           Binary64.maxLevel Binary64.Required.maxLevel Binary64.DEFAULT_OPTIONS].
      apply Reqb_true. reflexivity.
Defined.

(** ** [getXPToNextLevel] *)

Lemma round_integer_valued (z : Z) : exists z' : Z, Binary64.round (IZR z) = IZR z'.
Proof.
  destruct (Z_le_gt_dec (Z.abs z) (2 ^ 53)) as [Hs | Hb].
  - exists z. now apply round_integer.
  - destruct (round_grid (IZR z)) as (n & g & E & Hn & Hg).
    destruct (Z_le_gt_dec 0 g) as [Hg0 | Hg0].
    + exists (n * 2 ^ g)%Z. rewrite E, mult_IZR. now rewrite (pow2_IZR g Hg0).
    + exfalso.
      assert (Hg1 : powerRZ 2 g <= 1).
      { change 1 with (powerRZ 2 0). apply pow2_le. lia. }
      pose proof (pow2_pos g) as Hgp.
      assert (Hnb : - IZR (2 ^ 53) < IZR n < IZR (2 ^ 53)).
      { rewrite <- opp_IZR. split; apply IZR_lt; lia. }
      assert (H53 : 0 < IZR (2 ^ 53)) by (apply (IZR_lt 0); lia).
      assert (Hr : - IZR (2 ^ 53) < Binary64.round (IZR z) < IZR (2 ^ 53))
        by (rewrite E; split; nra).
      destruct (Z_le_gt_dec 0 z) as [Hz | Hz].
      * assert (IZR (2 ^ 53) <= IZR z) by (apply IZR_le; lia).
        pose proof (round_ge_integer (IZR z) (2 ^ 53) ltac:(lia) H). lra.
      * assert (IZR z <= IZR (- 2 ^ 53)) by (apply IZR_le; lia).
        pose proof (round_le_integer (IZR z) (- 2 ^ 53) ltac:(lia) H) as H'.
        rewrite opp_IZR in H'. lra.
Qed.

Lemma max_zero_nonneg (y : number) :
  y <> NaN -> Number.le (Fin 0) (Math.max (Fin 0) y) = true.
Proof.
  destruct y as [r | | |]; try congruence; intros _; cbn [Math.max Number.lt].
  - destruct (Rltb 0 r) eqn:E; cbn [Number.le]; apply Rleb_true.
    + apply Rltb_true in E. lra.
    + lra.
  - reflexivity.
  - cbn [Number.le]. apply Rleb_true. lra.
Qed.

Lemma max_zero_nonpositive (y : number) :
  Number.le y (Fin 0) = true -> Math.max (Fin 0) y = Fin 0.
Proof.
  destruct y as [r | | |]; try discriminate; cbn [Math.max Number.lt Number.le].
  - intros H. apply Rleb_true in H.
    now replace (Rltb 0 r) with false by (symmetry; apply Rltb_false; lra).
  - reflexivity.
Qed.

(** At or above a cap [maxLevel >= 1] the requirement is that of the cap,
    whatever the configuration. *)
Lemma getRequiredXP_beyond_cap options (m l : R) :
  Binary64.Required.maxLevel (Binary64.spread Binary64.DEFAULT_OPTIONS options) = Fin m ->
  1 <= m <= l ->
  Binary64.getRequiredXP (Fin l) options = Binary64.getRequiredXP (Fin m) options.
Proof.
  intros Hm [H1 H2]. unfold Binary64.getRequiredXP. rewrite Hm.
  cbn [Number.lt Number.gt].
  replace (Rltb l 1) with false by (symmetry; apply Rltb_false; lra).
  replace (Rltb m 1) with false by (symmetry; apply Rltb_false; lra).
  replace (Rltb m m) with false by (symmetry; apply Rltb_false; lra).
  destruct (Rltb m l) eqn:E; [reflexivity |].
  apply Rltb_false in E. now replace l with m by lra.
Qed.

(** With a finite [baseXP] other than 0 and a cap above 0, the requirement
    of a level [>= 1] is never NaN. *)
Lemma getRequiredXP_never_NaN options (b e m : R) (level : number) :
  Binary64.Required.baseXP (Binary64.spread Binary64.DEFAULT_OPTIONS options) = Fin b ->
  Binary64.Required.exponent (Binary64.spread Binary64.DEFAULT_OPTIONS options) = Fin e ->
  Binary64.Required.maxLevel (Binary64.spread Binary64.DEFAULT_OPTIONS options) = Fin m ->
  b <> 0 -> 0 < m ->
  Number.le (Fin 1) level = true ->
  Binary64.getRequiredXP level options <> NaN.
Proof.
  intros Hb He Hm Hb0 Hm0 Hl. unfold Binary64.getRequiredXP. rewrite Hb, He, Hm.
  assert (Hclamp : exists w : R,
             (if Number.gt level (Fin m) then Fin m else level) = Fin w /\ 0 < w).
  { destruct level as [q | | |]; try discriminate.
    - cbn [Number.le] in Hl. apply Rleb_true in Hl. unfold Number.gt. cbn [Number.lt].
      destruct (Rltb m q); [exists m | exists q]; split; try reflexivity; lra.
    - exists m. split; [reflexivity | exact Hm0]. }
  destruct Hclamp as (w & -> & Hw).
  replace (Number.lt level (Fin 1)) with false.
  2:{ destruct level as [q | | |]; try discriminate; try reflexivity.
      cbn [Number.le Number.lt] in *. apply Rleb_true in Hl.
      symmetry. apply Rltb_false. lra. }
  rewrite pow_positive by exact Hw.
  destruct (number_of_nonneg (Rpower w e) (Rlt_le _ _ (Rpower_pos w e)))
    as [(p & -> & _) | ->]; cbn [Binary64.mul].
  - intros H. apply Math_floor_NaN in H. now apply number_of_not_NaN in H.
  - unfold Number.scale_inf.
    destruct (Rltb 0 b) eqn:E1; [discriminate |].
    destruct (Rltb b 0) eqn:E2; [discriminate |].
    apply Rltb_false in E1, E2. exfalso. apply Hb0. lra.
Qed.

Lemma getXPToNextLevel_value (x : number) options (fuel : nat) (v : number) :
  Binary64.calculateLevel x options fuel = Some v ->
  Binary64.getXPToNextLevel x options fuel
  = Some (Math.max (Fin 0)
            (Binary64.sub
               (Binary64.getRequiredXP (Binary64.add v (Fin 1)) options) x)).
Proof. intros H. unfold Binary64.getXPToNextLevel. now rewrite H. Qed.

Lemma sub_finite_number (n : number) (r : R) :
  n <> NaN -> Binary64.sub n (Fin r) <> NaN.
Proof.
  destruct n; try congruence; intros _; cbn [Binary64.sub]; try discriminate.
  apply number_of_not_NaN.
Qed.

(** From an integer XP and a finite requirement the difference is an
    integer, or has overflowed. *)
Lemma max_zero_integer (c : R) (z : Z) :
  (exists k : Z, c = IZR k) ->
  (exists t : Z,
      (0 <= t)%Z /\
      Math.max (Fin 0) (Binary64.sub (Fin c) (Fin (IZR z))) = Fin (IZR t)) \/
  Math.max (Fin 0) (Binary64.sub (Fin c) (Fin (IZR z))) = PosInf.
Proof.
  intros (k & ->). cbn [Binary64.sub]. rewrite <- minus_IZR.
  destruct (round_integer_valued (k - z)) as (d & Ed).
  destruct (number_of_cases (IZR (k - z))) as [[E _] | [[E _] | [E _]]]; rewrite E.
  - left. rewrite Ed. cbn [Math.max Number.lt].
    destruct (Rltb 0 (IZR d)) eqn:E0.
    + apply Rltb_true in E0. apply (lt_IZR 0) in E0. exists d. split; [lia | reflexivity].
    + exists 0%Z. split; [lia | reflexivity].
  - right. reflexivity.
  - left. exists 0%Z. split; [lia | reflexivity].
Qed.

Lemma default_none_reached (x : R) :
  x < 100 -> Binary64.none_reached (Fin x) Binary64.no_options 100.
Proof.
  intros Hx L' HL1 HL2. unfold Binary64.reached.
  assert (Hl : 1 <= IZR L' <= 100) by (split; [apply (IZR_le 1); exact HL1 | exact HL2]).
  pose proof (getRequiredXP_le64 Binary64.no_options 100 1.5 100
                eq_refl eq_refl eq_refl 1 (IZR L') ltac:(lra) ltac:(lra)
                ltac:(lra) ltac:(lra)
                (getRequiredXP_number Binary64.no_options 100 1.5 100
                   eq_refl eq_refl eq_refl (IZR L') ltac:(lra) Hl)) as Hle.
  rewrite default_required_1 in Hle.
  destruct (Binary64.getRequiredXP (Fin (IZR L')) Binary64.no_options) as [c | | |];
    try discriminate; try reflexivity.
  cbn [Number.le] in *. apply Rleb_true in Hle. apply Rleb_false. lra.
Qed.

Lemma default_level_half (fuel : nat) :
  (7 <= fuel)%nat ->
  Binary64.calculateLevel (Fin 0.5) Binary64.no_options fuel = Some (Fin 1).
Proof.
  intros Hfuel.
  apply (calculateLevel_of_none64 Binary64.no_options 100 1.5 100
           eq_refl eq_refl eq_refl ltac:(lra) ltac:(lra) (Fin 0.5) fuel).
  - exact cap_100.
  - now rewrite iteration_bound_100.
  - apply default_none_reached. lra.
Qed.

Lemma number_of_halves (k : Z) :
  (Z.abs k < 2 ^ 53)%Z -> Binary64.number_of (IZR k / 2) = Fin (IZR k / 2).
Proof.
  intros Hk. rewrite <- (half_number k Hk). cbn [Binary64.div].
  now replace (Reqb 2 0) with false by (symmetry; apply Reqb_false; lra).
Qed.

Lemma default_next_half (fuel : nat) :
  (7 <= fuel)%nat ->
  Binary64.getXPToNextLevel (Fin 0.5) Binary64.no_options fuel = Some (Fin 281.5).
Proof.
  intros Hfuel. rewrite (getXPToNextLevel_value _ _ _ _ (default_level_half fuel Hfuel)).
  rewrite (add_integers 1 1) by lia. replace (IZR (1 + 1)) with 2 by (simpl; lra).
  rewrite default_required_2. cbn [Binary64.sub].
  replace (282 - 0.5) with (IZR 563 / 2) by lra.
  rewrite number_of_halves by lia.
  cbn [Math.max Number.lt]. decide_comparisons. do 2 f_equal. lra.
Qed.

Lemma not_an_integer_281_5 : forall k : Z, IZR k <> 281.5.
Proof.
  intros k H. assert (H2 : IZR (2 * k) = IZR 563) by (rewrite mult_IZR; lra).
  apply eq_IZR in H2. lia.
Qed.

Lemma single_level_required :
  Binary64.getRequiredXP (Fin 1) Binary64.single_level_options = Fin 100.
Proof.
  rewrite (getRequiredXP_exact64 Binary64.single_level_options 100 1.5 1
             eq_refl eq_refl eq_refl 1 ltac:(lra));
    rewrite Rpower_base_1; rewrite ?Rmult_1_r.
  - now rewrite (Rfloor_IZR 100).
  - apply (representable_integer 1). lia.
  - apply (representable_integer 100). lia.
Qed.

Lemma single_level_level (fuel : nat) :
  (1 <= fuel)%nat ->
  Binary64.calculateLevel (Fin 50) Binary64.single_level_options fuel = Some (Fin 1).
Proof.
  intros Hfuel.
  apply (calculateLevel_of_none64 Binary64.single_level_options 100 1.5 1
           eq_refl eq_refl eq_refl ltac:(lra) ltac:(lra) (Fin 50) fuel).
  - apply (IZR_lt 1). reflexivity.
  - replace (Zfloor 1) with 1%Z by (symmetry; apply (ZfloorZ 1)).
    vm_compute. vm_compute in Hfuel. exact Hfuel.
  - intros L' HL1 HL2. apply (le_IZR L' 1) in HL2.
    replace L' with 1%Z by lia. unfold Binary64.reached.
    rewrite single_level_required. cbn [Number.le]. apply Rleb_false. lra.
Qed.

Lemma single_level_next (fuel : nat) :
  (1 <= fuel)%nat ->
  Binary64.getXPToNextLevel (Fin 50) Binary64.single_level_options fuel
  = Some (Fin 50).
Proof.
  intros Hfuel.
  rewrite (getXPToNextLevel_value _ _ _ _ (single_level_level fuel Hfuel)).
  rewrite (add_integers 1 1) by lia.
  rewrite (getRequiredXP_beyond_cap Binary64.single_level_options 1 (IZR (1 + 1)) eq_refl)
    by (simpl; lra).
  rewrite single_level_required.
  rewrite (sub_integers 100 50) by lia.
  cbn [Math.max Number.lt]. replace (IZR (100 - 50)) with 50 by (simpl; lra).
  now decide_comparisons.
Qed.

Lemma steep_next_infinite :
  exists X : R,
    Binary64.getRequiredXP (Fin 5) Binary64.steep_options = Fin X /\
    forall fuel : nat,
      (7 <= fuel)%nat ->
      Binary64.calculateLevel (Fin X) Binary64.steep_options fuel = Some (Fin 5) /\
      Binary64.getXPToNextLevel (Fin X) Binary64.steep_options fuel = Some PosInf.
Proof.
  destruct (steep_required_finite 5 ltac:(lia)) as (k & E & Hk).
  exists (IZR k). split; [exact E |]. intros fuel Hfuel.
  assert (Hrun : Binary64.calculateLevel (Fin (IZR k)) Binary64.steep_options fuel
                 = Some (Fin 5)).
  { apply (calculateLevel_of_highest64 Binary64.steep_options 100 400 100
             eq_refl eq_refl eq_refl ltac:(lra) ltac:(lra) (Fin (IZR k)) 5 fuel).
    - exact cap_100.
    - cbn [Number.lt]. apply Rltb_false. apply (IZR_le 0). exact Hk.
    - now rewrite iteration_bound_100.
    - repeat split; [lia | lra | |].
      + unfold Binary64.reached. rewrite E. cbn [Number.le]. apply Rleb_true. lra.
      + intros L' HL1 HL2 Hr. apply (le_IZR L' 100) in HL2.
        destruct (Z_le_gt_dec L' 5) as [Hle | Hgt]; [exact Hle | exfalso].
        unfold Binary64.reached in Hr. rewrite steep_required_overflow in Hr by lia.
        discriminate. }
  split; [exact Hrun |].
  rewrite (getXPToNextLevel_value _ _ _ _ Hrun).
  rewrite (add_integers 5 1) by lia.
  rewrite (steep_required_overflow (5 + 1)) by lia. reflexivity.
Qed.

Lemma steep_zero_next_NaN (fuel : nat) :
  (7 <= fuel)%nat ->
  Binary64.getXPToNextLevel (Fin 10) Binary64.steep_zero_options fuel = Some NaN.
Proof.
  intros Hfuel.
  rewrite (getXPToNextLevel_value _ _ _ _ (steep_zero_level fuel Hfuel)).
  now rewrite steep_zero_next.
Qed.

(** C7, as stated, fails in four ways.  With the default options and 0.5 XP
    the result is 281.5, not an integer.  With [maxLevel = 1] and 50 XP the
    level is 1, the max level, and the result is 50, not 0.  With
    [exponent = 400] and the XP that level 5 requires the result is
    [Infinity]; and with [baseXP = 0] besides, and 10 XP, it is NaN. *)
Lemma xp_to_next_level_exceptions :
  (forall fuel : nat,
      (7 <= fuel)%nat ->
      Binary64.getXPToNextLevel (Fin 0.5) Binary64.no_options fuel = Some (Fin 281.5)) /\
  (forall k : Z, IZR k <> 281.5) /\
  (forall fuel : nat,
      (1 <= fuel)%nat ->
      Binary64.calculateLevel (Fin 50) Binary64.single_level_options fuel
      = Some (Fin 1) /\
      Binary64.getXPToNextLevel (Fin 50) Binary64.single_level_options fuel
      = Some (Fin 50)) /\
  (exists X : R,
      Binary64.getRequiredXP (Fin 5) Binary64.steep_options = Fin X /\
      forall fuel : nat,
        (7 <= fuel)%nat ->
        Binary64.calculateLevel (Fin X) Binary64.steep_options fuel = Some (Fin 5) /\
        Binary64.getXPToNextLevel (Fin X) Binary64.steep_options fuel = Some PosInf) /\
  (forall fuel : nat,
      (7 <= fuel)%nat ->
      Binary64.getXPToNextLevel (Fin 10) Binary64.steep_zero_options fuel = Some NaN).
Proof.
  split; [exact default_next_half |].
  split; [exact not_an_integer_281_5 |].
  split; [| split; [exact steep_next_infinite | exact steep_zero_next_NaN]].
  intros fuel Hfuel. split; [now apply single_level_level | now apply single_level_next].
Qed.

(** C7 (amended).  Whenever [calculateLevel currentXP] returns,
    [getXPToNextLevel currentXP] is
    [max (0, getRequiredXP (calculateLevel currentXP + 1) - currentXP)].
    With a finite [baseXP] other than 0, a finite [exponent], a cap above 0
    and a finite [currentXP] it is a number [>= 0] or [Infinity]; with an
    integer [currentXP] and a finite next requirement it is an integer
    [>= 0], or [Infinity]; and it is 0 whenever [calculateLevel currentXP]
    is [maxLevel] and [getRequiredXP maxLevel <= currentXP]. *)
Theorem getXPToNextLevel_contract :
  forall (options : Binary64.LevelCalculationOptions) (currentXP : number)
         (fuel : nat) (level : number),
    let opts := Binary64.spread Binary64.DEFAULT_OPTIONS options in
    let next := Binary64.getRequiredXP (Binary64.add level (Fin 1)) options in
    Binary64.calculateLevel currentXP options fuel = Some level ->
    Binary64.getXPToNextLevel currentXP options fuel
    = Some (Math.max (Fin 0) (Binary64.sub next currentXP)) /\
    (forall b e m x : R,
        Binary64.Required.baseXP opts = Fin b ->
        Binary64.Required.exponent opts = Fin e ->
        Binary64.Required.maxLevel opts = Fin m ->
        b <> 0 -> 0 < m -> currentXP = Fin x ->
        exists t : number,
          Binary64.getXPToNextLevel currentXP options fuel = Some t /\
          Number.le (Fin 0) t = true) /\
    (forall (z : Z) (c : R),
        currentXP = Fin (IZR z) -> next = Fin c ->
        (exists t : Z,
            (0 <= t)%Z /\
            Binary64.getXPToNextLevel currentXP options fuel = Some (Fin (IZR t))) \/
        Binary64.getXPToNextLevel currentXP options fuel = Some PosInf) /\
    (forall (M : Z) (x : R),
        Binary64.Required.maxLevel opts = Fin (IZR M) -> (1 <= M < 2 ^ 53)%Z ->
        level = Fin (IZR M) -> currentXP = Fin x ->
        Number.le (Binary64.getRequiredXP (Fin (IZR M)) options) currentXP = true ->
        Binary64.getXPToNextLevel currentXP options fuel = Some (Fin 0)).
Proof.
  intros options currentXP fuel level opts next Hrun.
  pose proof (getXPToNextLevel_value _ _ _ _ Hrun) as Hval. fold next in Hval.
  split; [exact Hval |]. rewrite Hval. split; [| split].
  - intros b e m x Hb He Hm Hb0 Hm0 ->.
    eexists. split; [reflexivity |].
    apply max_zero_nonneg, sub_finite_number.
    apply (getRequiredXP_never_NaN options b e m); try assumption.
    apply successor_at_least_1. exact (calculateLevel_at_least_1 _ _ _ _ Hrun).
  - intros z c -> Hc. rewrite Hc.
    destruct (max_zero_integer c z (getRequiredXP_integer_valued _ _ _ Hc))
      as [(t & Ht & ->) | ->].
    + left. exists t. split; [exact Ht | reflexivity].
    + right. reflexivity.
  - intros M x Hcap HM -> -> Hreached. f_equal.
    apply max_zero_nonpositive. unfold next.
    change (Fin 1) with (Fin (IZR 1)). rewrite add_integers by lia.
    rewrite (getRequiredXP_beyond_cap options (IZR M) (IZR (M + 1)) Hcap).
    2:{ split; [apply (IZR_le 1) | apply IZR_le]; lia. }
    destruct (Binary64.getRequiredXP (Fin (IZR M)) options) as [c | | |];
      try discriminate; [| reflexivity].
    cbn [Number.le Binary64.sub] in *. apply Rleb_true in Hreached.
    apply (number_of_le_integer _ 0); [lia | lra].
Qed.

Lemma getXPToNextLevel_contract_witness :
  (exists t : number,
      Binary64.getXPToNextLevel (Fin 100000) Binary64.no_options 7 = Some t /\
      Number.le (Fin 0) t = true) /\
  Binary64.getXPToNextLevel (Fin 100000) Binary64.no_options 7 = Some (Fin 0).
Proof.
  destruct (getXPToNextLevel_contract Binary64.no_options (Fin 100000) 7 (Fin 100)
              (default_level_100000 7 (Nat.le_refl 7)))
    as (_ & Hnum & _ & Hcap).
  split.
  - apply (Hnum 100 1.5 100 100000); try reflexivity; lra.
  - apply (Hcap 100%Z 100000); try reflexivity; [lia |].
    rewrite default_required_100. cbn [Number.le]. apply Rleb_true. lra.
Defined.

(** * Further properties in binary64 arithmetic *)

(** ** The level found *)

(** X1.  Whenever [calculateLevel] returns, whatever the XP (NaN and the
    infinities included) and the configuration, the level is a number
    [>= 1] (possibly [Infinity]).  With a [maxLevel] below [2 ^ 53] it
    returns an integer level [>= 1], at most [maxLevel] when
    [maxLevel >= 1]. *)
Theorem calculateLevel_range :
  forall (totalXP : number) (options : Binary64.LevelCalculationOptions),
    let opts := Binary64.spread Binary64.DEFAULT_OPTIONS options in
    (forall (fuel : nat) (v : number),
        Binary64.calculateLevel totalXP options fuel = Some v ->
        Number.le (Fin 1) v = true) /\
    (forall (m : R) (fuel : nat),
        Binary64.Required.maxLevel opts = Fin m -> m < IZR (2 ^ 53) ->
        (iteration_bound (Z.to_nat (Zfloor m)) <= fuel)%nat ->
        exists z : Z,
          Binary64.calculateLevel totalXP options fuel = Some (Fin (IZR z)) /\
          (1 <= z)%Z /\ (1 <= m -> IZR z <= m)).
Proof.
  intros totalXP options opts. split.
  - intros fuel v. apply calculateLevel_at_least_1.
  - intros m fuel Hm Hcap Hfuel.
    destruct (calculateLevel_local totalXP options m fuel Hm Hcap Hfuel)
      as (v & Hrun & [[_ ->] | [_ Hres]]).
    + exists 1%Z. split; [exact Hrun |]. split; [lia | intros H; exact H].
    + destruct Hres as [(z & -> & Hz1 & Hz2 & _) | (-> & _)].
      * exists z. split; [exact Hrun |]. split; [exact Hz1 | intros _; exact Hz2].
      * exists 1%Z. split; [exact Hrun |]. split; [lia | intros H; exact H].
Qed.

Lemma calculateLevel_range_witness :
  exists z : Z,
    Binary64.calculateLevel NaN Binary64.no_options 7 = Some (Fin (IZR z)) /\
    (1 <= z)%Z /\ IZR z <= 100.
Proof.
  destruct (calculateLevel_range NaN Binary64.no_options) as (_ & H).
  destruct (H 100 7%nat eq_refl cap_100) as (z & Hrun & Hz & Hm).
  - rewrite iteration_bound_100. lia.
  - exists z. split; [exact Hrun |]. split; [exact Hz | apply Hm; lra].
Defined.



(** ** The requirements *)

(** X22.  With a finite [baseXP >= 0], a finite [exponent] and a cap
    [maxLevel >= 1], the requirement of every level is an integer [>= 0] or
    [Infinity]; or NaN, which takes [baseXP = 0] and a power that has
    overflowed.  Every level at or above [maxLevel] has the requirement of
    [maxLevel]; and with [exponent >= 0] no level requires more than
    [maxLevel] does, when that is a number. *)
Theorem getRequiredXP_bounded :
  forall (options : Binary64.LevelCalculationOptions) (b e m level : R),
    let opts := Binary64.spread Binary64.DEFAULT_OPTIONS options in
    Binary64.Required.baseXP opts = Fin b ->
    Binary64.Required.exponent opts = Fin e ->
    Binary64.Required.maxLevel opts = Fin m ->
    0 <= b -> 1 <= m ->
    ((exists k : Z,
         Binary64.getRequiredXP (Fin level) options = Fin (IZR k) /\ (0 <= k)%Z) \/
     Binary64.getRequiredXP (Fin level) options = PosInf \/
     (Binary64.getRequiredXP (Fin level) options = NaN /\ b = 0)) /\
    (m <= level ->
     Binary64.getRequiredXP (Fin level) options
     = Binary64.getRequiredXP (Fin m) options) /\
    (0 <= e -> Binary64.getRequiredXP (Fin m) options <> NaN ->
     Number.le (Binary64.getRequiredXP (Fin level) options)
               (Binary64.getRequiredXP (Fin m) options) = true).
Proof.
  intros options b e m level opts Hb He Hm Hb0 Hm1.
  assert (Hcap : m <= level ->
                 Binary64.getRequiredXP (Fin level) options
                 = Binary64.getRequiredXP (Fin m) options).
  { intros H. apply (getRequiredXP_beyond_cap options m level Hm). lra. }
  split; [| split; [exact Hcap |]].
  - destruct (Rlt_dec level 1) as [Hlow | Hin].
    + left. exists 0%Z. split; [| lia].
      now apply getRequiredXP_below64.
    + destruct (Rle_dec level m) as [Hle | Hgt].
      * apply (getRequiredXP_cases64 options b e m); try assumption. lra.
      * rewrite Hcap by lra.
        apply (getRequiredXP_cases64 options b e m); try assumption. lra.
  - intros He0 Hnan.
    destruct (Rlt_dec level 1) as [Hlow | Hin].
    + rewrite (getRequiredXP_below64 options level Hlow).
      destruct (getRequiredXP_cases64 options b e m Hb He Hm Hb0 m ltac:(lra))
        as [(k & -> & Hk) | [-> | [E _]]]; [| reflexivity | contradiction].
      cbn [Number.le]. apply Rleb_true. apply (IZR_le 0). exact Hk.
    + destruct (Rle_dec level m) as [Hle | Hgt].
      * apply (getRequiredXP_le64 options b e m); try assumption; lra.
      * rewrite Hcap by lra. now apply Number_le_refl.
Qed.

Lemma getRequiredXP_bounded_witness :
  Binary64.getRequiredXP (Fin 250) Binary64.no_options
  = Binary64.getRequiredXP (Fin 100) Binary64.no_options /\
  Number.le (Binary64.getRequiredXP (Fin 10) Binary64.no_options)
            (Binary64.getRequiredXP (Fin 100) Binary64.no_options) = true.
Proof.
  split.
  - destruct (getRequiredXP_bounded Binary64.no_options 100 1.5 100 250
                eq_refl eq_refl eq_refl ltac:(lra) ltac:(lra)) as (_ & H & _).
    apply H. lra.
  - destruct (getRequiredXP_bounded Binary64.no_options 100 1.5 100 10
                eq_refl eq_refl eq_refl ltac:(lra) ltac:(lra)) as (_ & _ & H).
    apply H; [lra |]. rewrite default_required_100. discriminate.
Defined.

(** ** Thresholds *)

Section Binary64Thresholds.

Variable options : Binary64.LevelCalculationOptions.
Variables b e : R.
Variable M : Z.

Hypothesis baseXP_finite :
  Binary64.Required.baseXP (Binary64.spread Binary64.DEFAULT_OPTIONS options) = Fin b.
Hypothesis exponent_finite :
  Binary64.Required.exponent (Binary64.spread Binary64.DEFAULT_OPTIONS options) = Fin e.
Hypothesis maxLevel_integer :
  Binary64.Required.maxLevel (Binary64.spread Binary64.DEFAULT_OPTIONS options)
  = Fin (IZR M).
Hypothesis baseXP_nonneg : 0 <= b.
Hypothesis exponent_nonneg : 0 <= e.
Hypothesis maxLevel_range : (1 <= M < 2 ^ 53)%Z.

Lemma cap_below_2_53 : IZR M < IZR (2 ^ 53).
Proof. apply IZR_lt. lia. Qed.

Lemma fuel_for_cap (fuel : nat) :
  (iteration_bound (Z.to_nat M) <= fuel)%nat ->
  (iteration_bound (Z.to_nat (Zfloor (IZR M))) <= fuel)%nat.
Proof. now rewrite ZfloorZ. Qed.

(** A level whose requirement is met (or level 1) and whose successor's
    requirement is not (or the last level) is the level found. *)
Lemma calculateLevel_between64 (totalXP : number) (L : Z) (fuel : nat) :
  (iteration_bound (Z.to_nat M) <= fuel)%nat ->
  (1 <= L <= M)%Z ->
  Binary64.reached totalXP options L = true \/ L = 1%Z ->
  L = M \/ Binary64.reached totalXP options (L + 1) = false ->
  Binary64.calculateLevel totalXP options fuel = Some (Fin (IZR L)).
Proof.
  intros Hfuel HL Hlow Hup. apply fuel_for_cap in Hfuel.
  assert (Habove : forall L' : Z, (L < L')%Z -> IZR L' <= IZR M ->
                     Binary64.reached totalXP options L' = false).
  { intros L' HLL' HL'M.
    destruct Hup as [-> | Hnext]; [apply le_IZR in HL'M; lia |].
    destruct (Binary64.reached totalXP options L') eqn:E; [| reflexivity].
    rewrite (reached_downward_closed options b e (IZR M) baseXP_finite
               exponent_finite maxLevel_integer totalXP (L + 1) L'
               baseXP_nonneg exponent_nonneg ltac:(lia) HL'M E) in Hnext.
    discriminate. }
  destruct (Binary64.reached totalXP options L) eqn:HrL.
  - assert (Hneg : Number.lt totalXP (Fin 0) = false).
    { destruct (Number.lt totalXP (Fin 0)) eqn:E; [| reflexivity].
      pose proof (below_zero_none_reached options b e (IZR M) totalXP
                    baseXP_finite exponent_finite maxLevel_integer
                    baseXP_nonneg exponent_nonneg E L) as Hn.
      rewrite Hn in HrL; [discriminate | lia | apply IZR_le; lia]. }
    apply (calculateLevel_of_highest64 options b e (IZR M) baseXP_finite
             exponent_finite maxLevel_integer baseXP_nonneg exponent_nonneg
             totalXP L fuel cap_below_2_53 Hneg Hfuel).
    repeat split; [lia | apply IZR_le; lia | exact HrL |].
    intros L' H1 H2 H3.
    destruct (Z_le_gt_dec L' L) as [Hle | Hgt]; [exact Hle |].
    rewrite Habove in H3 by (lia || assumption). discriminate.
  - destruct Hlow as [Hc | ->]; [discriminate |].
    apply (calculateLevel_of_none64 options b e (IZR M) baseXP_finite
             exponent_finite maxLevel_integer baseXP_nonneg exponent_nonneg
             totalXP fuel cap_below_2_53 Hfuel).
    intros L' H1 H2.
    destruct (Z.eq_dec L' 1) as [-> | Hne]; [exact HrL |].
    apply Habove; [lia | exact H2].
Qed.

(** And conversely. *)
Lemma calculateLevel_position64 (totalXP : number) (fuel : nat) :
  (iteration_bound (Z.to_nat M) <= fuel)%nat ->
  exists L : Z,
    Binary64.calculateLevel totalXP options fuel = Some (Fin (IZR L)) /\
    (1 <= L <= M)%Z /\
    (Binary64.reached totalXP options L = true \/ L = 1%Z) /\
    (L = M \/ Binary64.reached totalXP options (L + 1) = false).
Proof.
  intros Hfuel. apply fuel_for_cap in Hfuel.
  destruct (calculateLevel_local totalXP options (IZR M) fuel maxLevel_integer
              cap_below_2_53 Hfuel) as (v & Hrun & [[Hneg ->] | [_ Hres]]).
  - exists 1%Z. split; [exact Hrun |]. split; [lia |]. split; [right; reflexivity |].
    destruct (Z.eq_dec 1 M) as [E | Hne]; [left; exact E | right].
    apply (below_zero_none_reached options b e (IZR M) totalXP
             baseXP_finite exponent_finite maxLevel_integer
             baseXP_nonneg exponent_nonneg Hneg); [lia | apply IZR_le; lia].
  - destruct Hres as [(z & -> & Hz1 & Hz2 & Hz3 & Hz4) | (-> & Hfirst)].
    + apply le_IZR in Hz2. exists z. split; [exact Hrun |]. split; [lia |].
      split; [left; exact Hz3 |].
      destruct (Z.eq_dec z M) as [E | Hne]; [left; exact E | right].
      apply Hz4. rewrite <- (plus_IZR z 1). apply IZR_le. lia.
    + exists 1%Z. split; [exact Hrun |]. split; [lia |].
      split; [right; reflexivity |].
      destruct (Z.eq_dec 1 M) as [E | Hne]; [left; exact E | right].
      assert (Hr1 : Binary64.reached totalXP options 1 = false)
        by (apply Hfirst; apply IZR_le; lia).
      destruct (Binary64.reached totalXP options (1 + 1)) eqn:E; [| reflexivity].
      rewrite (reached_downward_closed options b e (IZR M) baseXP_finite
                 exponent_finite maxLevel_integer totalXP 1 (1 + 1)
                 baseXP_nonneg exponent_nonneg ltac:(lia)
                 ltac:(apply IZR_le; lia) E) in Hr1.
      discriminate.
Qed.

Lemma calculateLevel_run_position (totalXP : number) (L : Z) (fuel : nat) :
  (iteration_bound (Z.to_nat M) <= fuel)%nat ->
  Binary64.calculateLevel totalXP options fuel = Some (Fin (IZR L)) ->
  (1 <= L <= M)%Z /\
  (Binary64.reached totalXP options L = true \/ L = 1%Z) /\
  (L = M \/ Binary64.reached totalXP options (L + 1) = false).
Proof.
  intros Hfuel Hrun.
  destruct (calculateLevel_position64 totalXP fuel Hfuel) as (L0 & Hrun0 & H).
  rewrite Hrun in Hrun0. injection Hrun0 as E. apply eq_IZR in E. now subst L0.
Qed.

Lemma calculateLevel_thresholds64 (totalXP : number) (L : Z) (fuel : nat) :
  (iteration_bound (Z.to_nat M) <= fuel)%nat ->
  (1 <= L <= M)%Z ->
  (Binary64.calculateLevel totalXP options fuel = Some (Fin (IZR L)) <->
   (Binary64.reached totalXP options L = true \/ L = 1%Z) /\
   (L = M \/ Binary64.reached totalXP options (L + 1) = false)).
Proof.
  intros Hfuel HL. split.
  - intros Hrun. now apply (calculateLevel_run_position totalXP L fuel Hfuel).
  - intros [Hlow Hup]. now apply calculateLevel_between64.
Qed.

(** More XP does not lower the level. *)
Lemma calculateLevel_le64 (x y : number) (Lx Ly : Z) (fuel : nat) :
  (iteration_bound (Z.to_nat M) <= fuel)%nat ->
  Number.le x y = true ->
  Binary64.calculateLevel x options fuel = Some (Fin (IZR Lx)) ->
  Binary64.calculateLevel y options fuel = Some (Fin (IZR Ly)) ->
  (Lx <= Ly)%Z.
Proof.
  intros Hfuel Hxy Hx Hy.
  destruct (calculateLevel_run_position x Lx fuel Hfuel Hx) as (HLx & Hlow & _).
  destruct (calculateLevel_run_position y Ly fuel Hfuel Hy) as (HLy & _ & Hup).
  destruct Hlow as [Hrx | ->]; [| lia].
  destruct Hup as [-> | Hny]; [lia |].
  destruct (Z_le_gt_dec Lx Ly) as [H | H]; [exact H | exfalso].
  assert (Hry : Binary64.reached y options Lx = true).
  { unfold Binary64.reached in *. now apply Number_le_trans with x. }
  rewrite (reached_downward_closed options b e (IZR M) baseXP_finite
             exponent_finite maxLevel_integer y (Ly + 1) Lx
             baseXP_nonneg exponent_nonneg ltac:(lia)
             ltac:(apply IZR_le; lia) Hry) in Hny.
  discriminate.
Qed.

End Binary64Thresholds.

(** X4.  On a curve with [baseXP >= 0] and [exponent >= 0] and an integer
    [maxLevel = M] below [2 ^ 53], the level of any XP is [L] exactly when
    the requirement of [L] is met (or [L] is 1, the floor) and the test of
    [L + 1] fails (or [L] is [M], the cap). *)
Theorem calculateLevel_thresholds :
  forall (options : Binary64.LevelCalculationOptions) (b e : R) (M L : Z)
         (totalXP : number) (fuel : nat),
    let opts := Binary64.spread Binary64.DEFAULT_OPTIONS options in
    Binary64.Required.baseXP opts = Fin b ->
    Binary64.Required.exponent opts = Fin e ->
    Binary64.Required.maxLevel opts = Fin (IZR M) ->
    0 <= b -> 0 <= e -> (1 <= M < 2 ^ 53)%Z ->
    (iteration_bound (Z.to_nat M) <= fuel)%nat ->
    (1 <= L <= M)%Z ->
    (Binary64.calculateLevel totalXP options fuel = Some (Fin (IZR L)) <->
     (Number.le (Binary64.getRequiredXP (Fin (IZR L)) options) totalXP = true \/
      L = 1%Z) /\
     (L = M \/
      Number.le (Binary64.getRequiredXP (Fin (IZR (L + 1))) options) totalXP
      = false)).
Proof.
  intros options b e M L totalXP fuel opts Hb He Hm Hb0 He0 HM Hfuel HL.
  now apply (calculateLevel_thresholds64 options b e M Hb He Hm Hb0 He0 HM).
Qed.

Lemma calculateLevel_thresholds_witness :
  Binary64.calculateLevel (Fin 250) Binary64.linear_options 7 = Some (Fin 2).
Proof.
  apply (proj2 (calculateLevel_thresholds Binary64.linear_options 100 1 100 2
                  (Fin 250) 7 eq_refl eq_refl eq_refl ltac:(lra) ltac:(lra)
                  ltac:(lia) ltac:(vm_compute; lia) ltac:(lia))).
  split.
  - left. rewrite (linear_required64 2) by lia. cbn [Number.le].
    apply Rleb_true. simpl. lra.
  - right. rewrite (linear_required64 (2 + 1)) by lia. cbn [Number.le].
    apply Rleb_false. simpl. lra.
Defined.

(** ** [getXPBetweenLevels] *)

Section Binary64Between.

Variable options : Binary64.LevelCalculationOptions.
Variables b e m : R.

Hypothesis baseXP_finite :
  Binary64.Required.baseXP (Binary64.spread Binary64.DEFAULT_OPTIONS options) = Fin b.
Hypothesis exponent_finite :
  Binary64.Required.exponent (Binary64.spread Binary64.DEFAULT_OPTIONS options) = Fin e.
Hypothesis maxLevel_finite :
  Binary64.Required.maxLevel (Binary64.spread Binary64.DEFAULT_OPTIONS options) = Fin m.
Hypothesis baseXP_nonneg : 0 <= b.
Hypothesis exponent_nonneg : 0 <= e.
Hypothesis maxLevel_positive : 1 <= m.

(** A finite requirement is not negative. *)
Lemma getRequiredXP_finite_nonneg (l c : R) :
  Binary64.getRequiredXP (Fin l) options = Fin c -> 0 <= c.
Proof.
  intros E. destruct (Rlt_dec l 1) as [Hlow | Hin].
  - rewrite (getRequiredXP_below64 options l Hlow) in E. injection E as <-. lra.
  - assert (Hcases : forall l' : R, 1 <= l' <= m ->
               Binary64.getRequiredXP (Fin l') options = Fin c -> 0 <= c).
    { intros l' Hl' E'.
      destruct (getRequiredXP_cases64 options b e m baseXP_finite exponent_finite
                  maxLevel_finite baseXP_nonneg l' Hl')
        as [(k & Ek & Hk) | [Ek | [Ek _]]]; rewrite Ek in E'; try discriminate.
      injection E' as <-. apply (IZR_le 0). exact Hk. }
    destruct (Rle_dec l m) as [Hle | Hgt].
    + apply (Hcases l); [lra | exact E].
    + rewrite (getRequiredXP_beyond_cap options m l maxLevel_finite) in E by lra.
      apply (Hcases m); [lra | exact E].
Qed.

(** The requirements do not decrease with the level, over all levels. *)
Lemma getRequiredXP_le_all (l1 l2 : R) :
  l1 <= l2 ->
  Binary64.getRequiredXP (Fin l2) options <> NaN ->
  Number.le (Binary64.getRequiredXP (Fin l1) options)
            (Binary64.getRequiredXP (Fin l2) options) = true.
Proof.
  intros Hl Hnan.
  destruct (Rlt_dec l1 1) as [Hlow | Hin].
  - rewrite (getRequiredXP_below64 options l1 Hlow).
    destruct (Binary64.getRequiredXP (Fin l2) options) as [c | | |] eqn:E;
      try reflexivity; try congruence.
    + cbn [Number.le]. apply Rleb_true. exact (getRequiredXP_finite_nonneg l2 c E).
    + exfalso. destruct (Rlt_dec l2 1) as [Hlow2 | Hin2].
      * rewrite (getRequiredXP_below64 options l2 Hlow2) in E. discriminate.
      * assert (Hc : forall l' : R, 1 <= l' <= m ->
                  Binary64.getRequiredXP (Fin l') options <> NegInf).
        { intros l' Hl'.
          destruct (getRequiredXP_cases64 options b e m baseXP_finite exponent_finite
                      maxLevel_finite baseXP_nonneg l' Hl')
            as [(k & -> & _) | [-> | [-> _]]]; discriminate. }
        destruct (Rle_dec l2 m) as [Hle | Hgt].
        -- apply (Hc l2); [lra | exact E].
        -- rewrite (getRequiredXP_beyond_cap options m l2 maxLevel_finite) in E by lra.
           apply (Hc m); [lra | exact E].
  - destruct (Rle_dec l2 m) as [Hle | Hgt].
    + apply (getRequiredXP_le64 options b e m); try assumption; lra.
    + rewrite (getRequiredXP_beyond_cap options m l2 maxLevel_finite) in * by lra.
      destruct (Rle_dec l1 m) as [Hle1 | Hgt1].
      * apply (getRequiredXP_le64 options b e m); try assumption; lra.
      * rewrite (getRequiredXP_beyond_cap options m l1 maxLevel_finite) by lra.
        now apply Number_le_refl.
Qed.

Lemma getXPBetweenLevels_upwards (l1 l2 c1 c2 : R) :
  l1 <= l2 ->
  Binary64.getRequiredXP (Fin l1) options = Fin c1 ->
  Binary64.getRequiredXP (Fin l2) options = Fin c2 ->
  exists k : Z,
    Binary64.getXPBetweenLevels (Fin l1) (Fin l2) options = Fin (IZR k) /\
    (0 <= k)%Z.
Proof.
  intros Hl E1 E2. unfold Binary64.getXPBetweenLevels. cbv zeta.
  pose proof (getRequiredXP_le_all l1 l2 Hl) as Hle.
  rewrite E1, E2 in *. specialize (Hle ltac:(discriminate)).
  cbn [Number.le] in Hle. apply Rleb_true in Hle.
  destruct (getRequiredXP_integer_valued _ _ _ E1) as (k1 & ->).
  destruct (getRequiredXP_integer_valued _ _ _ E2) as (k2 & ->).
  pose proof (getRequiredXP_representable _ _ _ E1) as R1.
  pose proof (getRequiredXP_representable _ _ _ E2) as R2.
  pose proof (getRequiredXP_finite_nonneg l1 _ E1) as H1.
  pose proof (getRequiredXP_finite_nonneg l2 _ E2) as H2.
  destruct (difference_finite (IZR k2) (IZR k1) R2 R1 H2 H1) as (d & Ed & Hd).
  cbn [Binary64.sub]. rewrite Ed.
  destruct (number_of_cases (IZR k2 - IZR k1)) as [[E _] | [[E _] | [E _]]];
    rewrite E in Ed; try discriminate.
  injection Ed as <-. rewrite <- minus_IZR.
  destruct (round_integer_valued (k2 - k1)) as (k & Ek). rewrite Ek.
  exists k. split; [reflexivity |].
  apply le_IZR. rewrite <- Ek. apply round_nonneg. rewrite minus_IZR. lra.
Qed.

Lemma getXPBetweenLevels_at_cap (l1 l2 c : R) :
  m <= l1 -> m <= l2 ->
  Binary64.getRequiredXP (Fin m) options = Fin c ->
  Binary64.getXPBetweenLevels (Fin l1) (Fin l2) options = Fin 0.
Proof.
  intros H1 H2 E. unfold Binary64.getXPBetweenLevels. cbv zeta.
  rewrite (getRequiredXP_beyond_cap options m l1 maxLevel_finite) by lra.
  rewrite (getRequiredXP_beyond_cap options m l2 maxLevel_finite) by lra.
  rewrite E. cbn [Binary64.sub]. rewrite Rminus_diag. exact number_of_0.
Qed.

End Binary64Between.

Lemma getXPBetweenLevels_swap options (l1 l2 : number) (d : R) :
  Binary64.getXPBetweenLevels l1 l2 options = Fin d ->
  Binary64.getXPBetweenLevels l2 l1 options = Fin (- d).
Proof.
  unfold Binary64.getXPBetweenLevels. cbv zeta.
  destruct (Binary64.getRequiredXP l1 options) as [c1 | | |],
           (Binary64.getRequiredXP l2 options) as [c2 | | |];
    try discriminate.
  cbn [Binary64.sub]. intros H.
  destruct (number_of_cases (c2 - c1)) as [[E B] | [[E _] | [E _]]];
    rewrite E in H; try discriminate.
  injection H as <-.
  replace (c1 - c2) with (- (c2 - c1)) by ring.
  rewrite number_of_finite; rewrite round_opp; [reflexivity | lra].
Qed.

Lemma getXPBetweenLevels_from_below options (l1 l2 c : R) :
  l1 < 1 ->
  Binary64.getRequiredXP (Fin l2) options = Fin c ->
  Binary64.getXPBetweenLevels (Fin l1) (Fin l2) options = Fin c.
Proof.
  intros Hlow E. unfold Binary64.getXPBetweenLevels. cbv zeta.
  rewrite (getRequiredXP_below64 options l1 Hlow), E. cbn [Binary64.sub].
  rewrite Rminus_0_r. apply number_of_representable.
  exact (getRequiredXP_representable _ _ _ E).
Qed.

(** X10.  [getXPBetweenLevels] between two levels whose requirements are
    finite.  With [baseXP >= 0], [exponent >= 0] and a cap [>= 1] it is an
    integer [>= 0] for [from <= to], and 0 between two levels at or above
    the cap; swapping the levels negates it, and from a level below 1 it is
    the whole requirement of the target level.  (Where a requirement has
    overflowed the difference is infinite, or NaN for two of them.) *)
Theorem getXPBetweenLevels_properties :
  forall (options : Binary64.LevelCalculationOptions) (fromLevel toLevel : R),
    let opts := Binary64.spread Binary64.DEFAULT_OPTIONS options in
    (forall b e m c1 c2 : R,
        Binary64.Required.baseXP opts = Fin b ->
        Binary64.Required.exponent opts = Fin e ->
        Binary64.Required.maxLevel opts = Fin m ->
        0 <= b -> 0 <= e -> 1 <= m ->
        Binary64.getRequiredXP (Fin fromLevel) options = Fin c1 ->
        Binary64.getRequiredXP (Fin toLevel) options = Fin c2 ->
        (fromLevel <= toLevel ->
         exists k : Z,
           Binary64.getXPBetweenLevels (Fin fromLevel) (Fin toLevel) options
           = Fin (IZR k) /\ (0 <= k)%Z) /\
        (m <= fromLevel -> m <= toLevel ->
         Binary64.getXPBetweenLevels (Fin fromLevel) (Fin toLevel) options = Fin 0)) /\
    (forall d : R,
        Binary64.getXPBetweenLevels (Fin fromLevel) (Fin toLevel) options = Fin d ->
        Binary64.getXPBetweenLevels (Fin toLevel) (Fin fromLevel) options
        = Fin (- d)) /\
    (forall c : R,
        fromLevel < 1 ->
        Binary64.getRequiredXP (Fin toLevel) options = Fin c ->
        Binary64.getXPBetweenLevels (Fin fromLevel) (Fin toLevel) options = Fin c).
Proof.
  intros options fromLevel toLevel opts. split; [| split].
  - intros b e m c1 c2 Hb He Hm Hb0 He0 Hm1 E1 E2. split.
    + intros Hle.
      now apply (getXPBetweenLevels_upwards options b e m Hb He Hm Hb0 He0 Hm1
                   fromLevel toLevel c1 c2).
    + intros H1 H2.
      apply (getXPBetweenLevels_at_cap options m Hm Hm1 fromLevel toLevel c2 H1 H2).
      now rewrite <- (getRequiredXP_beyond_cap options m toLevel Hm) by lra.
  - intros d. apply getXPBetweenLevels_swap.
  - intros c. apply getXPBetweenLevels_from_below.
Qed.

Lemma getXPBetweenLevels_properties_witness :
  (exists k : Z,
      Binary64.getXPBetweenLevels (Fin 1) (Fin 10) Binary64.no_options = Fin (IZR k) /\
      (0 <= k)%Z) /\
  Binary64.getXPBetweenLevels (Fin 0) (Fin 10) Binary64.no_options = Fin 3162.
Proof.
  destruct (getXPBetweenLevels_properties Binary64.no_options 1 10) as (Hup & _).
  destruct (getXPBetweenLevels_properties Binary64.no_options 0 10) as (_ & _ & Hlow).
  split.
  - apply (Hup 100 1.5 100 100 3162 eq_refl eq_refl eq_refl); try lra.
    + exact default_required_1.
    + exact default_required_10.
  - apply Hlow; [lra | exact default_required_10].
Defined.

(** ** The XP to the next level *)

Lemma max_zero_positive (t : R) : 0 < t -> Math.max (Fin 0) (Fin t) = Fin t.
Proof.
  intros H. cbn [Math.max Number.lt].
  now replace (Rltb 0 t) with true by (symmetry; apply Rltb_true; exact H).
Qed.

(** X11.  Where the curve grows from each level to the next ([baseXP >= 3],
    [exponent >= 1], [baseXP * maxLevel ^ exponent < 2 ^ 51], an integer
    [maxLevel = M] below [2 ^ 53]), a player holding exactly
    [getRequiredXP L] for a level [1 <= L < M] needs
    [getXPBetweenLevels L (L + 1)] to the next level, a positive integer. *)
Theorem getXPToNextLevel_between_levels :
  forall (options : Binary64.LevelCalculationOptions) (b e : R) (M L : Z)
         (fuel : nat),
    let opts := Binary64.spread Binary64.DEFAULT_OPTIONS options in
    Binary64.Required.baseXP opts = Fin b ->
    Binary64.Required.exponent opts = Fin e ->
    Binary64.Required.maxLevel opts = Fin (IZR M) ->
    3 <= b -> 1 <= e -> b * Rpower (IZR M) e < IZR (2 ^ 51) ->
    (1 <= M < 2 ^ 53)%Z -> (1 <= L < M)%Z ->
    (iteration_bound (Z.to_nat M) <= fuel)%nat ->
    exists t : Z,
      (1 <= t)%Z /\
      Binary64.getXPToNextLevel
        (Binary64.getRequiredXP (Fin (IZR L)) options) options fuel
      = Some (Fin (IZR t)) /\
      Binary64.getXPBetweenLevels (Fin (IZR L)) (Fin (IZR (L + 1))) options
      = Fin (IZR t).
Proof.
  intros options b e M L fuel opts Hb He Hm Hb3 He1 Hsmall HM HL Hfuel.
  assert (H1L : 1 <= IZR L) by (apply (IZR_le 1); lia).
  assert (HL1M : IZR L + 1 <= IZR M).
  { rewrite <- (plus_IZR L 1). apply IZR_le. lia. }
  pose proof (getRequiredXP_strict options b e (IZR M) Hb He Hm L Hb3 He1 Hsmall
                ltac:(lia) HL1M) as Hstrict.
  assert (Hmono : forall l : R, 1 <= l <= IZR M -> b * Rpower l e < IZR (2 ^ 51)).
  { intros l Hl. apply Rle_lt_trans with (2 := Hsmall).
    apply Rmult_le_compat_l; [lra |]. apply Rle_Rpower_l; lra. }
  assert (Hbmax : 1 <= b < powerRZ 2 1024).
  { pose proof (Rle_Rpower_l 1 (IZR M) e) as Hp. rewrite Rpower_base_1 in Hp.
    pose proof pow2_53_1024. pose proof (IZR_lt (2 ^ 51) (2 ^ 53) eq_refl).
    assert (1 <= Rpower (IZR M) e) by (apply Hp; lra). split; [lra | nra]. }
  destruct (getRequiredXP_near options b e (IZR M) Hb He Hm (IZR L))
    as (k & Ek & Hk); [lra | exact Hbmax | apply Hmono; lra |].
  destruct (getRequiredXP_near options b e (IZR M) Hb He Hm (IZR L + 1))
    as (k' & Ek' & Hk'); [lra | exact Hbmax | apply Hmono; lra |].
  rewrite Ek, Ek' in Hstrict. cbn [Number.lt] in Hstrict.
  apply Rltb_true in Hstrict. apply lt_IZR in Hstrict.
  assert (Hrange : forall l : R, 1 <= l <= IZR M ->
             (0 <= Zfloor (b * Rpower l e) < 2 ^ 51)%Z).
  { intros l Hl. pose proof (Hmono l Hl) as Hlt.
    assert (H0 : 0 <= b * Rpower l e).
    { apply Rmult_le_pos; [lra | left; apply Rpower_pos]. }
    pose proof (Zfloor_bound (b * Rpower l e)) as [Hf1 Hf2].
    split; [apply Zfloor_lub; exact H0 | apply lt_IZR; lra]. }
  pose proof (Hrange (IZR L) ltac:(lra)) as HrL.
  pose proof (Hrange (IZR L + 1) ltac:(lra)) as HrL1.
  assert (Hsub : Binary64.sub (Fin (IZR k')) (Fin (IZR k)) = Fin (IZR (k' - k)))
    by (apply sub_integers; lia).
  exists (k' - k)%Z. split; [lia |]. split.
  - assert (Hrun : Binary64.calculateLevel (Fin (IZR k)) options fuel
                   = Some (Fin (IZR L))).
    { apply (calculateLevel_between64 options b e M Hb He Hm ltac:(lra) ltac:(lra)
               HM (Fin (IZR k)) L fuel Hfuel ltac:(lia)).
      - left. unfold Binary64.reached. rewrite Ek. cbn [Number.le].
        apply Rleb_true. lra.
      - right. unfold Binary64.reached. rewrite plus_IZR, Ek'. cbn [Number.le].
        apply Rleb_false. apply IZR_lt. exact Hstrict. }
    rewrite Ek. rewrite (getXPToNextLevel_value _ _ _ _ Hrun).
    change (Fin 1) with (Fin (IZR 1)). rewrite add_integers by lia.
    rewrite plus_IZR, Ek', Hsub. rewrite max_zero_positive; [reflexivity |].
    apply (IZR_lt 0). lia.
  - unfold Binary64.getXPBetweenLevels. cbv zeta. rewrite plus_IZR, Ek, Ek'.
    exact Hsub.
Qed.

Lemma getXPToNextLevel_between_levels_witness :
  exists t : Z,
    (1 <= t)%Z /\
    Binary64.getXPToNextLevel
      (Binary64.getRequiredXP (Fin (IZR 10)) Binary64.no_options)
      Binary64.no_options 7
    = Some (Fin (IZR t)) /\
    Binary64.getXPBetweenLevels (Fin (IZR 10)) (Fin (IZR (10 + 1))) Binary64.no_options
    = Fin (IZR t).
Proof.
  apply (getXPToNextLevel_between_levels Binary64.no_options 100 1.5 100 10 7
           eq_refl eq_refl eq_refl); try lra; try lia.
  - exact default_product_small.
  - vm_compute. lia.
Defined.

(** ** Gaining XP *)

Section Binary64Gains.

Variable options : Binary64.LevelCalculationOptions.
Variables b e : R.
Variable M : Z.

Hypothesis baseXP_finite :
  Binary64.Required.baseXP (Binary64.spread Binary64.DEFAULT_OPTIONS options) = Fin b.
Hypothesis exponent_finite :
  Binary64.Required.exponent (Binary64.spread Binary64.DEFAULT_OPTIONS options) = Fin e.
Hypothesis maxLevel_integer :
  Binary64.Required.maxLevel (Binary64.spread Binary64.DEFAULT_OPTIONS options)
  = Fin (IZR M).
Hypothesis baseXP_nonneg : 0 <= b.
Hypothesis exponent_nonneg : 0 <= e.
Hypothesis maxLevel_range : (1 <= M < 2 ^ 53)%Z.

Variable fuel : nat.
Hypothesis enough_fuel : (iteration_bound (Z.to_nat M) <= fuel)%nat.

Local Abbreviation level_of x := (Binary64.calculateLevel x options fuel).
Local Abbreviation met x l := (Binary64.reached x options l).

Lemma run_position (x : number) (L : Z) :
  level_of x = Some (Fin (IZR L)) ->
  (1 <= L <= M)%Z /\ (met x L = true \/ L = 1%Z) /\
  (L = M \/ met x (L + 1) = false).
Proof.
  apply (calculateLevel_run_position options b e M baseXP_finite exponent_finite
           maxLevel_integer baseXP_nonneg exponent_nonneg maxLevel_range x L fuel
           enough_fuel).
Qed.

Lemma run_exists (x : number) :
  exists L : Z, level_of x = Some (Fin (IZR L)).
Proof.
  destruct (calculateLevel_position64 options b e M baseXP_finite exponent_finite
              maxLevel_integer baseXP_nonneg exponent_nonneg maxLevel_range x fuel
              enough_fuel) as (L & H & _).
  now exists L.
Qed.

Lemma closed_downwards (x : number) (a c : Z) :
  (1 <= a <= c)%Z -> (c <= M)%Z -> met x c = true -> met x a = true.
Proof.
  intros Hac HcM. apply (reached_downward_closed options b e (IZR M) baseXP_finite
                           exponent_finite maxLevel_integer x a c baseXP_nonneg
                           exponent_nonneg Hac). apply IZR_le. exact HcM.
Qed.

(** The level is above [L] as soon as the requirement of [L + 1] is met. *)
Lemma level_above (x : number) (L L' : Z) :
  (1 <= L < M)%Z -> met x (L + 1) = true ->
  level_of x = Some (Fin (IZR L')) -> (L < L')%Z.
Proof.
  intros HL Hr Hrun. destruct (run_position x L' Hrun) as (HL' & _ & Hup).
  destruct (Z_lt_le_dec L L') as [H | H]; [exact H | exfalso].
  destruct Hup as [-> | Hn]; [lia |].
  rewrite (closed_downwards x (L' + 1) (L + 1)) in Hn; [discriminate | lia | lia |].
  exact Hr.
Qed.

(** It is [L] as long as the requirement of [L + 1] is not. *)
Lemma level_kept (x y : number) (L : Z) :
  level_of x = Some (Fin (IZR L)) -> Number.le x y = true ->
  (L = M \/ met y (L + 1) = false) ->
  level_of y = Some (Fin (IZR L)).
Proof.
  intros Hrun Hxy Hup. destruct (run_position x L Hrun) as (HL & Hlow & _).
  apply (calculateLevel_between64 options b e M baseXP_finite exponent_finite
           maxLevel_integer baseXP_nonneg exponent_nonneg maxLevel_range y L fuel
           enough_fuel HL); [| exact Hup].
  destruct Hlow as [Hr | ->]; [left | right; reflexivity].
  unfold Binary64.reached in *. now apply Number_le_trans with x.
Qed.

(** The requirement of a level of the range, on this curve. *)
Lemma requirement_cases (l : Z) :
  (1 <= l <= M)%Z ->
  (exists k : Z,
      Binary64.getRequiredXP (Fin (IZR l)) options = Fin (IZR k) /\ (0 <= k)%Z) \/
  Binary64.getRequiredXP (Fin (IZR l)) options = PosInf \/
  Binary64.getRequiredXP (Fin (IZR l)) options = NaN.
Proof.
  intros Hl.
  destruct (getRequiredXP_cases64 options b e (IZR M) baseXP_finite exponent_finite
              maxLevel_integer baseXP_nonneg (IZR l))
    as [H | [H | [H _]]]; auto.
  split; [apply (IZR_le 1) | apply IZR_le]; lia.
Qed.

Lemma threshold_of_integer_xp (X L kn : Z) :
  (0 <= X <= 2 ^ 53)%Z ->
  level_of (Fin (IZR X)) = Some (Fin (IZR L)) -> (L < M)%Z ->
  Binary64.getRequiredXP (Fin (IZR (L + 1))) options = Fin (IZR kn) ->
  (kn <= 2 ^ 53)%Z ->
  (X < kn)%Z /\
  Binary64.getXPToNextLevel (Fin (IZR X)) options fuel = Some (Fin (IZR (kn - X))) /\
  Binary64.add (Fin (IZR X)) (Fin (IZR (kn - X))) = Fin (IZR kn) /\
  (exists L' : Z, level_of (Fin (IZR kn)) = Some (Fin (IZR L')) /\ (L < L')%Z) /\
  (forall d : Z,
      (0 <= d < kn - X)%Z ->
      Binary64.add (Fin (IZR X)) (Fin (IZR d)) = Fin (IZR (X + d)) /\
      level_of (Fin (IZR (X + d))) = Some (Fin (IZR L))).
Proof.
  intros HX Hrun HLM En Hkn.
  destruct (run_position _ L Hrun) as (HL & Hlow & Hup).
  destruct Hup as [-> | Hnext]; [lia |].
  assert (HXkn : (X < kn)%Z).
  { unfold Binary64.reached in Hnext. rewrite En in Hnext. cbn [Number.le] in Hnext.
    apply Rleb_false in Hnext. now apply lt_IZR. }
  split; [exact HXkn |]. split; [| split; [| split]].
  - rewrite (getXPToNextLevel_value _ _ _ _ Hrun).
    change (Fin 1) with (Fin (IZR 1)). rewrite add_integers by lia.
    rewrite En, sub_integers by lia. rewrite max_zero_positive; [reflexivity |].
    apply (IZR_lt 0). lia.
  - rewrite add_integers by lia. do 2 f_equal. lia.
  - destruct (run_exists (Fin (IZR kn))) as (L' & Hrun').
    exists L'. split; [exact Hrun' |].
    apply (level_above (Fin (IZR kn)) L L'); [lia | | exact Hrun'].
    unfold Binary64.reached. rewrite En. cbn [Number.le]. apply Rleb_true. lra.
  - intros d Hd. split; [apply add_integers; lia |].
    apply (level_kept (Fin (IZR X))); [exact Hrun | |].
    + cbn [Number.le]. apply Rleb_true, IZR_le. lia.
    + right. unfold Binary64.reached. rewrite En. cbn [Number.le].
      apply Rleb_false, IZR_lt. lia.
Qed.

Lemma level_up_of_integer_xp (X A : Z) :
  (0 <= X)%Z -> (0 <= A)%Z -> (X + A < 2 ^ 53)%Z ->
  exists (L1 L2 : Z) (t : number),
    Binary64.checkLevelUp (Fin (IZR X)) (Fin (IZR A)) options fuel
    = Some {| Binary64.LevelUp.leveledUp := (L1 <? L2)%Z;
              Binary64.LevelUp.previousLevel := Fin (IZR L1);
              Binary64.LevelUp.newLevel := Fin (IZR L2);
              Binary64.LevelUp.levelsGained := Fin (IZR (L2 - L1)) |} /\
    (1 <= L1 <= L2)%Z /\ (L2 <= M)%Z /\
    Binary64.getXPToNextLevel (Fin (IZR X)) options fuel = Some t /\
    ((L1 < L2)%Z <-> (L1 < M)%Z /\ Number.le t (Fin (IZR A)) = true).
Proof.
  intros HX HA Hsum.
  destruct (run_exists (Fin (IZR X))) as (L1 & Hrun1).
  destruct (run_exists (Fin (IZR (X + A)))) as (L2 & Hrun2).
  destruct (run_position _ L1 Hrun1) as (HL1 & Hlow1 & Hup1).
  destruct (run_position _ L2 Hrun2) as (HL2 & Hlow2 & Hup2).
  assert (HL12 : (L1 <= L2)%Z).
  { apply (calculateLevel_le64 options b e M baseXP_finite exponent_finite
             maxLevel_integer baseXP_nonneg exponent_nonneg maxLevel_range
             (Fin (IZR X)) (Fin (IZR (X + A))) L1 L2 fuel enough_fuel);
      try assumption.
    cbn [Number.le]. apply Rleb_true, IZR_le. lia. }
  exists L1, L2. eexists. split; [| split; [lia | split; [lia | split]]].
  - unfold Binary64.checkLevelUp. rewrite Hrun1. cbv zeta.
    rewrite add_integers by lia. rewrite Hrun2.
    rewrite sub_integers by lia. do 2 f_equal.
    unfold Number.gt. cbn [Number.lt].
    destruct (Z.ltb_spec L1 L2) as [H | H].
    + apply Rltb_true. apply (IZR_lt 0). lia.
    + apply Rltb_false. apply (IZR_le _ 0). lia.
  - exact (getXPToNextLevel_value _ _ _ _ Hrun1).
  - change (Fin 1) with (Fin (IZR 1)). rewrite add_integers by lia.
    split.
    + intros Hgain. split; [lia |].
      assert (Hr : met (Fin (IZR (X + A))) (L1 + 1) = true).
      { destruct Hlow2 as [Hr2 | ->]; [| lia].
        apply (closed_downwards _ (L1 + 1) L2); [lia | lia | exact Hr2]. }
      unfold Binary64.reached in Hr.
      destruct (requirement_cases (L1 + 1) ltac:(lia))
        as [(kn & En & Hkn) | [En | En]]; rewrite En in Hr |- *; try discriminate.
      cbn [Number.le] in Hr. apply Rleb_true in Hr. apply le_IZR in Hr.
      rewrite sub_integers by lia. cbn [Math.max Number.lt].
      destruct (Rltb 0 (IZR (kn - X))); cbn [Number.le]; apply Rleb_true, IZR_le; lia.
    + intros [HL1M Ht].
      destruct Hup1 as [-> | Hnext]; [lia |].
      unfold Binary64.reached in Hnext.
      destruct (requirement_cases (L1 + 1) ltac:(lia))
        as [(kn & En & Hkn) | [En | En]]; rewrite En in Hnext, Ht;
        try discriminate.
      cbn [Number.le] in Hnext. apply Rleb_false in Hnext. apply lt_IZR in Hnext.
      assert (Hreach : (kn <= X + A)%Z).
      { destruct (Z_le_gt_dec kn (X + A)) as [H | H]; [exact H | exfalso].
        cbn [Binary64.sub] in Ht. rewrite <- minus_IZR in Ht.
        assert (Hr : IZR (A + 1) <= Binary64.round (IZR (kn - X))).
        { apply round_ge_integer; [lia | apply IZR_le; lia]. }
        assert (HA1 : IZR A < IZR (A + 1)) by (apply IZR_lt; lia).
        assert (HA0 : 0 <= IZR A) by (apply (IZR_le 0); lia).
        destruct (number_of_cases (IZR (kn - X))) as [[E _] | [[E _] | [E B]]];
          rewrite E in Ht.
        - rewrite max_zero_positive in Ht by lra.
          cbn [Number.le] in Ht. apply Rleb_true in Ht. lra.
        - discriminate.
        - pose proof pow2_1024_pos. lra. }
      apply (level_above (Fin (IZR (X + A))) L1 L2); [lia | | exact Hrun2].
      unfold Binary64.reached. rewrite En. cbn [Number.le].
      apply Rleb_true, IZR_le. exact Hreach.
Qed.

End Binary64Gains.

(** X5.  Integer XP below the cap, on a curve with [baseXP >= 0],
    [exponent >= 0] and an integer [maxLevel] below [2 ^ 53]: where the
    next requirement [n] is an integer up to [2 ^ 53],
    [getXPToNextLevel x] is [n - x], positive; [x] plus it is exactly [n]
    and has a higher level, and adding any smaller whole amount [d >= 0]
    leaves the level unchanged. *)
Theorem getXPToNextLevel_threshold :
  forall (options : Binary64.LevelCalculationOptions) (b e : R) (M X L kn : Z)
         (fuel : nat),
    let opts := Binary64.spread Binary64.DEFAULT_OPTIONS options in
    Binary64.Required.baseXP opts = Fin b ->
    Binary64.Required.exponent opts = Fin e ->
    Binary64.Required.maxLevel opts = Fin (IZR M) ->
    0 <= b -> 0 <= e -> (1 <= M < 2 ^ 53)%Z ->
    (iteration_bound (Z.to_nat M) <= fuel)%nat ->
    (0 <= X <= 2 ^ 53)%Z ->
    Binary64.calculateLevel (Fin (IZR X)) options fuel = Some (Fin (IZR L)) ->
    (L < M)%Z ->
    Binary64.getRequiredXP (Fin (IZR (L + 1))) options = Fin (IZR kn) ->
    (kn <= 2 ^ 53)%Z ->
    (X < kn)%Z /\
    Binary64.getXPToNextLevel (Fin (IZR X)) options fuel = Some (Fin (IZR (kn - X))) /\
    Binary64.add (Fin (IZR X)) (Fin (IZR (kn - X))) = Fin (IZR kn) /\
    (exists L' : Z,
        Binary64.calculateLevel (Fin (IZR kn)) options fuel = Some (Fin (IZR L')) /\
        (L < L')%Z) /\
    (forall d : Z,
        (0 <= d < kn - X)%Z ->
        Binary64.add (Fin (IZR X)) (Fin (IZR d)) = Fin (IZR (X + d)) /\
        Binary64.calculateLevel (Fin (IZR (X + d))) options fuel
        = Some (Fin (IZR L))).
Proof.
  intros options b e M X L kn fuel opts Hb He Hm Hb0 He0 HM Hfuel.
  now apply (threshold_of_integer_xp options b e M Hb He Hm Hb0 He0 HM fuel Hfuel).
Qed.

Lemma linear_level_250 :
  Binary64.calculateLevel (Fin (IZR 250)) Binary64.linear_options 7 = Some (Fin (IZR 2)).
Proof.
  apply (calculateLevel_between64 Binary64.linear_options 100 1 100
           eq_refl eq_refl eq_refl ltac:(lra) ltac:(lra) ltac:(lia) (Fin (IZR 250)) 2 7);
    [vm_compute; lia | lia | |].
  - left. unfold Binary64.reached. rewrite (linear_required64 2) by lia.
    cbn [Number.le]. apply Rleb_true. simpl. lra.
  - right. unfold Binary64.reached. rewrite (linear_required64 (2 + 1)) by lia.
    cbn [Number.le]. apply Rleb_false. simpl. lra.
Qed.

Lemma getXPToNextLevel_threshold_witness :
  Binary64.getXPToNextLevel (Fin (IZR 250)) Binary64.linear_options 7
  = Some (Fin (IZR (300 - 250))).
Proof.
  destruct (getXPToNextLevel_threshold Binary64.linear_options 100 1 100 250 2 300 7
              eq_refl eq_refl eq_refl ltac:(lra) ltac:(lra) ltac:(lia)
              ltac:(vm_compute; lia) ltac:(lia) linear_level_250 ltac:(lia)
              (linear_required64 (2 + 1) ltac:(lia)) ltac:(lia))
    as (_ & H & _).
  exact H.
Defined.

(** X16.  [checkLevelUp] on a curve with [baseXP >= 0], [exponent >= 0] and
    an integer [maxLevel = M] below [2 ^ 53], for integers
    [previousXP >= 0] and [addedXP >= 0] with a sum below [2 ^ 53]: the two
    levels are integers with [previousLevel <= newLevel <= M],
    [levelsGained] is their difference, and [leveledUp] is true exactly
    when [previousLevel < M] and
    [addedXP >= getXPToNextLevel previousXP]. *)
Theorem checkLevelUp_threshold :
  forall (options : Binary64.LevelCalculationOptions) (b e : R) (M X A : Z)
         (fuel : nat),
    let opts := Binary64.spread Binary64.DEFAULT_OPTIONS options in
    Binary64.Required.baseXP opts = Fin b ->
    Binary64.Required.exponent opts = Fin e ->
    Binary64.Required.maxLevel opts = Fin (IZR M) ->
    0 <= b -> 0 <= e -> (1 <= M < 2 ^ 53)%Z ->
    (iteration_bound (Z.to_nat M) <= fuel)%nat ->
    (0 <= X)%Z -> (0 <= A)%Z -> (X + A < 2 ^ 53)%Z ->
    exists (L1 L2 : Z) (t : number),
      Binary64.checkLevelUp (Fin (IZR X)) (Fin (IZR A)) options fuel
      = Some {| Binary64.LevelUp.leveledUp := (L1 <? L2)%Z;
                Binary64.LevelUp.previousLevel := Fin (IZR L1);
                Binary64.LevelUp.newLevel := Fin (IZR L2);
                Binary64.LevelUp.levelsGained := Fin (IZR (L2 - L1)) |} /\
      (1 <= L1 <= L2)%Z /\ (L2 <= M)%Z /\
      Binary64.getXPToNextLevel (Fin (IZR X)) options fuel = Some t /\
      ((L1 < L2)%Z <-> (L1 < M)%Z /\ Number.le t (Fin (IZR A)) = true).
Proof.
  intros options b e M X A fuel opts Hb He Hm Hb0 He0 HM Hfuel.
  now apply (level_up_of_integer_xp options b e M Hb He Hm Hb0 He0 HM fuel Hfuel).
Qed.

Lemma checkLevelUp_threshold_witness :
  exists (L1 L2 : Z) (t : number),
    Binary64.checkLevelUp (Fin (IZR 250)) (Fin (IZR 50)) Binary64.linear_options 7
    = Some {| Binary64.LevelUp.leveledUp := (L1 <? L2)%Z;
              Binary64.LevelUp.previousLevel := Fin (IZR L1);
              Binary64.LevelUp.newLevel := Fin (IZR L2);
              Binary64.LevelUp.levelsGained := Fin (IZR (L2 - L1)) |} /\
    (1 <= L1 <= L2)%Z /\ (L2 <= 100)%Z /\
    Binary64.getXPToNextLevel (Fin (IZR 250)) Binary64.linear_options 7 = Some t /\
    ((L1 < L2)%Z <-> (L1 < 100)%Z /\ Number.le t (Fin (IZR 50)) = true).
Proof.
  apply (checkLevelUp_threshold Binary64.linear_options 100 1 100 250 50 7
           eq_refl eq_refl eq_refl); try lra; try lia.
  vm_compute. lia.
Defined.

(** ** [compareProgression] *)

Lemma abs_difference_swap (x y : R) :
  Binary64.abs (Binary64.sub (Fin x) (Fin y))
  = Binary64.abs (Binary64.sub (Fin y) (Fin x)).
Proof.
  cbn [Binary64.sub]. replace (y - x) with (- (x - y)) by ring.
  pose proof (round_opp (x - y)) as Ho.
  unfold Binary64.number_of. cbv zeta. rewrite Ho.
  pose proof pow2_1024_pos as Hp.
  destruct (Rleb (powerRZ 2 1024) (Binary64.round (x - y))) eqn:E1;
    destruct (Rleb (Binary64.round (x - y)) (- powerRZ 2 1024)) eqn:E2;
    destruct (Rleb (powerRZ 2 1024) (- Binary64.round (x - y))) eqn:E3;
    destruct (Rleb (- Binary64.round (x - y)) (- powerRZ 2 1024)) eqn:E4;
    try reflexivity;
    rewrite ?Rleb_true, ?Rleb_false in *; try (exfalso; lra).
  cbn [Binary64.abs]. now rewrite Rabs_Ropp.
Qed.

Section Binary64Compare.

Variable options : Binary64.LevelCalculationOptions.
Variables b e : R.
Variable M : Z.

Hypothesis baseXP_finite :
  Binary64.Required.baseXP (Binary64.spread Binary64.DEFAULT_OPTIONS options) = Fin b.
Hypothesis exponent_finite :
  Binary64.Required.exponent (Binary64.spread Binary64.DEFAULT_OPTIONS options) = Fin e.
Hypothesis maxLevel_integer :
  Binary64.Required.maxLevel (Binary64.spread Binary64.DEFAULT_OPTIONS options)
  = Fin (IZR M).
Hypothesis baseXP_nonneg : 0 <= b.
Hypothesis exponent_nonneg : 0 <= e.
Hypothesis maxLevel_range : (1 <= M < 2 ^ 53)%Z.

Variable fuel : nat.
Hypothesis enough_fuel : (iteration_bound (Z.to_nat M) <= fuel)%nat.

Lemma compareProgression_value (x1 x2 : R) :
  exists L1 L2 : Z,
    Binary64.calculateLevel (Fin x1) options fuel = Some (Fin (IZR L1)) /\
    Binary64.calculateLevel (Fin x2) options fuel = Some (Fin (IZR L2)) /\
    (1 <= L1 <= M)%Z /\ (1 <= L2 <= M)%Z /\
    Binary64.compareProgression (Fin x1) (Fin x2) options fuel
    = Some {| Binary64.Progression.user1Level := Fin (IZR L1);
              Binary64.Progression.user2Level := Fin (IZR L2);
              Binary64.Progression.levelDifference := Fin (IZR (Z.abs (L1 - L2)));
              Binary64.Progression.xpDifference :=
                Binary64.abs (Binary64.sub (Fin x1) (Fin x2));
              Binary64.Progression.leader :=
                if Rltb x2 x1 then Binary64.user1
                else if Rltb x1 x2 then Binary64.user2 else Binary64.tie |}.
Proof.
  destruct (run_exists options b e M baseXP_finite exponent_finite maxLevel_integer
              baseXP_nonneg exponent_nonneg maxLevel_range fuel enough_fuel (Fin x1))
    as (L1 & H1).
  destruct (run_exists options b e M baseXP_finite exponent_finite maxLevel_integer
              baseXP_nonneg exponent_nonneg maxLevel_range fuel enough_fuel (Fin x2))
    as (L2 & H2).
  destruct (run_position options b e M baseXP_finite exponent_finite maxLevel_integer
              baseXP_nonneg exponent_nonneg maxLevel_range fuel enough_fuel _ L1 H1)
    as (HL1 & _).
  destruct (run_position options b e M baseXP_finite exponent_finite maxLevel_integer
              baseXP_nonneg exponent_nonneg maxLevel_range fuel enough_fuel _ L2 H2)
    as (HL2 & _).
  exists L1, L2. split; [exact H1 |]. split; [exact H2 |].
  split; [exact HL1 |]. split; [exact HL2 |].
  unfold Binary64.compareProgression. rewrite H1, H2.
  rewrite sub_integers by lia. cbn [Binary64.abs]. now rewrite <- abs_IZR.
Qed.

Lemma levels_ordered (x1 x2 : R) (L1 L2 : Z) :
  x1 <= x2 ->
  Binary64.calculateLevel (Fin x1) options fuel = Some (Fin (IZR L1)) ->
  Binary64.calculateLevel (Fin x2) options fuel = Some (Fin (IZR L2)) ->
  (L1 <= L2)%Z.
Proof.
  intros Hx. apply (calculateLevel_le64 options b e M baseXP_finite exponent_finite
                      maxLevel_integer baseXP_nonneg exponent_nonneg maxLevel_range
                      (Fin x1) (Fin x2) L1 L2 fuel enough_fuel).
  cbn [Number.le]. apply Rleb_true. exact Hx.
Qed.

End Binary64Compare.

(** X19.  [compareProgression] for two finite XP values, on a curve with
    [baseXP >= 0], [exponent >= 0] and an integer [maxLevel] below
    [2 ^ 53].  The leader is the user with strictly more XP, and ['tie']
    only for equal XP; the leader's level is never below the other's, and
    a tie has [levelDifference] 0; swapping the two users leaves
    [levelDifference] and [xpDifference] unchanged. *)
Theorem compareProgression_leader :
  forall (options : Binary64.LevelCalculationOptions) (b e : R) (M : Z)
         (x1 x2 : R) (fuel : nat),
    let opts := Binary64.spread Binary64.DEFAULT_OPTIONS options in
    Binary64.Required.baseXP opts = Fin b ->
    Binary64.Required.exponent opts = Fin e ->
    Binary64.Required.maxLevel opts = Fin (IZR M) ->
    0 <= b -> 0 <= e -> (1 <= M < 2 ^ 53)%Z ->
    (iteration_bound (Z.to_nat M) <= fuel)%nat ->
    exists (L1 L2 : Z) (r r' : Binary64.Progression.t),
      Binary64.compareProgression (Fin x1) (Fin x2) options fuel = Some r /\
      Binary64.compareProgression (Fin x2) (Fin x1) options fuel = Some r' /\
      Binary64.Progression.user1Level r = Fin (IZR L1) /\
      Binary64.Progression.user2Level r = Fin (IZR L2) /\
      Binary64.Progression.levelDifference r = Fin (IZR (Z.abs (L1 - L2))) /\
      (Binary64.Progression.leader r = Binary64.user1 <-> x2 < x1) /\
      (Binary64.Progression.leader r = Binary64.user2 <-> x1 < x2) /\
      (Binary64.Progression.leader r = Binary64.tie <-> x1 = x2) /\
      (x2 < x1 -> (L2 <= L1)%Z) /\
      (x1 < x2 -> (L1 <= L2)%Z) /\
      (x1 = x2 -> Binary64.Progression.levelDifference r = Fin 0) /\
      Binary64.Progression.levelDifference r' = Binary64.Progression.levelDifference r /\
      Binary64.Progression.xpDifference r' = Binary64.Progression.xpDifference r.
Proof.
  intros options b e M x1 x2 fuel opts Hb He Hm Hb0 He0 HM Hfuel.
  destruct (compareProgression_value options b e M Hb He Hm Hb0 He0 HM fuel Hfuel x1 x2)
    as (L1 & L2 & H1 & H2 & HL1 & HL2 & Hr).
  destruct (compareProgression_value options b e M Hb He Hm Hb0 He0 HM fuel Hfuel x2 x1)
    as (L2' & L1' & H2' & H1' & _ & _ & Hr').
  rewrite H1 in H1'. injection H1' as E1. apply eq_IZR in E1. subst L1'.
  rewrite H2 in H2'. injection H2' as E2. apply eq_IZR in E2. subst L2'.
  assert (Hord : forall a c La Lc,
             a <= c ->
             Binary64.calculateLevel (Fin a) options fuel = Some (Fin (IZR La)) ->
             Binary64.calculateLevel (Fin c) options fuel = Some (Fin (IZR Lc)) ->
             (La <= Lc)%Z).
  { intros a c La Lc. apply (levels_ordered options b e M Hb He Hm Hb0 He0 HM fuel Hfuel). }
  exists L1, L2. eexists. eexists.
  split; [exact Hr |]. split; [exact Hr' |].
  cbn [Binary64.Progression.user1Level Binary64.Progression.user2Level
       Binary64.Progression.levelDifference Binary64.Progression.xpDifference
       Binary64.Progression.leader].
  split; [reflexivity |]. split; [reflexivity |]. split; [reflexivity |].
  assert (Hlead : (if Rltb x2 x1 then Binary64.user1
                   else if Rltb x1 x2 then Binary64.user2 else Binary64.tie)
                  = Binary64.user1 /\ x2 < x1 \/
                  (if Rltb x2 x1 then Binary64.user1
                   else if Rltb x1 x2 then Binary64.user2 else Binary64.tie)
                  = Binary64.user2 /\ x1 < x2 \/
                  (if Rltb x2 x1 then Binary64.user1
                   else if Rltb x1 x2 then Binary64.user2 else Binary64.tie)
                  = Binary64.tie /\ x1 = x2).
  { destruct (Rltb x2 x1) eqn:E21.
    - left. split; [reflexivity | now apply Rltb_true].
    - destruct (Rltb x1 x2) eqn:E12.
      + right. left. split; [reflexivity | now apply Rltb_true].
      + right. right. split; [reflexivity |].
        apply Rltb_false in E21, E12. lra. }
  split; [| split; [| split; [| split; [| split; [| split; [| split]]]]]].
  - destruct Hlead as [[-> H] | [[-> H] | [-> H]]];
      split; intros H'; try discriminate; try reflexivity; try exact H; lra.
  - destruct Hlead as [[-> H] | [[-> H] | [-> H]]];
      split; intros H'; try discriminate; try reflexivity; try exact H; lra.
  - destruct Hlead as [[-> H] | [[-> H] | [-> H]]];
      split; intros H'; try discriminate; try reflexivity; try exact H; lra.
  - intros H. apply (Hord x2 x1); [lra | assumption | assumption].
  - intros H. apply (Hord x1 x2); [lra | assumption | assumption].
  - intros ->. rewrite H1 in H2. injection H2 as E. apply eq_IZR in E. subst L2.
    now rewrite Z.sub_diag.
  - do 2 f_equal. lia.
  - apply abs_difference_swap.
Qed.

Lemma compareProgression_leader_witness :
  exists (L1 L2 : Z) (r : Binary64.Progression.t),
    Binary64.compareProgression (Fin 500) (Fin 120) Binary64.linear_options 7
    = Some r /\
    Binary64.Progression.user1Level r = Fin (IZR L1) /\
    Binary64.Progression.user2Level r = Fin (IZR L2) /\
    Binary64.Progression.leader r = Binary64.user1 /\ (L2 <= L1)%Z.
Proof.
  destruct (compareProgression_leader Binary64.linear_options 100 1 100 500 120 7
              eq_refl eq_refl eq_refl ltac:(lra) ltac:(lra) ltac:(lia)
              ltac:(vm_compute; lia))
    as (L1 & L2 & r & r' & Hr & _ & H1 & H2 & _ & Hlead & _ & _ & Hord & _).
  exists L1, L2, r. split; [exact Hr |]. split; [exact H1 |]. split; [exact H2 |].
  split; [apply Hlead; lra | apply Hord; lra].
Defined.

(** ** Progress *)

Lemma clamp_identity (y : R) :
  0 <= y <= 100 -> Math.min (Fin 100) (Math.max (Fin 0) (Fin y)) = Fin y.
Proof.
  intros [H0 H100]. cbn [Math.max Number.lt].
  destruct (Rltb 0 y) eqn:E0; cbn [Math.min Number.lt].
  - destruct (Rltb y 100) eqn:E1; [reflexivity |].
    apply Rltb_false in E1. f_equal. lra.
  - apply Rltb_false in E0.
    replace (Rltb 0 100) with true by (symmetry; apply Rltb_true; lra).
    f_equal. lra.
Qed.

Lemma clamp_nonpositive (y : number) :
  Number.le y (Fin 0) = true ->
  Math.min (Fin 100) (Math.max (Fin 0) y) = Fin 0.
Proof.
  intros H. rewrite (max_zero_nonpositive y H). cbn [Math.min Number.lt].
  now replace (Rltb 0 100) with true by (symmetry; apply Rltb_true; lra).
Qed.

(** The percentage of a shortfall is not positive. *)
Lemma shortfall_percentage (num : number) (d : R) :
  Number.lt num (Fin 0) = true -> 0 <= d ->
  Number.le (Binary64.mul (Binary64.div num (Fin d)) (Fin 100)) (Fin 0) = true.
Proof.
  intros Hn Hd.
  assert (Hq : Number.le (Binary64.div num (Fin d)) (Fin 0) = true).
  { destruct num as [a | | |]; try discriminate.
    - cbn [Number.lt] in Hn. apply Rltb_true in Hn. cbn [Binary64.div].
      destruct (Reqb d 0) eqn:Ed.
      + replace (Rltb 0 a) with false by (symmetry; apply Rltb_false; lra).
        now replace (Rltb a 0) with true by (symmetry; apply Rltb_true; lra).
      + apply Reqb_false in Ed. apply (number_of_le_integer _ 0); [lia |].
        assert (0 < d) by lra. assert (0 < / d) by now apply Rinv_0_lt_compat.
        unfold Rdiv. simpl. nra.
    - cbn [Binary64.div].
      now replace (Rltb d 0) with false by (symmetry; apply Rltb_false; lra). }
  destruct (Binary64.div num (Fin d)) as [q | | |]; try discriminate.
  - cbn [Number.le Binary64.mul] in *. apply Rleb_true in Hq.
    apply (number_of_le_integer _ 0); [lia | simpl; lra].
  - cbn [Binary64.mul]. unfold Number.scale_inf.
    now replace (Rltb 0 100) with true by (symmetry; apply Rltb_true; lra).
Qed.

Section Binary64Interpolation.

Variable options : Binary64.LevelCalculationOptions.
Variables b e : R.
Variable M : Z.

Hypothesis baseXP_finite :
  Binary64.Required.baseXP (Binary64.spread Binary64.DEFAULT_OPTIONS options) = Fin b.
Hypothesis exponent_finite :
  Binary64.Required.exponent (Binary64.spread Binary64.DEFAULT_OPTIONS options) = Fin e.
Hypothesis maxLevel_integer :
  Binary64.Required.maxLevel (Binary64.spread Binary64.DEFAULT_OPTIONS options)
  = Fin (IZR M).
Hypothesis baseXP_nonneg : 0 <= b.
Hypothesis exponent_nonneg : 0 <= e.
Hypothesis maxLevel_range : (1 <= M < 2 ^ 53)%Z.

Variable fuel : nat.
Hypothesis enough_fuel : (iteration_bound (Z.to_nat M) <= fuel)%nat.

Variable x : R.
Variables z kc kn : Z.

Hypothesis xp_representable : Binary64.representable x.
Hypothesis level_found :
  Binary64.calculateLevel (Fin x) options fuel = Some (Fin (IZR z)).
Hypothesis below_cap : (z < M)%Z.
Hypothesis current_requirement :
  Binary64.getRequiredXP (Fin (IZR z)) options = Fin (IZR kc).
Hypothesis next_requirement :
  Binary64.getRequiredXP (Fin (IZR (z + 1))) options = Fin (IZR kn).

Lemma interpolation_position :
  (1 <= z)%Z /\ (0 <= kc <= kn)%Z /\ x < IZR kn /\ (IZR kc <= x \/ z = 1%Z).
Proof.
  destruct (run_position options b e M baseXP_finite exponent_finite maxLevel_integer
              baseXP_nonneg exponent_nonneg maxLevel_range fuel enough_fuel _ z
              level_found) as (Hz & Hlow & Hup).
  assert (Hkc : (0 <= kc)%Z).
  { apply le_IZR.
    apply (getRequiredXP_finite_nonneg options b e (IZR M) baseXP_finite
             exponent_finite maxLevel_integer baseXP_nonneg
             ltac:(apply (IZR_le 1); lia) (IZR z) (IZR kc) current_requirement). }
  assert (Hmono : (kc <= kn)%Z).
  { pose proof (getRequiredXP_le64 options b e (IZR M) baseXP_finite exponent_finite
                  maxLevel_integer (IZR z) (IZR (z + 1)) baseXP_nonneg
                  exponent_nonneg) as H.
    rewrite current_requirement, next_requirement in H. cbn [Number.le] in H.
    apply le_IZR. apply Rleb_true. apply H.
    - split; [apply (IZR_le 1) | apply IZR_le]; lia.
    - apply IZR_le. lia.
    - discriminate. }
  split; [lia |]. split; [lia |]. split.
  - destruct Hup as [-> | Hn]; [lia |].
    unfold Binary64.reached in Hn. rewrite next_requirement in Hn.
    cbn [Number.le] in Hn. now apply Rleb_false in Hn.
  - destruct Hlow as [Hr | ->]; [left | right; reflexivity].
    unfold Binary64.reached in Hr. rewrite current_requirement in Hr.
    cbn [Number.le] in Hr. now apply Rleb_true in Hr.
Qed.

Lemma progress_expression :
  Binary64.getXPProgress (Fin x) options fuel
  = Some (Math.min (Fin 100)
            (Math.max (Fin 0)
               (Binary64.mul
                  (Binary64.div (Binary64.sub (Fin x) (Fin (IZR kc)))
                     (Binary64.sub (Fin (IZR kn)) (Fin (IZR kc))))
                  (Fin 100)))).
Proof.
  destruct interpolation_position as (Hz & _).
  unfold Binary64.getXPProgress. rewrite level_found. cbv zeta.
  rewrite (or_maxLevel options (IZR M) maxLevel_integer) by (apply not_0_IZR; lia).
  unfold Number.ge. cbn [Number.le].
  replace (Rleb (IZR M) (IZR z)) with false
    by (symmetry; apply Rleb_false, IZR_lt; lia).
  change (Fin 1) with (Fin (IZR 1)). rewrite add_integers by lia.
  now rewrite current_requirement, next_requirement.
Qed.

Lemma denominator_finite :
  exists d : R,
    Binary64.sub (Fin (IZR kn)) (Fin (IZR kc)) = Fin d /\ 0 <= d /\
    ((kc < kn)%Z -> 1 <= d) /\
    Binary64.round (IZR kn - IZR kc) = d.
Proof.
  destruct interpolation_position as (_ & Hk & _).
  assert (H0 : 0 <= IZR kc) by (apply (IZR_le 0); lia).
  assert (H1 : 0 <= IZR kn) by (apply (IZR_le 0); lia).
  destruct (difference_finite (IZR kn) (IZR kc)
              (getRequiredXP_representable _ _ _ next_requirement)
              (getRequiredXP_representable _ _ _ current_requirement) H1 H0)
    as (d & Ed & _).
  exists d. cbn [Binary64.sub]. split; [exact Ed |].
  destruct (number_of_cases (IZR kn - IZR kc)) as [[E _] | [[E _] | [E _]]];
    rewrite E in Ed; try discriminate.
  injection Ed as <-.
  assert (Hle : IZR kc <= IZR kn) by (apply IZR_le; lia).
  split; [apply round_nonneg; lra |]. split; [| reflexivity].
  intros Hlt. apply (round_ge_integer _ 1); [lia |].
  rewrite <- minus_IZR. apply IZR_le. lia.
Qed.

(** Once the requirement of the level is met the percentage needs no
    clamping. *)
Lemma progress_unclamped :
  IZR kc <= x ->
  exists p : R,
    Binary64.getXPProgress (Fin x) options fuel = Some (Fin p) /\
    0 <= p <= 100 /\
    Binary64.mul
      (Binary64.div (Binary64.sub (Fin x) (Fin (IZR kc)))
         (Binary64.sub (Fin (IZR kn)) (Fin (IZR kc))))
      (Fin 100) = Fin p.
Proof.
  intros Hc. destruct interpolation_position as (_ & Hk & Hn & _).
  destruct denominator_finite as (d & Ed & _ & Hd1 & Hdr).
  assert (Hlt : (kc < kn)%Z) by (apply lt_IZR; lra).
  specialize (Hd1 Hlt).
  rewrite progress_expression, Ed. cbn [Binary64.sub].
  destruct xp_representable as [Hxr Hxb]. apply Rabs_def2 in Hxb.
  assert (H0 : 0 <= IZR kc) by (apply (IZR_le 0); lia).
  assert (Ha0 : 0 <= Binary64.round (x - IZR kc)) by (apply round_nonneg; lra).
  assert (Hax : Binary64.round (x - IZR kc) <= x)
    by (rewrite <- Hxr at 2; apply round_le; lra).
  assert (Had : Binary64.round (x - IZR kc) <= d)
    by (rewrite <- Hdr; apply round_le; lra).
  rewrite number_of_finite by lra. set (a := Binary64.round (x - IZR kc)) in *.
  cbn [Binary64.div].
  replace (Reqb d 0) with false by (symmetry; apply Reqb_false; lra).
  assert (Hq : 0 <= a / d <= 1).
  { assert (0 < / d) by (apply Rinv_0_lt_compat; lra).
    unfold Rdiv. split; [nra |].
    apply Rmult_le_reg_r with d; [lra |]. rewrite Rmult_assoc, Rinv_l by lra. lra. }
  destruct (number_of_between (a / d) 0 1 ltac:(lia) ltac:(lia) Hq) as (Eq & Hqr).
  rewrite Eq. cbn [Binary64.mul].
  destruct (number_of_between (Binary64.round (a / d) * 100) 0 100
              ltac:(lia) ltac:(lia) ltac:(simpl in *; lra)) as (Ey & Hy).
  rewrite Ey. rewrite clamp_identity by (simpl in Hy; lra).
  eexists. split; [reflexivity |]. split; [simpl in Hy; lra | reflexivity].
Qed.

(** Below the requirement of level 1 the progress is 0. *)
Lemma progress_below_first :
  x < IZR kc -> Binary64.getXPProgress (Fin x) options fuel = Some (Fin 0).
Proof.
  intros Hc. destruct denominator_finite as (d & Ed & Hd0 & _).
  rewrite progress_expression, Ed. f_equal. apply clamp_nonpositive.
  apply shortfall_percentage; [| exact Hd0].
  cbn [Binary64.sub].
  pose proof (representable_below_integer x kc xp_representable Hc) as Hgap.
  assert (Hr : Binary64.round (x - IZR kc) <= IZR (-1) * powerRZ 2 (-1074)).
  { apply round_le_fixed; [lia | lia |]. lra. }
  pose proof (pow2_pos (-1074)). pose proof pow2_1024_pos.
  destruct (number_of_cases (x - IZR kc)) as [[E _] | [[E B] | [E _]]]; rewrite E.
  - cbn [Number.lt]. apply Rltb_true. lra.
  - exfalso. lra.
  - reflexivity.
Qed.

End Binary64Interpolation.

(** X6.  Below the cap of a curve with [baseXP >= 0], [exponent >= 0] and
    an integer [maxLevel] below [2 ^ 53], where the requirements [c] of the
    level found and [n] of the next one are finite, for a binary64 number
    [x]: once [c <= x], [x] is below [n] and [getXPProgress x] is the
    interpolation [(x - c) / (n - c) * 100] as computed, within
    [[0, 100]] without the clamp; and below [c], which is the requirement
    of level 1, it is 0. *)
Theorem getXPProgress_interpolation :
  forall (options : Binary64.LevelCalculationOptions) (b e : R) (M z kc kn : Z)
         (x : R) (fuel : nat),
    let opts := Binary64.spread Binary64.DEFAULT_OPTIONS options in
    Binary64.Required.baseXP opts = Fin b ->
    Binary64.Required.exponent opts = Fin e ->
    Binary64.Required.maxLevel opts = Fin (IZR M) ->
    0 <= b -> 0 <= e -> (1 <= M < 2 ^ 53)%Z ->
    (iteration_bound (Z.to_nat M) <= fuel)%nat ->
    Binary64.representable x ->
    Binary64.calculateLevel (Fin x) options fuel = Some (Fin (IZR z)) ->
    (z < M)%Z ->
    Binary64.getRequiredXP (Fin (IZR z)) options = Fin (IZR kc) ->
    Binary64.getRequiredXP (Fin (IZR (z + 1))) options = Fin (IZR kn) ->
    (IZR kc <= x ->
     x < IZR kn /\
     exists p : R,
       Binary64.getXPProgress (Fin x) options fuel = Some (Fin p) /\
       0 <= p <= 100 /\
       Binary64.mul
         (Binary64.div (Binary64.sub (Fin x) (Fin (IZR kc)))
            (Binary64.sub (Fin (IZR kn)) (Fin (IZR kc))))
         (Fin 100) = Fin p) /\
    (x < IZR kc ->
     z = 1%Z /\ Binary64.getXPProgress (Fin x) options fuel = Some (Fin 0)).
Proof.
  intros options b e M z kc kn x fuel opts Hb He Hm Hb0 He0 HM Hfuel Hx Hrun HzM Ec En.
  destruct (interpolation_position options b e M Hb He Hm Hb0 He0 HM fuel Hfuel
              x z kc kn Hrun HzM Ec En) as (_ & _ & Hn & Hpos).
  split.
  - intros Hc. split; [exact Hn |].
    exact (progress_unclamped options b e M Hb He Hm Hb0 He0 HM fuel Hfuel
             x z kc kn Hx Hrun HzM Ec En Hc).
  - intros Hc. split; [destruct Hpos as [H | H]; [lra | exact H] |].
    exact (progress_below_first options b e M Hb He Hm Hb0 He0 HM fuel Hfuel
             x z kc kn Hx Hrun HzM Ec En Hc).
Qed.

Lemma getXPProgress_interpolation_witness :
  exists p : R,
    Binary64.getXPProgress (Fin (IZR 250)) Binary64.linear_options 7 = Some (Fin p) /\
    0 <= p <= 100.
Proof.
  destruct (getXPProgress_interpolation Binary64.linear_options 100 1 100 2 200 300
              (IZR 250) 7 eq_refl eq_refl eq_refl ltac:(lra) ltac:(lra) ltac:(lia)
              ltac:(vm_compute; lia) (representable_integer 250 ltac:(lia))
              linear_level_250 ltac:(lia)
              (linear_required64 2 ltac:(lia)) (linear_required64 (2 + 1) ltac:(lia)))
    as (H & _).
  destruct H as (_ & p & Hp & Hr & _); [apply IZR_le; lia |].
  exists p. split; assumption.
Defined.

(** * Helper utilities in binary64 arithmetic *)

(** ** [calculateDailyXPRequirement] and [estimateTimeToLevel] *)

(** The quotient of two whole numbers below [2 ^ 26] is rounded, but not
    across an integer: its ceiling is the ceiling of the exact quotient. *)
Lemma ceil_quotient_integers (a d : Z) :
  (0 < a < 2 ^ 26)%Z -> (0 < d < 2 ^ 26)%Z ->
  exists k : Z,
    Math.ceil (Binary64.div (Fin (IZR a)) (Fin (IZR d))) = Fin (IZR k) /\
    (1 <= k <= a)%Z /\ (a <= k * d)%Z /\ ((k - 1) * d < a)%Z.
Proof.
  intros Ha Hd. set (k := ((a + d - 1) / d)%Z).
  pose proof (Z.div_mod (a + d - 1) d ltac:(lia)) as Hdm.
  pose proof (Z.mod_pos_bound (a + d - 1) d ltac:(lia)) as Hmod.
  fold k in Hdm.
  assert (Hup : (a <= k * d)%Z) by nia.
  assert (Hlow : ((k - 1) * d < a)%Z) by nia.
  assert (Hk : (1 <= k <= a)%Z) by nia.
  exists k. split; [| repeat split; lia].
  assert (Hd0 : 0 < IZR d) by (apply (IZR_lt 0); lia).
  assert (Hd26 : IZR d <= IZR (2 ^ 26)) by (apply IZR_le; lia).
  assert (Hinv : / IZR (2 ^ 26) <= / IZR d).
  { apply Rinv_le_contravar; assumption. }
  assert (Hid : 0 < / IZR d) by now apply Rinv_0_lt_compat.
  assert (Hq1 : IZR a / IZR d <= IZR k).
  { apply Rmult_le_reg_r with (IZR d); [exact Hd0 |].
    unfold Rdiv. rewrite Rmult_assoc, Rinv_l by lra. rewrite Rmult_1_r.
    rewrite <- mult_IZR. apply IZR_le. exact Hup. }
  assert (Hq0 : IZR (k - 1) + / IZR (2 ^ 26) <= IZR a / IZR d).
  { apply Rle_trans with (IZR (k - 1) + / IZR d); [lra |].
    apply Rmult_le_reg_r with (IZR d); [exact Hd0 |].
    unfold Rdiv. rewrite Rmult_plus_distr_r, Rmult_assoc, !Rinv_l by lra.
    rewrite Rmult_1_r. rewrite <- mult_IZR.
    replace 1 with (IZR 1) by reflexivity. rewrite <- plus_IZR.
    apply IZR_le. lia. }
  assert (Hgrid : IZR (k - 1) + / IZR (2 ^ 26)
                  = IZR ((k - 1) * 2 ^ 26 + 1) * powerRZ 2 (-26)).
  { rewrite (pow2_inv_IZR (-26)) by lia. change (- -26)%Z with 26%Z.
    rewrite plus_IZR, mult_IZR.
    assert (0 < IZR (2 ^ 26)) by (apply (IZR_lt 0); lia).
    field. lra. }
  assert (Hr0 : IZR (k - 1) + / IZR (2 ^ 26) <= Binary64.round (IZR a / IZR d)).
  { rewrite Hgrid. apply round_ge_fixed; [lia | lia |]. rewrite <- Hgrid. exact Hq0. }
  assert (Hr1 : Binary64.round (IZR a / IZR d) <= IZR k)
    by (apply round_le_integer; [lia | exact Hq1]).
  assert (Hpos : 0 < / IZR (2 ^ 26)).
  { apply Rinv_0_lt_compat. apply (IZR_lt 0). lia. }
  cbn [Binary64.div].
  replace (Reqb (IZR d) 0) with false by (symmetry; apply Reqb_false; lra).
  pose proof pow2_53_1024 as H1024.
  assert (Hk53 : IZR k <= IZR (2 ^ 53)) by (apply IZR_le; lia).
  assert (Hk0 : 0 <= IZR (k - 1)) by (apply (IZR_le 0); lia).
  rewrite number_of_finite by lra.
  cbn [Math.ceil]. unfold Rceil. do 2 f_equal.
  apply Zceil_eq. rewrite minus_IZR in Hr0. lra.
Qed.

Section Binary64Schedule.

Variable options : Binary64.LevelCalculationOptions.
Variable targetLevel : number.
Variable T : Z.

(** The target has a finite requirement. *)
Hypothesis target_requirement :
  Binary64.getRequiredXP targetLevel options = Fin (IZR T).

Lemma missing_nothing (c : R) :
  IZR T <= c ->
  Number.le (Binary64.sub (Fin (IZR T)) (Fin c)) (Fin 0) = true.
Proof.
  intros H. cbn [Binary64.sub]. apply (number_of_le_integer _ 0); [lia | simpl; lra].
Qed.

Lemma missing_something (c : R) :
  Binary64.representable c -> c < IZR T ->
  Number.le (Binary64.sub (Fin (IZR T)) (Fin c)) (Fin 0) = false.
Proof.
  intros Hc Hlt. cbn [Binary64.sub].
  pose proof (representable_below_integer c T Hc Hlt) as Hgap.
  assert (Hr : IZR 1 * powerRZ 2 (-1074) <= Binary64.round (IZR T - c)).
  { apply round_ge_fixed; [lia | lia |]. lra. }
  pose proof (pow2_pos (-1074)). pose proof pow2_1024_pos.
  destruct (number_of_cases (IZR T - c)) as [[E _] | [[E _] | [E B]]]; rewrite E.
  - cbn [Number.le]. apply Rleb_false. lra.
  - reflexivity.
  - exfalso. lra.
Qed.

Lemma missing_integer (c : Z) :
  (Z.abs (T - c) <= 2 ^ 53)%Z ->
  Binary64.sub (Fin (IZR T)) (Fin (IZR c)) = Fin (IZR (T - c)).
Proof. apply sub_integers. Qed.

Lemma daily_requirement_value (c d : Z) :
  (0 < T - c < 2 ^ 26)%Z -> (0 < d < 2 ^ 26)%Z ->
  exists k : Z,
    Binary64.calculateDailyXPRequirement (Fin (IZR c)) targetLevel (Fin (IZR d)) options
    = Fin (IZR k) /\
    (1 <= k <= T - c)%Z /\ (T - c <= k * d)%Z /\ ((k - 1) * d < T - c)%Z.
Proof.
  intros Ha Hd.
  destruct (ceil_quotient_integers (T - c) d Ha Hd) as (k & Ek & Hk).
  exists k. split; [| exact Hk].
  unfold Binary64.calculateDailyXPRequirement. cbv zeta.
  rewrite target_requirement, missing_integer by lia.
  cbn [Number.le].
  replace (Rleb (IZR (T - c)) 0) with false
    by (symmetry; apply Rleb_false, (IZR_lt 0); lia).
  replace (Rleb (IZR d) 0) with false
    by (symmetry; apply Rleb_false, (IZR_lt 0); lia).
  exact Ek.
Qed.

Lemma estimate_value {Date : Type} (now : Date) (plus_days : Date -> number -> Date)
  (c r : Z) :
  (0 < T - c < 2 ^ 26)%Z -> (0 < r < 2 ^ 26)%Z ->
  exists k : Z,
    Binary64.estimateTimeToLevel now plus_days (Fin (IZR c)) targetLevel
      (Fin (IZR r)) options
    = Binary64.TimeEstimate.mk (Fin (IZR k)) (plus_days now (Fin (IZR k))) /\
    (1 <= k <= T - c)%Z /\ (T - c <= k * r)%Z /\ ((k - 1) * r < T - c)%Z.
Proof.
  intros Ha Hr.
  destruct (ceil_quotient_integers (T - c) r Ha Hr) as (k & Ek & Hk).
  exists k. split; [| exact Hk].
  unfold Binary64.estimateTimeToLevel. cbv zeta.
  rewrite target_requirement, missing_integer by lia.
  cbn [Number.le].
  replace (Rleb (IZR (T - c)) 0) with false
    by (symmetry; apply Rleb_false, (IZR_lt 0); lia).
  now rewrite Ek.
Qed.

End Binary64Schedule.

(** X12.  [calculateDailyXPRequirement], for a target whose requirement is
    the integer [T]: 0 when [currentXP >= T]; [Infinity] when XP is missing
    and [days <= 0]; and for an integer [currentXP] with less than [2 ^ 26]
    XP missing and a whole number of days below [2 ^ 26], the least integer
    [k >= 1] such that [k * days] covers the missing XP. *)
Theorem calculateDailyXPRequirement_cases :
  forall (options : Binary64.LevelCalculationOptions) (targetLevel : number) (T : Z),
    Binary64.getRequiredXP targetLevel options = Fin (IZR T) ->
    (forall (c : R) (days : number),
        IZR T <= c ->
        Binary64.calculateDailyXPRequirement (Fin c) targetLevel days options
        = Fin 0) /\
    (forall (c : R) (days : number),
        Binary64.representable c -> c < IZR T ->
        Number.le days (Fin 0) = true ->
        Binary64.calculateDailyXPRequirement (Fin c) targetLevel days options
        = PosInf) /\
    (forall c d : Z,
        (0 < T - c < 2 ^ 26)%Z -> (0 < d < 2 ^ 26)%Z ->
        exists k : Z,
          Binary64.calculateDailyXPRequirement (Fin (IZR c)) targetLevel
            (Fin (IZR d)) options = Fin (IZR k) /\
          (1 <= k)%Z /\ (T - c <= k * d)%Z /\
          forall j : Z, (T - c <= j * d)%Z -> (k <= j)%Z).
Proof.
  intros options targetLevel T Hreq. split; [| split].
  - intros c days Hc. unfold Binary64.calculateDailyXPRequirement. cbv zeta.
    now rewrite Hreq, (missing_nothing T c Hc).
  - intros c days Hc Hlt Hdays. unfold Binary64.calculateDailyXPRequirement. cbv zeta.
    now rewrite Hreq, (missing_something T c Hc Hlt), Hdays.
  - intros c d Ha Hd.
    destruct (daily_requirement_value options targetLevel T Hreq c d Ha Hd)
      as (k & Ek & Hk1 & Hk2 & Hk3).
    exists k. split; [exact Ek |]. split; [lia |]. split; [exact Hk2 |].
    intros j Hj. nia.
Qed.

Lemma calculateDailyXPRequirement_cases_witness :
  exists k : Z,
    Binary64.calculateDailyXPRequirement (Fin (IZR 0)) (Fin (IZR 2)) (Fin (IZR 7))
      Binary64.linear_options = Fin (IZR k) /\
    (1 <= k)%Z /\ (200 - 0 <= k * 7)%Z.
Proof.
  destruct (calculateDailyXPRequirement_cases Binary64.linear_options (Fin (IZR 2)) 200
              (linear_required64 2 ltac:(lia))) as (_ & _ & H).
  destruct (H 0%Z 7%Z ltac:(lia) ltac:(lia)) as (k & Ek & Hk1 & Hk2 & _).
  exists k. split; [exact Ek |]. split; assumption.
Defined.

(** X13.  [estimateTimeToLevel], for a target whose requirement is the
    integer [T]: 0 days and the present date when [currentXP >= T]; and for
    an integer [currentXP] with less than [2 ^ 26] XP missing and a whole
    [xpPerDay] of [[1, 2 ^ 26)], the least integer number of days [k >= 1]
    whose earnings cover the missing XP, with the date moved by that many
    days. *)
Theorem estimateTimeToLevel_cases :
  forall (Date : Type) (now : Date) (plus_days : Date -> number -> Date)
         (options : Binary64.LevelCalculationOptions) (targetLevel : number) (T : Z),
    Binary64.getRequiredXP targetLevel options = Fin (IZR T) ->
    (forall (c : R) (xpPerDay : number),
        IZR T <= c ->
        Binary64.estimateTimeToLevel now plus_days (Fin c) targetLevel xpPerDay options
        = Binary64.TimeEstimate.mk (Fin 0) now) /\
    (forall c r : Z,
        (0 < T - c < 2 ^ 26)%Z -> (0 < r < 2 ^ 26)%Z ->
        exists k : Z,
          Binary64.estimateTimeToLevel now plus_days (Fin (IZR c)) targetLevel
            (Fin (IZR r)) options
          = Binary64.TimeEstimate.mk (Fin (IZR k)) (plus_days now (Fin (IZR k))) /\
          (1 <= k)%Z /\ (T - c <= k * r)%Z /\
          forall j : Z, (T - c <= j * r)%Z -> (k <= j)%Z).
Proof.
  intros Date now plus_days options targetLevel T Hreq. split.
  - intros c xpPerDay Hc. unfold Binary64.estimateTimeToLevel. cbv zeta.
    now rewrite Hreq, (missing_nothing T c Hc).
  - intros c r Ha Hr.
    destruct (estimate_value options targetLevel T Hreq now plus_days c r Ha Hr)
      as (k & Ek & Hk1 & Hk2 & Hk3).
    exists k. split; [exact Ek |]. split; [lia |]. split; [exact Hk2 |].
    intros j Hj. nia.
Qed.

Lemma estimateTimeToLevel_cases_witness :
  exists k : Z,
    Binary64.estimateTimeToLevel 0%nat (fun d _ => S d) (Fin (IZR 0)) (Fin (IZR 2))
      (Fin (IZR 30)) Binary64.linear_options
    = Binary64.TimeEstimate.mk (Fin (IZR k)) 1%nat /\
    (1 <= k)%Z /\ (200 - 0 <= k * 30)%Z.
Proof.
  destruct (estimateTimeToLevel_cases nat 0%nat (fun d _ => S d)
              Binary64.linear_options (Fin (IZR 2)) 200
              (linear_required64 2 ltac:(lia))) as (_ & H).
  destruct (H 0%Z 30%Z ltac:(lia) ltac:(lia)) as (k & Ek & Hk1 & Hk2 & _).
  exists k. split; [exact Ek |]. split; assumption.
Defined.

(** X14.  The two estimates agree on whole numbers: for an integer
    [currentXP] with less than [2 ^ 26] XP missing and a whole number of
    [days] below [2 ^ 26], earning each day what
    [calculateDailyXPRequirement] returns makes [estimateTimeToLevel]
    report between 1 and [days] days. *)
Theorem daily_requirement_meets_deadline :
  forall (Date : Type) (now : Date) (plus_days : Date -> number -> Date)
         (options : Binary64.LevelCalculationOptions) (targetLevel : number)
         (T c d : Z),
    Binary64.getRequiredXP targetLevel options = Fin (IZR T) ->
    (0 < T - c < 2 ^ 26)%Z -> (0 < d < 2 ^ 26)%Z ->
    exists k : Z,
      Binary64.TimeEstimate.days
        (Binary64.estimateTimeToLevel now plus_days (Fin (IZR c)) targetLevel
           (Binary64.calculateDailyXPRequirement (Fin (IZR c)) targetLevel
              (Fin (IZR d)) options)
           options)
      = Fin (IZR k) /\ (1 <= k <= d)%Z.
Proof.
  intros Date now plus_days options targetLevel T c d Hreq Ha Hd.
  destruct (daily_requirement_value options targetLevel T Hreq c d Ha Hd)
    as (p & -> & Hp1 & Hp2 & _).
  destruct (estimate_value options targetLevel T Hreq now plus_days c p Ha
              ltac:(lia)) as (k & -> & Hk1 & _ & Hk3).
  exists k. split; [reflexivity |]. split; [lia |]. nia.
Qed.

Lemma daily_requirement_meets_deadline_witness :
  exists k : Z,
    Binary64.TimeEstimate.days
      (Binary64.estimateTimeToLevel 0%nat (fun d _ => S d) (Fin (IZR 0)) (Fin (IZR 2))
         (Binary64.calculateDailyXPRequirement (Fin (IZR 0)) (Fin (IZR 2))
            (Fin (IZR 7)) Binary64.linear_options)
         Binary64.linear_options)
    = Fin (IZR k) /\ (1 <= k <= 7)%Z.
Proof.
  apply (daily_requirement_meets_deadline nat 0%nat (fun d _ => S d)
           Binary64.linear_options (Fin (IZR 2)) 200 0 7
           (linear_required64 2 ltac:(lia))); lia.
Defined.

(** ** [calculateXPBonus] *)

(** The sum of integers, and of their magnitudes, does not depend on their
    order. *)
Lemma sum_permutation (l l' : list Z) :
  Permutation l l' ->
  fold_right Z.add 0%Z l = fold_right Z.add 0%Z l'.
Proof.
  induction 1 as [| z l l' _ IH | y z l | l l' l'' _ IH1 _ IH2];
    cbn [fold_right]; lia.
Qed.

Lemma magnitudes_nonneg (l : list Z) : (0 <= fold_right Z.add 0%Z (map Z.abs l))%Z.
Proof. induction l as [| z l IH]; cbn [map fold_right]; lia. Qed.

(** [reduce] over whole bonuses is exact as long as the running total and
    what is still to come stay within [2 ^ 53]. *)
Lemma reduce_integers (l : list Z) : forall s : Z,
  (Z.abs s + fold_right Z.add 0%Z (map Z.abs l) <= 2 ^ 53)%Z ->
  fold_left (fun sum bonus => Binary64.add sum bonus)
    (map (fun z => Fin (IZR z)) l) (Fin (IZR s))
  = Fin (IZR (s + fold_right Z.add 0%Z l)).
Proof.
  induction l as [| z l IH]; intros s Hs; cbn [map fold_left fold_right] in *.
  - now rewrite Z.add_0_r.
  - pose proof (magnitudes_nonneg l).
    rewrite add_integers by lia. rewrite IH by lia. do 2 f_equal. lia.
Qed.

Lemma sum_within_magnitudes (l : list Z) :
  (Z.abs (fold_right Z.add 0%Z l) <= fold_right Z.add 0%Z (map Z.abs l))%Z.
Proof. induction l as [| z l IH]; cbn [map fold_right]; lia. Qed.

Lemma calculateXPBonus_integers (B Mu : Z) (l : list Z) :
  (Z.abs (B * Mu) + fold_right Z.add 0%Z (map Z.abs l) <= 2 ^ 53)%Z ->
  Binary64.calculateXPBonus (Fin (IZR B)) (Some (Fin (IZR Mu)))
    (Some (map (fun z => Fin (IZR z)) l))
  = Fin (IZR (B * Mu + fold_right Z.add 0%Z l)).
Proof.
  intros H. pose proof (magnitudes_nonneg l) as Hm.
  pose proof (sum_within_magnitudes l) as Hs.
  unfold Binary64.calculateXPBonus, Binary64.sum_bonuses. cbv zeta.
  cbn [Binary64.override].
  change (Fin 0) with (Fin (IZR 0)).
  rewrite reduce_integers by (cbn; lia). rewrite Z.add_0_l.
  cbn [Binary64.mul]. rewrite <- mult_IZR, number_of_integer by lia.
  rewrite add_integers by lia.
  cbn [Math.floor]. now rewrite Rfloor_IZR.
Qed.

(** X15.  [calculateXPBonus] on whole numbers: when [baseXP], [multiplier]
    and the bonuses are integers with
    [|baseXP * multiplier| + sum of |bonus| <= 2 ^ 53], the result is
    exactly [baseXP * multiplier + sum of the bonuses], in whatever order
    the bonuses come; with [multiplier] and [bonuses] omitted it is
    [floor baseXP] for every binary64 [baseXP]. *)
Theorem calculateXPBonus_integer_bonuses :
  (forall (B Mu : Z) (l : list Z),
      (Z.abs (B * Mu) + fold_right Z.add 0%Z (map Z.abs l) <= 2 ^ 53)%Z ->
      Binary64.calculateXPBonus (Fin (IZR B)) (Some (Fin (IZR Mu)))
        (Some (map (fun z => Fin (IZR z)) l))
      = Fin (IZR (B * Mu + fold_right Z.add 0%Z l)) /\
      forall l' : list Z,
        Permutation l l' ->
        Binary64.calculateXPBonus (Fin (IZR B)) (Some (Fin (IZR Mu)))
          (Some (map (fun z => Fin (IZR z)) l'))
        = Binary64.calculateXPBonus (Fin (IZR B)) (Some (Fin (IZR Mu)))
            (Some (map (fun z => Fin (IZR z)) l))) /\
  (forall (B : Z) (l : list Z),
      (Z.abs B + fold_right Z.add 0%Z (map Z.abs l) <= 2 ^ 53)%Z ->
      Binary64.calculateXPBonus (Fin (IZR B)) None
        (Some (map (fun z => Fin (IZR z)) l))
      = Fin (IZR (B + fold_right Z.add 0%Z l))) /\
  (forall x : R,
      Binary64.representable x ->
      Binary64.calculateXPBonus (Fin x) None None = Fin (Rfloor x)).
Proof.
  split; [| split].
  - intros B Mu l H. split; [now apply calculateXPBonus_integers |].
    intros l' Hp.
    assert (Hp' : Permutation (map Z.abs l) (map Z.abs l'))
      by now apply Permutation_map.
    rewrite (calculateXPBonus_integers B Mu l H).
    rewrite (calculateXPBonus_integers B Mu l')
      by (rewrite <- (sum_permutation _ _ Hp'); exact H).
    now rewrite (sum_permutation _ _ Hp).
  - intros B l H.
    pose proof (calculateXPBonus_integers B 1 l) as E.
    rewrite Z.mul_1_r in E. now apply E.
  - intros x Hx.
    unfold Binary64.calculateXPBonus, Binary64.sum_bonuses. cbv zeta.
    cbn [Binary64.override fold_left Binary64.mul].
    rewrite Rmult_1_r, (number_of_representable x Hx).
    cbn [Binary64.add]. rewrite Rplus_0_r, (number_of_representable x Hx).
    reflexivity.
Qed.

Lemma calculateXPBonus_integer_bonuses_witness :
  Binary64.calculateXPBonus (Fin (IZR 100)) (Some (Fin (IZR 2)))
    (Some (map (fun z => Fin (IZR z)) [50; -20; 5]%Z))
  = Fin (IZR 235) /\
  Binary64.calculateXPBonus (Fin (IZR 100)) (Some (Fin (IZR 2)))
    (Some (map (fun z => Fin (IZR z)) [5; 50; -20]%Z))
  = Binary64.calculateXPBonus (Fin (IZR 100)) (Some (Fin (IZR 2)))
      (Some (map (fun z => Fin (IZR z)) [50; -20; 5]%Z)).
Proof.
  destruct calculateXPBonus_integer_bonuses as (H & _ & _).
  destruct (H 100%Z 2%Z [50; -20; 5]%Z ltac:(vm_compute; discriminate)) as [E P].
  split; [exact E |].
  apply P. apply Permutation_sym, (Permutation_cons_append [50; -20]%Z 5%Z).
Defined.
